(* ===== verification/_CoqProject ===== *)
-Q . S2P
Prelude.v
Serials.v
Scalars.v
KeyAlgorithms.v
Policies.v
Json.v
PolicyEditor.v
ApprovalModel.v
Approvals.v
ApprovalSafety.v
PolicyAdmin.v
Permissions.v
DomainMatch.v
AcmeModel.v
AcmeOrders.v
DnsPersist.v
AcmeChallenges.v
AcmeIdentifiers.v
AcmeApi.v
AcmeEvidence.v
AcmeLogic.v
AcmeProtocol.v
AcmeIssuance.v
AcmeTraces.v
AcmeNonces.v
Caa.v
RateLimiter.v
PasswordPolicy.v
AuditChain.v
Session.v
AcmeJws.v
AcmeAccounts.v
AcmeAccountSafety.v
AcmeAccountExamples.v
DnsUpdateModel.v
DnsUpdateHandler.v
DnsUpdateSafety.v
DnsUpdateHistory.v
DnsUpdateReplay.v
DnsUpdateLimits.v
DnsUpdateRecords.v
DnsUpdateExamples.v
RevocationModel.v
Revocations.v
IssuedLookup.v
CaChain.v
OcspStatus.v
CrlContents.v
RevocationSafety.v
RevocationEffects.v
RenewalSafety.v
RenewalRace.v
RevocationExamples.v
RenewalExamples.v
AcmeRevoke.v
AcmeRevokeSafety.v
AcmeRevokeExamples.v
ScepService.v
ScepSafety.v
ScepEndpoint.v
ScepExamples.v
Fnmatch.v
SshCerts.v
SshSafety.v
SshExamples.v
