(* ===== verification/Prelude.v ===== *)
(** * Verification of the Ultimate CA Manager backend

    The program under [src/backend] is a certificate authority server: it keeps CAs,
    certificates and requests, serves ACME (RFC 8555) and other enrolment protocols, and
    governs what may be issued by roles, policies and approvals. This library models the
    parts that decide: who may do what, what may be issued, and what is recorded.

    ** The parts, and the files that model them

    - [Prelude] (this file): results that raise, ASCII strings with the Python operations
      the sources use, number parsing and printing, and the lemmas on them.
    - [Serials]: [utils/serial_format.py], [services/cert/serial_resolution.py].
    - [Scalars]: [utils/validity.py], [duration.py], [pagination.py],
      [days_remaining.py], [revocation_reasons.py].
    - [KeyAlgorithms]: [utils/key_algorithms.py] and the label normalization of
      [services/template_service.py].
    - [Policies]: [models/policy.py] ([CertificatePolicy]) and the evaluation of
      [services/policy_service.py]: scope, rules, caps, digests, merged rules.
    - [Json]: JSON values as the code reads them.
    - [PolicyEditor]: the validation of saved rules ([_validated_rules] of
      [api/v2/policies.py]) and how the evaluation reads them back.
    - [PolicyAdmin]: the routes that create, change and switch policies, and the addresses
      a policy notifies ([services/policy_notifications.py]).
    - [ApprovalModel], [Approvals], [ApprovalSafety]: [ApprovalRequest],
      [services/approval_gate.py] and the approval routes of [api/v2/policies.py], with
      the services an approved request calls, as far as they touch requests.
    - [Permissions]: [auth/permissions.py] and the permission tests and API-key rebinding
      of [auth/unified.py].
    - [DomainMatch]: [services/acme/domain_match.py].
    - [AcmeModel], [AcmeOrders], [DnsPersist], [AcmeChallenges], [AcmeIdentifiers],
      [AcmeApi]: the ACME server, from its tables ([models/acme_models.py]) and mixins
      ([services/acme/mixins]) to its handlers ([api/acme/acme_api.py]).
      A validation computes the URL it asks, the redirects it follows, the addresses it is
      pinned to and the SNI ([services/acme/http01.py], [utils/acme_ip.py]); the network
      answers.
    - [AcmeEvidence]: the proof each validation method asks for, in terms of the network;
      [AcmeLogic], [AcmeProtocol], [AcmeIssuance], [AcmeTraces]: the reasoning on the tables,
      on the history of the server, and the theorems.
    - [AcmeNonces]: [services/acme/mixins/nonce.py].
    - [Caa]: [utils/caa_checker.py].
    - [RateLimiter]: [security/rate_limiter.py].
    - [PasswordPolicy]: [security/password_policy.py].
    - [AuditChain]: [services/audit/chain.py], [models/audit_log.py] and the purge of
      [services/retention_service.py].
    - [Session]: computations that write to the database, with commits that may fail, and
      the reasoning on what they keep.
    - [AcmeJws], [AcmeAccounts]: who signed an ACME request ([verify_jws] of
      [api/acme/acme_api.py]), account keys and external account bindings
      ([services/acme/mixins/eab.py]); registration, update, deactivation and key change
      of accounts ([services/acme/account_requests.py], [services/acme/mixins/account.py]).
    - [AcmeAccountSafety], [AcmeAccountExamples]: the theorems on these, and concrete
      requests.
    - [DnsUpdateModel], [DnsUpdateHandler], [DnsUpdateRecords]: the DNS UPDATE listener of
      the ACME proxy ([services/acme/dns_update], [models/acme_dns_update.py]): caches of
      keys, zones and expected values, TSIG, replays, queries and updates; the expected
      values as the proxy stores and closes them.
    - [DnsUpdateSafety], [DnsUpdateHistory], [DnsUpdateReplay], [DnsUpdateLimits],
      [DnsUpdateExamples]: the theorems on these, and concrete packets.
    - [RevocationModel], [Revocations]: certificates, CAs, revocation records, CRLs and
      cached answers; what a CRL lists ([services/crl]); revoking, lifting a hold, deleting,
      renewing ([services/cert/mixins/lifecycle.py], [services/cert/renewal.py],
      [api/v2/certificates/cert_lifecycle.py]), cross-certificates and related pairs.
    - [OcspStatus]: the status decision and the response cache of
      [services/ocsp_service.py], and the answer of [api/ocsp_routes.py].
    - [CrlContents], [RevocationSafety], [RevocationEffects], [RevocationExamples]: the
      theorems on these, and concrete rows.
    - [IssuedLookup], [RenewalSafety], [RenewalRace], [RenewalExamples]: the certificate a
      protocol renewal (EST, SCEP, WSTEP) presents, whether it may still act
      ([services/cert/issued_lookup.py]), and the storing of its successor
      ([services/ca/ca_signing.py]), alone and among concurrent requests.
    - [CaChain]: which stored CA signed another ([models/ca.py], [utils/cert_issuer.py]) and
      whether a CA may still sign: no CA of its chain is revoked.
    - [AcmeRevoke], [AcmeRevokeSafety], [AcmeRevokeExamples]: the revocation handler of the
      ACME server, which joins request authentication ([AcmeJws]), policies and the
      revocation service.
    - [ScepService], [ScepEndpoint]: SCEP ([services/scep/scep_service.py],
      [api/scep_protocol.py], [api/v2/scep.py], [models/scep.py]): endpoints and profiles, the
      checks of a message, enrolment, renewal, polling, issuing, and the decisions of
      operators; [ScepSafety], [ScepExamples]: the theorems, and concrete messages.
    - [Fnmatch], [SshCerts], [SshSafety], [SshExamples]: Python's shell patterns; SSH CAs and
      certificates ([services/ssh_ca_service.py], [services/ssh_cert], [models/ssh.py]) and their
      revocation lists ([services/ssh_krl_service.py]); the theorems, and concrete tables.

    ** How the code is represented

    A row of a table is a record with the columns the code reads; a JSON column holds the
    value it encodes. Code that writes to the database is a computation over a session
    that pairs the committed tables with what the session sees: a commit may fail and roll
    back, and which commits fail is an input, so that the theorems hold for every such
    failure. A raised exception is a value of [result]. Instants are integers
    (microseconds), dates are day numbers. Strings are ASCII. Handlers are whole: guards,
    early returns and error paths in the order of the source. What a call meets and the
    sources do not define (answers of the network, signatures, digests, random tokens,
    what an HSM or the signing refuses) is an argument.

    ** What the theorems show

    - ACME: whatever requests arrive and whichever commits fail, an order turns valid only
      when each of its identifiers was registered for automatic approval or proved, to the
      account of the order, in the history that led there; statuses that are final stay so;
      an order is claimed once; a validation that succeeds saw the proof of that very name;
      nonces are used once; a CSR is accepted exactly when it asks for what the order names.
    - ACME accounts: a request is accepted exactly when it is signed as it must be, and
      once; only the holder of its key acts for an account, and a new key agrees to its
      use; no two accounts share a key; where a binding is required, a registration rests on
      an active credential whose secret signed the key of the account.
    - DNS UPDATE: whatever bytes arrive and however the caches aged, an update is carried
      out only when a key with an active row signed it in time and every value was pending
      for the account of the key, by tables that are recent unless a reload failed; once; a
      revoked key is refused even when reloads fail; answers to
      unverified requests do not amplify; the zones served are those on the path of a
      registered domain; stored values are those of their order.
    - Approvals: a request is carried out at most once and only when approved; votes
      approve only with the quorum of different users, each allowed to act when the vote was
      cast and none the requester; decisions are final; a failed issuance leaves no trace; the last vote needed does issue.
    - Policies: a request meets the rules exactly when every policy permits it; validity
      is the tightest cap; the merged rules of a form agree with the enforcement; saved
      rules survive the validation unchanged and nothing in them is lost on the evaluation;
      the table of policies stays well formed.
    - Permissions: reserved permissions need an administrator; API keys never widen.
    - Audit: tampering with, reordering or truncating the ledger is detected, and honest
      histories of appends and purges verify.
    - Revocation: a full CRL lists the serials of the certificates, child CAs and records that
      are revoked and unexpired, and only these; the responder answers revoked for what it
      lists when its rows can be looked up; a revocation lasts through whatever is done later,
      but for storing a certificate of the same serial again; one that fails leaves nothing behind; a lifted hold leaves no trace; no
      cached answer outlives a revocation; the CRL that is generated is the one served.
    - Renewals: a certificate that is revoked for good or replaced by its renewal renews
      nothing, at any of the three protocols, whatever is done later but for storing the
      certificate again; of renewals that run
      at the same time at most one stores a certificate, and they never deadlock.
    - ACME revocation: a request revokes the certificate it presents, and only when the
      account that ordered it or its own key signed; the effect is that of the revocation
      service, whole or none.
    - CA chains: the walk finds a revoked CA wherever it is above, and passes exactly the
      chains that end, come back on no CA and hold no revoked one.
    - SCEP: a certificate is issued on a message only when every check held, and saved with
      the approved request that names it; a request is decided once and keeps its decision.
    - SSH: a CA signs within its principals, extensions, identities and validity; its serials
      are given once; what is revoked is on its list until the row is deleted.
    - Rate limits: what the middleware lets through for a client that is not exempted stays
      within the limit of its pattern in every window. CAA: the check is the decision of the
      closest RRset under the RFC 8659 tags and the RFC 8657 parameters, short of the
      top-level domain.
    - Password rules, serials, pages, durations, key labels: bounds,
      equivalence with a specification, round trips.

    ** Bounds and fuel

    Recursion is structural but for number printing, whose fuel is the binary length of
    the number and is proved sufficient ([format_N_fuel]), and the walks up inherited
    roles and up the chain of a CA, bounded by the depth limits of the source.

    ** Not modelled

    X.509, CMS, OCSP and timestamp structures (built by the cryptography library: what the
    code asks of a stored certificate is the class [X509] of [RevocationModel]), the
    ACME client and proxy, the encoding of SCEP messages (the class [ScepLibrary]), the
    messages of EST and WSTEP, HSM and Microsoft CA connectors, backup,
    discovery and deployment, notification and reporting, web sessions and single
    sign-on, websockets, migrations. But for the renewals of [RenewalRace],
    which interleave statement by statement, calls are taken one at a time, as the row locks
    of the code arrange, each at one instant of its clocks. *)

From Stdlib Require Import Ascii String.
From stdpp Require Import prelude gmap strings.

(** ** Errors: a call either returns a value or raises *)

Inductive result (E A : Type) : Type :=
| Ok (a : A)
| Raise (e : E).
Arguments Ok {E A} a.
Arguments Raise {E A} e.

Declare Scope py_scope.
Delimit Scope py_scope with py.

Notation "x <-? c ;; k" := (match c with Ok x => k | Raise e => Raise e end)
  (at level 100, c at next level, right associativity) : py_scope.

Definition is_ok {E A} (r : result E A) : bool :=
  match r with Ok _ => true | Raise _ => false end.

(** ** Characters (ASCII) *)

Definition code (c : ascii) : N := N_of_ascii c.

Definition is_upper (c : ascii) : bool := ((65 <=? code c) && (code c <=? 90))%N.
Definition is_lower (c : ascii) : bool := ((97 <=? code c) && (code c <=? 122))%N.
Definition is_alpha (c : ascii) : bool := is_upper c || is_lower c.
Definition is_digit (c : ascii) : bool := ((48 <=? code c) && (code c <=? 57))%N.
Definition is_alnum (c : ascii) : bool := is_alpha c || is_digit c.
(* str.strip() removes tab, LF, VT, FF, CR, the four separators 28..31 and space *)
Definition is_space (c : ascii) : bool :=
  (((9 <=? code c) && (code c <=? 13)) || ((28 <=? code c) && (code c <=? 32)))%N.

Definition lower_char (c : ascii) : ascii :=
  if is_upper c then ascii_of_N (code c + 32) else c.
Definition upper_char (c : ascii) : ascii :=
  if is_lower c then ascii_of_N (code c - 32) else c.

(** ** Strings: the str methods the program uses *)

Fixpoint chars (s : string) : list ascii :=
  match s with EmptyString => [] | String c s => c :: chars s end.

Fixpoint unchars (l : list ascii) : string :=
  match l with [] => EmptyString | c :: l => String c (unchars l) end.

Definition smap (f : ascii -> ascii) (s : string) : string := unchars (f <$> chars s).
Definition lower (s : string) : string := smap lower_char s.
Definition upper (s : string) : string := smap upper_char s.

Definition all_chars (p : ascii -> bool) (s : string) : bool := forallb p (chars s).
Definition any_char (p : ascii -> bool) (s : string) : bool := existsb p (chars s).
Definition slen (s : string) : nat := length (chars s).
Definition nonempty (s : string) : bool := match s with EmptyString => false | _ => true end.

(* str.isdigit() / str.isalpha(): non-empty and every character in the class *)
Definition isdigit (s : string) : bool := nonempty s && all_chars is_digit s.
Definition isalpha (s : string) : bool := nonempty s && all_chars is_alpha s.

Fixpoint drop_while {A} (p : A -> bool) (l : list A) : list A :=
  match l with
  | [] => []
  | x :: l' => if p x then drop_while p l' else l
  end.

Definition lstrip_by (p : ascii -> bool) (l : list ascii) : list ascii := drop_while p l.
Definition rstrip_by (p : ascii -> bool) (l : list ascii) : list ascii :=
  rev (drop_while p (rev l)).
Definition strip (s : string) : string :=
  unchars (rstrip_by is_space (lstrip_by is_space (chars s))).
Definition rstrip_char (c : ascii) (s : string) : string :=
  unchars (rstrip_by (Ascii.eqb c) (chars s)).

Fixpoint list_prefix (p l : list ascii) : bool :=
  match p, l with
  | [], _ => true
  | _ :: _, [] => false
  | a :: p', b :: l' => Ascii.eqb a b && list_prefix p' l'
  end.

Fixpoint list_contains (p l : list ascii) : bool :=
  list_prefix p l || match l with [] => false | _ :: l' => list_contains p l' end.

Definition startswith (s p : string) : bool := list_prefix (chars p) (chars s).
Definition endswith (s p : string) : bool := list_prefix (rev (chars p)) (rev (chars s)).
(* p in s *)
Definition contains (p s : string) : bool := list_contains (chars p) (chars s).
(* s[n:] and s[:n] *)
Definition sdrop (n : nat) (s : string) : string := unchars (drop n (chars s)).
Definition stake (n : nat) (s : string) : string := unchars (take n (chars s)).
(* what a regular expression's $ leaves of the text: a final newline is ignored *)
Definition chomp (s : string) : string :=
  if endswith s (String "010" EmptyString) then stake (slen s - 1) s else s.
Definition remove_char (c : ascii) (s : string) : string :=
  unchars (List.filter (fun x => negb (Ascii.eqb c x)) (chars s)).

(* s.split(c) for a one-character separator: never the empty list *)
Fixpoint split_chars (c : ascii) (l : list ascii) : list (list ascii) :=
  match l with
  | [] => [[]]
  | x :: l' =>
      if Ascii.eqb c x then [] :: split_chars c l'
      else match split_chars c l' with
           | [] => [[x]]
           | w :: ws => (x :: w) :: ws
           end
  end.
Definition split (c : ascii) (s : string) : list string := unchars <$> split_chars c (chars s).

(* c.join(l) *)
Fixpoint join (sep : string) (l : list string) : string :=
  match l with
  | [] => EmptyString
  | [x] => x
  | x :: l' => (x ++ sep ++ join sep l')%string
  end.

(* s.partition(c) when c occurs: the text before and after the first c *)
Fixpoint partition_chars (c : ascii) (l : list ascii) : option (list ascii * list ascii) :=
  match l with
  | [] => None
  | x :: l' => if Ascii.eqb c x then Some ([], l')
               else '(a, b) ← partition_chars c l'; Some (x :: a, b)
  end.
Definition partition (c : ascii) (s : string) : option (string * string) :=
  '(a, b) ← partition_chars c (chars s); Some (unchars a, unchars b).

Definition str_in (s : string) (l : list string) : bool := existsb (String.eqb s) l.

(** ** Integers in a base: int(text, base), str(n), format(n, 'x') *)

Definition digit_value (c : ascii) : option N :=
  if is_digit c then Some (code c - 48)%N
  else if is_lower c then Some (code c - 87)%N
  else if is_upper c then Some (code c - 55)%N
  else None.

Definition base_digit (b : N) (c : ascii) : option N :=
  d ← digit_value c; if (d <? b)%N then Some d else None.

(* the digits of an int literal: one underscore is allowed between two digits *)
Fixpoint parse_digits (b : N) (acc : N) (l : list ascii) : option N :=
  match l with
  | [] => Some acc
  | c :: l' =>
      if Ascii.eqb c "_" then
        match l' with
        | c' :: _ => match base_digit b c' with
                     | Some _ => parse_digits b acc l'
                     | None => None
                     end
        | [] => None
        end
      else d ← base_digit b c; parse_digits b (acc * b + d)%N l'
  end.

Definition parse_nat (b : N) (l : list ascii) : option N :=
  match l with
  | [] => None
  | c :: _ => if Ascii.eqb c "_" then None else parse_digits b 0 l
  end.

(* int(s, b) for b = 10 or 16: surrounding blanks, one sign, and for base 16 an
   optional 0x prefix (after which an underscore may come first) *)
Definition parse_unsigned (b : N) (l : list ascii) : option N :=
  match l with
  | z :: x :: l' =>
      if (b =? 16)%N && Ascii.eqb z "0" && (Ascii.eqb x "x" || Ascii.eqb x "X") then
        match l' with
        | u :: l'' => if Ascii.eqb u "_" then parse_nat b l'' else parse_nat b l'
        | [] => None
        end
      else parse_nat b l
  | _ => parse_nat b l
  end.

Definition py_int (b : N) (s : string) : option Z :=
  match chars (strip s) with
  | [] => None
  | c :: l =>
      if Ascii.eqb c "-" then n ← parse_unsigned b l; Some (- Z.of_N n)%Z
      else if Ascii.eqb c "+" then Z.of_N <$> parse_unsigned b l
      else Z.of_N <$> parse_unsigned b (c :: l)
  end.

Definition digit_char (up : bool) (d : N) : ascii :=
  if (d <? 10)%N then ascii_of_N (48 + d)
  else if up then ascii_of_N (55 + d) else ascii_of_N (87 + d).

Fixpoint format_digits (fuel : nat) (b : N) (up : bool) (n : N) (acc : list ascii) : list ascii :=
  match fuel with
  | O => acc
  | S fuel' =>
      let acc' := digit_char up (n mod b)%N :: acc in
      if (n / b =? 0)%N then acc' else format_digits fuel' b up (n / b)%N acc'
  end.

(* one digit per bit is more than enough for a base of at least two *)
Definition format_N (b : N) (up : bool) (n : N) : list ascii :=
  format_digits (S (N.to_nat (N.log2 n))) b up n [].

Definition format_Z (b : N) (up : bool) (z : Z) : string :=
  if (z <? 0)%Z then String "-" (unchars (format_N b up (Z.abs_N z)))
  else unchars (format_N b up (Z.abs_N z)).

Definition py_str (z : Z) : string := format_Z 10 false z.
Definition py_hex (z : Z) : string := format_Z 16 false z.
Definition py_HEX (z : Z) : string := format_Z 16 true z.

(** ** Lists: order-preserving de-duplication and first maximum *)

(* repr of a str: double quotes only when it holds a single quote and no double one *)
Definition repr_char (quote c : ascii) : list ascii :=
  let bs := "\"%char in
  if Ascii.eqb c quote || Ascii.eqb c bs then [bs; c]
  else if (code c =? 10)%N then [bs; "n"%char]
  else if (code c =? 13)%N then [bs; "r"%char]
  else if (code c =? 9)%N then [bs; "t"%char]
  else if (code c <? 32)%N || (code c =? 127)%N
  then [bs; "x"%char; digit_char false (code c / 16); digit_char false (code c mod 16)]
  else [c].
Definition py_repr (s : string) : string :=
  let quote := if any_char (Ascii.eqb "'") s && negb (any_char (Ascii.eqb (ascii_of_nat 34)) s)
               then ascii_of_nat 34 else "'"%char in
  unchars (quote :: concat (repr_char quote <$> chars s) ++ [quote]).
Definition py_list_repr (l : list string) : string :=
  ("[" ++ join ", " (py_repr <$> l) ++ "]")%string.

(* sorted(set) of strings: insertion by code point order, repeats dropped *)
Fixpoint insert_sorted (x : string) (l : list string) : list string :=
  match l with
  | [] => [x]
  | y :: l' => if (x =? y)%string then l
               else if String.leb x y then x :: l else y :: insert_sorted x l'
  end.
Definition sorted_set (l : list string) : list string := foldr insert_sorted [] l.

Section Dedup.
Context {A : Type} (eqb : A -> A -> bool).

(* for x in l: if x not in out: out.append(x) *)
Definition append_new (out : list A) (x : A) : list A :=
  if existsb (eqb x) out then out else out ++ [x].
Definition dedup (l : list A) : list A := fold_left append_new l [].
End Dedup.

(** * Lemmas *)

Create HintDb py.
Create Rewrite HintDb py_rw.

(** Case analysis on the 256 characters, for closed boolean facts. *)
Ltac by_chars c := destruct c as [[] [] [] [] [] [] [] []]; vm_compute; try done.

(** Split every [if]/[match] scrutinee of a hypothesis or of the goal. *)
Ltac split_ifs :=
  repeat match goal with
  | |- context [if ?b then _ else _] => let E := fresh "E" in destruct b eqn:E
  | H : context [if ?b then _ else _] |- _ => let E := fresh "E" in destruct b eqn:E
  end.

(** Turn boolean hypotheses into propositions. *)
Ltac bools :=
  repeat match goal with
  | H : _ && _ = true |- _ => apply andb_true_iff in H as [? ?]
  | H : _ || _ = false |- _ => apply orb_false_iff in H as [? ?]
  | H : negb _ = true |- _ => apply negb_true_iff in H
  | H : negb _ = false |- _ => apply negb_false_iff in H
  | H : (_ <=? _)%Z = true |- _ => apply Z.leb_le in H
  | H : (_ <=? _)%Z = false |- _ => apply Z.leb_gt in H
  | H : (_ <? _)%Z = true |- _ => apply Z.ltb_lt in H
  | H : (_ <? _)%Z = false |- _ => apply Z.ltb_ge in H
  | H : (_ =? _)%Z = true |- _ => apply Z.eqb_eq in H
  | H : (_ =? _)%Z = false |- _ => apply Z.eqb_neq in H
  | H : (_ =? _)%string = true |- _ => apply String.eqb_eq in H
  | H : (_ =? _)%string = false |- _ => apply String.eqb_neq in H
  | H : Ascii.eqb _ _ = true |- _ => apply Ascii.eqb_eq in H
  | H : Ascii.eqb _ _ = false |- _ => apply Ascii.eqb_neq in H
  end.

(** ** Strings as character lists *)

Lemma unchars_chars s : unchars (chars s) = s.
Proof. induction s; simpl; congruence. Qed.

Lemma chars_unchars l : chars (unchars l) = l.
Proof. induction l; simpl; congruence. Qed.

#[export] Hint Rewrite unchars_chars chars_unchars : py_rw.

Lemma chars_inj s t : chars s = chars t -> s = t.
Proof. intros H. by rewrite <- (unchars_chars s), <- (unchars_chars t), H. Qed.

Lemma chars_app s t : chars (s ++ t)%string = chars s ++ chars t.
Proof. induction s as [|c s IH]; [done|]. change (c :: chars (s ++ t)%string = c :: (chars s ++ chars t)). by rewrite IH. Qed.

Lemma unchars_app l m : unchars (l ++ m) = (unchars l ++ unchars m)%string.
Proof. apply chars_inj. by rewrite chars_app, !chars_unchars. Qed.

Lemma chars_smap f s : chars (smap f s) = f <$> chars s.
Proof. apply chars_unchars. Qed.

Lemma slen_smap f s : slen (smap f s) = slen s.
Proof. unfold slen. by rewrite chars_smap, length_fmap. Qed.

Lemma lower_char_idemp c : lower_char (lower_char c) = lower_char c.
Proof. by_chars c. Qed.

Lemma lower_idemp s : lower (lower s) = lower s.
Proof.
  apply chars_inj. unfold lower. rewrite !chars_smap, <- list_fmap_compose.
  apply list_fmap_ext; intros; apply lower_char_idemp.
Qed.

#[export] Hint Rewrite lower_idemp chars_smap slen_smap : py_rw.

Lemma str_in_spec s l : str_in s l = true <-> s ∈ l.
Proof.
  unfold str_in. rewrite existsb_exists, list_elem_of_In. split.
  - intros (x & Hx & ->%String.eqb_eq); done.
  - intros H. exists s. split; [done | apply String.eqb_refl].
Qed.

Lemma str_in_false s l : str_in s l = false <-> s ∉ l.
Proof. rewrite <- str_in_spec. destruct (str_in s l); split; congruence. Qed.

Lemma list_prefix_spec p l : list_prefix p l = true <-> exists t, l = p ++ t.
Proof.
  revert l; induction p as [|a p IH]; intros l; simpl.
  - split; [intros _; by exists l | done].
  - destruct l as [|b l]; simpl.
    + split; [done | intros [t Ht]; done].
    + rewrite andb_true_iff, IH, Ascii.eqb_eq. split.
      * intros [-> [t ->]]. by exists t.
      * intros [t Ht]. simplify_eq. eauto.
Qed.

Lemma startswith_spec s p : startswith s p = true <-> exists t, s = (p ++ t)%string.
Proof.
  unfold startswith. rewrite list_prefix_spec. split.
  - intros [t Ht]. exists (unchars t). apply chars_inj.
    by rewrite chars_app, chars_unchars.
  - intros [t ->]. exists (chars t). apply chars_app.
Qed.

Lemma endswith_spec s p : endswith s p = true <-> exists t, s = (t ++ p)%string.
Proof.
  unfold endswith. rewrite list_prefix_spec. split.
  - intros [t Ht]. exists (unchars (rev t)). apply chars_inj.
    rewrite chars_app, chars_unchars, <- (rev_involutive (chars s)), Ht, rev_app_distr.
    by rewrite rev_involutive.
  - intros [t ->]. exists (rev (chars t)). by rewrite chars_app, rev_app_distr.
Qed.

Lemma list_contains_spec p l :
  list_contains p l = true <-> exists a b, l = a ++ p ++ b.
Proof.
  induction l as [|x l IH]; simpl.
  - rewrite orb_false_r, list_prefix_spec. split.
    + intros [t Ht]. by exists [], t.
    + intros (a & b & H). apply eq_sym, app_eq_nil in H as [_ H]. by exists b.
  - rewrite orb_true_iff, list_prefix_spec, IH. split.
    + intros [[t Ht] | (a & b & ->)]; [by exists [], t | by exists (x :: a), b].
    + intros ([|y a] & b & H); simpl in H.
      * left. by exists b.
      * right. simplify_eq. eauto.
Qed.

(** ** Lists without duplicates *)

Lemma append_new_elem out x y :
  y ∈ append_new String.eqb out x <-> y ∈ out \/ y = x.
Proof.
  unfold append_new. fold (str_in x out). destruct (str_in x out) eqn:E.
  - apply str_in_spec in E. set_solver.
  - set_solver.
Qed.

Lemma fold_append_new_elem l : forall out y,
  y ∈ fold_left (append_new String.eqb) l out <-> y ∈ out \/ y ∈ l.
Proof.
  induction l as [|x l IH]; intros out y; cbn [fold_left].
  - set_solver.
  - rewrite IH, append_new_elem. set_solver.
Qed.

(** ** Splitting on a separator and joining again *)

Lemma split_chars_nonempty c l : split_chars c l <> [].
Proof. destruct l; simpl; [done|]. case_match; [done|]. by case_match. Qed.

Fixpoint join_chars (c : ascii) (l : list (list ascii)) : list ascii :=
  match l with
  | [] => []
  | [x] => x
  | x :: l' => x ++ c :: join_chars c l'
  end.

Lemma join_split_chars c l : join_chars c (split_chars c l) = l.
Proof.
  induction l as [|x l IH]; [done|]. simpl.
  destruct (Ascii.eqb_spec c x) as [->|Hne].
  - destruct (split_chars x l) eqn:E; [by apply split_chars_nonempty in E|].
    simpl in *. by rewrite IH.
  - destruct (split_chars c l) as [|w ws] eqn:E; [by apply split_chars_nonempty in E|].
    simpl in *. destruct ws; simpl in *; by rewrite <- IH.
Qed.

Lemma chars_join c l : chars (join (String c EmptyString) l) = join_chars c (chars <$> l).
Proof.
  induction l as [|x [|y l] IH]; [done|done|].
  change (chars (x ++ String c EmptyString ++ join (String c EmptyString) (y :: l))%string
          = chars x ++ c :: join_chars c (chars <$> (y :: l))).
  by rewrite !chars_app, IH.
Qed.

Lemma join_split c s : join (String c EmptyString) (split c s) = s.
Proof.
  apply chars_inj. rewrite chars_join. unfold split.
  rewrite <- list_fmap_compose.
  rewrite (list_fmap_ext (chars ∘ unchars) id); [|intros; apply chars_unchars].
  by rewrite list_fmap_id, join_split_chars.
Qed.

Lemma split_chars_no_sep c l w : w ∈ split_chars c l -> c ∉ w.
Proof.
  revert w; induction l as [|x l IH]; intros w; simpl.
  - intros ->%list_elem_of_singleton. apply not_elem_of_nil.
  - destruct (Ascii.eqb_spec c x) as [->|Hne].
    + intros [->|H]%elem_of_cons; [apply not_elem_of_nil | eauto].
    + destruct (split_chars c l) as [|u us] eqn:E;
        [by apply split_chars_nonempty in E|].
      intros [->|H]%elem_of_cons.
      * intros [?|H]%elem_of_cons; [done|]. apply (IH u); [left|done].
      * apply IH. by right.
Qed.

Lemma split_chars_app c w l :
  c ∉ w -> split_chars c (w ++ c :: l) = w :: split_chars c l.
Proof.
  induction w as [|x w IH]; simpl; intros Hw.
  - by rewrite Ascii.eqb_refl.
  - apply not_elem_of_cons in Hw as [Hx Hw].
    destruct (Ascii.eqb_spec c x); [done|]. by rewrite IH.
Qed.

Lemma split_chars_none c w : c ∉ w -> split_chars c w = [w].
Proof.
  induction w as [|x w IH]; simpl; intros Hw; [done|].
  apply not_elem_of_cons in Hw as [Hx Hw].
  destruct (Ascii.eqb_spec c x); [done|]. by rewrite IH.
Qed.

Lemma split_join_chars c ws :
  ws <> [] -> Forall (fun w => c ∉ w) ws -> split_chars c (join_chars c ws) = ws.
Proof.
  induction ws as [|w [|v ws] IH]; intros Hne Hall; [done| |].
  - apply split_chars_none. by inversion Hall.
  - inversion Hall; subst. cbn [join_chars]. rewrite split_chars_app by done.
    f_equal. by apply IH.
Qed.

(** ** Reading back what was formatted *)

(** A boolean fact about a hexadecimal digit is checked on the sixteen values. *)
Lemma below_16 (p : N -> bool) :
  forallb p (N.of_nat <$> seq 0 16) = true -> forall d, (d < 16)%N -> p d = true.
Proof.
  intros H d Hd. rewrite forallb_forall in H. apply H, list_elem_of_In, list_elem_of_fmap.
  exists (N.to_nat d). rewrite N2Nat.id. split; [done|]. apply elem_of_seq. lia.
Qed.

Definition digit_ok (up : bool) (d : N) : bool :=
  let c := digit_char up d in
  bool_decide (digit_value c = Some d) && negb (is_space c) && is_alnum c
  && negb (str_in (String c "") ["_"; "-"; "+"; ":"; "x"; "X"]).

Lemma digit_ok_all up d : (d < 16)%N -> digit_ok up d = true.
Proof. apply below_16. by destruct up. Qed.

Lemma base_digit_char b up d :
  (d < b)%N -> (b <= 16)%N -> base_digit b (digit_char up d) = Some d.
Proof.
  intros Hd Hb. pose proof (digit_ok_all up d ltac:(lia)) as H.
  unfold digit_ok in H. bools. apply bool_decide_eq_true in H.
  unfold base_digit. rewrite H. simpl. by rewrite (proj2 (N.ltb_lt _ _) Hd).
Qed.

Lemma digit_char_not_underscore up d :
  (d < 16)%N -> Ascii.eqb (digit_char up d) "_" = false.
Proof.
  intros Hd. pose proof (base_digit_char 16 up d Hd (N.le_refl _)) as H.
  apply Ascii.eqb_neq. intros E. rewrite E in H. vm_compute in H. done.
Qed.

Lemma parse_format_digits b up fuel n acc :
  (2 <= b)%N -> (b <= 16)%N -> (n < b ^ N.of_nat fuel)%N ->
  parse_digits b 0 (format_digits fuel b up n acc) = parse_digits b n acc.
Proof.
  intros H2 H16. revert n acc; induction fuel as [|fuel IH]; intros n acc Hn.
  - simpl in Hn. by replace n with 0%N by lia.
  - cbn [format_digits]. pose proof (N.mod_lt n b ltac:(lia)) as Hmod.
    pose proof (N.div_mod' n b) as Hdm.
    assert (forall a, parse_digits b a (digit_char up (n mod b) :: acc)
                      = parse_digits b (a * b + n mod b) acc) as Hstep.
    { intros a. cbn [parse_digits].
      rewrite digit_char_not_underscore, base_digit_char by lia. done. }
    destruct (N.eqb_spec (n / b) 0) as [E|E].
    + rewrite Hstep. f_equal. rewrite E in Hdm. lia.
    + rewrite IH.
      * rewrite Hstep. f_equal. lia.
      * rewrite Nat2N.inj_succ, N.pow_succ_r' in Hn.
        apply N.Div0.div_lt_upper_bound. lia.
Qed.

Lemma format_N_fuel b n : (2 <= b)%N -> (n < b ^ N.of_nat (S (N.to_nat (N.log2 n))))%N.
Proof.
  intros Hb. rewrite Nat2N.inj_succ, N2Nat.id.
  apply N.lt_le_trans with (2 ^ N.succ (N.log2 n))%N.
  - destruct (N.eq_dec n 0%N) as [->|Hz]; [done|]. apply N.log2_spec. lia.
  - apply N.pow_le_mono_l. lia.
Qed.

(** Every formatted number starts with a digit: no underscore, no sign. *)
Lemma format_digits_head b up fuel n acc :
  (2 <= b)%N ->
  exists d l, (d < b)%N /\ format_digits (S fuel) b up n acc = digit_char up d :: l.
Proof.
  intros Hb. revert n acc; induction fuel as [|fuel IH]; intros n acc.
  - cbn [format_digits]. pose proof (N.mod_lt n b ltac:(lia)).
    destruct (n / b =? 0)%N; eauto.
  - cbn [format_digits]. destruct (n / b =? 0)%N.
    + pose proof (N.mod_lt n b ltac:(lia)). eauto.
    + apply IH.
Qed.

Lemma format_digits_all b up fuel n acc :
  (2 <= b)%N -> Forall (fun c => exists d, (d < b)%N /\ c = digit_char up d) acc ->
  Forall (fun c => exists d, (d < b)%N /\ c = digit_char up d) (format_digits fuel b up n acc).
Proof.
  intros Hb. revert n acc; induction fuel as [|fuel IH]; intros n acc Hacc; [done|].
  cbn [format_digits]. pose proof (N.mod_lt n b ltac:(lia)).
  destruct (n / b =? 0)%N; [|apply IH]; constructor; eauto.
Qed.

Lemma format_N_all b up n :
  (2 <= b)%N -> Forall (fun c => exists d, (d < b)%N /\ c = digit_char up d) (format_N b up n).
Proof. intros. by apply format_digits_all. Qed.

Lemma parse_nat_format b up n :
  (2 <= b)%N -> (b <= 16)%N -> parse_nat b (format_N b up n) = Some n.
Proof.
  intros H2 H16. unfold format_N.
  destruct (format_digits_head b up (N.to_nat (N.log2 n)) n [] H2) as (d & l & Hd & E).
  unfold parse_nat. rewrite E, digit_char_not_underscore by lia. rewrite <- E.
  rewrite parse_format_digits; [done..|]. by apply format_N_fuel.
Qed.

(** *** Stripping leaves text without blanks alone *)

Lemma drop_while_none {A} (p : A -> bool) l :
  Forall (fun c => p c = false) l -> drop_while p l = l.
Proof. destruct 1 as [|x l Hx]; simpl; [done|]. by rewrite Hx. Qed.

Lemma strip_id s : Forall (fun c => is_space c = false) (chars s) -> strip s = s.
Proof.
  intros H. unfold strip, rstrip_by, lstrip_by.
  rewrite (drop_while_none _ (chars s)) by done.
  rewrite drop_while_none by by apply Forall_rev.
  by rewrite rev_involutive, unchars_chars.
Qed.

Lemma digit_char_props up d :
  (d < 16)%N ->
  is_space (digit_char up d) = false /\ is_alnum (digit_char up d) = true
  /\ digit_char up d ∉ ["_"; "-"; "+"; ":"; "x"; "X"]%char.
Proof.
  intros Hd. pose proof (digit_ok_all up d Hd) as H. unfold digit_ok in H. bools.
  split_and!; [done..|]. rewrite !not_elem_of_cons. apply str_in_false in H0.
  rewrite !not_elem_of_cons in H0. destruct_and!.
  split_and!; try (intros E; rewrite E in *; congruence). apply not_elem_of_nil.
Qed.

Lemma remove_char_id c s : c ∉ chars s -> remove_char c s = s.
Proof.
  intros H. unfold remove_char. rewrite List.forallb_filter_id.
  - apply unchars_chars.
  - apply forallb_forall. intros x Hx%list_elem_of_In. apply negb_true_iff, Ascii.eqb_neq.
    by intros ->.
Qed.

(** ** Case and blanks *)

Lemma upper_char_idemp c : upper_char (upper_char c) = upper_char c.
Proof. by_chars c. Qed.
Lemma lower_upper_char c : lower_char (upper_char c) = lower_char c.
Proof. by_chars c. Qed.
Lemma is_digit_upper c : is_digit (upper_char c) = is_digit c.
Proof. by_chars c. Qed.
Lemma is_space_upper c : is_space (upper_char c) = is_space c.
Proof. by_chars c. Qed.

Lemma drop_while_fmap {A B} (f : A -> B) (p : B -> bool) (l : list A) :
  drop_while p (f <$> l) = f <$> drop_while (fun x => p (f x)) l.
Proof. induction l as [|x l IH]; simpl; [done|]. destruct (p (f x)); [exact IH|done]. Qed.

Lemma drop_while_ext {A} (p q : A -> bool) (l : list A) :
  (forall x, p x = q x) -> drop_while p l = drop_while q l.
Proof. intros H. induction l as [|x l IH]; simpl; [done|]. by rewrite H, IH. Qed.

Lemma drop_while_suffix {A} (p : A -> bool) (l : list A) : exists k, l = k ++ drop_while p l.
Proof.
  induction l as [|x l [k Hk]]; simpl; [by exists []|]. destruct (p x); [|by exists []].
  exists (x :: k). simpl. by f_equal.
Qed.

Lemma drop_while_head {A} (p : A -> bool) (l : list A) x m : drop_while p l = x :: m -> p x = false.
Proof. induction l as [|y l IH]; simpl; [done|]. destruct (p y) eqn:E; [exact IH|by intros [= <- _]]. Qed.

Lemma rev_fmap {A B} (f : A -> B) (l : list A) : rev (f <$> l) = f <$> rev l.
Proof. induction l as [|x l IH]; [done|]. rewrite fmap_cons. cbn [rev]. by rewrite IH, fmap_app. Qed.

Lemma strip_upper s : strip (upper s) = upper (strip s).
Proof.
  unfold strip, upper, rstrip_by, lstrip_by. apply chars_inj. rewrite !chars_unchars, !chars_smap, !chars_unchars.
  rewrite drop_while_fmap, rev_fmap, drop_while_fmap, rev_fmap.
  rewrite !(drop_while_ext (fun x => is_space (upper_char x)) is_space) by apply is_space_upper. done.
Qed.

Lemma strip_idemp s : strip (strip s) = strip s.
Proof.
  unfold strip. rewrite chars_unchars. f_equal. unfold rstrip_by, lstrip_by.
  set (m := drop_while is_space (chars s)).
  assert (drop_while is_space (rev (drop_while is_space (rev m))) = rev (drop_while is_space (rev m))) as ->.
  - destruct (drop_while_suffix is_space (rev m)) as [k Hk].
    destruct (rev (drop_while is_space (rev m))) as [|x t] eqn:E; [done|].
    apply (f_equal (@rev ascii)) in Hk. rewrite rev_involutive, rev_app_distr, E in Hk. simpl.
    by rewrite (drop_while_head is_space (chars s) x (t ++ rev k) Hk).
  - rewrite rev_involutive. f_equal.
    destruct (drop_while is_space (rev m)) as [|x t] eqn:E; [done|]. simpl.
    by rewrite (drop_while_head _ _ _ _ E).
Qed.

Lemma lower_upper s : lower (upper s) = lower s.
Proof.
  apply chars_inj. unfold lower, upper. rewrite !chars_smap, <- list_fmap_compose.
  apply list_fmap_ext. intros. apply lower_upper_char.
Qed.
Lemma upper_idemp s : upper (upper s) = upper s.
Proof.
  apply chars_inj. unfold upper. rewrite !chars_smap, <- list_fmap_compose.
  apply list_fmap_ext. intros. apply upper_char_idemp.
Qed.
Lemma isdigit_upper s : isdigit (upper s) = isdigit s.
Proof.
  unfold isdigit, all_chars, upper. rewrite chars_smap. f_equal; [by destruct s|].
  induction (chars s) as [|c l IH]; [done|]. rewrite fmap_cons. cbn [forallb].
  by rewrite is_digit_upper, IH.
Qed.
Lemma nonempty_upper s : nonempty (upper s) = nonempty s.
Proof. by destruct s. Qed.

(** ** Sorted sets *)

Lemma elem_insert_sorted x y l : x ∈ insert_sorted y l <-> x = y \/ x ∈ l.
Proof.
  induction l as [|z l IH]; simpl; [by rewrite list_elem_of_singleton, elem_of_nil; naive_solver|].
  destruct (y =? z)%string eqn:E.
  - apply String.eqb_eq in E as ->. rewrite elem_of_cons. tauto.
  - destruct (String.leb y z); rewrite !elem_of_cons, ?IH; tauto.
Qed.

Lemma elem_sorted_set x l : x ∈ sorted_set l <-> x ∈ l.
Proof.
  unfold sorted_set. induction l as [|y l IH]; simpl; [done|].
  by rewrite elem_insert_sorted, IH, elem_of_cons.
Qed.
