(* ===== verification/Serials.v ===== *)
(** * Serials: certificate serial numbers as the database spells them

    Models [backend/utils/serial_format.py] (reading a serial column, the
    spellings one serial may be stored under, the colon display form, the OCSP
    cache key) and [backend/services/cert/serial_resolution.py] (the serial a
    stored record carries). The X.509 parser of the [cryptography] package is
    the parameter [cert_serial]: [None] stands for the exception it raises on a
    certificate it cannot read. *)

From Stdlib Require Import Ascii String.
From stdpp Require Import prelude strings.
From S2P Require Import Prelude.

(** ** Reading and writing serials *)

(* serial: str | int | None *)
Inductive serial_arg : Type :=
| SNone
| SStr (s : string)
| SInt (n : Z).

Definition serial_to_int (serial : serial_arg) : option Z :=
  match serial with
  | SNone => None
  | SStr "" => None
  | SInt n => Some n
  | SStr s0 =>
      let s := strip (remove_char ":" s0) in
      let s := if startswith (lower s) "0x" then sdrop 2 s else s in
      match py_int 10 s with
      | Some n => Some n
      | None => py_int 16 s
      end
  end.

Definition serial_variants (serial : Z) : list string :=
  [py_str serial; py_hex serial; py_HEX serial].

(* [hex_str[i:i + 2] for i in range(0, len(hex_str), 2)] *)
Fixpoint pairs_of (l : list ascii) : list string :=
  match l with
  | a :: b :: l' => unchars [a; b] :: pairs_of l'
  | [a] => [unchars [a]]
  | [] => []
  end.

Definition format_serial_colon (serial : serial_arg) : string :=
  match serial with
  | SNone => ""
  | SStr "" => ""
  | _ =>
      let hex_str :=
        match serial_to_int serial with
        | Some n => py_HEX n
        | None => match serial with
                  | SStr s => upper (remove_char ":" s)
                  | _ => ""
                  end
        end in
      let hex_str := if Nat.odd (slen hex_str) then ("0" ++ hex_str)%string else hex_str in
      join ":" (pairs_of (chars hex_str))
  end.

Definition serial_to_hex (serial : serial_arg) : string :=
  match serial with
  | SNone => ""
  | SStr "" => ""
  | SInt n => py_hex n
  | SStr s =>
      match serial_to_int (SStr s) with
      | None => lower s
      | Some n => py_hex n
      end
  end.

(** ** The serial a record carries *)

Record serial_record := {
  crt : option string;            (* stored certificate, base64 PEM *)
  serial_number : option string;  (* the column *)
}.

Definition column_arg (c : option string) : serial_arg :=
  match c with None => SNone | Some s => SStr s end.

Section Resolution.
(* x509.load_pem_x509_certificate(base64.b64decode(pem)).serial_number *)
Variable cert_serial : string -> option Z.

Definition resolve_record_serial (record : serial_record) : option Z :=
  let from_column := serial_to_int (column_arg (serial_number record)) in
  match crt record with
  | None | Some "" => from_column
  | Some pem =>
      match cert_serial pem with
      | Some n => Some n
      | None => from_column
      end
  end.

Definition same_serial (left right : serial_record) : bool :=
  if bool_decide (serial_number left <> None /\ serial_number left = serial_number right)
  then true
  else match resolve_record_serial left with
       | None => false
       | Some n => bool_decide (Some n = resolve_record_serial right)
       end.
End Resolution.

(** * Lemmas *)

(** A number that starts with a digit is read without a sign. *)
Lemma unsigned_head {A} c (minus plus none : A) :
  c ∉ ["_"; "-"; "+"; ":"; "x"; "X"]%char ->
  (if Ascii.eqb c "-" then minus else if Ascii.eqb c "+" then plus else none) = none.
Proof.
  rewrite !not_elem_of_cons. intros (_ & H1 & H2 & _).
  destruct (Ascii.eqb_spec c "-"); [done|]. by destruct (Ascii.eqb_spec c "+").
Qed.

Section Digits.
Context (b : N) (up : bool) (n : N).
Context (Hb2 : (2 <= b)%N) (Hb16 : (b <= 16)%N).

Lemma format_N_chars :
  Forall (fun c => is_space c = false /\ is_alnum c = true
                   /\ c ∉ ["_"; "-"; "+"; ":"; "x"; "X"]%char) (format_N b up n).
Proof.
  eapply Forall_impl; [by apply format_N_all|].
  intros c (d & Hd & ->). apply digit_char_props. lia.
Qed.

Lemma format_N_cons : exists c l, format_N b up n = c :: l.
Proof.
  destruct (format_digits_head b up (N.to_nat (N.log2 n)) n [] Hb2) as (d & l & _ & E).
  unfold format_N. rewrite E. eauto.
Qed.

Lemma parse_unsigned_format : parse_unsigned b (format_N b up n) = Some n.
Proof.
  unfold parse_unsigned. pose proof (parse_nat_format b up n Hb2 Hb16) as HP.
  pose proof format_N_chars as HC. rewrite !Forall_forall in HC.
  destruct (format_N b up n) as [|c [|x l]] eqn:E; [done..|].
  assert (Ascii.eqb x "x" || Ascii.eqb x "X" = false) as ->.
  { destruct (HC x ltac:(right; left)) as (_ & _ & Hin).
    rewrite !not_elem_of_cons in Hin. destruct_and!.
    apply orb_false_iff. by split; apply Ascii.eqb_neq. }
  by rewrite andb_false_r.
Qed.

Lemma strip_format : strip (unchars (format_N b up n)) = unchars (format_N b up n).
Proof.
  apply strip_id. rewrite chars_unchars. eapply Forall_impl; [apply format_N_chars|].
  by intros c (? & _).
Qed.

Lemma py_int_format : py_int b (unchars (format_N b up n)) = Some (Z.of_N n).
Proof.
  unfold py_int. rewrite strip_format, chars_unchars.
  pose proof parse_unsigned_format as HP. pose proof format_N_chars as HC.
  destruct format_N_cons as (c & l & E). rewrite E in *.
  inversion HC as [|? ? (_ & _ & Hin) _]; subst. rewrite unsigned_head by done. by rewrite HP.
Qed.

Lemma remove_colon_format :
  remove_char ":" (unchars (format_N b up n)) = unchars (format_N b up n).
Proof.
  apply remove_char_id. rewrite chars_unchars. intros Hin.
  pose proof format_N_chars as HC. rewrite Forall_forall in HC.
  destruct (HC _ Hin) as (_ & _ & Hc). apply Hc. by do 3 right; left.
Qed.

Lemma no_0x_format : startswith (lower (unchars (format_N b up n))) "0x" = false.
Proof.
  unfold startswith, lower. rewrite chars_smap, chars_unchars.
  pose proof format_N_chars as HC. destruct (format_N b up n) as [|c [|x l]]; [done|by_chars c|].
  inversion HC as [|? ? _ HC']; subst. inversion HC' as [|? ? (_ & _ & Hin) _]; subst.
  rewrite !not_elem_of_cons in Hin. destruct_and!.
  cbn [chars fmap list_fmap list_prefix]. apply andb_false_iff; right.
  apply andb_false_iff; left. apply Ascii.eqb_neq. intros E.
  by destruct x as [[] [] [] [] [] [] [] []].
Qed.

(** What [serial_to_int] computes on a number written in base [b]. *)
Lemma serial_to_int_format :
  serial_to_int (SStr (unchars (format_N b up n))) =
  match py_int 10 (unchars (format_N b up n)) with
  | Some z => Some z
  | None => py_int 16 (unchars (format_N b up n))
  end.
Proof.
  destruct format_N_cons as (c & l & E).
  assert (unchars (format_N b up n) <> ""%string) as Hne by (rewrite E; done).
  unfold serial_to_int. destruct (unchars (format_N b up n)) eqn:Es; [done|].
  rewrite <- Es, remove_colon_format, strip_format, no_0x_format. done.
Qed.
End Digits.

(** A base-10 reading only accepts digits and underscores. *)
Lemma parse_digits_10 l : forall acc n,
  parse_digits 10 acc l = Some n -> Forall (fun c => is_digit c || Ascii.eqb c "_" = true) l.
Proof.
  induction l as [|c l IH]; intros acc n H; [constructor|].
  cbn [parse_digits] in H. destruct (Ascii.eqb_spec c "_") as [->|Hc].
  - constructor; [done|]. destruct l as [|c' l]; [done|].
    destruct (base_digit 10 c'); [|done]. eauto.
  - destruct (base_digit 10 c) as [d|] eqn:Ed; [|done]. simpl in H.
    constructor; [|eauto]. revert Ed. clear. by_chars c.
Qed.

Lemma py_int_10_letters l c :
  Forall (fun c => is_space c = false /\ is_alnum c = true
                   /\ c ∉ ["_"; "-"; "+"; ":"; "x"; "X"]%char) l ->
  c ∈ l -> is_digit c = false -> py_int 10 (unchars l) = None.
Proof.
  intros HC Hin Hc. unfold py_int. rewrite strip_id.
  2: { rewrite chars_unchars. eapply Forall_impl; [exact HC|]. by intros ? (? & _). }
  rewrite chars_unchars.
  assert (parse_unsigned 10 l = None) as HN.
  { assert (parse_unsigned 10 l = parse_nat 10 l) as -> by by destruct l as [|? [|? ?]].
    destruct (parse_nat 10 l) eqn:E; [|done]. exfalso.
    destruct l as [|a l']; [done|]. unfold parse_nat in E.
    destruct (Ascii.eqb a "_"); [done|]. apply parse_digits_10 in E.
    rewrite Forall_forall in E, HC. specialize (E _ Hin).
    destruct (HC _ Hin) as (_ & _ & Hu). rewrite !not_elem_of_cons in Hu. destruct_and!.
    rewrite Hc in E. simpl in E. by apply Ascii.eqb_eq in E. }
  destruct l as [|a l]; [by apply not_elem_of_nil in Hin|].
  inversion HC as [|? ? (_ & _ & Ha) _]; subst. rewrite unsigned_head by done. by rewrite HN.
Qed.

Lemma digits_parse_10 l :
  Forall (fun c => is_space c = false /\ is_alnum c = true
                   /\ c ∉ ["_"; "-"; "+"; ":"; "x"; "X"]%char) l ->
  forallb is_digit l = true -> l <> [] -> py_int 10 (unchars l) <> None.
Proof.
  intros HC Hd Hne. unfold py_int. rewrite strip_id.
  2: { rewrite chars_unchars. eapply Forall_impl; [exact HC|]. by intros ? (? & _). }
  rewrite chars_unchars. destruct l as [|a l]; [done|].
  inversion HC as [|? ? (_ & _ & Ha) _]; subst. rewrite unsigned_head by done.
  assert (forall l acc, forallb is_digit l = true -> parse_digits 10 acc l <> None) as HP.
  { clear. induction l as [|c l IH]; intros acc; [done|]. cbn [parse_digits forallb].
    intros [Hc Hl]%andb_true_iff.
    assert (Ascii.eqb c "_" = false /\ base_digit 10 c <> None) as [-> Hb]
      by (revert Hc; clear; by_chars c).
    destruct (base_digit 10 c); [simpl; eauto|done]. }
  assert (parse_unsigned 10 (a :: l) = parse_nat 10 (a :: l)) as -> by by destruct l.
  unfold parse_nat. rewrite not_elem_of_cons in Ha. destruct Ha as [Ha _].
  destruct (Ascii.eqb_spec a "_"); [done|].
  specialize (HP (a :: l) 0%N Hd). by destruct (parse_digits 10 0 (a :: l)).
Qed.

Lemma format_Z_nonneg b up z : (0 <= z)%Z -> format_Z b up z = unchars (format_N b up (Z.to_N z)).
Proof.
  intros Hz. unfold format_Z. destruct (Z.ltb_spec z 0); [lia|]. do 2 f_equal.
  by destruct z.
Qed.

Lemma py_int_hex z : (0 <= z)%Z -> py_int 16 (py_hex z) = Some z.
Proof.
  intros Hz. unfold py_hex. rewrite format_Z_nonneg, py_int_format by done.
  by rewrite Z2N.id.
Qed.

(** * Properties *)

(** A serial stored in decimal is read back exactly, so the OCSP cache key
    computed from the column is the hexadecimal form of the certificate's serial. *)
Theorem decimal_serial_roundtrip (z : Z) :
  (0 <= z)%Z ->
  serial_to_int (SStr (py_str z)) = Some z /\ serial_to_hex (SStr (py_str z)) = py_hex z.
Proof.
  intros Hz. assert (serial_to_int (SStr (py_str z)) = Some z) as E.
  { unfold py_str. rewrite format_Z_nonneg by done.
    rewrite serial_to_int_format, py_int_format by done. by rewrite Z2N.id. }
  split; [done|]. unfold serial_to_hex. rewrite E.
  by destruct (py_str z).
Qed.

Lemma decimal_serial_roundtrip_witness :
  (0 <= 182716277442602097566978062183857154669354824224)%Z /\
  serial_to_hex (SStr (py_str 182716277442602097566978062183857154669354824224))
  = py_hex 182716277442602097566978062183857154669354824224.
Proof. split; [lia|]. apply decimal_serial_roundtrip. lia. Defined.

(** A serial stored in hexadecimal (either case) is read back exactly when a
    letter occurs in it; when none does, the column is read in decimal and
    denotes another number. This is the ambiguity [resolve_record_serial]
    settles with the stored certificate. *)
Theorem hex_serial_reading (up : bool) (z : Z) :
  (0 <= z)%Z ->
  let column := format_Z 16 up z in
  serial_to_int (SStr column) =
    if all_chars is_digit column then py_int 10 column else Some z.
Proof.
  intros Hz column. subst column. rewrite format_Z_nonneg by done.
  rewrite serial_to_int_format by done.
  rewrite py_int_format by done. rewrite Z2N.id by done.
  unfold all_chars. rewrite chars_unchars.
  destruct (forallb is_digit (format_N 16 up (Z.to_N z))) eqn:Ed.
  - destruct (py_int 10 _) eqn:E; [done|]. exfalso.
    revert E. apply digits_parse_10; [by apply format_N_chars|done|].
    destruct (format_N_cons 16 up (Z.to_N z)) as (? & ? & ->); done.
  - assert (exists c, c ∈ format_N 16 up (Z.to_N z) /\ is_digit c = false) as (c & Hc & Hd).
    { clear -Ed. induction (format_N 16 up (Z.to_N z)) as [|c l IH]; [done|].
      simpl in Ed. destruct (is_digit c) eqn:E.
      - destruct (IH Ed) as (c' & ? & ?). exists c'. split; [by right|done].
      - exists c. split; [by left|done]. }
    erewrite py_int_10_letters; [done| |done|done]. by apply format_N_chars.
Qed.

Lemma hex_serial_reading_witness :
  serial_to_int (SStr (py_hex 74565)) = Some 12345%Z /\
  serial_to_int (SStr (py_hex 171)) = Some 171%Z.
Proof.
  split; (etransitivity; [apply (hex_serial_reading false); lia | reflexivity]).
Defined.
