(* ===== verification/Scalars.v ===== *)
(** * Scalars: day counts, durations, pages, remaining days, revocation reasons

    Models the small functions every issuance and listing path relies on:
    [backend/utils/validity.py], [backend/utils/duration.py],
    [backend/utils/pagination.py], [backend/utils/days_remaining.py] and
    [backend/utils/revocation_reasons.py].

    A JSON value is [pyval]; a finite Python float is the dyadic rational it
    stands for. Instants are integer microseconds. The two float divisions
    ([total / per_page], [seconds / 86400.0]) are taken exactly: binary64
    rounding is not modelled. *)

From Stdlib Require Import Ascii String.
From stdpp Require Import prelude strings.
From S2P Require Import Prelude Serials.

Local Open Scope Z_scope.

(** ** Python scalars *)

(* a finite float is [m * 2 ^ e] *)
Inductive pyfloat : Type :=
| FNan
| FInf (neg : bool)
| FFin (m e : Z).

Inductive pyval : Type :=
| VNone
| VBool (b : bool)
| VInt (z : Z)
| VFloat (f : pyfloat)
| VStr (s : string)
| VOther.           (* list, dict, ... *)

(* the value of a float that is integral, None otherwise *)
Definition integral (m e : Z) : option Z :=
  if 0 <=? e then Some (m * 2 ^ e)
  else if m mod 2 ^ (- e) =? 0 then Some (m / 2 ^ (- e)) else None.

(** ** utils/validity.py *)

Definition MIN_VALIDITY_DAYS : Z := 1.
Definition MAX_VALIDITY_DAYS : Z := 3650.

(* _INTEGER_TEXT_RE: ^[+-]?\d+$ *)
Definition integer_text (s : string) : bool :=
  match chars s with
  | [] => false
  | c :: l => if Ascii.eqb c "+" || Ascii.eqb c "-" then isdigit (unchars l)
              else isdigit (unchars (c :: l))
  end.

Definition coerce_validity_days (value : pyval) : option Z :=
  match value with
  | VBool _ => None
  | VInt z => Some z
  | VFloat (FFin m e) => integral m e
  | VFloat _ => None
  | VStr s => let text := strip s in if integer_text text then py_int 10 text else None
  | _ => None
  end.

Definition validity_days_in_range (value : Z) : bool :=
  (MIN_VALIDITY_DAYS <=? value) && (value <=? MAX_VALIDITY_DAYS).

(** ** utils/duration.py *)

Definition _MAX_SECONDS : Z := 2 ^ 63 - 1.

Definition _UNIT_SECONDS (unit : string) : option Z :=
  if (unit =? "")%string then Some 1
  else if (unit =? "s")%string then Some 1
  else if (unit =? "m")%string then Some 60
  else if (unit =? "h")%string then Some 3600
  else if (unit =? "d")%string then Some 86400
  else if (unit =? "w")%string then Some 604800
  else if (unit =? "y")%string then Some 31536000
  else None.

Fixpoint take_while {A} (p : A -> bool) (l : list A) : list A :=
  match l with
  | [] => []
  | x :: l' => if p x then x :: take_while p l' else []
  end.

(* _DURATION_RE: ^(\d+)\s*([smhdwySMHDWY]?)$, the groups *)
Definition _DURATION_RE (s : string) : option (string * string) :=
  let digits := take_while is_digit (chars s) in
  let rest := drop_while is_space (drop_while is_digit (chars s)) in
  match digits, rest with
  | [], _ => None
  | _, [] => Some (unchars digits, "")
  | _, [u] => if str_in (unchars [u]) ["s"; "m"; "h"; "d"; "w"; "y"; "S"; "M"; "H"; "D"; "W"; "Y"]
              then Some (unchars digits, unchars [u]) else None
  | _, _ => None
  end.

Inductive duration_error := InvalidDuration (field : string) (value : pyval).

Definition parse_duration_seconds (value : pyval) (field : string) : result duration_error Z :=
  let seconds :=
    match value with
    | VBool _ => None
    | VFloat FNan | VFloat (FInf _) => None
    | VInt z => Some z
    | VFloat (FFin m e) => integral m e
    | VStr s =>
        match _DURATION_RE (strip s) with
        | Some (n, u) => n ← py_int 10 n; k ← _UNIT_SECONDS (lower u); Some (n * k)
        | None => None
        end
    | _ => None
    end in
  match seconds with
  | None => Raise (InvalidDuration field value)
  | Some s => if (s <? 0) || (_MAX_SECONDS <? s) then Raise (InvalidDuration field value)
              else Ok s
  end.

(** ** utils/pagination.py *)

Record page_meta := {
  total : Z; page_no : Z; per_page_used : Z; total_pages : Z;
  has_next : bool; has_prev : bool;
}.

Definition ceil_div (a b : Z) : Z := - ((- a) / b).

(* the query is the list of its rows, in its order *)
Definition paginate {A} (query : list A) (page per_page : Z) : list A * page_meta :=
  let page := if page <? 1 then 1 else page in
  let per_page := if per_page <? 1 then 20 else per_page in
  let per_page := if 100 <? per_page then 100 else per_page in
  let total := Z.of_nat (length query) in
  let total_pages := if 0 <? total then ceil_div total per_page else 0 in
  let items := take (Z.to_nat per_page) (drop (Z.to_nat ((page - 1) * per_page)) query) in
  (items, {| total := total; page_no := page; per_page_used := per_page;
             total_pages := total_pages;
             has_next := page <? total_pages; has_prev := 1 <? page |}).

(* request.args.get(name, default, type=int): the default when absent or not an int *)
Definition arg_int (raw : option string) (default : Z) : Z :=
  match raw with
  | None => default
  | Some s => stdpp.option.default default (py_int 10 s)
  end.

Definition parse_request_pagination (page per_page : option string)
    (default_per_page max_per_page : Z) : Z * Z :=
  (Z.max 1 (arg_int page 1), Z.min (Z.max 1 (arg_int per_page default_per_page)) max_per_page).

Definition parse_request_limit (raw : option string) (default_limit max_limit : Z) : Z :=
  Z.min (Z.max 1 (arg_int raw default_limit)) max_limit.

(** ** utils/days_remaining.py *)

Definition day_us : Z := 86400 * 1000000.

Definition days_remaining (valid_to : option Z) (now : Z) : option Z :=
  match valid_to with
  | None => None
  | Some v =>
      let seconds := v - now in
      Some (if 0 <? seconds then ceil_div seconds day_us else seconds / day_us)
  end.

Definition has_expired (valid_to : option Z) (now : Z) : bool :=
  match days_remaining valid_to now with
  | None => false
  | Some days => days <=? 0
  end.

(** ** utils/revocation_reasons.py *)

Definition REVOCATION_REASONS : list string :=
  ["unspecified"; "keyCompromise"; "cACompromise"; "affiliationChanged"; "superseded";
   "cessationOfOperation"; "certificateHold"; "privilegeWithdrawn"; "aACompromise"]%string.

Definition _CANONICAL : list (string * string) :=
  ((fun name => (lower name, name)) <$> REVOCATION_REASONS) ++
  [("key_compromise", "keyCompromise"); ("ca_compromise", "cACompromise");
   ("affiliation_changed", "affiliationChanged");
   ("cessation_of_operation", "cessationOfOperation");
   ("certificate_hold", "certificateHold"); ("privilege_withdrawn", "privilegeWithdrawn");
   ("aa_compromise", "aACompromise")]%string.

(* dict.get on a literal: the last binding of a key wins *)
Definition dict_get {V} (d : list (string * V)) (k : string) : option V :=
  snd <$> List.find (fun kv => (kv.1 =? k)%string) (rev d).

Inductive ReasonFlags : Type :=
| unspecified | key_compromise | ca_compromise | affiliation_changed | superseded
| cessation_of_operation | certificate_hold | remove_from_crl | privilege_withdrawn
| aa_compromise.

Definition REASON_FLAGS : list (string * ReasonFlags) :=
  [("unspecified", unspecified);
   ("keyCompromise", key_compromise); ("key_compromise", key_compromise);
   ("cACompromise", ca_compromise); ("caCompromise", ca_compromise);
   ("CACompromise", ca_compromise); ("ca_compromise", ca_compromise);
   ("affiliationChanged", affiliation_changed); ("affiliation_changed", affiliation_changed);
   ("superseded", superseded);
   ("cessationOfOperation", cessation_of_operation);
   ("cessation_of_operation", cessation_of_operation);
   ("certificateHold", certificate_hold); ("certificate_hold", certificate_hold);
   ("removeFromCRL", remove_from_crl);
   ("privilegeWithdrawn", privilege_withdrawn); ("privilege_withdrawn", privilege_withdrawn);
   ("aACompromise", aa_compromise); ("aa_compromise", aa_compromise)]%string.

Definition normalize_revocation_reason (value : pyval) : option string :=
  match value with
  | VNone => Some "unspecified"%string
  | VStr s => let key := lower (strip s) in
              if nonempty key then dict_get _CANONICAL key else Some "unspecified"%string
  | _ => None
  end.

Definition REASON_CODES (r : ReasonFlags) : Z :=
  match r with
  | unspecified => 0 | key_compromise => 1 | ca_compromise => 2 | affiliation_changed => 3
  | superseded => 4 | cessation_of_operation => 5 | certificate_hold => 6
  | remove_from_crl => 8 | privilege_withdrawn => 9 | aa_compromise => 10
  end.

#[export] Instance ReasonFlags_eq_dec : EqDecision ReasonFlags.
Proof. solve_decision. Defined.

(** * Lemmas *)

Lemma is_digit_format n : forallb is_digit (format_N 10 false n) = true.
Proof.
  apply forallb_forall. intros c Hc%list_elem_of_In.
  pose proof (format_N_all 10 false n ltac:(lia)) as H. rewrite Forall_forall in H.
  destruct (H _ Hc) as (d & Hd & ->).
  pose proof (below_16 (fun d => negb (d <? 10)%N || is_digit (digit_char false d))
                eq_refl d ltac:(lia)) as Hb. simpl in Hb.
  by rewrite (proj2 (N.ltb_lt _ _) Hd) in Hb.
Qed.

Lemma isdigit_format n : isdigit (unchars (format_N 10 false n)) = true.
Proof.
  unfold isdigit, all_chars. rewrite chars_unchars, is_digit_format, andb_true_r.
  by destruct (format_N_cons 10 false n ltac:(lia)) as (? & ? & ->).
Qed.

Lemma integer_text_str z : integer_text (py_str z) = true.
Proof.
  unfold py_str, format_Z, integer_text. destruct (z <? 0).
  - simpl. by rewrite unchars_chars, isdigit_format.
  - rewrite chars_unchars. pose proof (isdigit_format (Z.abs_N z)) as H.
    destruct (format_N_cons 10 false (Z.abs_N z) ltac:(lia)) as (c & l & E). rewrite E in *.
    destruct (Ascii.eqb c "+" || Ascii.eqb c "-") eqn:Ec; [|done]. exfalso.
    unfold isdigit, all_chars in H. rewrite chars_unchars in H. simpl in H.
    apply orb_true_iff in Ec as [->%Ascii.eqb_eq| ->%Ascii.eqb_eq]; done.
Qed.

Lemma strip_str z : strip (py_str z) = py_str z.
Proof.
  apply strip_id. unfold py_str, format_Z.
  pose proof (format_N_chars 10 false (Z.abs_N z) ltac:(lia) ltac:(lia)) as H.
  destruct (z <? 0); simpl; rewrite ?chars_unchars; [constructor; [done|]|];
    (eapply Forall_impl; [exact H|by intros ? (? & _)]).
Qed.

Lemma py_int_str z : py_int 10 (py_str z) = Some z.
Proof.
  destruct (Z.ltb_spec z 0) as [Hz|Hz].
  - unfold py_int. rewrite strip_str. unfold py_str, format_Z.
    rewrite (proj2 (Z.ltb_lt _ _) Hz). cbn [chars]. rewrite chars_unchars. simpl.
    rewrite (parse_unsigned_format 10 false) by lia. simpl. f_equal. lia.
  - unfold py_str. rewrite format_Z_nonneg, py_int_format by lia. f_equal. lia.
Qed.

Lemma take_while_app {A} (p : A -> bool) l m :
  forallb p l = true -> (match m with [] => true | x :: _ => negb (p x) end) = true ->
  take_while p (l ++ m) = l /\ drop_while p (l ++ m) = m.
Proof.
  intros Hl Hm. induction l as [|x l IH]; simpl in *.
  - destruct m as [|y m]; [done|]. simpl. apply negb_true_iff in Hm. by rewrite Hm.
  - apply andb_true_iff in Hl as [-> Hl]. destruct (IH Hl) as [-> ->]. done.
Qed.

Lemma ceil_div_bounds a b : 0 < b -> b * (ceil_div a b - 1) < a <= b * ceil_div a b.
Proof.
  intros Hb. unfold ceil_div. pose proof (Z.div_mod (- a) b ltac:(lia)).
  pose proof (Z.mod_pos_bound (- a) b Hb). nia.
Qed.

(** [take k] at multiples of [k] cut a list into pages that put it back. *)
Lemma pages_concat {A} (k n : nat) (l : list A) :
  (length l <= n * k)%nat ->
  concat ((fun i => take k (drop (i * k) l)) <$> seq 0 n) = l.
Proof.
  revert l; induction n as [|n IH]; intros l Hl.
  - destruct l; simpl in *; [done|lia].
  - cbn [seq fmap list_fmap concat]. rewrite <- fmap_S_seq, <- list_fmap_compose.
    replace (0 * k)%nat with 0%nat by lia. rewrite drop_0.
    transitivity (take k l ++ drop k l); [|apply take_drop]. f_equal.
    etransitivity; [|apply (IH (drop k l)); rewrite length_drop; lia].
    f_equal. apply list_fmap_ext. intros _ i _. unfold compose.
    by rewrite drop_drop.
Qed.

Lemma dict_get_In {V} (d : list (string * V)) k v : dict_get d k = Some v -> In (k, v) d.
Proof.
  unfold dict_get. intros ([k' v'] & Ef & ->)%fmap_Some_1.
  apply List.find_some in Ef as [Hin Hk]. simpl in Hk. apply String.eqb_eq in Hk as ->.
  by apply in_rev.
Qed.

(** * Properties *)

(** A day count sent as text is understood exactly: the decimal text of any
    integer, sign included, coerces to that integer, blanks around it or not;
    a JSON boolean never does. *)
Theorem coerce_validity_roundtrip (z : Z) (b : bool) :
  coerce_validity_days (VStr (py_str z)) = Some z
  /\ coerce_validity_days (VInt z) = Some z
  /\ coerce_validity_days (VFloat (FFin z 0)) = Some z
  /\ coerce_validity_days (VBool b) = None.
Proof.
  split_and!; [|done| |done].
  - unfold coerce_validity_days. by rewrite strip_str, integer_text_str, py_int_str.
  - simpl. unfold integral. simpl. f_equal. lia.
Qed.

(** A duration is accepted only within the signed BIGINT range, and a count
    with a unit suffix (either case) denotes count times unit seconds. *)
Theorem parse_duration_units (n k : Z) (u field : string) :
  0 <= n -> u ∈ ["s"; "m"; "h"; "d"; "w"; "y"; "S"; "M"; "H"; "D"; "W"; "Y"]%string ->
  _UNIT_SECONDS (lower u) = Some k ->
  parse_duration_seconds (VStr (py_str n ++ u)) field =
    if _MAX_SECONDS <? n * k then Raise (InvalidDuration field (VStr (py_str n ++ u)))
    else Ok (n * k).
Proof.
  intros Hn Hu Hk.
  assert (exists c, u = unchars [c] /\ is_digit c = false /\ is_space c = false)
    as (c & -> & Hd & Hs).
  { rewrite !elem_of_cons in Hu. destruct_or!; subst; try (eexists; done).
    by apply not_elem_of_nil in Hu. }
  unfold parse_duration_seconds.
  assert (chars (py_str n ++ unchars [c])%string = format_N 10 false (Z.to_N n) ++ [c]) as E.
  { rewrite chars_app. unfold py_str. by rewrite format_Z_nonneg, !chars_unchars by done. }
  rewrite strip_id.
  2: { rewrite E. apply Forall_app. split; [|by constructor].
       eapply Forall_impl; [by apply format_N_chars|by intros ? (? & _)]. }
  unfold _DURATION_RE. rewrite E.
  destruct (take_while_app is_digit (format_N 10 false (Z.to_N n)) [c]) as [-> ->];
    [apply is_digit_format | by rewrite Hd |].
  cbn [drop_while]. rewrite Hs. apply str_in_spec in Hu.
  destruct (format_N_cons 10 false (Z.to_N n) ltac:(lia)) as (c' & l' & Ef).
  rewrite Ef, <- Ef, Hu. rewrite py_int_format by lia. rewrite Z2N.id by done.
  cbv [mbind option_bind]. rewrite Hk.
  assert (0 <= k) as Hk0.
  { revert Hk. unfold _UNIT_SECONDS. repeat case_match; intros; simplify_eq; lia. }
  destruct (Z.ltb_spec (n * k) 0); [nia|]. done.
Qed.

Lemma parse_duration_units_witness :
  parse_duration_seconds (VStr (py_str 365 ++ "d")) "ttl" = Ok 31536000.
Proof.
  etransitivity; [apply (parse_duration_units 365 86400 "d"); [lia| |reflexivity]|reflexivity].
  apply str_in_spec. reflexivity.
Defined.

(** Pages partition the listing: reading pages 1 to [total_pages] of a
    non-empty listing and putting them side by side gives every row once, in
    order, and no page exceeds 100 rows. *)
Theorem paginate_partition {A} (query : list A) (per_page : Z) :
  0 < Z.of_nat (length query) ->
  let pages := total_pages (paginate query 1 per_page).2 in
  concat ((fun i => (paginate query (Z.of_nat i + 1) per_page).1) <$> seq 0 (Z.to_nat pages))
    = query
  /\ forall page, (length (paginate query page per_page).1 <= 100)%nat.
Proof.
  intros Hq. unfold paginate. cbn [fst snd total_pages].
  set (pp := if 100 <? _ then 100 else _).
  assert (1 <= pp <= 100) as Hpp by (subst pp; split_ifs; bools; lia).
  rewrite (proj2 (Z.ltb_lt _ _) Hq). split.
  - pose proof (ceil_div_bounds (Z.of_nat (length query)) pp ltac:(lia)) as Hc.
    assert (0 < ceil_div (Z.of_nat (length query)) pp) by nia.
    etransitivity; [|apply (pages_concat (Z.to_nat pp)
      (Z.to_nat (ceil_div (Z.of_nat (length query)) pp))); nia].
    f_equal. apply list_fmap_ext. intros _ i _.
    destruct (Z.ltb_spec (Z.of_nat i + 1) 1); [lia|].
    replace (Z.to_nat ((Z.of_nat i + 1 - 1) * pp)) with (i * Z.to_nat pp)%nat by nia. done.
  - intros page. rewrite length_take. lia.
Qed.

Lemma paginate_partition_witness :
  concat ((fun i => (paginate [10; 20; 30; 40; 50] (Z.of_nat i + 1) 2).1)
            <$> seq 0 (Z.to_nat 3)) = [10; 20; 30; 40; 50].
Proof. apply (paginate_partition [10; 20; 30; 40; 50] 2). reflexivity. Defined.

(** The signed remaining days: positive exactly while the certificate is
    valid, zero only at the instant of expiry, negative after it; time left is
    rounded up, time past rounded down, and [has_expired] says [valid_to <= now]. *)
Theorem days_remaining_sign (v now : Z) :
  exists d, days_remaining (Some v) now = Some d
    /\ (now < v -> 0 < d /\ day_us * (d - 1) < v - now <= day_us * d)
    /\ (v <= now -> d <= 0 /\ day_us * d <= v - now < day_us * (d + 1))
    /\ (d = 0 <-> v = now)
    /\ has_expired (Some v) now = (v <=? now).
Proof.
  unfold has_expired, days_remaining. eexists. split; [done|].
  assert (0 < day_us) as Hd by done.
  destruct (Z.ltb_spec 0 (v - now)) as [H|H].
  - pose proof (ceil_div_bounds (v - now) day_us Hd).
    split_and!; [nia..|]. destruct (Z.leb_spec v now); [lia|]. apply Z.leb_gt. nia.
  - pose proof (Z.div_mod (v - now) day_us ltac:(lia)).
    pose proof (Z.mod_pos_bound (v - now) day_us Hd).
    split_and!; [nia..|]. destruct (Z.leb_spec v now); [|lia]. apply Z.leb_le. nia.
Qed.

(** Every accepted revocation reason is one of the nine canonical names, is
    left alone by a second normalisation, and maps to a CRL reason that is
    never [removeFromCRL]; codes are the RFC 5280 ones, one per flag. *)
Theorem normalize_reason_canonical (v : pyval) (r : string) :
  normalize_revocation_reason v = Some r ->
  r ∈ REVOCATION_REASONS
  /\ normalize_revocation_reason (VStr r) = Some r
  /\ exists f, dict_get REASON_FLAGS r = Some f /\ f <> remove_from_crl
      /\ forall g, REASON_CODES g = REASON_CODES f -> g = f.
Proof.
  intros H.
  assert (r ∈ REVOCATION_REASONS) as Hr.
  { assert (forall k, dict_get _CANONICAL k = Some r -> r ∈ REVOCATION_REASONS) as HD.
    { intros k Hk%dict_get_In. apply str_in_spec.
      assert (forallb (fun kv => str_in kv.2 REVOCATION_REASONS) _CANONICAL = true) as HF by done.
      rewrite forallb_forall in HF. by apply (HF (k, r)). }
    destruct v; simplify_eq/=; [apply str_in_spec; done|].
    destruct (nonempty _); [eauto|]. simplify_eq. apply str_in_spec; done. }
  clear H. split; [done|].
  apply list_elem_of_In in Hr. simpl in Hr.
  destruct_or!; subst; try done;
    (split; [done|]; eexists; split; [vm_compute; reflexivity|]; split; [done|];
     intros []; done).
Qed.

Lemma normalize_reason_canonical_witness :
  normalize_revocation_reason (VStr " CA_Compromise ") = Some "cACompromise"%string
  /\ "cACompromise"%string ∈ REVOCATION_REASONS.
Proof.
  split; [reflexivity|].
  apply (normalize_reason_canonical (VStr " CA_Compromise ")). reflexivity.
Defined.
