(* ===== verification/KeyAlgorithms.v ===== *)
(** * KeyAlgorithms: the registry of key algorithms

    Models [backend/utils/key_algorithms.py] (the table, its lookup indexes, what a
    key is recognised as) and [_normalize_key_type_label] of
    [backend/services/template_service.py]. A key is what the code asks of it: its
    class, its size or the name of its curve. Whether the build has ML-DSA is an
    argument. A value is a text here: the code takes [str] of it first. *)

From Stdlib Require Import Ascii String.
From stdpp Require Import prelude strings gmap.
From S2P Require Import Prelude Scalars.

Local Open Scope string_scope.
Local Open Scope Z_scope.

Record KeyAlgorithm := {
  label : string; family : string; param : option string;
  needs_digest : bool; default_digest : option string;
  display : string; legacy_key_algo : string; trust_store_id : option string;
  fips_approved : bool; key_size : option Z;
  curve_names : list string; aliases : list string;
  security_level : option Z; oid : option string;
}.

#[export] Instance KeyAlgorithm_eq_dec : EqDecision KeyAlgorithm.
Proof. solve_decision. Defined.

Definition _rsa (bits : Z) : KeyAlgorithm :=
  {| label := "RSA-" ++ py_str bits; family := "RSA"; param := Some (py_str bits);
     needs_digest := true; default_digest := Some "sha256";
     display := "RSA " ++ py_str bits; legacy_key_algo := "RSA " ++ py_str bits;
     trust_store_id := Some (py_str bits); fips_approved := 2048 <=? bits; key_size := Some bits;
     curve_names := []; aliases := []; security_level := None; oid := None |}.

Definition _ec (bits : Z) (curve_name : string) (names : list string) (store_id : string)
    : KeyAlgorithm :=
  {| label := "EC-P" ++ py_str bits; family := "EC"; param := Some ("P" ++ py_str bits);
     needs_digest := true; default_digest := Some "sha256";
     display := "EC P-" ++ py_str bits; legacy_key_algo := "EC " ++ curve_name;
     trust_store_id := Some store_id; fips_approved := true; key_size := Some bits;
     curve_names := names;
     aliases := ["P-" ++ py_str bits; "NIST P-" ++ py_str bits; "ECDSA-P" ++ py_str bits];
     security_level := None; oid := None |}.

Definition _brainpool (bits : Z) : KeyAlgorithm :=
  let name := "brainpoolP" ++ py_str bits ++ "r1" in
  {| label := "EC-BP" ++ py_str bits; family := "EC"; param := Some ("BP" ++ py_str bits);
     needs_digest := true;
     default_digest := (if bits =? 256 then Some "sha256" else if bits =? 384 then Some "sha384"
                        else if bits =? 512 then Some "sha512" else None);
     display := "EC Brainpool P" ++ py_str bits ++ "r1"; legacy_key_algo := "EC " ++ name;
     trust_store_id := Some name; fips_approved := false; key_size := Some bits;
     curve_names := [lower name]; aliases := [name; "EC-" ++ name; "BP-" ++ py_str bits];
     security_level := None; oid := None |}.

Definition _edwards (name : string) (bits : Z) : KeyAlgorithm :=
  {| label := upper name; family := upper name; param := None;
     needs_digest := false; default_digest := None;
     display := name; legacy_key_algo := name; trust_store_id := None;
     fips_approved := false; key_size := Some bits; curve_names := []; aliases := [];
     security_level := None; oid := None |}.

Definition _mldsa (p : string) (level oid_arc : Z) : KeyAlgorithm :=
  let l := "ML-DSA-" ++ p in
  {| label := l; family := "ML-DSA"; param := Some p;
     needs_digest := false; default_digest := None;
     display := l; legacy_key_algo := l; trust_store_id := Some (lower l);
     fips_approved := false; key_size := None; curve_names := []; aliases := [];
     security_level := Some level; oid := Some ("2.16.840.1.101.3.4.3." ++ py_str oid_arc) |}.

Definition _CLASSICAL : list KeyAlgorithm :=
  [ _rsa 2048; _rsa 3072; _rsa 4096;
    _ec 256 "secp256r1" ["secp256r1"; "prime256v1"] "prime256v1";
    _ec 384 "secp384r1" ["secp384r1"] "secp384r1";
    _ec 521 "secp521r1" ["secp521r1"] "secp521r1";
    _brainpool 256; _brainpool 384; _brainpool 512;
    _edwards "Ed25519" 256; _edwards "Ed448" 448 ].

Definition _ML_DSA : list KeyAlgorithm := [ _mldsa "44" 2 17; _mldsa "65" 3 18; _mldsa "87" 5 19 ].

(** ** Lookup indexes *)

(* re.sub(r'[\s_:-]+', '', str(value).strip().lower()) *)
Definition insignificant (c : ascii) : bool :=
  is_space c || Ascii.eqb c "_" || Ascii.eqb c ":" || Ascii.eqb c "-".
Definition _collapse (value : string) : string :=
  unchars (List.filter (fun c => negb (insignificant c)) (chars (lower (strip value)))).

Record _Registry := {
  algorithms : list KeyAlgorithm;
  by_label : gmap string KeyAlgorithm;
  by_spelling : gmap string KeyAlgorithm;
  by_curve : gmap string KeyAlgorithm;
}.

Inductive registry_error :=
| DuplicateLabel (l : string)
| Ambiguous (spelling owner other : string).

Definition spellings (alg : KeyAlgorithm) : list string :=
  List.filter nonempty
    ([label alg; display alg; legacy_key_algo alg] ++ option_list (trust_store_id alg)
     ++ curve_names alg ++ aliases alg).

(* setdefault: the first owner stays *)
Fixpoint add_spellings (alg : KeyAlgorithm) (l : list string) (m : gmap string KeyAlgorithm)
    : result registry_error (gmap string KeyAlgorithm) :=
  match l with
  | [] => Ok m
  | s :: l' =>
      match m !! _collapse s with
      | None => add_spellings alg l' (<[_collapse s := alg]> m)
      | Some owner => if bool_decide (owner = alg) then add_spellings alg l' m
                      else Raise (Ambiguous s (label owner) (label alg))
      end
  end.

Fixpoint add_algorithms (l : list KeyAlgorithm) (r : _Registry) : result registry_error _Registry :=
  match l with
  | [] => Ok r
  | alg :: l' =>
      match by_label r !! label alg with
      | Some _ => Raise (DuplicateLabel (label alg))
      | None =>
          match add_spellings alg (spellings alg) (by_spelling r) with
          | Raise e => Raise e
          | Ok m =>
              add_algorithms l'
                {| algorithms := algorithms r;
                   by_label := <[label alg := alg]> (by_label r);
                   by_spelling := m;
                   by_curve := fold_left (fun c n => <[lower n := alg]> c) (curve_names alg)
                                 (by_curve r) |}
          end
      end
  end.

Definition new_registry (l : list KeyAlgorithm) : result registry_error _Registry :=
  add_algorithms l {| algorithms := l; by_label := ∅; by_spelling := ∅; by_curve := ∅ |}.

Definition empty_registry : _Registry :=
  {| algorithms := []; by_label := ∅; by_spelling := ∅; by_curve := ∅ |}.

Definition ALGORITHMS (mldsa_supported : bool) : list KeyAlgorithm :=
  (_CLASSICAL ++ (if mldsa_supported then _ML_DSA else []))%list.

Definition registry_of (l : list KeyAlgorithm) : _Registry :=
  match new_registry l with Ok r => r | Raise _ => empty_registry end.

(* _load *)
Definition _REGISTRY (mldsa_supported : bool) : _Registry := registry_of (ALGORITHMS mldsa_supported).
Definition _UNAVAILABLE (mldsa_supported : bool) : _Registry :=
  registry_of (if mldsa_supported then [] else _ML_DSA).
Definition _KNOWN : _Registry := registry_of (_CLASSICAL ++ _ML_DSA)%list.

Section Build.
Variable reg : _Registry.

Definition get (value : option string) : option KeyAlgorithm :=
  v ← value; if nonempty (_collapse v) then by_spelling reg !! _collapse v else None.

Definition normalize_label (value : option string) : option string := label <$> get value.
Definition parse_label (value : option string) : option (string * option string) :=
  (fun a => (family a, param a)) <$> get value.
Definition label_for_curve_name (name : string) : option string :=
  label <$> by_curve reg !! lower (strip name).
Definition labels : list string := label <$> algorithms reg.

(** ** Keys *)

Inductive key_class :=
| RsaKey (bits : Z) | EcKey (curve : string) | Ed25519Key | Ed448Key
| MlDsaKey (p : string) | DsaKey (bits : Z) | UnknownKey.

Definition instance_of (alg : KeyAlgorithm) (k : key_class) : bool :=
  match k with
  | RsaKey _ => (family alg =? "RSA")%string
  | EcKey _ => (family alg =? "EC")%string
  | Ed25519Key => (family alg =? "ED25519")%string
  | Ed448Key => (family alg =? "ED448")%string
  | MlDsaKey p => (family alg =? "ML-DSA")%string && bool_decide (param alg = Some p)
  | DsaKey _ | UnknownKey => false
  end.

Definition matches_key (alg : KeyAlgorithm) (k : key_class) : bool :=
  instance_of alg k &&
  match curve_names alg, k with
  | _ :: _, EcKey c => str_in (lower c) (curve_names alg)
  | _ :: _, _ => false
  | [], RsaKey bits => bool_decide (key_size alg = Some bits)
  | [], _ => true
  end.

Definition family_for_public_key (k : key_class) : option string :=
  family <$> List.find (fun a => instance_of a k) (algorithms reg).
Definition label_for_public_key (k : key_class) : option string :=
  label <$> List.find (fun a => matches_key a k) (algorithms reg).
Definition default_digest_for_key (k : key_class) : option string :=
  match List.find (fun a => matches_key a k) (algorithms reg) with
  | Some a => default_digest a
  | None => Some "sha256"
  end.
Definition key_needs_digest (k : key_class) : bool :=
  match List.find (fun a => matches_key a k) (algorithms reg) with
  | Some a => needs_digest a
  | None => true
  end.
Definition key_algo_for_public_key (k : key_class) : string :=
  match List.find (fun a => matches_key a k) (algorithms reg) with
  | Some a => legacy_key_algo a
  | None => match k with
            | RsaKey bits => "RSA " ++ py_str bits
            | EcKey c => "EC " ++ c
            | DsaKey bits => "DSA " ++ py_str bits
            | _ => "Unknown"
            end
  end.

Definition fips_approved_label (value : option string) : bool :=
  match get value with Some a => fips_approved a | None => false end.
Definition fips_approved_for_key (k : key_class) : bool :=
  match List.find (fun a => matches_key a k) (algorithms reg) with
  | Some a => fips_approved a
  | None => match k with RsaKey bits => 2048 <=? bits | _ => false end
  end.
Definition fips_approved_labels : list string :=
  label <$> List.filter fips_approved (algorithms reg).

Definition EXPORT_FORMATS : list string :=
  ["pem"; "der"; "key"; "pkcs8"; "pkcs7"; "p7b"; "pkcs12"; "pfx"; "jks"].
Definition _KEY_CONTAINERS : list string := ["pkcs12"; "pfx"; "jks"].
Definition export_formats_for (fam : option string) : list string :=
  if bool_decide (fam = Some "ML-DSA")
  then List.filter (fun f => negb (str_in f _KEY_CONTAINERS)) EXPORT_FORMATS else EXPORT_FORMATS.

(** ** template_service._normalize_key_type_label *)

Definition legacy_label (uppered : string) : option string :=
  match partition ":" uppered with
  | None => None
  | Some (algo, p) =>
      if (algo =? "RSA")%string && isdigit p then Some ("RSA-" ++ p)
      else if (algo =? "EC")%string && startswith p "P" && isdigit (sdrop 1 p) then Some ("EC-" ++ p)
      else None
  end.

Definition takes_alias (a : KeyAlgorithm) : bool :=
  (family a =? "ML-DSA")%string
  || ((family a =? "EC")%string && match param a with Some p => startswith p "BP" | None => false end).

Definition _normalize_key_type_label (value : option string) : option string :=
  raw ← value;
  let v := strip raw in
  if negb (nonempty v) then None
  else if isdigit v then Some ("RSA-" ++ v)
  else match label_for_curve_name v with
  | Some l => Some l
  | None =>
      match List.filter takes_alias (option_list (get (Some v))) with
      | a :: _ => Some (label a)
      | [] =>
          let uppered := upper v in
          if startswith uppered "RSA-" || startswith uppered "EC-" || str_in uppered labels
          then Some uppered else legacy_label uppered
      end
  end.
End Build.

(** ** Post-quantum names *)

Record PostQuantumName := { pq_label : string; pq_family : string; pq_level : Z; pq_oid : string }.

Definition _SLH_DSA : list PostQuantumName :=
  imap (fun i hnv =>
          let '(h, n, v) := hnv in
          {| pq_label := "SLH-DSA-" ++ h ++ "-" ++ py_str n ++ v; pq_family := "SLH-DSA";
             pq_level := (if n =? 128 then 1 else if n =? 192 then 3 else 5);
             pq_oid := "2.16.840.1.101.3.4.3." ++ py_str (20 + Z.of_nat i) |})
    (h ← ["SHA2"; "SHAKE"]; n ← [128; 192; 256]; v ← ["s"; "f"]; [(h, n, v)]).

Definition pq_of (a : KeyAlgorithm) : option PostQuantumName :=
  level ← security_level a; o ← oid a;
  Some {| pq_label := label a; pq_family := family a; pq_level := level; pq_oid := o |}.

Definition _POST_QUANTUM : gmap string PostQuantumName :=
  let index := omap pq_of (by_spelling _KNOWN) in
  let index := fold_left (fun m n => <[_collapse (pq_label n) := n]> m) _SLH_DSA index in
  fold_left (fun m n => <[pq_oid n := n]> m) (omap pq_of _ML_DSA ++ _SLH_DSA)%list index.

Definition post_quantum_info (value : option string) : option PostQuantumName :=
  raw ← value;
  let text := strip raw in
  match _POST_QUANTUM !! text with
  | Some n => Some n
  | None => _POST_QUANTUM !! _collapse text
  end.
Definition is_post_quantum (value : option string) : bool :=
  bool_decide (is_Some (post_quantum_info value)).
Definition label_for_signature_oid (dotted : string) : option string :=
  if nonempty dotted
  then label <$> List.find (fun a => bool_decide (oid a = Some dotted)) (algorithms _KNOWN) else None.

(** * Lemmas *)

Lemma add_spellings_spec alg l m m' :
  add_spellings alg l m = Ok m' ->
  m ⊆ m' /\ (forall s, s ∈ l -> m' !! _collapse s = Some alg)
  /\ forall k a, m' !! k = Some a -> m !! k = Some a \/ a = alg /\ exists s, s ∈ l /\ _collapse s = k.
Proof.
  revert m. induction l as [|s l IH]; intros m H; simpl in H.
  { injection H as <-. split; [done|]. split; [intros ? []%elem_of_nil|by left]. }
  destruct (m !! _collapse s) as [owner|] eqn:E.
  - case_bool_decide as Ho; [|done]. subst owner. apply IH in H as (H1 & H2 & H3). split; [done|]. split.
    + intros x [->|Hx]%elem_of_cons; [by eapply lookup_weaken|auto].
    + intros k a Hk. destruct (H3 k a Hk) as [|(-> & x & Hx & <-)]; [by left|right].
      split; [done|]. exists x. split; [by right|done].
  - apply IH in H as (H1 & H2 & H3). split; [|split].
    + etransitivity; [|exact H1]. by apply insert_subseteq.
    + intros x [->|Hx]%elem_of_cons; [|auto]. eapply lookup_weaken; [apply lookup_insert_eq|done].
    + intros k a Hk. destruct (H3 k a Hk) as [Hi|(-> & x & Hx & <-)].
      * apply lookup_insert_Some in Hi as [[<- <-]|[_ Hi]]; [|by left]. right.
        split; [done|]. exists s. split; [left|done].
      * right. split; [done|]. exists x. split; [by right|done].
Qed.

Lemma add_algorithms_spec l r r' :
  add_algorithms l r = Ok r' ->
  algorithms r' = algorithms r /\ by_spelling r ⊆ by_spelling r'
  /\ (forall a s, a ∈ l -> s ∈ spellings a -> by_spelling r' !! _collapse s = Some a)
  /\ (forall k a, by_spelling r' !! k = Some a ->
        by_spelling r !! k = Some a \/ a ∈ l /\ exists s, s ∈ spellings a /\ _collapse s = k)
  /\ NoDup (label <$> l) /\ forall x, x ∈ label <$> l -> by_label r !! x = None.
Proof.
  revert r. induction l as [|alg l IH]; intros r H; simpl in H.
  { injection H as <-. split_and!; [done|done|intros ?? []%elem_of_nil|by left|constructor|].
    intros ? []%elem_of_nil. }
  destruct (by_label r !! label alg) eqn:El; [done|].
  destruct (add_spellings alg (spellings alg) (by_spelling r)) as [m|] eqn:Es; [|done].
  apply add_spellings_spec in Es as (S1 & S2 & S3).
  apply IH in H as (H1 & H2 & H3 & H4 & H5 & H6). simpl in *. split_and!.
  - done.
  - by etransitivity.
  - intros a s [->|Ha]%elem_of_cons Hs; [|by apply H3]. eapply lookup_weaken; [by apply S2|done].
  - intros k a Hk. destruct (H4 k a Hk) as [Hm|(Ha & s & Hs)].
    + destruct (S3 k a Hm) as [|(-> & s & Hs)]; [by left|right]. split; [left|eauto].
    + right. split; [by right|eauto].
  - constructor; [|done]. intros Hin. apply H6 in Hin. by rewrite lookup_insert_eq in Hin.
  - intros x [->|Hx]%elem_of_cons; [done|]. apply H6 in Hx.
    by apply lookup_insert_None in Hx as [Hx _].
Qed.

Lemma registry_ok mldsa : new_registry (ALGORITHMS mldsa) = Ok (_REGISTRY mldsa).
Proof.
  unfold _REGISTRY, registry_of.
  assert (is_ok (new_registry (ALGORITHMS mldsa)) = true) as H by (destruct mldsa; vm_compute; done).
  by destruct (new_registry (ALGORITHMS mldsa)).
Qed.

Lemma spellings_collapse mldsa a s :
  a ∈ ALGORITHMS mldsa -> s ∈ spellings a -> nonempty (_collapse s) = true.
Proof.
  assert (forallb (fun a => forallb (fun s => nonempty (_collapse s)) (spellings a))
            (ALGORITHMS mldsa) = true) as H by (destruct mldsa; vm_compute; done).
  intros Ha Hs. rewrite forallb_forall in H. apply list_elem_of_In in Ha, Hs.
  specialize (H a Ha). rewrite forallb_forall in H. auto.
Qed.

Lemma get_spec mldsa value a :
  get (_REGISTRY mldsa) (Some value) = Some a <->
  a ∈ ALGORITHMS mldsa /\ exists s, s ∈ spellings a /\ _collapse s = _collapse value.
Proof.
  destruct (add_algorithms_spec _ _ _ (registry_ok mldsa)) as (_ & _ & H3 & H4 & _).
  unfold get. simpl. split.
  - destruct (nonempty (_collapse value)); [|done]. intros H. by destruct (H4 _ _ H) as [|].
  - intros (Ha & s & Hs & Hc). rewrite <- Hc, (spellings_collapse mldsa a s Ha Hs). by apply H3.
Qed.

Lemma registry_algorithms mldsa : algorithms (_REGISTRY mldsa) = ALGORITHMS mldsa.
Proof. by destruct (add_algorithms_spec _ _ _ (registry_ok mldsa)) as (H & _). Qed.

Lemma label_in_spellings mldsa a : a ∈ ALGORITHMS mldsa -> label a ∈ spellings a.
Proof.
  assert (forallb (fun a => str_in (label a) (spellings a)) (ALGORITHMS mldsa) = true) as H
    by (destruct mldsa; vm_compute; done).
  intros Ha%list_elem_of_In. rewrite forallb_forall in H. by apply str_in_spec, H.
Qed.

(** The registry is never ambiguous, with or without ML-DSA: it builds, its
    labels differ, and a text names an algorithm exactly when it is, up to case,
    blanks, hyphens, underscores and colons, one of the spellings of that
    algorithm. *)
Theorem registry_unambiguous (mldsa : bool) :
  new_registry (ALGORITHMS mldsa) = Ok (_REGISTRY mldsa)
  /\ NoDup (label <$> ALGORITHMS mldsa)
  /\ forall value a, get (_REGISTRY mldsa) (Some value) = Some a <->
       a ∈ ALGORITHMS mldsa /\ exists s, s ∈ spellings a /\ _collapse s = _collapse value.
Proof.
  split; [apply registry_ok|]. split; [|apply get_spec].
  by destruct (add_algorithms_spec _ _ _ (registry_ok mldsa)) as (_ & _ & _ & _ & H & _).
Qed.

Lemma find_some_elem {A} (p : A -> bool) l x : List.find p l = Some x -> x ∈ l /\ p x = true.
Proof. intros [H ?]%find_some. split; [by apply list_elem_of_In|done]. Qed.

Lemma digest_needed mldsa a :
  a ∈ ALGORITHMS mldsa -> needs_digest a = false <-> default_digest a = None.
Proof.
  assert (forallb (fun a => eqb (negb (needs_digest a)) (bool_decide (default_digest a = None)))
            (ALGORITHMS mldsa) = true) as H by (destruct mldsa; vm_compute; done).
  intros Ha%list_elem_of_In. rewrite forallb_forall in H. apply H, eqb_prop in Ha.
  by destruct (needs_digest a), (default_digest a).
Qed.

(** What a key is recognised as and the label stored for it agree: the label of a
    key names an algorithm that matches the key, and the digest, the need for one and
    the FIPS approval read from the key are those of the label. *)
Theorem key_label_agrees (mldsa : bool) (k : key_class) (l : string) :
  let reg := _REGISTRY mldsa in
  label_for_public_key reg k = Some l ->
  exists a, get reg (Some l) = Some a /\ label a = l /\ matches_key a k = true
    /\ default_digest_for_key reg k = default_digest a /\ key_needs_digest reg k = needs_digest a
    /\ fips_approved_for_key reg k = fips_approved_label reg (Some l)
    /\ (key_needs_digest reg k = false <-> default_digest_for_key reg k = None).
Proof.
  intros reg H. unfold label_for_public_key in H. apply fmap_Some in H as (a & Hf & ->).
  pose proof (find_some_elem _ _ _ Hf) as [Ha Hm]. unfold reg in Ha. rewrite registry_algorithms in Ha.
  assert (get reg (Some (label a)) = Some a) as Hg.
  { apply get_spec. split; [done|]. exists (label a). split; [by eapply label_in_spellings|done]. }
  pose proof (digest_needed mldsa a Ha) as Hd.
  exists a. unfold default_digest_for_key, key_needs_digest, fips_approved_for_key, fips_approved_label.
  rewrite Hf, Hg. do 2 (split; [reflexivity|]). split; [exact Hm|].
  do 3 (split; [reflexivity|]). exact Hd.
Qed.

Lemma key_label_agrees_witness :
  exists a, get (_REGISTRY true) (Some "EC-P256"%string) = Some a /\ matches_key a (EcKey "prime256v1") = true.
Proof.
  destruct (key_label_agrees true (EcKey "prime256v1") "EC-P256" ltac:(vm_compute; reflexivity))
    as (a & Hg & _ & Hm & _).
  exists a. split; [exact Hg|exact Hm].
Defined.

(** ** Labels are stable *)

#[local] Opaque _REGISTRY ALGORITHMS.
#[local] Arguments get : simpl never.

Lemma upper_digit c : is_digit c = true -> upper_char c = c /\ lower_char c = c /\ insignificant c = false /\ is_space c = false.
Proof. destruct c as [[] [] [] [] [] [] [] []]; vm_compute; done. Qed.
Lemma collapse_upper s : _collapse (upper s) = _collapse s.
Proof. unfold _collapse. by rewrite strip_upper, lower_upper. Qed.

(* a curve name starts like no label that is passed through *)
Lemma curve_entry mldsa k a :
  by_curve (_REGISTRY mldsa) !! k = Some a ->
  a ∈ ALGORITHMS mldsa /\ startswith k "rsa-" = false /\ startswith k "ec-" = false.
Proof.
  assert (forallb (fun ka => bool_decide (ka.2 ∈ ALGORITHMS mldsa) && negb (startswith ka.1 "rsa-")
            && negb (startswith ka.1 "ec-")) (map_to_list (by_curve (_REGISTRY mldsa))) = true) as H
    by (destruct mldsa; vm_compute; done).
  intros Hk%elem_of_map_to_list%list_elem_of_In. rewrite forallb_forall in H. specialize (H _ Hk).
  simpl in H. apply andb_true_iff in H as [[H1 H2]%andb_true_iff H3].
  apply bool_decide_eq_true in H1. apply negb_true_iff in H2, H3. auto.
Qed.

(* nor does a spelling of an algorithm whose aliases are read *)
Lemma alias_entry mldsa a s :
  a ∈ ALGORITHMS mldsa -> takes_alias a = true -> s ∈ spellings a ->
  startswith (_collapse s) "rsa" = false /\ startswith (_collapse s) "ecp" = false.
Proof.
  assert (forallb (fun a => negb (takes_alias a) || forallb (fun s =>
            negb (startswith (_collapse s) "rsa") && negb (startswith (_collapse s) "ecp")) (spellings a))
            (ALGORITHMS mldsa) = true) as H by (destruct mldsa; vm_compute; done).
  intros Ha%list_elem_of_In Ht Hs%list_elem_of_In. rewrite forallb_forall in H. specialize (H a Ha).
  rewrite Ht in H. simpl in H. rewrite forallb_forall in H. specialize (H s Hs).
  apply andb_true_iff in H as [H1 H2]. by apply negb_true_iff in H1, H2.
Qed.

Lemma labels_stable mldsa a : a ∈ ALGORITHMS mldsa ->
  _normalize_key_type_label (_REGISTRY mldsa) (Some (label a)) = Some (label a).
Proof.
  assert (forallb (fun a => bool_decide (_normalize_key_type_label (_REGISTRY mldsa) (Some (label a))
            = Some (label a))) (ALGORITHMS mldsa) = true) as H by (destruct mldsa; vm_compute; done).
  intros Ha%list_elem_of_In. rewrite forallb_forall in H.
  exact (proj1 (bool_decide_eq_true _) (H a Ha)).
Qed.

Lemma aliases_read mldsa v a l :
  List.filter takes_alias (option_list (get (_REGISTRY mldsa) (Some v))) = a :: l ->
  a ∈ ALGORITHMS mldsa /\ takes_alias a = true /\ exists s, s ∈ spellings a /\ _collapse s = _collapse v.
Proof.
  destruct (get (_REGISTRY mldsa) (Some v)) as [b|] eqn:E; simpl; [|done].
  destruct (takes_alias b) eqn:Et; [|done]. intros [= -> _]. apply get_spec in E as [? ?]. auto.
Qed.

(* a text that is passed through stays as it is *)
Lemma passed_through mldsa p q d :
  p = "RSA-" /\ q = "rsa" \/ p = "EC-P" /\ q = "ecp" ->
  forallb is_digit (chars d) = true ->
  _normalize_key_type_label (_REGISTRY mldsa) (Some (p ++ d)) = Some (p ++ d).
Proof.
  intros Hpq Hd. rewrite forallb_forall in Hd.
  assert (Forall (fun c => is_digit c = true) (chars d)) as Hf
    by (apply Forall_forall; intros c Hc; by apply Hd, list_elem_of_In).
  assert (strip (p ++ d) = p ++ d) as Hstrip.
  { apply strip_id. rewrite chars_app. apply Forall_app. split.
    - destruct Hpq as [[-> ->]|[-> ->]]; repeat constructor.
    - eapply Forall_impl; [exact Hf|]. intros c Hc. by apply upper_digit in Hc as (_ & _ & _ & ?). }
  assert (upper (p ++ d) = p ++ d) as Hup.
  { apply chars_inj. unfold upper. rewrite chars_smap, chars_app, fmap_app. f_equal.
    - destruct Hpq as [[-> ->]|[-> ->]]; done.
    - rewrite <- (list_fmap_id (chars d)) at 2. apply list_fmap_ext. intros i c Hc.
      rewrite Forall_lookup in Hf. by apply Hf, upper_digit in Hc as (? & _). }
  assert (startswith (_collapse (p ++ d)) q = true) as Hcol.
  { unfold _collapse. rewrite Hstrip. unfold lower. rewrite chars_smap, chars_app, fmap_app.
    rewrite List.filter_app, unchars_app. apply startswith_spec.
    destruct Hpq as [[-> ->]|[-> ->]]; eexists; reflexivity. }
  assert (exists t, lower (p ++ d) = (if bool_decide (q = "rsa") then "rsa-" else "ec-p") ++ t) as [t Ht].
  { unfold lower, smap. rewrite chars_app, fmap_app, unchars_app.
    destruct Hpq as [[-> ->]|[-> ->]]; eexists; reflexivity. }
  unfold _normalize_key_type_label. simpl. rewrite Hstrip.
  assert (nonempty (p ++ d) = true /\ isdigit (p ++ d) = false) as [-> ->]
    by (destruct Hpq as [[-> ->]|[-> ->]]; done). simpl.
  unfold label_for_curve_name. rewrite Hstrip.
  destruct (by_curve (_REGISTRY mldsa) !! lower (p ++ d)) as [a|] eqn:Ec.
  { exfalso. apply curve_entry in Ec as (_ & H1 & H2). rewrite Ht in H1, H2.
    destruct Hpq as [[-> ->]|[-> ->]]; done. }
  simpl. destruct (List.filter takes_alias _) as [|a l] eqn:Ea.
  - rewrite Hup. destruct Hpq as [[-> ->]|[-> ->]]; done.
  - exfalso. apply aliases_read in Ea as (Ha & Ht' & s & Hs & Hc).
    destruct (alias_entry mldsa a s Ha Ht' Hs) as [H1 H2]. rewrite Hc in H1, H2.
    destruct Hpq as [[-> ->]|[-> ->]]; congruence.
Qed.

(** The label a key type is compared by is stable: whatever text it is read from
    (a size, a curve name, an alias, a label in either case, the legacy colon form),
    reading the label again gives the same label, so a policy or a template saved with
    normalized labels means what was entered. *)
Theorem key_type_label_stable (mldsa : bool) (value : option string) (l : string) :
  _normalize_key_type_label (_REGISTRY mldsa) value = Some l ->
  _normalize_key_type_label (_REGISTRY mldsa) (Some l) = Some l.
Proof.
  destruct value as [raw|]; [|done]. intros H. unfold _normalize_key_type_label in H. simpl in H.
  assert (strip (strip raw) = strip raw) as Hv by apply strip_idemp.
  set (v := strip raw) in *. clearbody v. destruct (nonempty v) eqn:Ev; [|done]. simpl in H.
  destruct (isdigit v) eqn:Ed.
  { injection H as <-. unfold isdigit in Ed. apply andb_true_iff in Ed as [_ Ed].
    apply (passed_through mldsa "RSA-" "rsa" v); [by left|exact Ed]. }
  unfold label_for_curve_name in H.
  destruct (by_curve (_REGISTRY mldsa) !! lower (strip v)) as [a|] eqn:Ec; simpl in H.
  { injection H as <-. apply labels_stable. by apply curve_entry in Ec as [? _]. }
  destruct (List.filter takes_alias (option_list (get (_REGISTRY mldsa) (Some v)))) as [|a t] eqn:Ea.
  2: { injection H as <-. apply labels_stable. by apply aliases_read in Ea as [? _]. }
  destruct (startswith (upper v) "RSA-" || startswith (upper v) "EC-"
            || str_in (upper v) (labels (_REGISTRY mldsa))) eqn:Ep.
  - injection H as <-.
    assert (get (_REGISTRY mldsa) (Some (upper v)) = get (_REGISTRY mldsa) (Some v)) as Hg
      by (unfold get, mbind, option_bind; by rewrite collapse_upper).
    unfold _normalize_key_type_label, mbind, option_bind, label_for_curve_name. cbv zeta.
    rewrite strip_upper, Hv, nonempty_upper, isdigit_upper, Ev, Ed, strip_upper, lower_upper, Ec.
    cbn [negb fmap option_fmap option_map]. rewrite Hg, Ea, upper_idemp, Ep. reflexivity.
  - clear Ep Ea Ec. unfold legacy_label in H. destruct (partition ":" (upper v)) as [[algo p]|]; [|done].
    destruct ((algo =? "RSA")%string && isdigit p) eqn:E1.
    + injection H as <-. apply andb_true_iff in E1 as [_ E1].
      unfold isdigit in E1. apply andb_true_iff in E1 as [_ E1].
      apply (passed_through mldsa "RSA-" "rsa" p); [by left|exact E1].
    + destruct ((algo =? "EC")%string && startswith p "P" && isdigit (sdrop 1 p)) eqn:E2; [|done].
      injection H as <-. apply andb_true_iff in E2 as [[_ Hp]%andb_true_iff E2].
      apply startswith_spec in Hp as [t ->].
      change ("EC-" ++ ("P" ++ t)) with ("EC-P" ++ t).
      unfold isdigit in E2. apply andb_true_iff in E2 as [_ E2].
      unfold sdrop, all_chars in E2. rewrite chars_unchars in E2.
      apply (passed_through mldsa "EC-P" "ecp" t); [by right|exact E2].
Qed.
