(* ===== verification/Policies.v ===== *)
(** * Policies: which policies bind a request, and what their rules say

    Models [CertificatePolicy] of [backend/models/policy.py] and the evaluation of
    [backend/services/policy_service.py]. The rules of a policy are its JSON read
    field by field; a date is its day number, [None] where the stored text is not a
    date. A message is a constructor with the values that its text shows. The system
    policies (FIPS mode, the compliance profiles of the CAs) are arguments. *)

From Stdlib Require Import Ascii String Sorted.
From stdpp Require Import prelude strings.
From S2P Require Import Prelude Scalars KeyAlgorithms.

Local Open Scope string_scope.
Local Open Scope Z_scope.

(** ** models/policy.py *)

Definition OPERATIONS : list string := ["issuance"; "renewal"; "revocation"].

Definition legacy_operations (policy_type : option string) : list string :=
  match policy_type with
  | None | Some "" | Some "issuance" => ["issuance"]
  | _ => []
  end.

(* the operations column: NULL, not JSON, JSON but not a list, a list *)
Inductive stored_operations := OpsNull | OpsBroken | OpsNotList | OpsList (l : list string).

Record rules := {
  max_validity_days : pyval;
  allowed_key_types : option (list string);          (* None: absent or not a list *)
  allowed_digests : option (list string);
  allowed_signature_schemes : option (list string);
  key_type_horizons : list (string * option Z);
  key_type_issue_until : list (string * option Z);
  require_hsm_ca_key : bool;                         (* is True *)
  hsm_certifications : list (string * option (option Z));  (* None: not a date; Some None: null *)
  tsa_signer_key_types : option (list string);
  pq_standalone : bool;                              (* is True *)
  dns_pattern : string;
  max_dns_names : pyval;
}.

Definition no_rules : rules :=
  {| max_validity_days := VNone; allowed_key_types := None; allowed_digests := None;
     allowed_signature_schemes := None; key_type_horizons := []; key_type_issue_until := [];
     require_hsm_ca_key := false; hsm_certifications := []; tsa_signer_key_types := None;
     pq_standalone := false; dns_pattern := ""; max_dns_names := VNone |}.

Inductive policy_kind := StoredPolicy | FipsPolicy | ProfilePolicy.
#[export] Instance policy_kind_eq_dec : EqDecision policy_kind.
Proof. solve_decision. Defined.

Record CertificatePolicy := {
  policy_id : Z;
  name : string;
  kind : policy_kind;
  policy_type : option string;
  operations : stored_operations;
  policy_ca : option Z;
  template_id : option Z;
  policy_rules : rules;
  advisories : option rules;
  requires_approval : bool;
  approval_group_id : option Z;
  min_approvers : option Z;
  is_active : bool;
  priority : Z;
  description : option string;
  notify_on_violation : bool;
  notification_emails : option (list string);        (* None: no address of its own *)
}.

Definition get_operations (p : CertificatePolicy) : list string :=
  match operations p with
  | OpsNull => legacy_operations (policy_type p)
  | OpsBroken | OpsNotList => []
  | OpsList ops => List.filter (fun op => str_in op ops) OPERATIONS
  end.

Definition set_operations (ops : list string) (p : CertificatePolicy) : CertificatePolicy :=
  let ops := List.filter (fun op => str_in op ops) OPERATIONS in
  {| policy_id := policy_id p; name := name p; kind := kind p;
     policy_type := match ops with op :: _ => Some op | [] => policy_type p end;
     operations := OpsList ops; policy_ca := policy_ca p; template_id := template_id p;
     policy_rules := policy_rules p; advisories := advisories p;
     requires_approval := requires_approval p; approval_group_id := approval_group_id p;
     min_approvers := min_approvers p; is_active := is_active p; priority := priority p;
     description := description p; notify_on_violation := notify_on_violation p;
     notification_emails := notification_emails p |}.

Definition applies_to (p : CertificatePolicy) (operation : string) : bool :=
  str_in operation (get_operations p).

(** ** Scope *)

Definition RENEWAL_OPERATIONS : list string := ["issuance"; "renewal"].

Definition name_matches (pattern n : string) : bool :=
  if (pattern =? "*.")%string then startswith n "*."
  else startswith n pattern || endswith n pattern.

Definition _matches_rules (p : CertificatePolicy) (cn : option string) (san_list : list string) : bool :=
  let pattern := dns_pattern (policy_rules p) in
  if negb (nonempty pattern) then true
  else
    let names := (List.filter nonempty (option_list cn) ++ san_list)%list in
    existsb (name_matches pattern) names.

(* ORDER BY priority *)
Fixpoint insert_policy (p : CertificatePolicy) (l : list CertificatePolicy) : list CertificatePolicy :=
  match l with
  | [] => [p]
  | q :: l' => if priority q <=? priority p then q :: insert_policy p l' else p :: l
  end.
Definition by_priority (l : list CertificatePolicy) : list CertificatePolicy :=
  fold_left (fun acc p => insert_policy p acc) l [].

Definition covers (ops : list string) (ca_ids : list (option Z)) (template : option Z)
    (cn : option string) (san_list : list string) (p : CertificatePolicy) : bool :=
  existsb (applies_to p) ops
  && match policy_ca p with None => true | Some c => bool_decide (Some c ∈ ca_ids) end
  && match template_id p with None => true | Some t => bool_decide (template = Some t) end
  && _matches_rules p cn san_list.

Definition _in_scope (table : list CertificatePolicy) (ops : list string) (ca_ids : list (option Z))
    (template : option Z) (cn : option string) (san_list : list string) (approval : bool)
    : list CertificatePolicy :=
  List.filter (covers ops ca_ids template cn san_list)
    (by_priority (List.filter (fun p => is_active p && (negb approval || requires_approval p)) table)).

Definition check_approval_required (table : list CertificatePolicy) (ops : list string)
    (ca_ids : list (option Z)) (template : option Z) (cn : option string) (san_list : list string)
    : option CertificatePolicy :=
  head (_in_scope table ops ca_ids template cn san_list true).

Definition with_system_policies (fips : option CertificatePolicy) (profiles : list CertificatePolicy)
    (policies : list CertificatePolicy) : list CertificatePolicy :=
  ((if existsb (fun p => bool_decide (kind p = FipsPolicy)) policies then [] else option_list fips)
   ++ (if existsb (fun p => bool_decide (kind p = ProfilePolicy)) policies then [] else profiles)
   ++ policies)%list.

Definition applicable_policies (table : list CertificatePolicy) (fips : option CertificatePolicy)
    (profiles : list CertificatePolicy) (ops : list string) (ca_ids : list (option Z))
    (template : option Z) (cn : option string) (san_list : list string) : list CertificatePolicy :=
  with_system_policies fips profiles (_in_scope table ops ca_ids template cn san_list false).

(** ** Digests *)

Definition POLICY_DIGESTS : list string := ["sha256"; "sha384"; "sha512"].

Definition normalize_digest (value : string) : option string :=
  let n := remove_char "-" (lower (strip value)) in
  if str_in n POLICY_DIGESTS then Some n else None.

Definition _rule_digests (r : rules) : list string :=
  match allowed_digests r with
  | None => []
  | Some allowed => List.filter (fun d => str_in d (omap normalize_digest allowed)) POLICY_DIGESTS
  end.

(* one more restriction on what is left; None restricts nothing *)
Definition narrow (kept restriction : option (list string)) : option (list string) :=
  match restriction with
  | None => kept
  | Some names => match kept with
                  | None => Some names
                  | Some l => Some (List.filter (fun x => str_in x names) l)
                  end
  end.

Definition truthy_list (l : list string) : option (list string) :=
  match l with [] => None | _ => Some l end.

(* what every policy with the rule accepts; None when none restricts *)
Definition policies_digests (policies : list CertificatePolicy) : option (list string) :=
  fold_left (fun allowed p => narrow allowed (truthy_list (_rule_digests (policy_rules p)))) policies None.

Definition choose_digest (policies : list CertificatePolicy) (default_digest : string) : string :=
  let dflt := default "sha256" (normalize_digest default_digest) in
  match policies_digests policies with
  | None | Some [] => dflt
  | Some (d :: l) => if str_in dflt (d :: l) then dflt else d
  end.

(** ** Rules *)

Inductive violation :=
| NoKnownKeyType
| KeyTypeNotAllowed (key_type : string) (allowed : list string)
| DigestNotAllowed (digest : string) (allowed : list string)
| SchemeNotAllowed (scheme : string) (allowed : list string)
| PostQuantumAlone (what : string)
| BeyondHorizon (key_type : string) (end_day horizon : Z)
| IssueUntilPassed (key_type : string) (until : Z)
| KeyNotInHsm (storage : string)
| NoCertification (accepted : list string)
| CertificationNotAccepted (certification : string) (accepted : list string)
| CertificationPast (certification : string) (last : Z)
| TsaSignerKey (key_type : string) (allowed : list string)
| TooManyNames (count max : Z).

#[export] Instance violation_eq_dec : EqDecision violation.
Proof. solve_decision. Defined.

Record rule_request := {
  key_type : option string; digest : option string;
  signer_scheme : option string; signer_storage : option string;
  signer_certification : option string; not_after : option Z; today : Z;
  tsa_signer : bool; pq_hybrid : bool;
}.

Section Evaluate.
Variable reg : _Registry.
Let norm (v : string) : option string := _normalize_key_type_label reg (Some v).

Definition _label_set (values : option (list string)) : list string :=
  sorted_set (omap norm (default [] values)).

(* {normalised label: date}: the last entry of a label wins *)
Definition _label_map (mapping : list (string * option Z)) (l : string) : option Z :=
  fold_left (fun acc kv =>
    match norm kv.1, kv.2 with
    | Some n, Some day => if (n =? l)%string then Some day else acc
    | _, _ => acc
    end) mapping None.

Definition truthy_text (o : option string) : option string :=
  match o with Some "" => None | x => x end.

Definition _tsa_messages (r : rules) (requested : option string) : list violation :=
  let allowed := _label_set (tsa_signer_key_types r) in
  match requested with
  | Some q => match allowed with
              | [] => []
              | _ => if str_in q allowed then [] else [TsaSignerKey q allowed]
              end
  | None => []
  end.

(* the entries whose date can be read *)
Definition _certification_map (mapping : list (string * option (option Z)))
    : list (string * option Z) :=
  omap (fun kv => day ← kv.2; Some (kv.1, day)) mapping.

Definition certification_last (mapping : list (string * option (option Z))) (c : string)
    : option (option Z) :=
  fold_left (fun acc kv => if (kv.1 =? c)%string then Some kv.2 else acc)
    (_certification_map mapping) None.

Definition _certification_messages (r : rules) (q : rule_request) : list violation :=
  match hsm_certifications r with
  | [] => []
  | mapping =>
      let listed := sorted_set ((_certification_map mapping).*1) in
      match truthy_text (signer_certification q) with
      | None => [NoCertification listed]
      | Some c =>
          match certification_last mapping c with
          | None => [CertificationNotAccepted c listed]
          | Some (Some last) => if last <? today q then [CertificationPast c last] else []
          | Some None => []
          end
      end
  end.

Definition key_type_messages (r : rules) (q : rule_request) (requested : option string)
    (advisory : bool) : list violation :=
  match key_type q, allowed_key_types r with
  | Some kt, Some (a :: l) =>
      match _label_set (allowed_key_types r) with
      | [] => if advisory then [] else [NoKnownKeyType]
      | allowed => if match requested with Some x => str_in x allowed | None => false end then []
                   else [KeyTypeNotAllowed (default kt requested) allowed]
      end
  | _, _ => []
  end.

Definition digest_messages (r : rules) (q : rule_request) : list violation :=
  match digest q, _rule_digests r with
  | Some d, a :: l =>
      if match normalize_digest d with Some n => str_in n (a :: l) | None => false end then []
      else [DigestNotAllowed (default d (normalize_digest d)) (a :: l)]
  | _, _ => []
  end.

Definition scheme_messages (r : rules) (q : rule_request) : list violation :=
  match truthy_text (signer_scheme q), allowed_signature_schemes r with
  | Some s, Some (a :: l) => if str_in s (a :: l) then [] else [SchemeNotAllowed s (a :: l)]
  | _, _ => []
  end.

Definition _is_pq_label (k : option string) : bool :=
  let u := upper (strip (default "" k)) in startswith u "ML-DSA" || startswith u "SLH-DSA".

Definition pq_subject (q : rule_request) : option string :=
  if is_post_quantum (key_type q) || _is_pq_label (key_type q) then key_type q
  else match signer_scheme q with
       | Some s => if str_in s ["ml_dsa"; "slh_dsa"] then Some s else None
       | None => None
       end.

Definition pq_messages (r : rules) (q : rule_request) (advisory : bool) : list violation :=
  match truthy_text (pq_subject q) with
  | Some w => if pq_standalone r && negb advisory && negb (pq_hybrid q) then [PostQuantumAlone w] else []
  | None => []
  end.

Definition date_messages (r : rules) (q : rule_request) (requested : option string) : list violation :=
  match requested with
  | None => []
  | Some k =>
      ((match _label_map (key_type_horizons r) k, not_after q with
        | Some h, Some e => if h <? e then [BeyondHorizon k e h] else []
        | _, _ => []
        end)
       ++ match _label_map (key_type_issue_until r) k with
          | Some u => if u <? today q then [IssueUntilPassed k u] else []
          | None => []
          end)%list
  end.

Definition storage_messages (r : rules) (q : rule_request) : list violation :=
  ((match signer_storage q with
    | Some s => if require_hsm_ca_key r && str_in s ["software"; "softhsm"] then [KeyNotInHsm s] else []
    | None => []
    end)
   ++ if bool_decide (signer_storage q = Some "hsm") then _certification_messages r q else [])%list.

Definition _rule_messages (r : rules) (q : rule_request) (advisory : bool) : list violation :=
  let requested := k ← key_type q; norm k in
  (key_type_messages r q requested advisory ++ digest_messages r q ++ scheme_messages r q
   ++ pq_messages r q advisory ++ date_messages r q requested ++ storage_messages r q
   ++ if tsa_signer q then _tsa_messages r requested else [])%list.

(* an int that is not a bool, greater than 0 *)
Definition positive_int (v : pyval) : option Z :=
  match v with VInt z => if 0 <? z then Some z else None | _ => None end.

Definition cap (acc : option Z * option string) (p : CertificatePolicy) : option Z * option string :=
  match acc.1, positive_int (max_validity_days (policy_rules p)) with
  | Some v, Some m => if m <? v then (Some m, Some (name p)) else acc
  | _, _ => acc
  end.

Definition names_messages (r : rules) (dns_name_count : option Z) : list violation :=
  match dns_name_count, positive_int (max_dns_names r) with
  | Some n, Some m => if m <? n then [TooManyNames n m] else []
  | _, _ => []
  end.

Record request_values := {
  rv_key_type : option string; rv_dns_name_count : option Z; rv_validity_days : option Z;
  rv_digest : option string; rv_scheme : option string; rv_storage : option string;
  rv_certification : option string; rv_not_after : option Z; rv_tsa_signer : bool;
  rv_pq_hybrid : bool;
}.

(* violations by policy, the capped validity and who capped it, the notices *)
Record outcome := {
  violations : list (string * violation); effective_validity : option Z;
  capped_by : option string; notices : list (string * violation);
}.

Definition rule_request_of (v : request_values) (day : Z) (effective : option Z) : rule_request :=
  {| key_type := rv_key_type v; digest := rv_digest v; signer_scheme := rv_scheme v;
     signer_storage := rv_storage v; signer_certification := rv_certification v;
     not_after := match rv_not_after v with
                  | Some e => Some e
                  | None => (fun n => day + n) <$> effective
                  end;
     today := day; tsa_signer := rv_tsa_signer v; pq_hybrid := rv_pq_hybrid v |}.

Definition enforce_checked (checked : list CertificatePolicy) (v : request_values) (day : Z) : outcome :=
  let '(effective, capped) := fold_left cap checked (rv_validity_days v, None) in
  let q := rule_request_of v day effective in
  {| violations := checked ≫= (fun p =>
       (fun m => (name p, m)) <$>
         (_rule_messages (policy_rules p) q false
          ++ names_messages (policy_rules p) (rv_dns_name_count v))%list);
     effective_validity := effective; capped_by := capped;
     notices := dedup (fun x y => bool_decide (x = y)) (checked ≫= (fun p =>
       match advisories p with
       | Some r => (fun m => (name p, m)) <$> _rule_messages r q true
       | None => []
       end)) |}.

(* the system policies come first, unless the list already holds them *)
Definition enforce_rules (fips : option CertificatePolicy) (profiles policies : list CertificatePolicy)
    (v : request_values) (day : Z) : outcome :=
  enforce_checked (with_system_policies fips profiles policies) v day.

(** *** The rules of several policies, as a form shows them *)

Definition SIGNATURE_SCHEMES : list string :=
  ["rsa_pkcs1v15"; "rsa_pss"; "ecdsa"; "eddsa"; "ml_dsa"; "slh_dsa"].

(* the sets are sorted lists; sorted() at the end changes nothing *)
Definition listed_key_types (r : rules) : option (list string) :=
  match allowed_key_types r with
  | Some (a :: l) => Some (_label_set (Some (a :: l)))
  | _ => None
  end.

Definition algorithms_of (policies : list CertificatePolicy)
    : option (list string) * option (list string) :=
  (fold_left (fun acc p => narrow acc (listed_key_types (policy_rules p))) policies None,
   policies_digests policies).

Definition _earlier (a b : option Z) : option Z :=
  match a, b with
  | None, _ => b
  | _, None => a
  | Some x, Some y => Some (Z.min x y)
  end.

(* a dict is its lookup *)
Record signature_rules := {
  form_schemes : option (list string);
  form_horizons : string -> option Z;
  form_issue_until : string -> option Z;
  form_hsm : bool;
  form_certifications : option (string -> option (option Z));
  form_tsa : option (list string);
  form_pq_standalone : bool;
}.

Definition kept_schemes (r : rules) : option (list string) :=
  match allowed_signature_schemes r with
  | Some (a :: l) => Some (List.filter (fun s => str_in s (a :: l)) SIGNATURE_SCHEMES)
  | _ => None
  end.

Definition narrow_certifications (kept : option (string -> option (option Z)))
    (mapping : list (string * option (option Z))) : option (string -> option (option Z)) :=
  match mapping with
  | [] => kept
  | _ => let accepted := certification_last mapping in
         match kept with
         | None => Some accepted
         | Some f => Some (fun code => match f code, accepted code with
                                       | Some a, Some b => Some (_earlier a b)
                                       | _, _ => None
                                       end)
         end
  end.

Definition add_signature_rules (f : signature_rules) (p : CertificatePolicy) : signature_rules :=
  let r := policy_rules p in
  {| form_schemes := narrow (form_schemes f) (kept_schemes r);
     form_horizons := fun l => _earlier (form_horizons f l) (_label_map (key_type_horizons r) l);
     form_issue_until := fun l => _earlier (form_issue_until f l) (_label_map (key_type_issue_until r) l);
     form_hsm := form_hsm f || require_hsm_ca_key r;
     form_certifications := narrow_certifications (form_certifications f) (hsm_certifications r);
     form_tsa := narrow (form_tsa f) (truthy_list (_label_set (tsa_signer_key_types r)));
     form_pq_standalone := form_pq_standalone f || pq_standalone r |}.

Definition signature_rules_of (policies : list CertificatePolicy) : signature_rules :=
  fold_left add_signature_rules policies
    {| form_schemes := None; form_horizons := fun _ => None; form_issue_until := fun _ => None;
       form_hsm := false; form_certifications := None; form_tsa := None; form_pq_standalone := false |}.
End Evaluate.

(** * What the rules permit *)

Section Permits.
Variable reg : _Registry.
#[local] Arguments _normalize_key_type_label : simpl never.
Abbreviation norm v := (_normalize_key_type_label reg (Some v)).

(* the date of the last entry for a label *)
Definition dated (mapping : list (string * option Z)) (l : string) (day : Z) : Prop :=
  exists a k b, mapping = (a ++ (k, Some day) :: b)%list /\ norm k = Some l
    /\ forall k' d, (k', Some d) ∈ b -> norm k' <> Some l.

Record permits (r : rules) (q : rule_request) : Prop := {
  pm_key : forall kt a l, key_type q = Some kt -> allowed_key_types r = Some (a :: l) ->
    exists x y, norm kt = Some x /\ y ∈ a :: l /\ norm y = Some x;
  pm_digest : forall d l y n, digest q = Some d -> allowed_digests r = Some l -> y ∈ l ->
    normalize_digest y = Some n ->
    exists y' n', normalize_digest d = Some n' /\ y' ∈ l /\ normalize_digest y' = Some n';
  pm_scheme : forall s a l, truthy_text (signer_scheme q) = Some s ->
    allowed_signature_schemes r = Some (a :: l) -> s ∈ a :: l;
  pm_pq : forall w, truthy_text (pq_subject q) = Some w -> pq_standalone r = true -> pq_hybrid q = true;
  pm_horizon : forall kt x e h, key_type q = Some kt -> norm kt = Some x -> not_after q = Some e ->
    dated (key_type_horizons r) x h -> e <= h;
  pm_until : forall kt x u, key_type q = Some kt -> norm kt = Some x ->
    dated (key_type_issue_until r) x u -> today q <= u;
  pm_hsm : require_hsm_ca_key r = true -> signer_storage q <> Some "software" /\ signer_storage q <> Some "softhsm";
  pm_certified : signer_storage q = Some "hsm" -> hsm_certifications r <> [] ->
    exists c d, truthy_text (signer_certification q) = Some c
      /\ certification_last (hsm_certifications r) c = Some d /\ forall last, d = Some last -> today q <= last;
  pm_tsa : forall kt x l y z, tsa_signer q = true -> key_type q = Some kt -> norm kt = Some x ->
    tsa_signer_key_types r = Some l -> y ∈ l -> norm y = Some z -> exists y', y' ∈ l /\ norm y' = Some x;
}.

Lemma elem_label_set x values :
  x ∈ _label_set reg values <-> exists l y, values = Some l /\ y ∈ l /\ norm y = Some x.
Proof.
  unfold _label_set. rewrite elem_sorted_set, list_elem_of_omap. destruct values as [l|]; simpl.
  - naive_solver.
  - split; [intros (y & []%elem_of_nil & _)|naive_solver].
Qed.

Lemma label_map_dated mapping l day : _label_map reg mapping l = Some day <-> dated mapping l day.
Proof.
  unfold _label_map, dated. induction mapping as [|[k o] m IH] using rev_ind.
  { split; [done|]. intros ([|? ?] & ? & ? & ? & _); done. }
  rewrite fold_left_app. simpl. split.
  - destruct (norm k) as [n|] eqn:En; [destruct o as [d|]; [destruct (n =? l)%string eqn:El|]|].
    + intros [= ->]. apply String.eqb_eq in El as ->. exists m, k, []. split; [done|]. split; [done|].
      intros ?? []%elem_of_nil.
    + intros (a & k' & b & -> & Hk & Hb)%IH. exists a, k', (b ++ [(k, Some d)])%list.
      split; [by rewrite <- app_assoc|]. split; [done|].
      intros k2 d2 [H|[= -> ->]%list_elem_of_singleton]%elem_of_app; [by eapply Hb|].
      apply String.eqb_neq in El. congruence.
    + intros (a & k' & b & -> & Hk & Hb)%IH. exists a, k', (b ++ [(k, None)])%list.
      split; [by rewrite <- app_assoc|]. split; [done|].
      intros k2 d2 [H|[=]%list_elem_of_singleton]%elem_of_app. by eapply Hb.
    + intros (a & k' & b & -> & Hk & Hb)%IH. exists a, k', (b ++ [(k, o)])%list.
      split; [by rewrite <- app_assoc|]. split; [done|].
      intros k2 d2 [H|[= -> <-]%list_elem_of_singleton]%elem_of_app; [by eapply Hb|congruence].
  - intros (a & k' & b & Hm & Hk & Hb). destruct b as [|x b _] using rev_ind.
    + apply app_inj_tail in Hm as [-> [= -> ->]]. rewrite Hk. by rewrite String.eqb_refl.
    + rewrite app_comm_cons, app_assoc in Hm. apply app_inj_tail in Hm as [-> <-].
      assert (_label_map reg (a ++ (k', Some day) :: b) l = Some day) as H.
      { apply IH. exists a, k', b. split; [done|]. split; [done|].
        intros k2 d2 H2. apply (Hb k2 d2), elem_of_app. by left. }
      unfold _label_map in H. destruct (norm k) as [n|] eqn:En; [|done].
      destruct o as [d|]; [|done]. destruct (n =? l)%string eqn:El; [|done].
      apply String.eqb_eq in El as ->. exfalso. apply (Hb k d); [apply elem_of_app; right; left|done].
Qed.

Lemma elem_rule_digests n r :
  n ∈ _rule_digests r <-> exists l y, allowed_digests r = Some l /\ y ∈ l /\ normalize_digest y = Some n.
Proof.
  unfold _rule_digests. destruct (allowed_digests r) as [l|].
  2: { split; [intros []%elem_of_nil|naive_solver]. }
  rewrite list_elem_of_In, filter_In, <- list_elem_of_In, str_in_spec, list_elem_of_omap. split.
  - naive_solver.
  - intros (l' & y & [= <-] & Hy & Hn). split; [|eauto].
    unfold normalize_digest in Hn. destruct (str_in _ POLICY_DIGESTS) eqn:E; [|done].
    injection Hn as <-. by apply str_in_spec.
Qed.

Lemma not_allowed_nil {A} (b : bool) (x : A) : (if b then [] else [x]) = [] <-> b = true.
Proof. by destruct b. Qed.
Lemma refused_nil {A} (b : bool) (x : A) : (if b then [x] else []) = [] <-> b = false.
Proof. by destruct b. Qed.

Lemma key_messages_nil r q :
  key_type_messages reg r q (k ← key_type q; norm k) false = [] <->
  forall kt a l, key_type q = Some kt -> allowed_key_types r = Some (a :: l) ->
    exists x y, norm kt = Some x /\ y ∈ a :: l /\ norm y = Some x.
Proof.
  unfold key_type_messages. destruct (key_type q) as [kt|]; [|naive_solver].
  destruct (allowed_key_types r) as [[|a l]|]; [naive_solver| |naive_solver].
  cbn [mbind option_bind].
  assert (forall x, x ∈ _label_set reg (Some (a :: l)) <-> exists y, y ∈ a :: l /\ norm y = Some x) as He.
  { intros x. rewrite elem_label_set. naive_solver. }
  destruct (_label_set reg (Some (a :: l))) as [|b m].
  - split; [done|]. intros H. destruct (H kt a l eq_refl eq_refl) as (x & y & _ & Hy & Hn).
    exfalso. apply (not_elem_of_nil x), He. eauto.
  - rewrite not_allowed_nil. split.
    + destruct (norm kt) as [x|] eqn:Ek; [|done]. intros Hx%str_in_spec ? ? ? [= <-] [= <- <-].
      apply He in Hx as (y & Hy & Hn). eauto.
    + intros H. destruct (H kt a l eq_refl eq_refl) as (x & y & -> & Hy & Hn). apply str_in_spec, He. eauto.
Qed.

Lemma digest_messages_nil r q : digest_messages r q = [] <->
  forall d l y n, digest q = Some d -> allowed_digests r = Some l -> y ∈ l ->
    normalize_digest y = Some n ->
    exists y' n', normalize_digest d = Some n' /\ y' ∈ l /\ normalize_digest y' = Some n'.
Proof.
  unfold digest_messages. destruct (digest q) as [d|]; [|naive_solver].
  pose proof (fun n => elem_rule_digests n r) as He.
  destruct (_rule_digests r) as [|a m].
  { split; [|done]. intros _ ? l y n _ ? ? ?. exfalso. apply (not_elem_of_nil n), He. eauto. }
  rewrite not_allowed_nil. split.
  - destruct (normalize_digest d) as [n|] eqn:En; [|done].
    intros (l' & y & ? & ? & ?)%str_in_spec%He ? l ? ? [= <-] ? ? ?. exists y, n. naive_solver.
  - intros H. destruct (proj1 (He a) ltac:(left)) as (l & y & Hl & ? & ?).
    destruct (H d l y a eq_refl Hl) as (y' & n & -> & ? & ?); [done..|]. apply str_in_spec, He. eauto.
Qed.

Lemma scheme_messages_nil r q : scheme_messages r q = [] <->
  forall s a l, truthy_text (signer_scheme q) = Some s ->
    allowed_signature_schemes r = Some (a :: l) -> s ∈ a :: l.
Proof.
  unfold scheme_messages. destruct (truthy_text (signer_scheme q)) as [s|]; [|naive_solver].
  destruct (allowed_signature_schemes r) as [[|a l]|]; [naive_solver| |naive_solver].
  rewrite not_allowed_nil, str_in_spec. naive_solver.
Qed.

Lemma pq_messages_nil r q : pq_messages r q false = [] <->
  forall w, truthy_text (pq_subject q) = Some w -> pq_standalone r = true -> pq_hybrid q = true.
Proof.
  unfold pq_messages. destruct (truthy_text (pq_subject q)) as [w|]; [|naive_solver].
  rewrite refused_nil. destruct (pq_standalone r), (pq_hybrid q); naive_solver.
Qed.

Lemma date_messages_nil r q : date_messages reg r q (k ← key_type q; norm k) = [] <->
  (forall kt x e h, key_type q = Some kt -> norm kt = Some x -> not_after q = Some e ->
     dated (key_type_horizons r) x h -> e <= h)
  /\ forall kt x u, key_type q = Some kt -> norm kt = Some x ->
     dated (key_type_issue_until r) x u -> today q <= u.
Proof.
  setoid_rewrite <- label_map_dated. unfold date_messages.
  destruct (key_type q) as [kt|]; [|naive_solver]. cbn [mbind option_bind].
  destruct (norm kt) as [x|] eqn:Ek; [|naive_solver]. rewrite app_nil. f_equiv.
  - destruct (_label_map reg (key_type_horizons r) x) as [h|] eqn:Eh; [|naive_solver].
    destruct (not_after q) as [e|]; [|naive_solver].
    rewrite refused_nil, Z.ltb_ge. naive_solver.
  - destruct (_label_map reg (key_type_issue_until r) x) as [u|] eqn:Eu; [|naive_solver].
    rewrite refused_nil, Z.ltb_ge. naive_solver.
Qed.

Lemma storage_messages_nil r q : storage_messages r q = [] <->
  (require_hsm_ca_key r = true -> signer_storage q <> Some "software" /\ signer_storage q <> Some "softhsm")
  /\ (signer_storage q = Some "hsm" -> hsm_certifications r <> [] ->
      exists c d, truthy_text (signer_certification q) = Some c
        /\ certification_last (hsm_certifications r) c = Some d /\ forall last, d = Some last -> today q <= last).
Proof.
  unfold storage_messages. rewrite app_nil. f_equiv.
  - destruct (signer_storage q) as [s|]; [|naive_solver].
    rewrite refused_nil, andb_false_iff, <- not_true_iff_false, <- not_true_iff_false, str_in_spec,
      !elem_of_cons, elem_of_nil.
    destruct (require_hsm_ca_key r); [|naive_solver]. split.
    + intros [?|H] _; [done|]. split; intros [= ->]; apply H; auto.
    + intros H. right. intros [->|[->|[]]]; naive_solver.
  - case_bool_decide; [|naive_solver]. unfold _certification_messages.
    destruct (hsm_certifications r) as [|e m]; [naive_solver|].
    destruct (truthy_text (signer_certification q)) as [c|]; [|naive_solver].
    destruct (certification_last (e :: m) c) as [[d|]|] eqn:El; [|naive_solver..].
    rewrite refused_nil, Z.ltb_ge. naive_solver.
Qed.

Lemma tsa_messages_nil r q :
  (if tsa_signer q then _tsa_messages reg r (k ← key_type q; norm k) else []) = [] <->
  forall kt x l y z, tsa_signer q = true -> key_type q = Some kt -> norm kt = Some x ->
    tsa_signer_key_types r = Some l -> y ∈ l -> norm y = Some z -> exists y', y' ∈ l /\ norm y' = Some x.
Proof.
  destruct (tsa_signer q); [|naive_solver]. unfold _tsa_messages.
  destruct (key_type q) as [kt|]; [|naive_solver]. cbn [mbind option_bind].
  destruct (norm kt) as [x|] eqn:Ek; [|naive_solver].
  pose proof (fun x => elem_label_set x (tsa_signer_key_types r)) as He.
  destruct (_label_set reg (tsa_signer_key_types r)) as [|b m].
  { split; [|done]. intros _ ? ? l y z _ ? ? Hl ? ?. exfalso. apply (not_elem_of_nil z), He. eauto. }
  rewrite not_allowed_nil, str_in_spec, He. split; [naive_solver|]. intros H.
  destruct (proj1 (He b) ltac:(left)) as (l & y & Hl & Hy & Hn).
  destruct (H kt x l y b eq_refl eq_refl Ek Hl Hy Hn) as (y' & ? & ?). eauto.
Qed.

Lemma rule_messages_nil r q : _rule_messages reg r q false = [] <-> permits r q.
Proof.
  unfold _rule_messages. rewrite !app_nil, key_messages_nil, digest_messages_nil, scheme_messages_nil,
    pq_messages_nil, date_messages_nil, storage_messages_nil, tsa_messages_nil.
  split; [intros (?&?&?&?&[??]&[??]&?); by constructor|intros []; tauto].
Qed.
End Permits.

(** * Decisions over a list of policies *)

Definition policy_cap (p : CertificatePolicy) : option Z := positive_int (max_validity_days (policy_rules p)).

(* the requested validity under every positive cap *)
Definition tightest (validity : option Z) (policies : list CertificatePolicy) : option Z :=
  (fun v => fold_right Z.min v (omap policy_cap policies)) <$> validity.

Lemma tightest_cons p l v : tightest (Some v) (p :: l) =
  tightest (Some (match policy_cap p with Some m => Z.min m v | None => v end)) l.
Proof.
  unfold tightest. cbn. f_equal. destruct (policy_cap p) as [m|]; [|done]. cbn.
  induction (omap policy_cap l); simpl; lia.
Qed.

Lemma fold_cap policies v by_ :
  exists nm, fold_left cap policies (Some v, by_) = (tightest (Some v) policies, nm)
    /\ (nm = by_ /\ tightest (Some v) policies = Some v
        \/ exists p m, p ∈ policies /\ nm = Some (name p) /\ policy_cap p = Some m /\ m < v
           /\ tightest (Some v) policies = Some m).
Proof.
  revert v by_. induction policies as [|p l IH]; intros v by_; [eexists; simpl; eauto|].
  rewrite tightest_cons. cbn [fold_left]. unfold cap at 2. cbn [fst]. fold (policy_cap p).
  assert (forall w b nm, w <= v ->
    (nm = b /\ tightest (Some w) l = Some w \/ exists q k, q ∈ l /\ nm = Some (name q)
      /\ policy_cap q = Some k /\ k < w /\ tightest (Some w) l = Some k) ->
    nm = b /\ tightest (Some w) l = Some w \/ exists q k, q ∈ p :: l /\ nm = Some (name q)
      /\ policy_cap q = Some k /\ k < v /\ tightest (Some w) l = Some k) as Hup.
  { intros w b nm Hw [?|(q & k & ? & ? & ? & ? & ?)]; [by left|]. right. exists q, k.
    split; [by right|]. split; [done|]. split; [done|]. split; [lia|done]. }
  destruct (policy_cap p) as [m|] eqn:Em; [destruct (m <? v) eqn:El|].
  - apply Z.ltb_lt in El. rewrite Z.min_l by lia. destruct (IH m (Some (name p))) as (nm & -> & Hn).
    exists nm. split; [done|]. apply Hup in Hn as [[-> ?]|?]; [|by right|lia].
    right. exists p, m. split; [left|done].
  - apply Z.ltb_ge in El. rewrite Z.min_r by lia. destruct (IH v by_) as (nm & -> & Hn). exists nm. eauto with lia.
  - destruct (IH v by_) as (nm & -> & Hn). exists nm. eauto with lia.
Qed.

Lemma fold_cap_none policies : fold_left cap policies (None, None) = (None, None).
Proof. by induction policies. Qed.

Lemma enforce_validity reg checked v day :
  let o := enforce_checked reg checked v day in
  effective_validity o = tightest (rv_validity_days v) checked
  /\ match capped_by o with
     | None => effective_validity o = rv_validity_days v
     | Some nm => exists p requested m, p ∈ checked /\ name p = nm /\ policy_cap p = Some m
         /\ rv_validity_days v = Some requested /\ m < requested /\ effective_validity o = Some m
     end.
Proof.
  unfold enforce_checked. destruct (rv_validity_days v) as [z|] eqn:Ev.
  - destruct (fold_cap checked z None) as (nm & -> & Hn). cbn [effective_validity capped_by].
    split; [done|]. destruct Hn as [[-> H]|(p & m & ? & -> & ? & ? & ?)]; [done|].
    exists p, z, m. done.
  - rewrite fold_cap_none. done.
Qed.

Lemma enforce_violations reg checked v day :
  violations (enforce_checked reg checked v day) =
  checked ≫= (fun p => (fun m => (name p, m)) <$>
    (_rule_messages reg (policy_rules p)
       (rule_request_of v day (tightest (rv_validity_days v) checked)) false
     ++ names_messages (policy_rules p) (rv_dns_name_count v))%list).
Proof.
  pose proof (proj1 (enforce_validity reg checked v day)) as He.
  unfold enforce_checked in *. destruct (fold_left cap checked _) as [eff nm].
  cbn [violations effective_validity] in *. by subst eff.
Qed.

Lemma names_messages_nil r n : names_messages r n = [] <->
  forall c m, n = Some c -> max_dns_names r = VInt m -> 0 < m -> c <= m.
Proof.
  unfold names_messages. destruct n as [c|]; [|naive_solver].
  destruct (max_dns_names r) as [| |z| | |]; simpl; [naive_solver|naive_solver| |naive_solver..].
  destruct (0 <? z) eqn:Ez.
  - apply Z.ltb_lt in Ez. rewrite refused_nil, Z.ltb_ge. split; [by intros H ? ? [= <-] [= <-]|].
    intros H. by apply H.
  - apply Z.ltb_ge in Ez. split; [|done]. intros _ c' m _ [= <-] Hm. lia.
Qed.

Lemma bind_nil_iff {A B} (f : A -> list B) l : l ≫= f = [] <-> forall x, x ∈ l -> f x = [].
Proof.
  induction l as [|x l IH]; [split; [by intros _ ? ?%elem_of_nil|done]|].
  rewrite bind_cons, app_nil, IH. setoid_rewrite elem_of_cons. naive_solver.
Qed.

(** The validity that is issued is the requested one under every positive
    [max_validity_days] of the policies, and a capping policy is named exactly when
    the validity was shortened; the named policy is one whose cap is the result. *)
Theorem validity_capped reg fips profiles policies v day :
  let o := enforce_rules reg fips profiles policies v day in
  let checked := with_system_policies fips profiles policies in
  effective_validity o = tightest (rv_validity_days v) checked
  /\ match capped_by o with
     | None => effective_validity o = rv_validity_days v
     | Some nm => exists p requested m, p ∈ checked /\ name p = nm /\ policy_cap p = Some m
         /\ rv_validity_days v = Some requested /\ m < requested /\ effective_validity o = Some m
     end.
Proof. apply enforce_validity. Qed.

(** C29. A request meets the rules exactly when every policy permits it: the key
    type, the digest, the signature scheme and the TSA key are listed where the policy
    lists any, the end of validity (after the caps) is within the horizon of the key
    type, today is not past its last day of issue, the signer key is stored and
    certified as required, a post-quantum key is paired, and the names are few enough. *)
Theorem rules_accept_permitted reg fips profiles policies v day :
  let checked := with_system_policies fips profiles policies in
  violations (enforce_rules reg fips profiles policies v day) = [] <->
  forall p, p ∈ checked ->
    permits reg (policy_rules p) (rule_request_of v day (tightest (rv_validity_days v) checked))
    /\ forall n m, rv_dns_name_count v = Some n -> max_dns_names (policy_rules p) = VInt m ->
         0 < m -> n <= m.
Proof.
  intros checked. setoid_rewrite <- rule_messages_nil. setoid_rewrite <- names_messages_nil.
  unfold enforce_rules. fold checked. rewrite enforce_violations. generalize (rule_request_of v day (tightest (rv_validity_days v) checked)).
  intros q. rewrite bind_nil_iff. setoid_rewrite <- app_nil.
  by split; intros H p Hp; specialize (H p Hp); [apply fmap_nil_inv in H|rewrite H].
Qed.

(** ** The digest nobody chose *)

(* what the digest rule of a policy lets through *)
Definition digest_accepted (p : CertificatePolicy) (d : string) : Prop :=
  _rule_digests (policy_rules p) = [] \/ d ∈ _rule_digests (policy_rules p).

Lemma elem_narrow {A} (restriction : A -> option (list string)) l :
  match fold_left (fun acc a => narrow acc (restriction a)) l None with
  | None => forall a, a ∈ l -> restriction a = None
  | Some kept => (exists a, a ∈ l /\ restriction a <> None)
      /\ forall x, x ∈ kept <-> forall a names, a ∈ l -> restriction a = Some names -> x ∈ names
  end.
Proof.
  induction l as [|a l IH] using rev_ind; [by intros ? ?%elem_of_nil|].
  rewrite fold_left_app. cbn [fold_left]. unfold narrow at 1.
  assert (forall b, b ∈ (l ++ [a])%list <-> b ∈ l \/ b = a) as Hl.
  { intros b. by rewrite elem_of_app, list_elem_of_singleton. }
  destruct (restriction a) as [names|] eqn:Ea; destruct (fold_left _ l None) as [kept|];
    setoid_rewrite Hl; clear Hl.
  - destruct IH as [(b & ? & ?) IH]. split; [eauto|]. intros x.
    rewrite list_elem_of_In, filter_In, <- list_elem_of_In, str_in_spec, IH. naive_solver.
  - split; [exists a; split; [by right|congruence]|]. intros x. split.
    + intros Hx b ns [Hb| ->] Hr; [|congruence]. by rewrite IH in Hr.
    + intros H. apply (H a); auto.
  - destruct IH as [(b & ? & ?) IH]. split; [eauto|]. intros x. rewrite IH. naive_solver.
  - intros b [?| ->]; auto.
Qed.

Lemma truthy_list_some l names : truthy_list l = Some names <-> l <> [] /\ names = l.
Proof. destruct l; simpl; naive_solver. Qed.

Lemma rule_digests_known d r : d ∈ _rule_digests r -> d ∈ POLICY_DIGESTS.
Proof.
  unfold _rule_digests. destruct (allowed_digests r); [|by intros ?%elem_of_nil].
  rewrite list_elem_of_In, filter_In, <- list_elem_of_In. by intros [].
Qed.

Lemma elem_policies_digests d policies :
  match policies_digests policies with
  | None => forall p, p ∈ policies -> _rule_digests (policy_rules p) = []
  | Some l => (d ∈ l <-> d ∈ POLICY_DIGESTS /\ forall p, p ∈ policies -> digest_accepted p d)
  end.
Proof.
  unfold policies_digests.
  pose proof (elem_narrow (fun p => truthy_list (_rule_digests (policy_rules p))) policies) as H.
  destruct (fold_left _ policies None) as [l|].
  - destruct H as [(p0 & Hp0 & H0) H]. rewrite H. setoid_rewrite truthy_list_some. unfold digest_accepted. split.
    + intros Hd. split.
      * apply (rule_digests_known d (policy_rules p0)), (Hd p0); [done|]. split; [|done].
        intros E. by rewrite E in H0.
      * intros p Hp. destruct (decide (_rule_digests (policy_rules p) = [])); [by left|right; by eapply Hd].
    + intros [_ Hd] p names Hp [Hn ->]. by destruct (Hd p Hp).
  - intros p Hp. specialize (H p Hp). by destruct (_rule_digests (policy_rules p)).
Qed.

(** The digest chosen where the requester names none is one that every policy
    accepts, whenever the policies accept a digest in common, and it is the default
    one when they all accept that. *)
Theorem choose_digest_accepted policies dflt common
    (Hc : common ∈ POLICY_DIGESTS) (Hall : forall p, p ∈ policies -> digest_accepted p common) :
  let d := choose_digest policies dflt in
  (forall p, p ∈ policies -> digest_accepted p d)
  /\ (normalize_digest dflt = Some common -> d = common).
Proof.
  unfold choose_digest. cbv zeta. set (df := default "sha256" (normalize_digest dflt)).
  assert (normalize_digest dflt = Some common -> df = common) as Hdf by (unfold df; by intros ->).
  pose proof (fun d => elem_policies_digests d policies) as He.
  destruct (policies_digests policies) as [[|a l]|].
  - exfalso. apply (not_elem_of_nil common), He. done.
  - destruct (str_in df (a :: l)) eqn:Ed.
    + apply str_in_spec, He in Ed as [_ Ed]. done.
    + split; [apply (He a); left|]. intros Hn%Hdf. exfalso. apply not_true_iff_false in Ed. apply Ed.
      apply str_in_spec, He. by rewrite Hn.
  - split; [|done]. intros p Hp. left. by apply (He df).
Qed.

(** ** The policy that asks for an approval *)

Lemma elem_insert_policy q p l : q ∈ insert_policy p l <-> q = p \/ q ∈ l.
Proof.
  induction l as [|r l IH]; simpl; [by rewrite elem_of_cons|].
  destruct (priority r <=? priority p); rewrite !elem_of_cons; [rewrite IH|]; tauto.
Qed.

Lemma elem_by_priority q l : q ∈ by_priority l <-> q ∈ l.
Proof.
  unfold by_priority. rewrite <- (fold_left_rev_right insert_policy).
  rewrite (list_elem_of_In l q), (in_rev l), <- list_elem_of_In.
  induction (rev l) as [|p m IH]; simpl; [done|]. by rewrite elem_insert_policy, IH, elem_of_cons.
Qed.

Definition before (p q : CertificatePolicy) : Prop := priority p <= priority q.

Lemma insert_policy_sorted p l : StronglySorted before l -> StronglySorted before (insert_policy p l).
Proof.
  induction 1 as [|q l Hs IH Hf]; simpl; [repeat constructor|].
  destruct (priority q <=? priority p) eqn:E.
  - apply Z.leb_le in E. constructor; [done|]. apply Forall_forall. intros r [->|Hr]%elem_insert_policy; [done|].
    by eapply Forall_forall in Hf.
  - apply Z.leb_gt in E. constructor; [by constructor|]. constructor; [unfold before; lia|].
    eapply Forall_impl; [exact Hf|]. unfold before. intros ? ?. lia.
Qed.

Lemma by_priority_sorted l : StronglySorted before (by_priority l).
Proof.
  unfold by_priority. rewrite <- (fold_left_rev_right insert_policy).
  induction (rev l); simpl; [constructor|by apply insert_policy_sorted].
Qed.

Lemma head_filter_sorted (f : CertificatePolicy -> bool) l : StronglySorted before l ->
  match head (List.filter f l) with
  | None => forall q, q ∈ l -> f q = false
  | Some p => p ∈ l /\ f p = true /\ forall q, q ∈ l -> f q = true -> priority p <= priority q
  end.
Proof.
  induction 1 as [|p l Hs IH Hf]; simpl; [by intros ? ?%elem_of_nil|].
  destruct (f p) eqn:Ep; simpl.
  - split; [left|]. split; [done|]. intros q [->|Hq]%elem_of_cons _; [lia|]. by eapply Forall_forall in Hf.
  - destruct (head (List.filter f l)) as [q|].
    + destruct IH as (? & ? & Hmin). split; [by right|]. split; [done|].
      intros r [->|?]%elem_of_cons ?; [congruence|auto].
    + intros q [->|?]%elem_of_cons; auto.
Qed.

(* an active policy that asks for approval and whose scope holds the request *)
Definition asks_approval ops ca_ids template cn sans (p : CertificatePolicy) : Prop :=
  is_active p = true /\ requires_approval p = true /\ covers ops ca_ids template cn sans p = true.

Lemma check_approval_elem table ops ca_ids template cn sans p :
  check_approval_required table ops ca_ids template cn sans = Some p -> p ∈ table.
Proof.
  unfold check_approval_required, _in_scope. intros H.
  assert (p ∈ List.filter (covers ops ca_ids template cn sans)
    (by_priority (List.filter (fun p => is_active p && (negb true || requires_approval p)) table))) as Hp.
  { destruct (List.filter _ _); [done|]. injection H as ->. left. }
  rewrite list_elem_of_In, filter_In, <- list_elem_of_In, elem_by_priority, list_elem_of_In, filter_In in Hp.
  apply list_elem_of_In. tauto.
Qed.

(** An operation waits for an approval exactly when an active policy that
    requires approval covers it, and the policy that is asked is one of the lowest
    priority number among those. *)
Theorem approval_policy_first table ops ca_ids template cn sans :
  match check_approval_required table ops ca_ids template cn sans with
  | None => forall p, p ∈ table -> ~ asks_approval ops ca_ids template cn sans p
  | Some p => p ∈ table /\ asks_approval ops ca_ids template cn sans p
      /\ forall q, q ∈ table -> asks_approval ops ca_ids template cn sans q -> priority p <= priority q
  end.
Proof.
  unfold check_approval_required, _in_scope. set (live := fun p => _ && _).
  pose proof (head_filter_sorted (covers ops ca_ids template cn sans) _
    (by_priority_sorted (List.filter live table))) as H.
  assert (forall p, p ∈ by_priority (List.filter live table) <->
    p ∈ table /\ is_active p = true /\ requires_approval p = true) as He.
  { intros p. rewrite elem_by_priority, !list_elem_of_In, filter_In. unfold live.
    cbn [negb orb]. by rewrite andb_true_iff. }
  destruct (head _) as [p|]; setoid_rewrite He in H.
  - destruct H as ((?&?&?) & ? & Hmin). split; [done|]. split; [by repeat split|].
    intros q ? (?&?&?). by apply Hmin.
  - intros p ? (?&?&Hc). by rewrite H in Hc.
Qed.

(** * The form and the enforcement agree *)

Section Form.
Variable reg : _Registry.
#[local] Arguments _normalize_key_type_label : simpl never.
Abbreviation norm v := (_normalize_key_type_label reg (Some v)).

(* a certification that is accepted, and not past its last day *)
Definition certified (day : Z) (o : option (option Z)) : Prop :=
  exists d, o = Some d /\ forall last, d = Some last -> day <= last.

(* what the merged rules let through *)
Record form_permits (algorithms : option (list string) * option (list string))
    (f : signature_rules) (q : rule_request) : Prop := {
  fp_key : forall kt l, key_type q = Some kt -> algorithms.1 = Some l ->
    exists x, norm kt = Some x /\ x ∈ l;
  fp_digest : forall d l, digest q = Some d -> algorithms.2 = Some l ->
    exists n, normalize_digest d = Some n /\ n ∈ l;
  fp_scheme : forall s l, truthy_text (signer_scheme q) = Some s -> form_schemes f = Some l -> s ∈ l;
  fp_pq : forall w, truthy_text (pq_subject q) = Some w -> form_pq_standalone f = true -> pq_hybrid q = true;
  fp_horizon : forall kt x e h, key_type q = Some kt -> norm kt = Some x -> not_after q = Some e ->
    form_horizons f x = Some h -> e <= h;
  fp_until : forall kt x u, key_type q = Some kt -> norm kt = Some x ->
    form_issue_until f x = Some u -> today q <= u;
  fp_hsm : form_hsm f = true -> signer_storage q <> Some "software" /\ signer_storage q <> Some "softhsm";
  fp_certified : forall g, signer_storage q = Some "hsm" -> form_certifications f = Some g ->
    exists c, truthy_text (signer_certification q) = Some c /\ certified (today q) (g c);
  fp_tsa : forall kt x l, tsa_signer q = true -> key_type q = Some kt -> norm kt = Some x ->
    form_tsa f = Some l -> x ∈ l;
}.

Lemma fold_left_proj {A B C} (pi : B -> C) (step : B -> A -> B) (step' : C -> A -> C) l b :
  (forall b a, pi (step b a) = step' (pi b) a) ->
  pi (fold_left step l b) = fold_left step' l (pi b).
Proof. intros H. revert b. induction l as [|a l IH]; intros b; simpl; [done|]. by rewrite IH, H. Qed.

Lemma fold_earlier {A} (g : A -> option Z) l d acc :
  (forall h, fold_left (fun acc a => _earlier acc (g a)) l acc = Some h -> d <= h) <->
  (forall h, acc = Some h -> d <= h) /\ forall a h, a ∈ l -> g a = Some h -> d <= h.
Proof.
  revert acc. induction l as [|a l IH]; intros acc.
  { split; [intros H; split; [exact H|by intros ? ? ?%elem_of_nil]|by intros [H _]]. }
  cbn [fold_left]. rewrite IH. setoid_rewrite elem_of_cons.
  assert ((forall h, _earlier acc (g a) = Some h -> d <= h) <->
    (forall h, acc = Some h -> d <= h) /\ forall h, g a = Some h -> d <= h) as ->; [|naive_solver].
  destruct acc as [x|], (g a) as [y|]; simpl; [|naive_solver..]. split.
  - intros H. specialize (H _ eq_refl). split; intros ? [= <-]; lia.
  - intros [H1 H2] ? [= <-]. specialize (H1 _ eq_refl). specialize (H2 _ eq_refl). lia.
Qed.

Lemma fold_orb {A} (g : A -> bool) l acc :
  fold_left (fun acc a => acc || g a) l acc = true <-> acc = true \/ exists a, a ∈ l /\ g a = true.
Proof.
  revert acc. induction l as [|a l IH]; intros acc; cbn [fold_left].
  { split; [by left|intros [?|(? & []%elem_of_nil & _)]; done]. }
  rewrite IH, orb_true_iff. setoid_rewrite elem_of_cons. naive_solver.
Qed.

Lemma certified_earlier day a b :
  certified day (match a, b with Some x, Some y => Some (_earlier x y) | _, _ => None end) <->
  certified day a /\ certified day b.
Proof.
  unfold certified. destruct a as [x|], b as [y|]; [|naive_solver..]. split.
  - intros (d & [= <-] & H). split; eexists; (split; [done|]); intros last Hl;
      destruct x, y; simpl in *; simplify_eq; specialize (H _ eq_refl); lia.
  - intros [(? & [= <-] & H1) (? & [= <-] & H2)]. eexists. split; [done|].
    destruct x as [x|], y as [y|]; simpl; [|eauto..]. intros ? [= <-].
    specialize (H1 _ eq_refl). specialize (H2 _ eq_refl). lia.
Qed.

Lemma fold_certifications {A} (g : A -> list (string * option (option Z))) l :
  match fold_left (fun acc a => narrow_certifications acc (g a)) l None with
  | None => forall a, a ∈ l -> g a = []
  | Some f => (exists a, a ∈ l /\ g a <> [])
      /\ forall day c, certified day (f c) <->
           forall a, a ∈ l -> g a <> [] -> certified day (certification_last (g a) c)
  end.
Proof.
  induction l as [|a l IH] using rev_ind; [by intros ? ?%elem_of_nil|].
  rewrite fold_left_app. cbn [fold_left]. unfold narrow_certifications at 1.
  assert (forall b, b ∈ (l ++ [a])%list <-> b ∈ l \/ b = a) as Hl.
  { intros b. by rewrite elem_of_app, list_elem_of_singleton. }
  destruct (g a) as [|e m] eqn:Ea; destruct (fold_left _ l None) as [f|]; setoid_rewrite Hl; clear Hl.
  - destruct IH as [(b & ? & ?) IH]. split; [eauto|]. intros day c. rewrite IH. naive_solver.
  - intros b [?| ->]; auto.
  - destruct IH as [(b & ? & ?) IH]. split; [eauto|]. intros day c. rewrite certified_earlier, IH, <- Ea.
    split; [naive_solver|]. intros H'. split; [auto|]. apply H'; [auto|]. by rewrite Ea.
  - split; [exists a; split; [by right|by rewrite Ea]|]. intros day c. rewrite <- Ea. split.
    + intros H b [Hb| ->] Hn; [|done]. by rewrite (IH b Hb) in Hn.
    + intros H. apply H; [auto|by rewrite Ea].
Qed.

Section Agreement.
Context (policies : list CertificatePolicy) (q : rule_request).
Let f := signature_rules_of reg policies.

Lemma form_key_iff :
  (forall kt l, key_type q = Some kt -> (algorithms_of reg policies).1 = Some l ->
     exists x, norm kt = Some x /\ x ∈ l) <->
  forall p, p ∈ policies -> key_type_messages reg (policy_rules p) q (k ← key_type q; norm k) false = [].
Proof.
  setoid_rewrite key_messages_nil. cbn [algorithms_of fst].
  pose proof (elem_narrow (fun p => listed_key_types reg (policy_rules p)) policies) as H.
  assert (forall p names, listed_key_types reg (policy_rules p) = Some names <->
    exists a l, allowed_key_types (policy_rules p) = Some (a :: l) /\ names = _label_set reg (Some (a :: l))) as Hn.
  { intros p names. unfold listed_key_types. destruct (allowed_key_types _) as [[|a l]|]; naive_solver. }
  destruct (fold_left _ policies None) as [keys|].
  - destruct H as [(p0 & Hp0 & H0) H]. split.
    + intros Hk p Hp kt a l Ek Ea. destruct (Hk kt keys Ek eq_refl) as (x & Hx & Hin).
      rewrite H in Hin. specialize (Hin p (_label_set reg (Some (a :: l))) Hp). rewrite Hn in Hin.
      apply elem_label_set in Hin as (? & y & [= <-] & ? & ?); eauto.
    + intros Hp kt l Ek [= <-]. destruct (listed_key_types reg (policy_rules p0)) as [names|] eqn:E0; [|done].
      apply Hn in E0 as (a & l & Ea & ->). destruct (Hp p0 Hp0 kt a l Ek Ea) as (x & _ & Hx & _).
      exists x. split; [done|]. apply H. intros p names' Hin (a' & l' & Ea' & ->)%Hn.
      destruct (Hp p Hin kt a' l' Ek Ea') as (x' & y & ? & ? & ?). apply elem_label_set.
      exists (a' :: l'), y. simplify_eq. done.
  - split; [|naive_solver]. intros _ p Hp kt a l _ Ea. specialize (H p Hp).
    unfold listed_key_types in H. by rewrite Ea in H.
Qed.

Lemma form_digest_iff :
  (forall d l, digest q = Some d -> (algorithms_of reg policies).2 = Some l ->
     exists n, normalize_digest d = Some n /\ n ∈ l) <->
  forall p, p ∈ policies -> digest_messages (policy_rules p) q = [].
Proof.
  cbn [algorithms_of snd]. unfold digest_messages.
  destruct (digest q) as [d|]; [|naive_solver].
  pose proof (fun n => elem_policies_digests n policies) as H.
  destruct (policies_digests policies) as [l|] eqn:El.
  - split.
    + intros Hd p Hp. destruct (Hd d l eq_refl eq_refl) as (n & -> & Hn). apply H in Hn as [_ Hn].
      specialize (Hn p Hp). destruct (_rule_digests (policy_rules p)) eqn:Ep; [done|].
      rewrite not_allowed_nil, str_in_spec. destruct Hn; congruence.
    + intros Hp ? ? [= <-] [= <-]. destruct (normalize_digest d) as [n|] eqn:En.
      * exists n. split; [done|]. apply H. split.
        { unfold normalize_digest in En. destruct (str_in _ POLICY_DIGESTS) eqn:E; [|done].
          injection En as <-. by apply str_in_spec. }
        intros p Hin. specialize (Hp p Hin). unfold digest_accepted.
        destruct (_rule_digests (policy_rules p)); [by left|]. right.
        by rewrite not_allowed_nil, str_in_spec in Hp.
      * exfalso. pose proof (elem_narrow (fun p => truthy_list (_rule_digests (policy_rules p))) policies) as Hw.
        change (fold_left _ policies None) with (policies_digests policies) in Hw.
        rewrite El in Hw. destruct Hw as [(p & Hin & Hne) _].
        specialize (Hp p Hin). by destruct (_rule_digests (policy_rules p)).
  - split; [|naive_solver]. intros _ p Hp. by rewrite (H "" p Hp).
Qed.

Lemma form_schemes_eq : form_schemes f = fold_left (fun acc p => narrow acc (kept_schemes (policy_rules p))) policies None.
Proof. unfold f, signature_rules_of. by rewrite (fold_left_proj form_schemes _ (fun acc p => narrow acc (kept_schemes (policy_rules p)))). Qed.

Lemma form_scheme_iff
    (Hs : forall s, truthy_text (signer_scheme q) = Some s -> s ∈ SIGNATURE_SCHEMES) :
  (forall s l, truthy_text (signer_scheme q) = Some s -> form_schemes f = Some l -> s ∈ l) <->
  forall p, p ∈ policies -> scheme_messages (policy_rules p) q = [].
Proof.
  setoid_rewrite scheme_messages_nil. rewrite form_schemes_eq.
  pose proof (elem_narrow (fun p => kept_schemes (policy_rules p)) policies) as H.
  assert (forall p names, kept_schemes (policy_rules p) = Some names <->
    exists a l, allowed_signature_schemes (policy_rules p) = Some (a :: l)
      /\ names = List.filter (fun s => str_in s (a :: l)) SIGNATURE_SCHEMES) as Hn.
  { intros p names. unfold kept_schemes. destruct (allowed_signature_schemes _) as [[|a l]|]; naive_solver. }
  destruct (fold_left _ policies None) as [keys|].
  - destruct H as [_ H]. split.
    + intros Hk p Hp s a l Es Ea. specialize (Hk s keys Es eq_refl). rewrite H in Hk.
      specialize (Hk p (List.filter (fun s => str_in s (a :: l)) SIGNATURE_SCHEMES) Hp). rewrite Hn in Hk.
      specialize (Hk ltac:(eauto)). rewrite list_elem_of_In, filter_In, str_in_spec in Hk. by destruct Hk.
    + intros Hp s l Es [= <-]. apply H. intros p names Hin (a & l & Ea & ->)%Hn.
      rewrite list_elem_of_In, filter_In, <- list_elem_of_In, str_in_spec. split; [auto|]. by eapply Hp.
  - split; [|naive_solver]. intros _ p Hp s a l _ Ea. specialize (H p Hp).
    unfold kept_schemes in H. by rewrite Ea in H.
Qed.

Lemma form_pq_eq : form_pq_standalone f = fold_left (fun acc p => acc || pq_standalone (policy_rules p)) policies false.
Proof. unfold f, signature_rules_of. by rewrite (fold_left_proj form_pq_standalone _ (fun acc p => acc || pq_standalone (policy_rules p))). Qed.

Lemma form_hsm_eq : form_hsm f = fold_left (fun acc p => acc || require_hsm_ca_key (policy_rules p)) policies false.
Proof. unfold f, signature_rules_of. by rewrite (fold_left_proj form_hsm _ (fun acc p => acc || require_hsm_ca_key (policy_rules p))). Qed.

Lemma form_certifications_eq : form_certifications f =
  fold_left (fun acc p => narrow_certifications acc (hsm_certifications (policy_rules p))) policies None.
Proof.
  unfold f, signature_rules_of. by rewrite (fold_left_proj form_certifications _
    (fun acc p => narrow_certifications acc (hsm_certifications (policy_rules p)))).
Qed.

Lemma form_tsa_eq : form_tsa f = fold_left (fun acc p => narrow acc
  (truthy_list (_label_set reg (tsa_signer_key_types (policy_rules p))))) policies None.
Proof.
  unfold f, signature_rules_of. by rewrite (fold_left_proj form_tsa _
    (fun acc p => narrow acc (truthy_list (_label_set reg (tsa_signer_key_types (policy_rules p)))))).
Qed.

Lemma form_horizons_eq x : form_horizons f x =
  fold_left (fun acc p => _earlier acc (_label_map reg (key_type_horizons (policy_rules p)) x)) policies None.
Proof.
  unfold f, signature_rules_of. by rewrite (fold_left_proj (fun f => form_horizons f x) _
    (fun acc p => _earlier acc (_label_map reg (key_type_horizons (policy_rules p)) x))).
Qed.

Lemma form_until_eq x : form_issue_until f x =
  fold_left (fun acc p => _earlier acc (_label_map reg (key_type_issue_until (policy_rules p)) x)) policies None.
Proof.
  unfold f, signature_rules_of. by rewrite (fold_left_proj (fun f => form_issue_until f x) _
    (fun acc p => _earlier acc (_label_map reg (key_type_issue_until (policy_rules p)) x))).
Qed.

Lemma form_horizon_iff x e : (forall h, form_horizons f x = Some h -> e <= h) <->
  forall p h, p ∈ policies -> dated reg (key_type_horizons (policy_rules p)) x h -> e <= h.
Proof. setoid_rewrite <- label_map_dated. rewrite form_horizons_eq, fold_earlier. naive_solver. Qed.

Lemma form_until_iff x e : (forall h, form_issue_until f x = Some h -> e <= h) <->
  forall p h, p ∈ policies -> dated reg (key_type_issue_until (policy_rules p)) x h -> e <= h.
Proof. setoid_rewrite <- label_map_dated. rewrite form_until_eq, fold_earlier. naive_solver. Qed.

Lemma form_certified_iff :
  (forall g, signer_storage q = Some "hsm" -> form_certifications f = Some g ->
    exists c, truthy_text (signer_certification q) = Some c /\ certified (today q) (g c)) <->
  forall p, p ∈ policies -> signer_storage q = Some "hsm" -> hsm_certifications (policy_rules p) <> [] ->
    exists c, truthy_text (signer_certification q) = Some c
      /\ certified (today q) (certification_last (hsm_certifications (policy_rules p)) c).
Proof.
  rewrite form_certifications_eq.
  pose proof (fold_certifications (fun p => hsm_certifications (policy_rules p)) policies) as H.
  destruct (fold_left _ policies None) as [g|].
  - destruct H as [(p0 & Hp0 & H0) H]. split.
    + intros Hg p Hp Hs Hne. destruct (Hg g Hs eq_refl) as (c & ? & Hc). exists c. split; [done|].
      rewrite H in Hc. by apply Hc.
    + intros Hp ? Hs [= <-]. destruct (Hp p0 Hp0 Hs H0) as (c & Ec & _). exists c. split; [done|].
      apply H. intros p Hin Hne. destruct (Hp p Hin Hs Hne) as (c' & ? & ?). by simplify_eq.
  - split; [|done]. intros _ p Hp _ Hne. by rewrite (H p Hp) in Hne.
Qed.

Lemma form_tsa_iff x :
  (forall l, form_tsa f = Some l -> x ∈ l) <->
  forall p l y z, p ∈ policies -> tsa_signer_key_types (policy_rules p) = Some l -> y ∈ l -> norm y = Some z ->
    exists y', y' ∈ l /\ norm y' = Some x.
Proof.
  rewrite form_tsa_eq.
  pose proof (elem_narrow (fun p => truthy_list (_label_set reg (tsa_signer_key_types (policy_rules p)))) policies) as H.
  destruct (fold_left _ policies None) as [keys|].
  - setoid_rewrite truthy_list_some in H. destruct H as [_ H]. split.
    + intros Hk p l y z Hp El Hy Hz. specialize (Hk _ eq_refl). rewrite H in Hk.
      assert (x ∈ _label_set reg (tsa_signer_key_types (policy_rules p))) as Hx.
      { apply (Hk p); [done|]. split; [|done]. intros E. apply (not_elem_of_nil z). rewrite <- E.
        apply elem_label_set. eauto. }
      apply elem_label_set in Hx as (? & y' & Hl & ? & ?). rewrite El in Hl. simplify_eq. eauto.
    + intros Hp ? [= <-]. apply H. intros p names Hin [Hne ->].
      destruct (_label_set reg (tsa_signer_key_types (policy_rules p))) as [|b m] eqn:Eb; [done|]. rewrite <- Eb.
      destruct (proj1 (elem_label_set reg b _) ltac:(rewrite Eb; left)) as (l & y & El & Hy & Hz).
      destruct (Hp p l y b Hin El Hy Hz) as (y' & ? & ?). apply elem_label_set. eauto.
  - split; [|done]. intros _ p l y z Hp El Hy Hz. specialize (H p Hp). exfalso.
    assert (z ∈ _label_set reg (tsa_signer_key_types (policy_rules p))) as Hz'.
    { apply elem_label_set. eauto. }
    destruct (_label_set reg (tsa_signer_key_types (policy_rules p))); [by apply elem_of_nil in Hz'|done].
Qed.

(** C32. The merged rules a form shows before a request agree with the enforcement:
    for a signer of a known scheme, a request is within the merged key types, digests,
    schemes, dates, HSM and TSA rules exactly when every policy permits it. *)
Theorem form_agrees
    (Hs : forall s, truthy_text (signer_scheme q) = Some s -> s ∈ SIGNATURE_SCHEMES) :
  form_permits (algorithms_of reg policies) (signature_rules_of reg policies) q <->
  forall p, p ∈ policies -> permits reg (policy_rules p) q.
Proof.
  pose proof form_key_iff as Hk. pose proof form_digest_iff as Hd. pose proof (form_scheme_iff Hs) as Hc.
  setoid_rewrite key_messages_nil in Hk. setoid_rewrite digest_messages_nil in Hd.
  setoid_rewrite scheme_messages_nil in Hc. split.
  - intros [F1 F2 F3 F4 F5 F6 F7 F8 F9] p Hp. constructor.
    + by apply Hk.
    + by apply Hd.
    + by apply Hc.
    + intros w Hw Hr. apply (F4 w Hw). change (form_pq_standalone f = true). rewrite form_pq_eq, fold_orb. eauto.
    + intros kt x e h Ek Ex Ee. eapply form_horizon_iff; eauto.
    + intros kt x u Ek Ex. eapply form_until_iff; eauto.
    + intros Hr. apply F7. change (form_hsm f = true). rewrite form_hsm_eq, fold_orb. eauto.
    + intros Hst Hne. destruct (proj1 form_certified_iff F8 p Hp Hst Hne) as (c & ? & d & ? & ?). eauto.
    + intros kt x l y z Ht Ek Ex. eapply form_tsa_iff; eauto.
  - intros H. constructor.
    + apply Hk. intros p Hp. apply (H p Hp).
    + apply Hd. intros p Hp. apply (H p Hp).
    + apply Hc. intros p Hp. apply (H p Hp).
    + change (signature_rules_of reg policies) with f. rewrite form_pq_eq.
      intros w Hw [?|(p & Hp & Hr)]%fold_orb; [done|]. by apply (pm_pq _ _ _ (H p Hp) w).
    + intros kt x e h Ek Ex Ee. revert h. apply form_horizon_iff. intros p h Hp. by eapply (pm_horizon _ _ _ (H p Hp)).
    + intros kt x u Ek Ex. revert u. apply form_until_iff. intros p u Hp. by eapply (pm_until _ _ _ (H p Hp)).
    + change (signature_rules_of reg policies) with f. rewrite form_hsm_eq.
      intros [?|(p & Hp & Hr)]%fold_orb; [done|]. by apply (pm_hsm _ _ _ (H p Hp)).
    + apply form_certified_iff. intros p Hp Hst Hne.
      destruct (pm_certified _ _ _ (H p Hp) Hst Hne) as (c & d & ? & ? & ?). exists c. split; [done|]. by exists d.
    + intros kt x l Ht Ek Ex. revert l. apply form_tsa_iff. intros p l y z Hp. by eapply (pm_tsa _ _ _ (H p Hp)).
Qed.
End Agreement.
End Form.

Module Sample.
Definition policy (nm : string) (prio : Z) (r : rules) : CertificatePolicy :=
  {| policy_id := prio; name := nm; kind := StoredPolicy; policy_type := Some "issuance";
     operations := OpsList ["issuance"]; policy_ca := None; template_id := None; policy_rules := r;
     advisories := None; requires_approval := true; approval_group_id := None; min_approvers := Some 1;
     is_active := true; priority := prio;
     description := None; notify_on_violation := true; notification_emails := None |}.

Definition strong_digests : rules :=
  {| max_validity_days := VInt 90; allowed_key_types := Some ["rsa-3072"; "EC-P384"];
     allowed_digests := Some ["SHA-384"; "sha512"]; allowed_signature_schemes := Some ["ecdsa"; "rsa_pss"];
     key_type_horizons := [("RSA-3072", Some 11000)]; key_type_issue_until := [];
     require_hsm_ca_key := true; hsm_certifications := [("fips-140-3", Some None); ("cc-eal4", Some (Some 10000))];
     tsa_signer_key_types := None; pq_standalone := false; dns_pattern := ""; max_dns_names := VInt 5 |}.

Definition named (pattern : string) : rules :=
  {| max_validity_days := VNone; allowed_key_types := None; allowed_digests := Some ["sha256"; "sha384"];
     allowed_signature_schemes := None; key_type_horizons := []; key_type_issue_until := [];
     require_hsm_ca_key := false; hsm_certifications := []; tsa_signer_key_types := None;
     pq_standalone := false; dns_pattern := pattern; max_dns_names := VNone |}.

Definition both := [policy "strong" 10 strong_digests; policy "company" 20 (named "company.com")].

Example chosen : choose_digest both "sha256" = "sha384".
Proof. vm_compute. reflexivity. Qed.

Lemma choose_digest_accepted_witness :
  "sha384" ∈ POLICY_DIGESTS /\ (forall p, p ∈ both -> digest_accepted p (choose_digest both "sha256")).
Proof.
  assert ("sha384" ∈ POLICY_DIGESTS) as Hc by (by apply str_in_spec).
  split; [exact Hc|]. apply (choose_digest_accepted both "sha256" "sha384"); [exact Hc|].
  intros p Hp. right. apply str_in_spec.
  apply elem_of_cons in Hp as [->|Hp]; [reflexivity|]. apply list_elem_of_singleton in Hp as ->. reflexivity.
Defined.

Definition request : rule_request :=
  {| key_type := Some "RSA-3072"; digest := Some "sha384"; signer_scheme := Some "rsa_pss";
     signer_storage := Some "hsm"; signer_certification := Some "cc-eal4"; not_after := Some 10500;
     today := 9000; tsa_signer := false; pq_hybrid := false |}.

Lemma form_agrees_witness :
  form_permits (_REGISTRY true) (algorithms_of (_REGISTRY true) both)
    (signature_rules_of (_REGISTRY true) both) request <->
  forall p, p ∈ both -> permits (_REGISTRY true) (policy_rules p) request.
Proof.
  apply (form_agrees (_REGISTRY true) both request).
  intros s [= <-]. by apply str_in_spec.
Defined.

(* the request meets every rule, and stops meeting them a day after the certification ends *)
Example request_met : (both ≫= fun p => _rule_messages (_REGISTRY true) (policy_rules p) request false) = [].
Proof. vm_compute. reflexivity. Qed.

(** The example of the model's comment, ["*.company.com"], is compared literally as a
    prefix or suffix: it covers the wildcard name alone, not the names under it. *)
Lemma wildcard_pattern_is_literal :
  _matches_rules (policy "doc" 1 (named "*.company.com")) (Some "www.company.com") [] = false
  /\ _matches_rules (policy "doc" 1 (named "*.company.com")) (Some "*.company.com") [] = true.
Proof. by split; vm_compute. Qed.
End Sample.
