(* ===== verification/Json.v ===== *)
(** * Json: JSON values as the sources read them

    An object is the list of its members, and a lookup takes the first member of a name.
    Of a float only its truth matters. *)

From Stdlib Require Import Ascii String.
From stdpp Require Import prelude strings.
From S2P Require Import Prelude.

Local Open Scope string_scope.
Local Open Scope Z_scope.

Inductive json :=
| JNull | JBool (b : bool) | JInt (z : Z) | JFloat (zero : bool) | JStr (s : string)
| JList (l : list json) | JObj (o : list (string * json)).

Definition obj := list (string * json).

Fixpoint member (o : obj) (k : string) : option json :=
  match o with
  | [] => None
  | (k', v) :: o' => if (k' =? k)%string then Some v else member o' k
  end.

(* o.get(k): null reads as absent *)
Definition dget (o : obj) (k : string) : option json :=
  match member o k with Some JNull | None => None | Some v => Some v end.

(* o[k] = v *)
Fixpoint dset (o : obj) (k : string) (v : json) : obj :=
  match o with
  | [] => [(k, v)]
  | (k', v') :: o' => if (k' =? k)%string then (k', v) :: o' else (k', v') :: dset o' k v
  end.

Definition strs (l : list string) : json := JList (JStr <$> l).

(* bool(v) *)
Definition truth (v : json) : bool :=
  match v with
  | JNull => false
  | JBool b => b
  | JInt z => negb (z =? 0)
  | JFloat zero => negb zero
  | JStr s => nonempty s
  | JList l => match l with [] => false | _ => true end
  | JObj o => match o with [] => false | _ => true end
  end.
Definition truth_of (o : option json) : option json :=
  match o with Some v => if truth v then Some v else None | None => None end.

(* a == b on values without floats: objects as maps, booleans as numbers *)
Fixpoint depth (v : json) : nat :=
  match v with
  | JList l => S (foldr (fun x n => Nat.max (depth x) n) 0%nat l)
  | JObj o => S (foldr (fun p n => Nat.max (depth p.2) n) 0%nat o)
  | _ => 1
  end.

Fixpoint py_equal (fuel : nat) (a b : json) : bool :=
  match fuel with
  | O => false
  | S fuel' =>
      match a, b with
      | JNull, JNull => true
      | JBool x, JBool y => Bool.eqb x y
      | JInt x, JInt y => x =? y
      | JBool x, JInt y | JInt y, JBool x => (if x then 1 else 0) =? y
      | JStr x, JStr y => (x =? y)%string
      | JList l, JList m => (length l =? length m)%nat && forallb (fun p => py_equal fuel' p.1 p.2) (zip l m)
      | JObj o, JObj q =>
          (length o =? length q)%nat
          && forallb (fun p => match member q p.1 with Some v => py_equal fuel' p.2 v | None => false end) o
      | _, _ => false
      end
  end.
Definition json_equal (a b : json) : bool := py_equal (depth a) a b.
