(* ===== verification/PolicyEditor.v ===== *)
(** * PolicyEditor: what a saved policy may hold

    Models the validation of rules and operations in [backend/api/v2/policies.py]
    ([_validated_rules] and what it calls), [strip_dead_rules] and [parse_rule_date] of
    [backend/services/policy_service.py], and how the evaluation of [Policies] reads a
    stored rule object ([read_rules]). Rules are JSON values. *)

From Stdlib Require Import Ascii String.
From stdpp Require Import prelude gmap strings.
From S2P Require Import Prelude Scalars KeyAlgorithms Policies Json.

Local Open Scope string_scope.
Local Open Scope Z_scope.

(** ** Dates *)

Definition is_leap (y : Z) : bool := (y mod 4 =? 0) && (negb (y mod 100 =? 0) || (y mod 400 =? 0)).
Definition days_before_year (y : Z) : Z :=
  let p := y - 1 in p * 365 + p / 4 - p / 100 + p / 400.
Definition month_days (y m : Z) : Z :=
  if m =? 2 then (if is_leap y then 29 else 28)
  else if (m =? 4) || (m =? 6) || (m =? 9) || (m =? 11) then 30 else 31.
Fixpoint days_before_month (y : Z) (m : nat) : Z :=
  match m with
  | O | 1%nat => 0
  | S m' => days_before_month y m' + month_days y (Z.of_nat m')
  end.

(* the last day of year 9999 *)
Definition MAX_ORDINAL : Z := 3652059.

Definition number (l : list ascii) : option Z :=
  if forallb is_digit l then Z.of_N <$> parse_digits 10 0 l else None.

Definition calendar_date (y m d : Z) : option Z :=
  if (1 <=? y) && (1 <=? m) && (m <=? 12) && (1 <=? d) && (d <=? month_days y m)
  then Some (days_before_year y + days_before_month y (Z.to_nat m) + d) else None.

(* the Monday of ISO week 1, as an ordinal *)
Definition week_one (y : Z) : Z :=
  let first := days_before_year y + 1 in
  let weekday := (first + 6) mod 7 in
  let monday := first - weekday in
  if 3 <? weekday then monday + 7 else monday.

Definition week_date (y w d : Z) : option Z :=
  let first_weekday := (days_before_year y + 1) mod 7 in
  let long := (first_weekday =? 4) || ((first_weekday =? 3) && is_leap y) in
  let ordinal := week_one y + (w - 1) * 7 + d - 1 in
  if (1 <=? y) && (1 <=? w) && ((w <=? 52) || ((w =? 53) && long)) && (1 <=? d) && (d <=? 7)
     && (1 <=? ordinal) && (ordinal <=? MAX_ORDINAL)
  then Some ordinal else None.

(* date.fromisoformat on ten characters: YYYY-MM-DD or YYYY-Www-D *)
Definition fromisoformat (s : string) : option Z :=
  match chars s with
  | [y1; y2; y3; y4; s1; a; b; s2; c; d] =>
      if negb (Ascii.eqb s1 "-") then None
      else if Ascii.eqb a "W" && Ascii.eqb c "-" then
        y ← number [y1; y2; y3; y4]; w ← number [b; s2]; n ← number [d]; week_date y w n
      else if Ascii.eqb s2 "-" then
        y ← number [y1; y2; y3; y4]; m ← number [a; b]; n ← number [c; d]; calendar_date y m n
      else None
  | _ => None
  end.

Definition parse_rule_date (v : json) : option Z :=
  match v with
  | JStr s => if (slen s =? 10)%nat then fromisoformat s else None
  | _ => None
  end.

(** ** Validation *)

Inductive rule_error :=
| NotAnObject
| MustBeList (key : string)
| UnknownKeyType (key : string)
| MustBeDates (key : string)
| BadDate (key label : string)
| UnknownCertification (key code : string)
| UnknownDigest
| UnknownScheme
| MustBeBool (key : string)
| BadAdvisories
| FipsRestricted (label : string).

(* the results, unless an item has none *)
Fixpoint collect_all {A B} (f : A -> option B) (l : list A) : option (list B) :=
  match l with
  | [] => Some []
  | x :: l' => y ← f x; ys ← collect_all f l'; Some (y :: ys)
  end.

Definition DEAD_RULE_KEYS : list string := ["required_extensions"; "forbidden_extensions"].
Definition DEAD_SAN_RULE_KEYS : list string := ["require_approval_for_external"].

Definition without (dead : list string) (o : obj) : obj :=
  List.filter (fun kv => negb (str_in kv.1 dead)) o.

Definition strip_dead_rules (o : obj) : obj :=
  let o := without DEAD_RULE_KEYS o in
  match dget o "san_restrictions" with
  | Some (JObj san) => dset o "san_restrictions" (JObj (without DEAD_SAN_RULE_KEYS san))
  | _ => o
  end.

Definition CERTIFICATIONS : list string :=
  ["cc-eal4+"; "eucc-high"; "fips-140-3-l3"; "fips-140-2-l3"; "other"].

Definition _ADVISORY_RULE_KEYS : list string :=
  ["allowed_key_types"; "allowed_digests"; "allowed_signature_schemes"; "key_type_horizons";
   "key_type_issue_until"; "tsa_signer_key_types"; "hsm_certifications"].

Section Validate.
Variables (reg : _Registry) (fips_enabled : bool).
Let norm (s : string) : option string := _normalize_key_type_label reg (Some s).

(* str(k) of a str or an int (a bool is one) *)
Definition key_label (j : json) : option string :=
  match j with
  | JStr s => norm s
  | JInt z => norm (py_str z)
  | JBool b => norm (if b then "True" else "False")
  | _ => None
  end.

Definition _validated_key_labels (key : string) (o : obj) : result rule_error obj :=
  match dget o key with
  | None => Ok o
  | Some (JList values) =>
      match collect_all key_label values with
      | None => Raise (UnknownKeyType key)
      | Some labels => Ok (dset o key (strs (dedup String.eqb labels)))
      end
  | Some _ => Raise (MustBeList key)
  end.

Fixpoint validated_entries (key : string) (l out : obj) : result rule_error obj :=
  match l with
  | [] => Ok out
  | (label, when) :: l' =>
      match norm label with
      | None => Raise (UnknownKeyType key)
      | Some n => match parse_rule_date when with
                  | None => Raise (BadDate key label)
                  | Some _ => validated_entries key l' (dset out n when)
                  end
      end
  end.

Definition _validated_dates (key : string) (o : obj) : result rule_error obj :=
  match dget o key with
  | None => Ok o
  | Some (JObj mapping) =>
      match validated_entries key mapping [] with
      | Raise e => Raise e
      | Ok out => Ok (dset o key (JObj out))
      end
  | Some _ => Raise (MustBeDates key)
  end.

Fixpoint certification_error (key : string) (l : obj) : option rule_error :=
  match l with
  | [] => None
  | (code, when) :: l' =>
      if negb (str_in code CERTIFICATIONS) then Some (UnknownCertification key code)
      else if match when with JNull => true | _ => bool_decide (is_Some (parse_rule_date when)) end
      then certification_error key l' else Some (BadDate key code)
  end.

Definition _validated_certifications (key : string) (o : obj) : result rule_error obj :=
  match dget o key with
  | None => Ok o
  | Some (JObj mapping) => match certification_error key mapping with
                           | Some e => Raise e
                           | None => Ok o
                           end
  | Some _ => Raise (MustBeDates key)
  end.

Definition digest_name (j : json) : option string :=
  match j with JStr s => normalize_digest s | _ => None end.
Definition scheme_name (j : json) : option string :=
  match j with JStr s => if str_in s SIGNATURE_SCHEMES then Some s else None | _ => None end.

(* a list of known names, without repetition *)
Definition validated_names (name : json -> option string) (unknown : rule_error) (key : string) (o : obj)
    : result rule_error obj :=
  match dget o key with
  | None => Ok o
  | Some (JList values) =>
      match collect_all name values with
      | None => Raise unknown
      | Some names => Ok (dset o key (strs (dedup String.eqb names)))
      end
  | Some _ => Raise (MustBeList key)
  end.

(* the first label of allowed_key_types that FIPS mode does not approve *)
Definition fips_refusal (o : obj) : option string :=
  match dget o "allowed_key_types" with
  | Some (JList values) =>
      List.find (fun l => negb (fips_approved_label reg (Some l)))
        (omap (fun j => match j with JStr s => Some s | _ => None end) values)
  | _ => None
  end.

Local Open Scope py_scope.

Definition check_fips (fips_check : bool) (o : obj) : result rule_error obj :=
  match (if fips_check && fips_enabled then fips_refusal o else None) with
  | Some l => Raise (FipsRestricted l)
  | None => Ok o
  end.

Definition _validated_algorithm_rules (fips_check : bool) (o : obj) : result rule_error obj :=
  o <-? _validated_key_labels "allowed_key_types" o;;
  o <-? _validated_key_labels "tsa_signer_key_types" o;;
  o <-? check_fips fips_check o;;
  o <-? validated_names digest_name UnknownDigest "allowed_digests" o;;
  o <-? validated_names scheme_name UnknownScheme "allowed_signature_schemes" o;;
  o <-? _validated_dates "key_type_horizons" o;;
  o <-? _validated_dates "key_type_issue_until" o;;
  _validated_certifications "hsm_certifications" o.

Definition check_flag (key : string) (o : obj) : result rule_error obj :=
  match member o key with
  | None | Some (JBool _) => Ok o
  | Some _ => Raise (MustBeBool key)
  end.

Definition validated_advisories (o : obj) : result rule_error obj :=
  match dget o "advisories" with
  | None => Ok o
  | Some (JObj adv) =>
      if forallb (fun kv => str_in kv.1 _ADVISORY_RULE_KEYS) adv then
        adv <-? _validated_algorithm_rules false adv;; Ok (dset o "advisories" (JObj adv))
      else Raise BadAdvisories
  | Some _ => Raise BadAdvisories
  end.

Definition _validated_rules (j : json) : result rule_error obj :=
  match j with
  | JObj o =>
      o <-? _validated_algorithm_rules true (strip_dead_rules o);;
      o <-? check_flag "require_hsm_ca_key" o;;
      o <-? check_flag "pq_standalone" o;;
      validated_advisories o
  | _ => Raise NotAnObject
  end.
End Validate.

(** ** How the evaluation reads a stored object *)

(* str() of an item; an item that is neither text nor number names nothing *)
Definition text (j : json) : string :=
  match j with JStr s => s | JInt z => py_str z | _ => "" end.
Definition names_of (j : option json) : option (list string) :=
  match j with Some (JList l) => Some (text <$> l) | _ => None end.
Definition dates_of (j : option json) : list (string * option Z) :=
  match j with Some (JObj l) => (fun kv => (kv.1, parse_rule_date kv.2)) <$> l | _ => [] end.
Definition certifications_of (j : option json) : list (string * option (option Z)) :=
  match j with
  | Some (JObj l) =>
      (fun kv => (kv.1, match kv.2 with JNull => Some None | v => Some <$> parse_rule_date v end)) <$> l
  | _ => []
  end.
Definition pyval_of (j : option json) : pyval :=
  match j with
  | None | Some JNull => VNone
  | Some (JBool b) => VBool b
  | Some (JInt z) => VInt z
  | Some (JStr s) => VStr s
  | Some _ => VOther
  end.
Definition san_member (o : obj) (k : string) : option json :=
  match dget o "san_restrictions" with Some (JObj san) => dget san k | _ => None end.

Definition read_rules (o : obj) : rules :=
  {| max_validity_days := pyval_of (dget o "max_validity_days");
     allowed_key_types := names_of (dget o "allowed_key_types");
     allowed_digests := names_of (dget o "allowed_digests");
     allowed_signature_schemes := names_of (dget o "allowed_signature_schemes");
     key_type_horizons := dates_of (dget o "key_type_horizons");
     key_type_issue_until := dates_of (dget o "key_type_issue_until");
     require_hsm_ca_key := match dget o "require_hsm_ca_key" with Some (JBool b) => b | _ => false end;
     hsm_certifications := certifications_of (dget o "hsm_certifications");
     tsa_signer_key_types := names_of (dget o "tsa_signer_key_types");
     pq_standalone := match dget o "pq_standalone" with Some (JBool b) => b | _ => false end;
     dns_pattern := match san_member o "dns_pattern" with Some (JStr s) => s | _ => "" end;
     max_dns_names := pyval_of (san_member o "max_dns_names") |}.

(* advisories, where rules hold them *)
Definition read_advisories (o : obj) : option rules :=
  match dget o "advisories" with Some (JObj adv) => Some (read_rules adv) | _ => None end.

(* rules.get('san_restrictions', {}).get('dns_pattern', ''), then its use as a prefix:
   None where that raises *)
Definition read_dns_pattern (o : obj) : option string :=
  match member o "san_restrictions" with
  | None => Some ""
  | Some (JObj san) =>
      match member san "dns_pattern" with
      | None | Some JNull | Some (JBool false) | Some (JInt 0) | Some (JFloat true) | Some (JList []) | Some (JObj []) => Some ""
      | Some (JStr s) => Some s
      | Some _ => None
      end
  | Some _ => None
  end.

Example dates : fromisoformat "2024-02-29" = Some 738945 /\ fromisoformat "2023-02-29" = None
  /\ fromisoformat "2024-W09-4" = Some 738945 /\ fromisoformat "2024-W53-1" = None
  /\ fromisoformat "2020-W53-1" = Some 737787 /\ fromisoformat "9999-12-31" = Some MAX_ORDINAL.
Proof. vm_compute. repeat split. Qed.

(** * Lemmas *)

Lemma member_dset o k v j : member (dset o k v) j = if (k =? j)%string then Some v else member o j.
Proof.
  induction o as [|[k' v'] o IH]; simpl; [done|]. destruct (k' =? k)%string eqn:E; simpl.
  - apply String.eqb_eq in E as ->. by destruct (k =? j)%string.
  - rewrite IH. destruct (k' =? j)%string eqn:E1; [|done]. apply String.eqb_eq in E1 as ->.
    rewrite String.eqb_sym, E. done.
Qed.

Lemma dset_same o k v : member o k = Some v -> dset o k v = o.
Proof.
  induction o as [|[k' v'] o IH]; simpl; [done|]. destruct (k' =? k)%string; [by intros [= ->]|].
  intros H. by rewrite IH.
Qed.

Lemma dget_dset o k v : v <> JNull -> dget (dset o k v) k = Some v.
Proof. unfold dget. rewrite member_dset, String.eqb_refl. by destruct v. Qed.

Lemma dget_dset_ne o k v j : k <> j -> dget (dset o k v) j = dget o j.
Proof. unfold dget. rewrite member_dset. intros H%String.eqb_neq. by rewrite H. Qed.

Lemma dget_member o k v : dget o k = Some v -> member o k = Some v.
Proof. unfold dget. by destruct (member o k) as [[]|]. Qed.

Lemma append_new_nodup out (x : string) : NoDup out -> NoDup (append_new String.eqb out x).
Proof.
  intros H. unfold append_new. destruct (existsb (String.eqb x) out) eqn:E; [done|].
  change (str_in x out = false) in E. apply str_in_false in E. apply NoDup_app. split; [done|].
  split; [|apply NoDup_singleton]. intros y Hy ->%list_elem_of_singleton. done.
Qed.

Lemma fold_append_nodup l : forall out : list string, NoDup out -> NoDup (fold_left (append_new String.eqb) l out).
Proof. induction l; intros out H; simpl; [done|]. by apply IHl, append_new_nodup. Qed.

Lemma fold_append_id l : forall out : list string, NoDup (out ++ l) -> fold_left (append_new String.eqb) l out = (out ++ l)%list.
Proof.
  induction l as [|x l IH]; intros out H; simpl; [by rewrite app_nil_r|].
  assert (append_new String.eqb out x = (out ++ [x])%list) as ->.
  { unfold append_new. destruct (existsb (String.eqb x) out) eqn:E; [|done]. exfalso.
    change (str_in x out = true) in E. apply str_in_spec in E. apply NoDup_app in H as (_ & H & _).
    apply (H x E). left. }
  rewrite IH; rewrite <- app_assoc; done.
Qed.

Lemma dedup_nodup (l : list string) : NoDup (dedup String.eqb l).
Proof. apply fold_append_nodup. constructor. Qed.
Lemma dedup_id (l : list string) : NoDup l -> dedup String.eqb l = l.
Proof. apply (fold_append_id l []). Qed.
Lemma elem_dedup (x : string) l : x ∈ dedup String.eqb l <-> x ∈ l.
Proof.
  unfold dedup. rewrite fold_append_new_elem. split; [|by right].
  intros [H|?]; [by apply elem_of_nil in H|done].
Qed.

Lemma collect_all_elem {A B} (f : A -> option B) l ys : collect_all f l = Some ys ->
  forall y, y ∈ ys <-> exists x, x ∈ l /\ f x = Some y.
Proof.
  revert ys. induction l as [|x l IH]; intros ys; simpl.
  - intros [= <-] y. split; [by intros ?%elem_of_nil|]. by intros (? & ?%elem_of_nil & _).
  - destruct (f x) as [z|] eqn:Ez; [|done]. simpl. destruct (collect_all f l) as [zs|]; [|done].
    simpl. intros [= <-] y. rewrite elem_of_cons, (IH zs eq_refl). setoid_rewrite elem_of_cons. naive_solver.
Qed.

(* items that are already what they are read as *)
Lemma collect_all_fixed (f : json -> option string) l : (forall x, x ∈ l -> f (JStr x) = Some x) ->
  collect_all f (JStr <$> l) = Some l.
Proof.
  induction l as [|x l IH]; intros H; [done|]. rewrite fmap_cons. cbn [collect_all].
  rewrite (H x) by left. cbn. rewrite IH; [done|]. intros y Hy. apply H. by right.
Qed.

(* what a step of the validation leaves: other members untouched, and a result that the
   same step accepts unchanged, wherever its members are kept *)
Record settled (V : obj -> result rule_error obj) (K : list string) : Prop := {
  st_others : forall o o' j, V o = Ok o' -> j ∉ K -> member o' j = member o j;
  st_keys : forall o o' (P : string -> Prop), V o = Ok o' -> (forall k, k ∈ K -> P k) ->
    Forall P o.*1 -> Forall P o'.*1;
  st_fixed : forall o o' o2, V o = Ok o' -> (forall k, k ∈ K -> member o2 k = member o' k) -> V o2 = Ok o2;
}.

Lemma keys_dset (P : string -> Prop) o k v : P k -> Forall P o.*1 -> Forall P (dset o k v).*1.
Proof.
  intros Hk. induction o as [|[k' v'] o IH]; cbn; [by repeat constructor|].
  intros [H1 H2]%Forall_cons. destruct (k' =? k)%string; cbn; constructor; auto.
Qed.

Lemma settled_check (V : obj -> result rule_error obj) K :
  (forall o o', V o = Ok o' -> o' = o) ->
  (forall o o2, (forall k, k ∈ K -> member o2 k = member o k) -> is_ok (V o) = true -> V o2 = Ok o2) ->
  settled V K.
Proof.
  intros H1 H2. split.
  - by intros o o' j ->%H1.
  - by intros o o' P ->%H1.
  - intros o o' o2 HV Hk. apply (H2 o); [|by rewrite HV]. by rewrite (H1 _ _ HV) in Hk.
Qed.

Definition chain (V1 V2 : obj -> result rule_error obj) (o : obj) : result rule_error obj :=
  match V1 o with Ok o1 => V2 o1 | Raise e => Raise e end.

Lemma settled_chain V1 V2 K1 K2 :
  settled V1 K1 -> settled V2 K2 ->
  (forall o o' k, V2 o = Ok o' -> k ∈ K1 -> member o' k = member o k) ->
  settled (chain V1 V2) (K1 ++ K2).
Proof.
  intros S1 S2 H21. unfold chain. split.
  - intros o o' j. destruct (V1 o) as [o1|] eqn:E1; [|done]. intros E2 Hj.
    rewrite (st_others _ _ S2 _ _ _ E2), (st_others _ _ S1 _ _ _ E1); set_solver.
  - intros o o' P. destruct (V1 o) as [o1|] eqn:E1; [|done]. intros E2 HP Ho.
    eapply (st_keys _ _ S2); [exact E2|set_solver|]. eapply (st_keys _ _ S1); [exact E1|set_solver|done].
  - intros o o' o2. destruct (V1 o) as [o1|] eqn:E1; [|done]. intros E2 Hk.
    rewrite (st_fixed _ _ S1 _ _ o2 E1).
    + eapply (st_fixed _ _ S2); [exact E2|]. set_solver.
    + intros k Hk1. rewrite Hk by set_solver. by apply H21.
Qed.

Lemma settled_chain_disjoint V1 V2 K1 K2 :
  settled V1 K1 -> settled V2 K2 -> forallb (fun k => negb (str_in k K2)) K1 = true ->
  settled (chain V1 V2) (K1 ++ K2).
Proof.
  intros S1 S2 Hd. apply settled_chain; [done..|]. intros o o' k HV Hk. apply (st_others _ _ S2 _ _ _ HV).
  rewrite forallb_forall in Hd. apply list_elem_of_In, Hd, negb_true_iff in Hk. by apply str_in_false.
Qed.

Lemma settled_dset V k (fix_ : json -> Prop) :
  (forall o o', V o = Ok o' -> o' = o /\ dget o k = None \/ exists v, o' = dset o k v /\ v <> JNull /\ fix_ v) ->
  (forall o, dget o k = None -> V o = Ok o) ->
  (forall o v, dget o k = Some v -> fix_ v -> V o = Ok o) ->
  settled V [k].
Proof.
  intros H1 H2 H3. split.
  - intros o o' j HV Hj. destruct (H1 _ _ HV) as [[-> _]|(v & -> & _)]; [done|]. rewrite member_dset.
    destruct (k =? j)%string eqn:E; [|done]. apply String.eqb_eq in E as ->. set_solver.
  - intros o o' P HV HP Ho. destruct (H1 _ _ HV) as [[-> _]|(v & -> & _)]; [done|].
    apply keys_dset; [|done]. apply HP. left.
  - intros o o' o2 HV Hk. specialize (Hk k ltac:(left)).
    assert (dget o2 k = dget o' k) as Hg by (unfold dget; by rewrite Hk).
    destruct (H1 _ _ HV) as [[-> Hn]|(v & -> & Hv & Hf)]; [apply H2; congruence|].
    rewrite dget_dset in Hg by done. by eapply H3.
Qed.

Lemma settled_names (name : json -> option string) e k :
  (forall j x, name j = Some x -> name (JStr x) = Some x) -> settled (validated_names name e k) [k].
Proof.
  intros Hfix. apply (settled_dset _ _ (fun v => exists l, v = strs l /\ NoDup l /\ forall x, x ∈ l -> name (JStr x) = Some x)).
  - intros o o'. unfold validated_names. destruct (dget o k) as [[]|] eqn:Ed; try done.
    + destruct (collect_all name l) as [names|] eqn:Ec; [|done]. intros [= <-]. right. eexists. split; [done|].
      split; [done|]. eexists. split; [done|]. split; [apply dedup_nodup|].
      intros x. rewrite elem_dedup, (collect_all_elem _ _ _ Ec). intros (j & _ & Hj). by eapply Hfix.
    + intros [= <-]. by left.
  - intros o Hd. unfold validated_names. by rewrite Hd.
  - intros o v Hd (l & -> & Hn & Hl). unfold validated_names. rewrite Hd. unfold strs.
    rewrite collect_all_fixed by done. rewrite dedup_id by done.
    f_equal. apply dset_same. by apply dget_member.
Qed.

Section Stable.
Variables (mldsa fips_enabled : bool).
Abbreviation reg := (_REGISTRY mldsa).
#[local] Opaque _REGISTRY.
#[local] Arguments _normalize_key_type_label : simpl never.

Lemma key_label_fixed j x : key_label reg j = Some x -> key_label reg (JStr x) = Some x.
Proof. destruct j; simpl; try done; apply key_type_label_stable. Qed.

Lemma digest_fixed j x : digest_name j = Some x -> digest_name (JStr x) = Some x.
Proof.
  destruct j; try done. simpl. unfold normalize_digest at 1. destruct (str_in _ POLICY_DIGESTS) eqn:E; [|done].
  intros [= <-]. apply str_in_spec in E. revert E. generalize (remove_char "-" (lower (strip s))). intros d.
  unfold POLICY_DIGESTS. rewrite !elem_of_cons, elem_of_nil. intros [->|[->|[->|[]]]]; done.
Qed.

Lemma scheme_fixed j x : scheme_name j = Some x -> scheme_name (JStr x) = Some x.
Proof.
  destruct j; try done. cbn [scheme_name]. destruct (str_in s SIGNATURE_SCHEMES) eqn:E; [|done].
  intros [= <-]. by rewrite E.
Qed.

(* an entry that reads as itself *)
Definition entry_fixed (kv : string * json) : Prop :=
  _normalize_key_type_label reg (Some kv.1) = Some kv.1 /\ is_Some (parse_rule_date kv.2).

Lemma entries_result key l : forall out out', validated_entries reg key l out = Ok out' ->
  Forall entry_fixed out -> NoDup out.*1 -> Forall entry_fixed out' /\ NoDup out'.*1.
Proof.
  induction l as [|[k v] l IH]; intros out out'; simpl; [by intros [= <-]|].
  destruct (_normalize_key_type_label reg (Some k)) as [n|] eqn:En; [|done].
  destruct (parse_rule_date v) as [d|] eqn:Ed; [|done]. intros H Hf Hn. eapply IH; [exact H|..].
  - assert (entry_fixed (n, v)) as He.
    { split; [|cbn; by rewrite Ed]. by apply (key_type_label_stable mldsa (Some k)). }
    clear -Hf He. induction out as [|[k' v'] o IHo]; simpl; [by apply Forall_singleton|].
    apply Forall_cons in Hf as [H1 H2]. destruct (k' =? n)%string eqn:E; constructor; auto.
    apply String.eqb_eq in E as ->. done.
  - clear -Hn. induction out as [|[k' v'] o IHo]; cbn; [apply NoDup_singleton|].
    apply NoDup_cons in Hn as [H1 H2]. destruct (k' =? n)%string eqn:E; cbn; apply NoDup_cons; [done|].
    split; [|auto]. apply String.eqb_neq in E. intros Hin.
    assert (forall o : obj, k' ∈ (dset o n v).*1 -> k' = n \/ k' ∈ o.*1) as Hd; [|destruct (Hd _ Hin); done].
    clear. induction o as [|[a b] o IH]; cbn; [by rewrite list_elem_of_singleton; left|].
    destruct (a =? n)%string; cbn; rewrite !elem_of_cons; naive_solver.
Qed.

Lemma dset_new (o : obj) k v : k ∉ o.*1 -> dset o k v = (o ++ [(k, v)])%list.
Proof.
  induction o as [|[a b] o IH]; cbn; [done|]. rewrite elem_of_cons. intros H.
  destruct (a =? k)%string eqn:E; [apply String.eqb_eq in E; naive_solver|]. rewrite IH; naive_solver.
Qed.

Lemma entries_fixed key l : forall out : obj, Forall entry_fixed l -> NoDup ((out ++ l)%list.*1) ->
  validated_entries reg key l out = Ok (out ++ l)%list.
Proof.
  induction l as [|[k v] l IH]; intros out Hf Hn; simpl; [by rewrite app_nil_r|].
  apply Forall_cons in Hf as [[H1 [d H2]] Hf]. cbn in H1, H2. rewrite H1, H2, dset_new.
  - rewrite IH; rewrite <- ?app_assoc; done.
  - rewrite fmap_app in Hn. apply NoDup_app in Hn as (_ & Hn & _). intros Hk. apply (Hn k Hk). left.
Qed.

Lemma settled_dates k : settled (_validated_dates reg k) [k].
Proof.
  apply (settled_dset _ _ (fun v => exists l, v = JObj l /\ Forall entry_fixed l /\ NoDup l.*1)).
  - intros o o'. unfold _validated_dates. destruct (dget o k) as [[]|] eqn:Ed; try done; [|by intros [= <-]; left].
    destruct (validated_entries reg k o0 []) as [out|] eqn:Ev; [|done]. intros [= <-]. right.
    eexists. split; [done|]. split; [done|]. eexists. split; [done|].
    eapply entries_result; [exact Ev|constructor..].
  - intros o Hd. unfold _validated_dates. by rewrite Hd.
  - intros o v Hd (l & -> & Hf & Hn). unfold _validated_dates. rewrite Hd, (entries_fixed k l []) by done.
    cbn [app]. f_equal. apply dset_same. by apply dget_member.
Qed.

Lemma settled_ext (V W : obj -> result rule_error obj) K : (forall o, V o = W o) -> settled W K -> settled V K.
Proof.
  intros H [H1 H2 H3]. split.
  - intros o o' j. rewrite H. apply H1.
  - intros o o' P. rewrite H. apply H2.
  - intros o o' o2. rewrite !H. apply H3.
Qed.

Lemma check_fips_same c o o' : check_fips reg fips_enabled c o = Ok o' -> o' = o.
Proof. unfold check_fips. destruct (if c && fips_enabled then _ else _); [done|by intros [= <-]]. Qed.

Lemma dget_ext o o2 k : member o2 k = member o k -> dget o2 k = dget o k.
Proof. unfold dget. by intros ->. Qed.

Lemma settled_fips c : settled (check_fips reg fips_enabled c) ["allowed_key_types"].
Proof.
  apply settled_check; [apply check_fips_same|]. intros o o2 Hk. unfold check_fips, fips_refusal.
  rewrite (dget_ext o o2) by (apply Hk; left).
  destruct (if c && fips_enabled then _ else _); done.
Qed.

Lemma settled_certifications k : settled (_validated_certifications k) [k].
Proof.
  apply settled_check.
  - intros o o'. unfold _validated_certifications. destruct (dget o k) as [[]|]; try done; [|by intros [= <-]].
    destruct (certification_error k o0); [done|by intros [= <-]].
  - intros o o2 Hk. unfold _validated_certifications. rewrite (dget_ext o o2) by (apply Hk; left).
    destruct (dget o k) as [[]|]; try done. by destruct (certification_error k o0).
Qed.

Lemma settled_flag k : settled (check_flag k) [k].
Proof.
  apply settled_check.
  - intros o o'. unfold check_flag. destruct (member o k) as [[]|]; try done; by intros [= <-].
  - intros o o2 Hk. unfold check_flag. rewrite (Hk k) by left. by destruct (member o k) as [[]|].
Qed.

Definition algorithm_keys : list string :=
  [ "allowed_key_types"; "tsa_signer_key_types"; "allowed_key_types"; "allowed_digests";
    "allowed_signature_schemes"; "key_type_horizons"; "key_type_issue_until"; "hsm_certifications" ].

Lemma settled_algorithm c : settled (_validated_algorithm_rules reg fips_enabled c) algorithm_keys.
Proof.
  pose (labels := chain (_validated_key_labels reg "allowed_key_types") (_validated_key_labels reg "tsa_signer_key_types")).
  pose (rest := chain (validated_names digest_name UnknownDigest "allowed_digests")
    (chain (validated_names scheme_name UnknownScheme "allowed_signature_schemes")
    (chain (_validated_dates reg "key_type_horizons") (chain (_validated_dates reg "key_type_issue_until")
    (_validated_certifications "hsm_certifications"))))).
  assert (settled labels (["allowed_key_types"] ++ ["tsa_signer_key_types"])) as S1.
  { apply settled_chain_disjoint; [apply (settled_names (key_label reg)), key_label_fixed..|done]. }
  assert (settled rest (["allowed_digests"] ++ ["allowed_signature_schemes"] ++ ["key_type_horizons"]
    ++ ["key_type_issue_until"] ++ ["hsm_certifications"])) as S2.
  { apply settled_chain_disjoint; [apply settled_names, digest_fixed| |done].
    apply settled_chain_disjoint; [apply settled_names, scheme_fixed| |done].
    apply settled_chain_disjoint; [apply settled_dates| |done].
    apply settled_chain_disjoint; [apply settled_dates|apply settled_certifications|done]. }
  assert (settled (chain labels (check_fips reg fips_enabled c))
    ((["allowed_key_types"] ++ ["tsa_signer_key_types"]) ++ ["allowed_key_types"])) as S3.
  { apply settled_chain; [done|apply settled_fips|]. by intros o o' k ->%check_fips_same. }
  eapply settled_ext; [|exact (settled_chain_disjoint _ _ _ _ S3 S2 eq_refl)].
  intros o. unfold labels, rest, chain, _validated_algorithm_rules. by repeat case_match.
Qed.

Lemma settled_advisories : settled (validated_advisories reg fips_enabled) ["advisories"].
Proof.
  apply (settled_dset _ _ (fun v => exists adv, v = JObj adv
    /\ forallb (fun kv => str_in kv.1 _ADVISORY_RULE_KEYS) adv = true
    /\ _validated_algorithm_rules reg fips_enabled false adv = Ok adv)).
  - intros o o'. unfold validated_advisories. destruct (dget o "advisories") as [[]|] eqn:Ed; try done; [|by intros [= <-]; left].
    destruct (forallb _ o0) eqn:Ef; [|done].
    destruct (_validated_algorithm_rules reg fips_enabled false o0) as [adv|] eqn:Ea; [|done].
    intros [= <-]. right. eexists. split; [done|]. split; [done|]. exists adv. split; [done|].
    destruct (settled_algorithm false) as [_ Hkeys Hfix]. split; [|by eapply Hfix].
    rewrite forallb_forall in Ef. apply forallb_forall. intros kv Hkv.
    assert (Forall (fun k => str_in k _ADVISORY_RULE_KEYS = true) adv.*1) as Hall.
    { eapply Hkeys; [exact Ea| |].
      - intros k Hk. apply str_in_spec. unfold algorithm_keys, _ADVISORY_RULE_KEYS in *. set_solver.
      - apply Forall_fmap, Forall_forall. intros x Hx. apply Ef. by apply list_elem_of_In. }
    rewrite Forall_forall in Hall. apply Hall, list_elem_of_fmap. exists kv. split; [done|by apply list_elem_of_In].
  - intros o Hd. unfold validated_advisories. by rewrite Hd.
  - intros o v Hd (adv & -> & Hf & Ha). unfold validated_advisories. rewrite Hd, Hf, Ha.
    f_equal. apply dset_same. by apply dget_member.
Qed.

Definition after_strip : obj -> result rule_error obj :=
  chain (_validated_algorithm_rules reg fips_enabled true)
    (chain (check_flag "require_hsm_ca_key") (chain (check_flag "pq_standalone") (validated_advisories reg fips_enabled))).
Definition rule_keys : list string :=
  (algorithm_keys ++ ["require_hsm_ca_key"] ++ ["pq_standalone"] ++ ["advisories"])%list.

Lemma settled_flags :
  settled (chain (check_flag "require_hsm_ca_key") (chain (check_flag "pq_standalone") (validated_advisories reg fips_enabled)))
    (["require_hsm_ca_key"] ++ ["pq_standalone"] ++ ["advisories"]).
Proof.
  apply settled_chain_disjoint; [apply settled_flag| |done].
  apply settled_chain_disjoint; [apply settled_flag|apply settled_advisories|done].
Qed.

Lemma settled_after_strip : settled after_strip rule_keys.
Proof.
  apply settled_chain_disjoint; [apply settled_algorithm|apply settled_flags|done].
Qed.

(* no key that nothing reads is left *)
Definition stripped (o : obj) : Prop :=
  Forall (fun k => str_in k DEAD_RULE_KEYS = false) o.*1
  /\ forall san, dget o "san_restrictions" = Some (JObj san) -> Forall (fun k => str_in k DEAD_SAN_RULE_KEYS = false) san.*1.

Lemma without_id dead o : Forall (fun k => str_in k dead = false) o.*1 -> without dead o = o.
Proof.
  induction o as [|[k v] o IH]; cbn; [done|]. intros [H1 H2]%Forall_cons. cbn in H1. rewrite H1. cbn.
  f_equal. by apply IH.
Qed.
Lemma without_clean dead o : Forall (fun k => str_in k dead = false) (without dead o).*1.
Proof.
  apply Forall_fmap, Forall_forall. intros kv. unfold without. rewrite list_elem_of_In, filter_In.
  intros [_ H]. by apply negb_true_iff in H.
Qed.

Lemma strip_stripped o : stripped (strip_dead_rules o).
Proof.
  unfold strip_dead_rules. pose proof (without_clean DEAD_RULE_KEYS o) as Hc.
  destruct (dget (without DEAD_RULE_KEYS o) "san_restrictions") as [[]|] eqn:Ed;
    try (split; [exact Hc|]; intros san; by rewrite Ed).
  split; [by apply keys_dset|]. intros san. rewrite dget_dset by done. intros [= <-]. apply without_clean.
Qed.

Lemma strip_id_stripped o : stripped o -> strip_dead_rules o = o.
Proof.
  intros [H1 H2]. unfold strip_dead_rules. rewrite without_id by done.
  destruct (dget o "san_restrictions") as [[]|] eqn:Ed; try done.
  rewrite without_id by (by apply H2). apply dset_same. by apply dget_member.
Qed.

Lemma validated_after_strip j o : _validated_rules reg fips_enabled j = Ok o ->
  exists raw, j = JObj raw /\ after_strip (strip_dead_rules raw) = Ok o.
Proof. destruct j as [| | | | | |raw]; try done. intros H. by exists raw. Qed.

(** C33. Rules that were saved can be saved again as they are: validating the result of a
    validation accepts it and changes nothing, FIPS mode and advisories included. *)
Theorem validated_rules_stable (j : json) (o : obj) :
  _validated_rules reg fips_enabled j = Ok o -> _validated_rules reg fips_enabled (JObj o) = Ok o.
Proof.
  intros (raw & -> & H)%validated_after_strip. change (after_strip (strip_dead_rules o) = Ok o).
  destruct settled_after_strip as [Hothers Hkeys Hfix]. destruct (strip_stripped raw) as [S1 S2].
  rewrite (strip_id_stripped o); [by eapply Hfix|]. split.
  - eapply Hkeys; [exact H| |exact S1]. intros k Hk. apply str_in_false.
    unfold rule_keys, algorithm_keys, DEAD_RULE_KEYS in *. set_solver.
  - intros san. rewrite (dget_ext (strip_dead_rules raw)); [apply S2|]. eapply Hothers; [exact H|].
    apply str_in_false. done.
Qed.

(** ** What the evaluation makes of saved rules *)

(* each step accepts the final object *)
Record algorithm_fixed (o : obj) : Prop := {
  af_keys : _validated_key_labels reg "allowed_key_types" o = Ok o;
  af_tsa : _validated_key_labels reg "tsa_signer_key_types" o = Ok o;
  af_digests : validated_names digest_name UnknownDigest "allowed_digests" o = Ok o;
  af_schemes : validated_names scheme_name UnknownScheme "allowed_signature_schemes" o = Ok o;
  af_horizons : _validated_dates reg "key_type_horizons" o = Ok o;
  af_until : _validated_dates reg "key_type_issue_until" o = Ok o;
  af_certifications : _validated_certifications "hsm_certifications" o = Ok o;
}.

Lemma algorithm_steps c o : _validated_algorithm_rules reg fips_enabled c o = Ok o -> algorithm_fixed o.
Proof.
  unfold _validated_algorithm_rules.
  destruct (_validated_key_labels reg "allowed_key_types" o) as [o1|] eqn:E1; [|done].
  destruct (_validated_key_labels reg "tsa_signer_key_types" o1) as [o2|] eqn:E2; [|done].
  destruct (check_fips reg fips_enabled c o2) as [o3|] eqn:E3; [|done]. apply check_fips_same in E3 as ->.
  destruct (validated_names digest_name UnknownDigest "allowed_digests" o2) as [o4|] eqn:E4; [|done].
  destruct (validated_names scheme_name UnknownScheme "allowed_signature_schemes" o4) as [o5|] eqn:E5; [|done].
  destruct (_validated_dates reg "key_type_horizons" o5) as [o6|] eqn:E6; [|done].
  destruct (_validated_dates reg "key_type_issue_until" o6) as [o7|] eqn:E7; [|done]. intros E8.
  pose proof (settled_names (key_label reg) (UnknownKeyType "allowed_key_types") "allowed_key_types" key_label_fixed) as S1.
  pose proof (settled_names (key_label reg) (UnknownKeyType "tsa_signer_key_types") "tsa_signer_key_types" key_label_fixed) as S2.
  pose proof (settled_names digest_name UnknownDigest "allowed_digests" digest_fixed) as S4.
  pose proof (settled_names scheme_name UnknownScheme "allowed_signature_schemes" scheme_fixed) as S5.
  pose proof (settled_dates "key_type_horizons") as S6. pose proof (settled_dates "key_type_issue_until") as S7.
  pose proof (settled_certifications "hsm_certifications") as S8.
  assert (forall j V k a b, settled V [k] -> V a = Ok b -> (k =? j)%string = false -> member b j = member a j) as Hm.
  { intros j V k a b S E Hne. apply (st_others _ _ S _ _ _ E). apply String.eqb_neq in Hne. set_solver. }
  split.
  - eapply (st_fixed _ _ S1); [exact E1|]. intros k ->%list_elem_of_singleton.
    rewrite (Hm _ _ _ _ _ S8 E8), (Hm _ _ _ _ _ S7 E7), (Hm _ _ _ _ _ S6 E6), (Hm _ _ _ _ _ S5 E5),
      (Hm _ _ _ _ _ S4 E4), (Hm _ _ _ _ _ S2 E2); done.
  - eapply (st_fixed _ _ S2); [exact E2|]. intros k ->%list_elem_of_singleton.
    rewrite (Hm _ _ _ _ _ S8 E8), (Hm _ _ _ _ _ S7 E7), (Hm _ _ _ _ _ S6 E6), (Hm _ _ _ _ _ S5 E5),
      (Hm _ _ _ _ _ S4 E4); done.
  - eapply (st_fixed _ _ S4); [exact E4|]. intros k ->%list_elem_of_singleton.
    rewrite (Hm _ _ _ _ _ S8 E8), (Hm _ _ _ _ _ S7 E7), (Hm _ _ _ _ _ S6 E6), (Hm _ _ _ _ _ S5 E5); done.
  - eapply (st_fixed _ _ S5); [exact E5|]. intros k ->%list_elem_of_singleton.
    rewrite (Hm _ _ _ _ _ S8 E8), (Hm _ _ _ _ _ S7 E7), (Hm _ _ _ _ _ S6 E6); done.
  - eapply (st_fixed _ _ S6); [exact E6|]. intros k ->%list_elem_of_singleton.
    rewrite (Hm _ _ _ _ _ S8 E8), (Hm _ _ _ _ _ S7 E7); done.
  - eapply (st_fixed _ _ S7); [exact E7|]. intros k ->%list_elem_of_singleton. rewrite (Hm _ _ _ _ _ S8 E8); done.
  - by eapply (st_fixed _ _ S8).
Qed.

Lemma names_read (name : json -> option string) e k o l :
  (forall j x, name j = Some x -> name (JStr x) = Some x) -> validated_names name e k o = Ok o ->
  names_of (dget o k) = Some l -> forall x, x ∈ l -> name (JStr x) = Some x.
Proof.
  intros Hfix. unfold validated_names. destruct (dget o k) as [[]|] eqn:Ed; try done. cbn.
  destruct (collect_all name l0) as [names|] eqn:Ec; [|done]. intros [= Ho] [= <-] x Hx.
  assert (l0 = JStr <$> dedup String.eqb names) as ->.
  { rewrite <- Ho, dget_dset in Ed by done. unfold strs in Ed. congruence. }
  apply list_elem_of_fmap in Hx as (j & -> & (y & -> & Hy)%list_elem_of_fmap). cbn.
  rewrite elem_dedup, (collect_all_elem _ _ _ Ec) in Hy. destruct Hy as (j & _ & Hj). by eapply Hfix.
Qed.

Lemma dates_read k o : _validated_dates reg k o = Ok o ->
  forall kd, kd ∈ dates_of (dget o k) -> exists day, kd.2 = Some day
    /\ _normalize_key_type_label reg (Some kd.1) = Some kd.1 /\ _label_map reg (dates_of (dget o k)) kd.1 = Some day.
Proof.
  unfold _validated_dates. destruct (dget o k) as [[]|] eqn:Ed; try (by intros _ kd ?%elem_of_nil); try done.
  destruct (validated_entries reg k o0 []) as [out|] eqn:Ev; [|done]. intros [= Ho].
  assert (o0 = out) as -> by (rewrite <- Ho, dget_dset in Ed by done; congruence).
  destruct (entries_result k out [] out Ev) as [Hf Hn]; [constructor..|]. cbn.
  intros kd ([x v] & -> & Hin)%list_elem_of_fmap. rewrite Forall_forall in Hf.
  destruct (Hf _ Hin) as [H1 [day Hd]]. cbn in *. exists day. split; [done|]. split; [done|].
  apply label_map_dated. apply list_elem_of_split in Hin as (a & b & ->).
  exists ((fun kv => (kv.1, parse_rule_date kv.2)) <$> a), x, ((fun kv => (kv.1, parse_rule_date kv.2)) <$> b).
  split; [rewrite fmap_app, fmap_cons; cbn; by rewrite Hd|]. split; [done|].
  intros k' d ([y w] & [= -> _] & Hy)%list_elem_of_fmap. cbn.
  destruct (Hf (y, w)) as [Hy1 _]; [set_solver|]. cbn in Hy1. rewrite Hy1. intros [= ->].
  rewrite fmap_app, fmap_cons in Hn. apply NoDup_app in Hn as (_ & _ & [Hn _]%NoDup_cons). apply Hn. cbn.
  apply list_elem_of_fmap. by exists (x, w).
Qed.

Lemma certification_scan k l : certification_error k l = None ->
  forall kv, kv ∈ l -> kv.1 ∈ CERTIFICATIONS /\ (kv.2 = JNull \/ is_Some (parse_rule_date kv.2)).
Proof.
  induction l as [|[c w] l IH]; cbn [certification_error]; [by intros _ kv ?%elem_of_nil|].
  destruct (str_in c CERTIFICATIONS) eqn:Ec; [|done]. cbn [negb]. apply str_in_spec in Ec.
  intros H kv [->|Hkv]%elem_of_cons; cbn [fst snd].
  - split; [done|]. destruct w; try (right; revert H; case_bool_decide; done). by left.
  - apply IH; [|done]. revert H. destruct w; try done; case_bool_decide; done.
Qed.

(* the rules of a saved object, as the evaluation reads them *)
Record enforced (r : rules) : Prop := {
  en_keys : forall l x, allowed_key_types r = Some l -> x ∈ l -> x ∈ _label_set reg (allowed_key_types r);
  en_tsa : forall l x, tsa_signer_key_types r = Some l -> x ∈ l -> x ∈ _label_set reg (tsa_signer_key_types r);
  en_digests : forall l x, allowed_digests r = Some l -> x ∈ l -> x ∈ _rule_digests r;
  en_schemes : forall l x, allowed_signature_schemes r = Some l -> x ∈ l -> x ∈ SIGNATURE_SCHEMES;
  en_horizons : forall kd, kd ∈ key_type_horizons r ->
    exists day, kd.2 = Some day /\ _label_map reg (key_type_horizons r) kd.1 = Some day;
  en_until : forall kd, kd ∈ key_type_issue_until r ->
    exists day, kd.2 = Some day /\ _label_map reg (key_type_issue_until r) kd.1 = Some day;
  en_certifications : forall cd, cd ∈ hsm_certifications r -> cd.1 ∈ CERTIFICATIONS /\ is_Some cd.2;
  en_known : forall q, NoKnownKeyType ∉ _rule_messages reg r q false;
}.

Lemma known_key_type r q :
  (forall l x, allowed_key_types r = Some l -> x ∈ l -> x ∈ _label_set reg (allowed_key_types r)) ->
  NoKnownKeyType ∉ _rule_messages reg r q false.
Proof.
  intros Hk. unfold _rule_messages. rewrite !elem_of_app. intros H.
  destruct H as [H|[H|[H|[H|[H|[H|H]]]]]]; revert H.
  - unfold key_type_messages. destruct (key_type q); [|by intros ?%elem_of_nil].
    destruct (allowed_key_types r) as [[|a l]|] eqn:Ea; [by intros ?%elem_of_nil| |by intros ?%elem_of_nil].
    specialize (Hk _ a eq_refl ltac:(left)). destruct (_label_set reg (Some (a :: l))); [by apply elem_of_nil in Hk|].
    case_match; rewrite ?list_elem_of_singleton; [by intros ?%elem_of_nil|done].
  - unfold digest_messages. repeat case_match; rewrite ?list_elem_of_singleton; try done; by intros ?%elem_of_nil.
  - unfold scheme_messages. repeat case_match; rewrite ?list_elem_of_singleton; try done; by intros ?%elem_of_nil.
  - unfold pq_messages. repeat case_match; rewrite ?list_elem_of_singleton; try done; by intros ?%elem_of_nil.
  - unfold date_messages. repeat case_match; rewrite ?elem_of_app, ?list_elem_of_singleton, ?elem_of_nil; naive_solver.
  - unfold storage_messages, _certification_messages. repeat case_match;
      rewrite ?elem_of_app, ?list_elem_of_singleton, ?elem_of_nil; naive_solver.
  - unfold _tsa_messages. repeat case_match; rewrite ?list_elem_of_singleton, ?elem_of_nil; naive_solver.
Qed.

Lemma algorithm_enforced c o : _validated_algorithm_rules reg fips_enabled c o = Ok o -> enforced (read_rules o).
Proof.
  intros [Hk Ht Hd Hs Hh Hu Hc]%algorithm_steps.
  assert (forall l x, allowed_key_types (read_rules o) = Some l -> x ∈ l ->
    x ∈ _label_set reg (allowed_key_types (read_rules o))) as Hkeys.
  { intros l x Hl Hx. apply elem_label_set. exists l, x. split; [done|]. split; [done|].
    by apply (names_read (key_label reg) (UnknownKeyType "allowed_key_types") "allowed_key_types" o l key_label_fixed). }
  split.
  - exact Hkeys.
  - intros l x Hl Hx. apply elem_label_set. exists l, x. split; [done|]. split; [done|].
    by apply (names_read (key_label reg) (UnknownKeyType "tsa_signer_key_types") "tsa_signer_key_types" o l key_label_fixed).
  - intros l x Hl Hx. pose proof (names_read _ _ _ o l digest_fixed Hd Hl x Hx) as Hn. cbn in Hn.
    unfold _rule_digests. rewrite Hl. apply list_elem_of_In, filter_In. split.
    + revert Hn. unfold normalize_digest. destruct (str_in _ POLICY_DIGESTS) eqn:E; [|done].
      intros [= <-]. by apply list_elem_of_In, str_in_spec.
    + apply str_in_spec, list_elem_of_omap. eauto.
  - intros l x Hl Hx. pose proof (names_read _ _ _ o l scheme_fixed Hs Hl x Hx) as Hn. revert Hn.
    cbn [scheme_name]. destruct (str_in x SIGNATURE_SCHEMES) eqn:E; [|done]. intros _. by apply str_in_spec.
  - intros kd Hin. destruct (dates_read _ _ Hh kd Hin) as (day & ? & _ & ?). eauto.
  - intros kd Hin. destruct (dates_read _ _ Hu kd Hin) as (day & ? & _ & ?). eauto.
  - cbn. revert Hc. unfold _validated_certifications.
    destruct (dget o "hsm_certifications") as [[]|]; try done; try (by intros _ cd ?%elem_of_nil).
    destruct (certification_error _ o0) eqn:Ec; [done|]. intros _ cd ([x w] & -> & Hin)%list_elem_of_fmap.
    destruct (certification_scan _ _ Ec _ Hin) as [H1 H2]. cbn [fst snd] in *. split; [done|].
    destruct H2 as [->|[d Hw]]; [done|]. destruct w; try done. by rewrite Hw.
  - intros q. by apply known_key_type.
Qed.

Lemma saved_fixed j o : _validated_rules reg fips_enabled j = Ok o ->
  _validated_algorithm_rules reg fips_enabled true o = Ok o
  /\ validated_advisories reg fips_enabled o = Ok o.
Proof.
  intros (raw & -> & H)%validated_after_strip. unfold after_strip, chain in H.
  destruct (_validated_algorithm_rules reg fips_enabled true (strip_dead_rules raw)) as [o1|] eqn:E1; [|done].
  split.
  - eapply (st_fixed _ _ (settled_algorithm true)); [exact E1|]. intros k Hk.
    eapply (st_others _ _ settled_flags); [exact H|]. unfold algorithm_keys in Hk. set_solver.
  - destruct (check_flag "require_hsm_ca_key" o1) as [o2|]; [|done].
    destruct (check_flag "pq_standalone" o2) as [o3|]; [|done]. by eapply (st_fixed _ _ settled_advisories).
Qed.

Lemma advisories_enforced o adv : validated_advisories reg fips_enabled o = Ok o ->
  dget o "advisories" = Some (JObj adv) -> enforced (read_rules adv).
Proof.
  intros H Hd. revert H. unfold validated_advisories. rewrite Hd. destruct (forallb _ adv); [|done].
  destruct (_validated_algorithm_rules reg fips_enabled false adv) as [adv'|] eqn:Ea; [|done]. intros [= Ho].
  rewrite <- Ho, dget_dset in Hd by done. injection Hd as ->. by apply (algorithm_enforced false).
Qed.

(** Nothing in saved rules is lost on the evaluation, and nothing in their advisories:
    each key type and digest listed is one the rules allow, each scheme is known, each
    horizon and last day is the one applied to its key type, each certification is known
    with a date that reads, and no request is refused for a list that names no known key
    type. *)
Theorem saved_rules_enforced (j : json) (o : obj) :
  _validated_rules reg fips_enabled j = Ok o ->
  enforced (read_rules o) /\ forall r, read_advisories o = Some r -> enforced r.
Proof.
  intros [H1 H2]%saved_fixed. split; [by apply (algorithm_enforced true)|]. intros r. unfold read_advisories.
  destruct (dget o "advisories") as [[]|] eqn:Ed; try done. intros [= <-]. by eapply advisories_enforced.
Qed.
End Stable.


Module Sample.
(* rules as a client may send them *)
Definition body : json :=
  JObj [ ("required_extensions", JList []);
         ("allowed_key_types", JList [JStr "rsa-2048"; JInt 2048; JStr "prime256v1"]);
         ("allowed_digests", JList [JStr " SHA-384 "; JStr "sha384"]);
         ("key_type_horizons", JObj [("2048", JStr "2030-12-31"); ("RSA-2048", JStr "2029-12-31")]);
         ("hsm_certifications", JObj [("eucc-high", JNull); ("fips-140-2-l3", JStr "2026-09-21")]);
         ("pq_standalone", JBool true);
         ("advisories", JObj [("allowed_digests", JList [JStr "sha512"])]) ].

(* what is kept of them *)
Definition kept : obj := match _validated_rules (_REGISTRY true) false body with Ok o => o | Raise _ => [] end.

Example body_kept :
  dget kept "allowed_key_types" = Some (strs ["RSA-2048"; "EC-P256"])
  /\ dget kept "allowed_digests" = Some (strs ["sha384"])
  /\ dget kept "key_type_horizons" = Some (JObj [("RSA-2048", JStr "2029-12-31")])
  /\ member kept "required_extensions" = None.
Proof. vm_compute. repeat split. Qed.

Lemma validated_rules_stable_witness : _validated_rules (_REGISTRY true) false (JObj kept) = Ok kept.
Proof. apply (validated_rules_stable true false body). vm_compute. reflexivity. Defined.

Lemma saved_rules_enforced_witness : enforced true (read_rules kept)
  /\ forall r, read_advisories kept = Some r -> enforced true r.
Proof. apply (saved_rules_enforced true false body). vm_compute. reflexivity. Defined.

(* san_restrictions are not validated: null, or a number as pattern, is saved, and the
   evaluation of any request that names something then raises *)
Lemma unreadable_pattern_saved :
  forallb (fun san => match _validated_rules (_REGISTRY true) false (JObj [("san_restrictions", san)]) with
                      | Ok o => bool_decide (read_dns_pattern o = None)
                      | Raise _ => false
                      end)
    [JNull; JStr "*.corp.example"; JObj [("dns_pattern", JInt 5)]; JObj [("dns_pattern", strs ["*.corp.example"])]] = true.
Proof. vm_compute. reflexivity. Qed.

(* a week date passes where the message asks for YYYY-MM-DD *)
Lemma week_date_accepted :
  _validated_rules (_REGISTRY true) false (JObj [("key_type_horizons", JObj [("RSA-2048", JStr "2024-W09-4")])])
  = Ok [("key_type_horizons", JObj [("RSA-2048", JStr "2024-W09-4")])].
Proof. vm_compute. reflexivity. Qed.
End Sample.
