(* ===== verification/ApprovalModel.v ===== *)
(** * ApprovalModel: approval requests and the gate that queues and closes them

    Data of [ApprovalRequest] in [backend/models/policy.py] and the operations of
    [backend/services/approval_gate.py], over the tables they touch: requests,
    policies, users, group members, and the certificates, CAs and cross-certificates
    that a request names. A table is a map from the primary key. Instants are
    microseconds. The JSON stored with a request is read field by field; a field that
    names a row holds the JSON value ([None]: the key is absent).

    A request of the API runs in a session over the database: [commit] makes the
    session's writes permanent, or fails and drops them. [performed] is a log, for the
    theorems, of the operations that approvals carried out; it follows the session. *)

From Stdlib Require Import Ascii String.
From stdpp Require Import prelude gmap strings.
From S2P Require Import Prelude Scalars KeyAlgorithms Policies.

Local Open Scope string_scope.
Local Open Scope Z_scope.

(** ** Rows *)

Inductive approval_status := Pending | Approved | Rejected | Expired | Cancelled.
#[export] Instance approval_status_eq_dec : EqDecision approval_status.
Proof. solve_decision. Defined.

Inductive vote_action := VApprove | VReject.
#[export] Instance vote_action_eq_dec : EqDecision vote_action.
Proof. solve_decision. Defined.

Record vote := {
  v_user : option Z; v_username : string; v_action : vote_action;
  v_comment : option string; v_timestamp : Z;
}.

Inductive request_type := RCertificate | RCsr | RRenewal | RRevocation | RCaRevocation | RCrossRevocation.
#[export] Instance request_type_eq_dec : EqDecision request_type.
Proof. solve_decision. Defined.

(* the key of the stored JSON that names the target *)
Inductive data_key := csr_id | certificate_id | target_ca_id | cross_certificate_id.

Record request_data := {
  rd_csr : option pyval; rd_certificate : option pyval;
  rd_target_ca : option pyval; rd_cross : option pyval;
  rd_ca : option pyval;              (* the signing CA, an id or a reference *)
  rd_serial : option string;
  rd_intermediate : bool;            (* cert_type is intermediate_ca *)
  rd_reason : option string;
  rd_invalidity : option bool;       (* absent, else whether its date can be read *)
  rd_auth_certificate : option Z;
  rd_scheduled : bool;               (* trigger is auto *)
  rd_requested_by : option string;
}.

Definition data_get (rd : request_data) (k : data_key) : option pyval :=
  match k with
  | csr_id => rd_csr rd
  | certificate_id => rd_certificate rd
  | target_ca_id => rd_target_ca rd
  | cross_certificate_id => rd_cross rd
  end.

(* the request_data column: empty, not a JSON object (or an empty one), an object *)
Inductive stored_data := NoData | BadData | Data (rd : request_data).

Record ApprovalRequest := {
  ar_type : request_type;
  ar_certificate : option Z;
  ar_data : stored_data;
  ar_policy : option Z;
  ar_requester : option Z;
  ar_status : approval_status;
  ar_votes : list vote;
  ar_required : Z;
  ar_created : option Z;
  ar_expires : option Z;
  ar_resolved : option Z;
}.

Definition set_decision (st : approval_status) (votes : list vote) (resolved : option Z)
    (r : ApprovalRequest) : ApprovalRequest :=
  {| ar_type := ar_type r; ar_certificate := ar_certificate r; ar_data := ar_data r;
     ar_policy := ar_policy r; ar_requester := ar_requester r; ar_status := st;
     ar_votes := votes; ar_required := ar_required r; ar_created := ar_created r;
     ar_expires := ar_expires r; ar_resolved := resolved |}.

Definition set_link (c : Z) (r : ApprovalRequest) : ApprovalRequest :=
  {| ar_type := ar_type r; ar_certificate := Some c; ar_data := ar_data r;
     ar_policy := ar_policy r; ar_requester := ar_requester r; ar_status := ar_status r;
     ar_votes := ar_votes r; ar_required := ar_required r; ar_created := ar_created r;
     ar_expires := ar_expires r; ar_resolved := ar_resolved r |}.

Definition close (st : approval_status) (now : Z) (r : ApprovalRequest) : ApprovalRequest :=
  set_decision st (ar_votes r) (Some now) r.

Definition get_request_data (r : ApprovalRequest) : option request_data :=
  match ar_data r with Data rd => Some rd | _ => None end.

Definition count_votes (a : vote_action) (votes : list vote) : Z :=
  Z.of_nat (length (List.filter (fun v => bool_decide (v_action v = a)) votes)).

Definition add_approval (now : Z) (user : option Z) (username : string) (action : vote_action)
    (comment : option string) (r : ApprovalRequest) : ApprovalRequest :=
  let votes := (ar_votes r ++ [{| v_user := user; v_username := username; v_action := action;
                                  v_comment := comment; v_timestamp := now |}])%list in
  if ar_required r <=? count_votes VApprove votes then set_decision Approved votes (Some now) r
  else if 0 <? count_votes VReject votes then set_decision Rejected votes (Some now) r
  else set_decision (ar_status r) votes (ar_resolved r) r.

Record cert_row := {
  ce_csr : bool; ce_crt : bool;          (* columns that are not empty *)
  ce_serial : option string;
  ce_renewed_at : option Z;
  ce_revoked : bool; ce_reason : option string;
}.
Record ca_row := { ca_ref : string; ca_serial : option string; ca_revoked : bool }.
Record cross_row := { cx_serial : option string; cx_revoked : bool }.

Record store := {
  requests : gmap Z ApprovalRequest;
  policies : gmap Z CertificatePolicy;
  users : gmap Z string;                 (* user id, user name *)
  members : list (Z * Z);                (* group id, user id *)
  certificates : gmap Z cert_row;
  cas : gmap Z ca_row;
  crosses : gmap Z cross_row;
  enrolments : gmap Z bool;              (* user certificate id, enabled *)
  performed : list Z;                    (* ids of the requests that were carried out *)
}.

Definition with_requests (f : gmap Z ApprovalRequest -> gmap Z ApprovalRequest) (s : store) : store :=
  {| requests := f (requests s); policies := policies s; users := users s; members := members s;
     certificates := certificates s; cas := cas s; crosses := crosses s;
     enrolments := enrolments s; performed := performed s |}.
Definition with_policies (f : gmap Z CertificatePolicy -> gmap Z CertificatePolicy) (s : store) : store :=
  {| requests := requests s; policies := f (policies s); users := users s; members := members s;
     certificates := certificates s; cas := cas s; crosses := crosses s;
     enrolments := enrolments s; performed := performed s |}.
Definition with_tables (fc : gmap Z cert_row -> gmap Z cert_row) (fa : gmap Z ca_row -> gmap Z ca_row)
    (fx : gmap Z cross_row -> gmap Z cross_row) (fe : gmap Z bool -> gmap Z bool) (s : store) : store :=
  {| requests := requests s; policies := policies s; users := users s; members := members s;
     certificates := fc (certificates s); cas := fa (cas s); crosses := fx (crosses s);
     enrolments := fe (enrolments s); performed := performed s |}.
Definition log_performed (i : Z) (s : store) : store :=
  {| requests := requests s; policies := policies s; users := users s; members := members s;
     certificates := certificates s; cas := cas s; crosses := crosses s;
     enrolments := enrolments s; performed := (performed s ++ [i])%list |}.

(** ** The session *)

Inductive exn_kind := ValueError | PolicyViolation | RenewalError | RuntimeError | OtherError.
#[export] Instance exn_kind_eq_dec : EqDecision exn_kind.
Proof. solve_decision. Defined.
Record exn := { e_kind : exn_kind; e_text : string }.
(* PolicyViolation is a ValueError *)
Definition is_value_error (e : exn) : bool :=
  match e_kind e with ValueError | PolicyViolation => true | _ => false end.

Record session := {
  committed : store;       (* what the database holds *)
  working : store;         (* what the session sees *)
  commits : list bool;     (* outcomes of the commits to come; past the end they succeed *)
}.

Definition M (A : Type) : Type := session -> result exn A * session.
#[export] Instance M_ret : MRet M := fun A a w => (Ok a, w).
#[export] Instance M_bind : MBind M := fun A B k c w =>
  match c w with
  | (Ok a, w') => k a w'
  | (Raise e, w') => (Raise e, w')
  end.

Definition gets {A} (f : store -> A) : M A := fun w => (Ok (f (working w)), w).
Definition modify (f : store -> store) : M unit := fun w =>
  (Ok tt, {| committed := committed w; working := f (working w); commits := commits w |}).
Definition rollback : M unit := fun w =>
  (Ok tt, {| committed := committed w; working := committed w; commits := commits w |}).
(* commit, rolled back on failure: whether it went through *)
Definition safe_commit : M bool := fun w =>
  match commits w with
  | false :: l => (Ok false, {| committed := committed w; working := committed w; commits := l |})
  | l => (Ok true, {| committed := working w; working := working w; commits := tail l |})
  end.
Definition raise {A} (e : exn) : M A := fun w => (Raise e, w).
(* try: body; except: handler; else: k *)
Definition try_else {A B} (body : M A) (handler : exn -> M B) (k : A -> M B) : M B := fun w =>
  match body w with
  | (Ok a, w') => k a w'
  | (Raise e, w') => handler e w'
  end.

Definition value_error {A} (m : string) : M A := raise {| e_kind := ValueError; e_text := m |}.
Definition runtime_error {A} (m : string) : M A := raise {| e_kind := RuntimeError; e_text := m |}.

Definition update_request (i : Z) (f : ApprovalRequest -> ApprovalRequest) : M unit :=
  modify (with_requests (alter f i)).

(** ** services/approval_gate.py *)

Definition APPROVAL_REQUEST_LIFETIME : Z := 7 * day_us.

Inductive pair_error := PairApprovalConflict (policy other : CertificatePolicy).

Definition pair_policy (policy other : option CertificatePolicy)
    : result pair_error (option CertificatePolicy) :=
  match other with
  | None => Ok policy
  | Some o =>
      match policy with
      | None => Ok (Some o)
      | Some p => if policy_id p =? policy_id o then Ok policy else Raise (PairApprovalConflict p o)
      end
  end.

Record actor := { ac_id : Z; ac_name : string; ac_admin : bool }.

Definition create_approval_request (now : Z) (p : CertificatePolicy) (rd : request_data)
    (requester : option Z) (t : request_type) : ApprovalRequest :=
  {| ar_type := t; ar_certificate := None; ar_data := Data rd; ar_policy := Some (policy_id p);
     ar_requester := requester; ar_status := Pending; ar_votes := [];
     ar_required := match min_approvers p with Some n => if n =? 0 then 1 else n | None => 1 end;
     ar_created := Some now; ar_expires := Some (now + APPROVAL_REQUEST_LIFETIME);
     ar_resolved := None |}.

Record gate_request := {
  gr_cas : list (option Z); gr_template : option Z; gr_cn : option string; gr_sans : list string;
  gr_type : request_type; gr_data : request_data; gr_operations : list string;
}.

Inductive gate_outcome := Direct | Queued (policy : CertificatePolicy) (id : Z) | Conflict | QueueFailed.

(* partner: None when the operation acts on one certificate *)
Definition queue_if_approval_required (now : Z) (new_id : Z) (user : option actor) (q : gate_request)
    (partner : option (option CertificatePolicy)) : M gate_outcome :=
  if match user with Some u => ac_admin u | None => false end then mret Direct
  else
    table ← gets (fun s => snd <$> map_to_list (policies s));
    let policy := check_approval_required table (gr_operations q) (gr_cas q) (gr_template q)
                    (gr_cn q) (gr_sans q) in
    match (match partner with Some other => pair_policy policy other | None => Ok policy end) with
    | Raise _ => mret Conflict
    | Ok None => mret Direct
    | Ok (Some p) =>
        _ ← modify (with_requests (insert new_id
              (create_approval_request now p (gr_data q) (ac_id <$> user) (gr_type q))));
        ok ← safe_commit;
        if ok : bool then mret (Queued p new_id) else mret QueueFailed
    end.

Definition request_deadline (r : ApprovalRequest) : option Z :=
  match ar_expires r with
  | Some e => Some e
  | None => (fun c => c + APPROVAL_REQUEST_LIFETIME) <$> ar_created r
  end.

Definition approval_is_expired (now : Z) (r : ApprovalRequest) : bool :=
  match request_deadline r with Some d => d <? now | None => false end.

(* str(rd[key]) == str(target_id), for an integer target *)
Definition names_target (v : pyval) (target : Z) : bool :=
  match v with
  | VInt z => z =? target
  | VStr s => (s =? py_str target)%string
  | _ => false
  end.

Definition _named_target (k : data_key) (target : Z) (r : ApprovalRequest) : bool :=
  match get_request_data r with
  | Some rd => match data_get rd k with Some v => names_target v target | None => false end
  | None => false
  end.

Definition pending_naming (t : request_type) (k : data_key) (target : Z) (r : ApprovalRequest) : bool :=
  bool_decide (ar_status r = Pending) && bool_decide (ar_type r = t) && _named_target k target r.

Definition pending_requests_naming (t : request_type) (k : data_key) (target : Z) (s : store)
    : list (Z * ApprovalRequest) :=
  List.filter (fun ir => pending_naming t k target ir.2) (map_to_list (requests s)).

(* the named targets that still await a decision: the deadlines, by target *)
Definition pending_target (now : Z) (t : request_type) (k : data_key) (target : Z) (s : store) : bool :=
  existsb (fun ir => negb (approval_is_expired now ir.2)) (pending_requests_naming t k target s).

Definition is_stale (now : Z) (r : ApprovalRequest) : bool :=
  bool_decide (ar_status r = Pending)
  && match ar_expires r with
     | Some e => e <? now
     | None => match ar_created r with
               | Some c => c <? now - APPROVAL_REQUEST_LIFETIME
               | None => false
               end
     end.

Definition expire_stale_requests (now : Z) : M Z :=
  stale ← gets (fun s => List.filter (fun ir => is_stale now ir.2) (map_to_list (requests s)));
  match stale with
  | [] => mret 0
  | _ =>
      _ ← modify (with_requests (fmap (fun r => if is_stale now r then close Expired now r else r)));
      ok ← safe_commit;
      mret (if ok : bool then Z.of_nat (length stale) else 0)
  end.

Definition requester_name (s : store) (r : ApprovalRequest) : option string :=
  u ← ar_requester r; users s !! u.

Definition _acted_by_requester (s : store) (user : option Z) (username : string) (r : ApprovalRequest) : bool :=
  match user with
  | Some u => bool_decide (ar_requester r = Some u)
  | None => nonempty username && bool_decide (requester_name s r = Some username)
  end.

Inductive moot_outcome := MApproved | MRejected.

Record moot := {
  mt_type : request_type; mt_key : data_key; mt_target : Z; mt_outcome : moot_outcome;
  mt_username : string; mt_user : option Z; mt_certificate : option Z; mt_reason : string;
}.

(* one pending request that names the target: its new row, and whether it was approved or rejected *)
Definition resolve_moot (now : Z) (s : store) (m : moot) (r : ApprovalRequest) : ApprovalRequest * bool :=
  if approval_is_expired now r then (close Expired now r, false)
  else match mt_outcome m with
       | MApproved =>
           if _acted_by_requester s (mt_user m) (mt_username m) r then (close Cancelled now r, false)
           else
             let r := add_approval now (mt_user m) (mt_username m) VApprove (Some (mt_reason m)) r in
             let r := close Approved now r in
             (match mt_certificate m with Some c => set_link c r | None => r end, true)
       | MRejected =>
           let r := add_approval now (mt_user m) (mt_username m) VReject (Some (mt_reason m)) r in
           (close Rejected now r, true)
       end.

Definition moot_row (now : Z) (s : store) (m : moot) (r : ApprovalRequest) : ApprovalRequest :=
  if pending_naming (mt_type m) (mt_key m) (mt_target m) r then (resolve_moot now s m r).1 else r.

(* the ids of the requests approved or rejected; the session is not committed *)
Definition _resolve_moot_requests (now : Z) (m : moot) : M (list Z) :=
  s ← gets id;
  _ ← modify (with_requests (fmap (moot_row now s m)));
  mret (fst <$> List.filter (fun ir => (resolve_moot now s m ir.2).2)
                  (pending_requests_naming (mt_type m) (mt_key m) (mt_target m) s)).

(* commit=True: the action is committed already, a failure is logged and drops the resolution *)
Definition resolve_moot_requests (now : Z) (m : moot) : M (list Z) :=
  touched ← gets (pending_requests_naming (mt_type m) (mt_key m) (mt_target m));
  ids ← _resolve_moot_requests now m;
  match touched with
  | [] => mret ids
  | _ => _ ← safe_commit; mret ids
  end.
