(* ===== verification/Approvals.v ===== *)
(** * Approvals: votes on a request, and the operation an approved request performs

    Models the approval routes of [backend/api/v2/policies.py] and, as far as they touch
    approval requests, the services they call: [sign_csr], [renew_certificate_in_place],
    [revoke_certificate], [revoke_ca] and the revocation of a cross-certificate. What the
    signing itself decides (keys, policies, the HSM) is an input of a call: [refuses] is
    the exception it raises before its commit, [fails_after] one raised after it (files,
    audit, CRL). A call holds the row lock of its request until it ends, so calls are
    taken one at a time. *)

From Stdlib Require Import Ascii String.
From stdpp Require Import prelude gmap strings.
From S2P Require Import Prelude Scalars KeyAlgorithms Policies ApprovalModel.

Local Open Scope string_scope.
Local Open Scope Z_scope.

(** ** What a call meets *)

Record env := {
  now : Z;
  user : option actor;                   (* g.current_user *)
  refuses : option exn;
  fails_after : option exn;
  new_id : Z;                            (* the key of a row that is inserted *)
  new_serial : option string;
  partners : list (Z * option exn);      (* the other member of a related pair, and its failure *)
  published : bool;                      (* the issuer already publishes the revocation *)
}.

Definition user_id (ev : env) : option Z := ac_id <$> user ev.
Definition username (ev : env) : string :=
  match user ev with
  | Some u => if nonempty (ac_name u) then ac_name u else "system"
  | None => "system"
  end.

Definition raise_if (o : option exn) : M unit :=
  match o with Some e => raise e | None => mret tt end.

(** ** Rows a request names *)

Definition row_id (ref : option pyval) : option Z :=
  match ref with
  | Some (VInt z) => if 0 <=? z then Some z else None
  | Some (VStr s) => if isdigit s then py_int 10 s else None
  | _ => None
  end.

Definition _row {A} (table : gmap Z A) (ref : option pyval) : option (Z * A) :=
  i ← row_id ref; a ← table !! i; Some (i, a).

Definition _ca_for_request (s : store) (rd : request_data) : option Z :=
  let by_id i := if decide (is_Some (cas s !! i)) then Some i else None in
  match rd_ca rd with
  | None | Some VNone => None
  | Some (VInt z) => by_id z
  | Some (VBool b) => by_id (if b then 1 else 0)
  | Some (VStr t) =>
      if isdigit t then i ← py_int 10 t; by_id i
      else fst <$> List.find (fun ic => (ca_ref ic.2 =? t)%string) (map_to_list (cas s))
  | _ => None
  end.

Definition _approval_target_gone (s : store) (r : ApprovalRequest) : option string :=
  let field (f : request_data -> option pyval) : option pyval := rd ← get_request_data r; f rd in
  let serial : option string := rd ← get_request_data r; rd_serial rd in
  match ar_type r with
  | RCertificate => None
  | RCsr =>
      match _row (certificates s) (field rd_csr) with
      | Some (_, c) =>
          if negb (ce_csr c) then Some "The request to sign no longer exists"
          else match rd ← get_request_data r; _ca_for_request s rd with
               | None => Some "The signing CA no longer exists"
               | Some _ => None
               end
      | None => Some "The request to sign no longer exists"
      end
  | RCrossRevocation =>
      match _row (crosses s) (field rd_cross) with
      | None => Some "The cross-certificate to revoke no longer exists"
      | Some (_, x) => if bool_decide (cx_serial x = serial) then None
                       else Some "The cross-certificate changed since the request; request its revocation again"
      end
  | RCaRevocation =>
      match _row (cas s) (field rd_target_ca) with
      | None => Some "The CA to revoke no longer exists"
      | Some (_, c) => if bool_decide (ca_serial c = serial) then None
                       else Some "The CA certificate changed since the request; request its revocation again"
      end
  | RRenewal =>
      match _row (certificates s) (field rd_certificate) with
      | Some (_, c) => if ce_crt c then None else Some "The certificate to renew no longer exists"
      | None => Some "The certificate to renew no longer exists"
      end
  | RRevocation =>
      match _row (certificates s) (field rd_certificate) with
      | Some (_, c) =>
          if negb (ce_crt c) then Some "The certificate to revoke no longer exists"
          else if bool_decide (ce_serial c = serial) then None
          else Some "The certificate was renewed since the request; request its revocation again"
      | None => Some "The certificate to revoke no longer exists"
      end
  end.

Definition _user_can_act_on_approval (s : store) (u : option actor) (r : ApprovalRequest) : bool :=
  match u with
  | None => false
  | Some u =>
      ac_admin u ||
      match p ← ar_policy r; policies s !! p with
      | None => true
      | Some p => match approval_group_id p with
                  | None => true
                  | Some g => (g =? 0) || bool_decide ((g, ac_id u) ∈ members s)
                  end
      end
  end.

(** ** Links *)

Definition _link_approval (i : Z) (cert : Z) : M unit :=
  r ← gets (fun s => requests s !! i);
  match r with
  | Some {| ar_certificate := None |} =>
      _ ← update_request i (set_link cert);
      ok ← safe_commit;
      if ok : bool then mret tt else runtime_error "Failed to link approval to certificate"
  | _ => _ ← rollback; runtime_error "A certificate was already issued for this approval"
  end.

Definition _close_duplicate_requests (ev : env) (t : request_type) (k : data_key) (target : Z) : M (list Z) :=
  _resolve_moot_requests (now ev)
    {| mt_type := t; mt_key := k; mt_target := target; mt_outcome := MApproved;
       mt_username := username ev; mt_user := user_id ev; mt_certificate := None;
       mt_reason := "Approved with request" |}.

Definition _link_duplicates (ids : list Z) (cert : Z) : M unit :=
  modify (with_requests (map_imap (fun i r =>
    Some (if bool_decide (i ∈ ids) && bool_decide (ar_certificate r = None) then set_link cert r else r)))).

Definition _requester_name (s : store) (r : ApprovalRequest) (rd : request_data) : string :=
  match requester_name s r with
  | Some n => n
  | None => default "system" (truthy_text (rd_requested_by rd))
  end.

(** ** The services, as far as requests go *)

Definition set_signed (serial : option string) (c : cert_row) : cert_row :=
  {| ce_csr := ce_csr c; ce_crt := true; ce_serial := serial; ce_renewed_at := ce_renewed_at c;
     ce_revoked := ce_revoked c; ce_reason := ce_reason c |}.
Definition set_renewed (at_ : Z) (serial : option string) (c : cert_row) : cert_row :=
  {| ce_csr := ce_csr c; ce_crt := true; ce_serial := serial; ce_renewed_at := Some at_;
     ce_revoked := ce_revoked c; ce_reason := ce_reason c |}.
Definition set_revoked (reason : string) (c : cert_row) : cert_row :=
  {| ce_csr := ce_csr c; ce_crt := ce_crt c; ce_serial := ce_serial c; ce_renewed_at := ce_renewed_at c;
     ce_revoked := true; ce_reason := Some reason |}.

Definition on_certificates (f : gmap Z cert_row -> gmap Z cert_row) : M unit :=
  modify (with_tables f id id id).

Definition commit_or_raise (e : exn) : M unit :=
  ok ← safe_commit; if ok : bool then mret tt else raise e.
Definition db_error : exn := {| e_kind := OtherError; e_text := "commit failed" |}.

(* the certificate, or the CA the request became *)
Definition sign_csr (ev : env) (cert : Z) (intermediate : bool) (by_ : string) : M (Z + Z) :=
  row ← gets (fun s => certificates s !! cert);
  match row with
  | None => value_error "Certificate not found"
  | Some c =>
      if negb (ce_csr c) then value_error "Certificate has no CSR"
      else if ce_crt c then value_error "Certificate already signed"
      else
        _ ← raise_if (refuses ev);
        _ ← (if intermediate
             then modify (with_tables (delete cert)
                    (insert (new_id ev) {| ca_ref := "intermediate"; ca_serial := new_serial ev; ca_revoked := false |})
                    id id)
             else on_certificates (alter (set_signed (new_serial ev)) cert));
        _ ← commit_or_raise db_error;
        _ ← resolve_moot_requests (now ev)
              {| mt_type := RCsr; mt_key := csr_id; mt_target := cert; mt_outcome := MApproved;
                 mt_username := by_; mt_user := None;
                 mt_certificate := if intermediate then None else Some cert;
                 mt_reason := "Signed directly" |};
        _ ← raise_if (fails_after ev);
        mret (if intermediate then inr (new_id ev) else inl cert)
  end.

Fixpoint each {A} (f : A -> M unit) (l : list A) : M unit :=
  match l with
  | [] => mret tt
  | x :: l => _ ← f x; each f l
  end.

(* every member of the pair in one commit; the effects after it never raise *)
Definition renew_certificate_in_place (ev : env) (cert : Z) (by_ : string) (by_id : option Z)
    (scheduled : bool) : M unit :=
  let renewed := cert :: (fst <$> partners ev) in
  _ ← match refuses ev with Some e => _ ← rollback; raise e | None => mret tt end;
  _ ← each (fun c => on_certificates (alter (set_renewed (now ev) (new_serial ev)) c)) renewed;
  _ ← commit_or_raise {| e_kind := RenewalError; e_text := "Failed to renew certificate" |};
  each (fun c =>
    _ ← resolve_moot_requests (now ev)
          {| mt_type := RRenewal; mt_key := certificate_id; mt_target := c; mt_outcome := MApproved;
             mt_username := by_; mt_user := by_id; mt_certificate := Some c;
             mt_reason := if scheduled then "Renewed by the scheduler" else "Renewed directly" |};
    mret tt) renewed.

Definition _HOLD_REASONS : list string := ["certificateHold"; "certificate_hold"].
Definition is_hold (o : option string) : bool := match o with Some r => str_in r _HOLD_REASONS | None => false end.

Definition _request_user_id (ev : env) (by_ : string) : option Z :=
  u ← user ev; if (ac_name u =? by_)%string then Some (ac_id u) else None.

Definition revoke_one (ev : env) (cert : Z) (reason : string) (by_ : string)
    (staging after : option exn) : M unit :=
  row ← gets (fun s => certificates s !! cert);
  match row with
  | None => value_error "Certificate not found"
  | Some c =>
      if ce_revoked c then value_error "Certificate already revoked"
      else
        _ ← match staging with Some e => _ ← rollback; raise e | None => mret tt end;
        _ ← on_certificates (alter (set_revoked reason) cert);
        let close_by t o link why :=
          {| mt_type := t; mt_key := certificate_id; mt_target := cert; mt_outcome := o;
             mt_username := by_; mt_user := _request_user_id ev by_; mt_certificate := link;
             mt_reason := why |} in
        _ ← (if str_in reason _HOLD_REASONS then mret tt
             else _ ← _resolve_moot_requests (now ev) (close_by RRenewal MRejected None "Certificate revoked");
                  _ ← _resolve_moot_requests (now ev) (close_by RRevocation MApproved (Some cert) "Revoked directly");
                  mret tt);
        _ ← commit_or_raise {| e_kind := RuntimeError; e_text := "Revocation failed" |};
        raise_if after
  end.

Definition revoke_certificate (ev : env) (cert : Z) (reason : string) (by_ : string) : M unit :=
  _ ← revoke_one ev cert reason by_ (refuses ev) (fails_after ev);
  each (fun p =>
    row ← gets (fun s => certificates s !! p.1);
    match row with
    | Some c => if ce_revoked c then mret tt
                else try_else (revoke_one ev p.1 reason by_ p.2 None) (fun _ => mret tt) mret
    | None => mret tt
    end) (take 1 (partners ev)).

Definition revoke_ca (ev : env) (ca : Z) (by_ : string) : M unit :=
  row ← gets (fun s => cas s !! ca);
  match row with
  | None => value_error "CA not found"
  | Some c =>
      if ca_revoked c then value_error "CA is already revoked"
      else
        _ ← raise_if (refuses ev);
        _ ← modify (with_tables id (alter (fun c => {| ca_ref := ca_ref c; ca_serial := ca_serial c;
                                                       ca_revoked := true |}) ca) id id);
        _ ← _resolve_moot_requests (now ev)
              {| mt_type := RCaRevocation; mt_key := target_ca_id; mt_target := ca;
                 mt_outcome := MApproved; mt_username := by_; mt_user := None;
                 mt_certificate := None; mt_reason := "Revoked directly" |};
        _ ← commit_or_raise {| e_kind := RuntimeError; e_text := "Revocation failed" |};
        raise_if (fails_after ev)
  end.

Definition revoke_cross (ev : env) (cross : Z) (by_ : string) : M unit :=
  _ ← raise_if (refuses ev);
  _ ← modify (with_tables id id (alter (fun c => {| cx_serial := cx_serial c; cx_revoked := true |}) cross) id);
  _ ← _resolve_moot_requests (now ev)
        {| mt_type := RCrossRevocation; mt_key := cross_certificate_id; mt_target := cross;
           mt_outcome := MApproved; mt_username := by_; mt_user := None;
           mt_certificate := None; mt_reason := "Revoked directly" |};
  _ ← (if published ev then mret tt else commit_or_raise db_error);
  raise_if (fails_after ev).

(** ** Carrying out an approved request *)

Inductive issue_result :=
| Issued (cert : Z)
| AlreadyIssued (cert : Z)
| IssuedCa (ca : Z)
| RevokedResult (cert : option Z)
| AlreadyRevoked (cert : option Z).

Definition _issue_approved_csr (ev : env) (i : Z) (r : ApprovalRequest) (rd : request_data) : M issue_result :=
  s ← gets id;
  match _row (certificates s) (rd_csr rd) with
  | None => value_error "The request to sign no longer exists"
  | Some (cert, c) =>
      if negb (ce_csr c) then value_error "The request to sign no longer exists"
      else if ce_crt c then _ ← _link_approval i cert; mret (AlreadyIssued cert)
      else match _ca_for_request s rd with
           | None => value_error "The signing CA no longer exists"
           | Some _ =>
               dups ← _close_duplicate_requests ev (ar_type r) csr_id cert;
               _ ← modify (log_performed i);
               signed ← sign_csr ev cert (rd_intermediate rd) (default "system" (requester_name s r));
               match signed with
               | inr ca => mret (IssuedCa ca)
               | inl cert =>
                   _ ← _link_duplicates dups cert;
                   _ ← _link_approval i cert;
                   mret (Issued cert)
               end
           end
  end.

Definition renewed_since (c : cert_row) (r : ApprovalRequest) : bool :=
  match ce_renewed_at c, ar_created r with Some a, Some b => b <? a | _, _ => false end.

Definition _issue_approved_renewal (ev : env) (i : Z) (r : ApprovalRequest) (rd : request_data) : M issue_result :=
  s ← gets id;
  match _row (certificates s) (rd_certificate rd) with
  | None => value_error "The certificate to renew no longer exists"
  | Some (cert, c) =>
      if negb (ce_crt c) then value_error "The certificate to renew no longer exists"
      else if renewed_since c r then _ ← _link_approval i cert; mret (AlreadyIssued cert)
      else
        dups ← _close_duplicate_requests ev (ar_type r) certificate_id cert;
        _ ← modify (log_performed i);
        _ ← renew_certificate_in_place ev cert (_requester_name s r rd) (ar_requester r) (rd_scheduled rd);
        _ ← _link_duplicates dups cert;
        _ ← _link_approval i cert;
        mret (Issued cert)
  end.

Definition _approved_revocation_params (rd : request_data) : M string :=
  match normalize_revocation_reason (VStr (default "unspecified" (truthy_text (rd_reason rd)))) with
  | None => value_error "The revocation reason stored with the request is not valid"
  | Some reason =>
      if bool_decide (rd_invalidity rd = Some false) then value_error "Invalid isoformat string"
      else mret reason
  end.

Definition _revoke_approved_certificate (ev : env) (i : Z) (r : ApprovalRequest) (rd : request_data) : M issue_result :=
  s ← gets id;
  match _row (certificates s) (rd_certificate rd) with
  | None => value_error "The certificate to revoke no longer exists"
  | Some (cert, c) =>
      if negb (ce_crt c) then value_error "The certificate to revoke no longer exists"
      else if negb (bool_decide (ce_serial c = rd_serial rd))
      then value_error "The certificate was renewed since the request; request its revocation again"
      else if ce_revoked c then
        if is_hold (ce_reason c) && negb (is_hold (rd_reason rd))
        then value_error "The certificate is on hold: approve its revocation once the hold is lifted"
        else _ ← _link_approval i cert; mret (AlreadyRevoked (Some cert))
      else
        reason ← _approved_revocation_params rd;
        dups ← _close_duplicate_requests ev (ar_type r) certificate_id cert;
        _ ← modify (log_performed i);
        _ ← revoke_certificate ev cert reason (_requester_name s r rd);
        _ ← match rd_auth_certificate rd with
            | Some a => if a =? 0 then mret tt
                        else modify (with_tables id id id (alter (fun _ => false) a))
            | None => mret tt
            end;
        _ ← _link_duplicates dups cert;
        _ ← _link_approval i cert;
        mret (RevokedResult (Some cert))
  end.

Definition _revoke_approved_ca (ev : env) (i : Z) (r : ApprovalRequest) (rd : request_data) : M issue_result :=
  s ← gets id;
  match _row (cas s) (rd_target_ca rd) with
  | None => value_error "The CA to revoke no longer exists"
  | Some (ca, c) =>
      if ca_revoked c then mret (AlreadyRevoked None)
      else
        _ ← _approved_revocation_params rd;
        _ ← _close_duplicate_requests ev (ar_type r) target_ca_id ca;
        _ ← modify (log_performed i);
        _ ← revoke_ca ev ca (_requester_name s r rd);
        mret (RevokedResult None)
  end.

Definition _revoke_approved_cross_certificate (ev : env) (i : Z) (r : ApprovalRequest) (rd : request_data)
    : M issue_result :=
  s ← gets id;
  match _row (crosses s) (rd_cross rd) with
  | None => value_error "The cross-certificate to revoke no longer exists"
  | Some (x, c) =>
      if cx_revoked c then mret (AlreadyRevoked None)
      else
        _ ← _approved_revocation_params rd;
        _ ← _close_duplicate_requests ev (ar_type r) cross_certificate_id x;
        _ ← modify (log_performed i);
        _ ← revoke_cross ev x (_requester_name s r rd);
        mret (RevokedResult None)
  end.

(* the certificate built from the stored request: the row, then the claim of the link *)
Definition _issue_new_certificate (ev : env) (i : Z) : M issue_result :=
  _ ← raise_if (refuses ev);
  _ ← on_certificates (insert (new_id ev)
        {| ce_csr := false; ce_crt := true; ce_serial := new_serial ev; ce_renewed_at := None;
           ce_revoked := false; ce_reason := None |});
  _ ← modify (log_performed i);
  _ ← _link_approval i (new_id ev);
  mret (Issued (new_id ev)).

Definition _issue_approved_certificate (ev : env) (i : Z) (r : ApprovalRequest) : M issue_result :=
  match get_request_data r with
  | None => value_error "No request data stored in approval"
  | Some rd =>
      match ar_type r with
      | RCsr => _issue_approved_csr ev i r rd
      | RRenewal => _issue_approved_renewal ev i r rd
      | RRevocation => _revoke_approved_certificate ev i r rd
      | RCaRevocation => _revoke_approved_ca ev i r rd
      | RCrossRevocation => _revoke_approved_cross_certificate ev i r rd
      | RCertificate => _issue_new_certificate ev i
      end
  end.

(** ** The routes *)

Inductive response :=
| NotFound
| AlreadyResolved (st : approval_status)
| HasExpired
| NotAllowed
| OwnRequest
| AlreadyVoted
| ReasonRequired
| CommitError
| RequestClosed (why : string)
| VoteRecorded (st : approval_status) (issued : option issue_result) (issue_error : option string).

Definition has_voted (r : ApprovalRequest) (u : Z) : bool :=
  existsb (fun v => bool_decide (v_user v = Some u)) (ar_votes r).

Definition _close_request_target_gone (ev : env) (i : Z) (why : string) : M response :=
  _ ← update_request i (fun r =>
        close Rejected (now ev) (add_approval (now ev) (user_id ev) (username ev) VReject (Some why) r));
  ok ← safe_commit;
  mret (if ok : bool then RequestClosed why else CommitError).

Definition issue_error_text (e : exn) : string :=
  match e_kind e with
  | PolicyViolation => ("Policy violation: " ++ e_text e)%string
  | RenewalError => e_text e
  | RuntimeError =>
      if contains "already issued" (e_text e)
      then "A certificate was already issued for this request by another approver; reload it"
      else "Certificate issuance failed. Check server logs."
  | ValueError =>
      if existsb (fun m => contains m (e_text e)) ["signing key"; "KEY_ENCRYPTION_KEY"; "HSM"]
      then "Certificate issuance failed. Check server logs."
      else e_text e
  | OtherError => "Certificate issuance failed. Check server logs."
  end.

(* the guards shared by the two votes; None: the vote may be cast *)
Definition guard_open (ev : env) (r : ApprovalRequest) : option response :=
  if bool_decide (ar_status r = Pending) then
    if approval_is_expired (now ev) r then Some HasExpired else None
  else Some (AlreadyResolved (ar_status r)).

Definition expire_request (ev : env) (i : Z) : M response :=
  _ ← update_request i (close Expired (now ev));
  _ ← safe_commit;
  mret HasExpired.

(* after the exception: what is left of the request decides *)
Definition after_failed_issue (ev : env) (i : Z) (e : exn) : M response :=
  let err := issue_error_text e in
  _ ← rollback;
  r ← gets (fun s => requests s !! i);
  match r with
  | None => mret NotFound
  | Some r =>
      if negb (bool_decide (ar_status r = Pending)) then mret (AlreadyResolved (ar_status r))
      else if is_value_error e && contains "no longer exists" (e_text e)
      then _close_request_target_gone ev i err
      else ok ← safe_commit;
           mret (if ok : bool then VoteRecorded (ar_status r) None (Some err) else CommitError)
  end.

Definition finish_vote (i : Z) (issued : option issue_result) : M response :=
  ok ← safe_commit;
  r ← gets (fun s => requests s !! i);
  mret (if ok : bool then VoteRecorded (default Pending (ar_status <$> r)) issued None else CommitError).

Definition approve_request (ev : env) (i : Z) (comment : option string) : M response :=
  s ← gets id;
  match requests s !! i with
  | None => mret NotFound
  | Some r =>
      match guard_open ev r with
      | Some HasExpired => expire_request ev i
      | Some refusal => mret refusal
      | None =>
          if negb (_user_can_act_on_approval s (user ev) r) then mret NotAllowed
          else if match user_id ev with
                  | Some u => negb (u =? 0) && bool_decide (ar_requester r = Some u)
                  | None => false
                  end then mret OwnRequest
          else if match user_id ev with Some u => has_voted r u | None => false end then mret AlreadyVoted
          else match _approval_target_gone s r with
               | Some why => _close_request_target_gone ev i why
               | None =>
                   let r' := add_approval (now ev) (user_id ev) (username ev) VApprove comment r in
                   _ ← update_request i (fun _ => r');
                   if bool_decide (ar_status r' = Approved)
                      && match ar_data r' with NoData => false | _ => true end
                      && bool_decide (ar_certificate r' = None)
                   then try_else (_issue_approved_certificate ev i r') (after_failed_issue ev i)
                          (fun res => finish_vote i (Some res))
                   else finish_vote i None
               end
      end
  end.

Definition reject_request (ev : env) (i : Z) (comment : option string) : M response :=
  match truthy_text comment with
  | None => mret ReasonRequired
  | Some why =>
      s ← gets id;
      match requests s !! i with
      | None => mret NotFound
      | Some r =>
          match guard_open ev r with
          | Some HasExpired => expire_request ev i
          | Some refusal => mret refusal
          | None =>
              if negb (_user_can_act_on_approval s (user ev) r) then mret NotAllowed
              else if match user_id ev with Some u => has_voted r u | None => false end then mret AlreadyVoted
              else _ ← update_request i (add_approval (now ev) (user_id ev) (username ev) VReject (Some why));
                   finish_vote i None
          end
      end
  end.

Definition get_approval (ev : env) (i : Z) : M (option approval_status) :=
  r ← gets (fun s => requests s !! i);
  match r with
  | None => mret None
  | Some r =>
      _ ← (if bool_decide (ar_status r = Pending) && approval_is_expired (now ev) r
           then _ ← update_request i (close Expired (now ev)); _ ← safe_commit; mret tt
           else mret tt);
      gets (fun s => ar_status <$> requests s !! i)
  end.

Definition list_approvals (ev : env) (status : option approval_status) : M (list (Z * ApprovalRequest)) :=
  _ ← expire_stale_requests (now ev);
  gets (fun s => List.filter (fun ir => match status with
                                        | Some st => bool_decide (ar_status ir.2 = st)
                                        | None => true
                                        end) (map_to_list (requests s))).

Definition of_policy (p : Z) (r : ApprovalRequest) : bool := bool_decide (ar_policy r = Some p).

Inductive policy_response := PolicyMissing | PolicyHasPending (n : nat) | PolicyDeleted | PolicyNotDeleted.

Definition delete_policy (ev : env) (p : Z) : M policy_response :=
  row ← gets (fun s => policies s !! p);
  match row with
  | None => mret PolicyMissing
  | Some _ =>
      _ ← expire_stale_requests (now ev);
      n ← gets (fun s => length (List.filter (fun ir => of_policy p ir.2
                            && bool_decide (ar_status ir.2 = Pending)) (map_to_list (requests s))));
      match n with
      | S _ => mret (PolicyHasPending n)
      | O => _ ← modify (fun s => with_policies (delete p)
                   (with_requests (filter (fun ir => of_policy p ir.2 = false)) s));
             ok ← safe_commit;
             mret (if ok : bool then PolicyDeleted else PolicyNotDeleted)
      end
  end.
