(* ===== verification/ApprovalSafety.v ===== *)
(** * ApprovalSafety: what can happen to an approval request

    [row_step] lists the changes a request can undergo; [evolves] lifts it to the
    store. Every call of [Approvals] only makes such changes, also when a commit
    fails or a service raises before or after its own commit. From that: decisions
    are final, each request is carried out at most once and only when approved,
    nobody approves their own request, and approval by votes needs the quorum. *)

From Stdlib Require Import Ascii String.
From stdpp Require Import prelude gmap strings.
From S2P Require Import Prelude Scalars KeyAlgorithms Policies ApprovalModel Approvals.

Local Open Scope string_scope.
Local Open Scope Z_scope.

(** ** The changes of one request *)

Definition linked (c : option Z) (r : ApprovalRequest) : ApprovalRequest :=
  match c with Some c => set_link c r | None => r end.

(* who an approving vote is not of: the requester, by id, or by name when the vote has no id *)
Definition not_requester (us : gmap Z string) (r : ApprovalRequest) (v : vote) : Prop :=
  match v_user v with
  | Some u => u <> 0 -> ar_requester r <> Some u
  | None => v_username v <> "" -> forall q, ar_requester r = Some q -> us !! q <> Some (v_username v)
  end.

(* the changes other than a vote of the routes; [us]: the user table *)
Inductive row_step (us : gmap Z string) : ApprovalRequest -> ApprovalRequest -> Prop :=
| step_close st t r : ar_status r = Pending -> st = Expired \/ st = Cancelled -> row_step us r (close st t r)
| step_moot_approved t u n why c r :
    ar_status r = Pending -> approval_is_expired t r = false ->
    not_requester us r {| v_user := u; v_username := n; v_action := VApprove; v_comment := why; v_timestamp := t |} ->
    row_step us r (linked c (close Approved t (add_approval t u n VApprove why r)))
| step_rejected t u n why r :
    ar_status r = Pending -> approval_is_expired t r = false ->
    row_step us r (close Rejected t (add_approval t u n VReject why r))
| step_link c r : ar_status r = Approved -> ar_certificate r = None -> row_step us r (set_link c r).

(* a vote of the routes *)
Inductive vote_step : ApprovalRequest -> ApprovalRequest -> Prop :=
| step_vote t u n a why r :
    ar_status r = Pending -> approval_is_expired t r = false -> has_voted r u = false ->
    (a = VApprove -> u <> 0 -> ar_requester r <> Some u) ->
    vote_step r (add_approval t (Some u) n a why r).

Lemma add_approval_votes t u n a why r : ar_votes (add_approval t u n a why r) =
  (ar_votes r ++ [{| v_user := u; v_username := n; v_action := a; v_comment := why; v_timestamp := t |}])%list.
Proof. unfold add_approval. repeat case_match; done. Qed.
Lemma add_approval_certificate t u n a why r : ar_certificate (add_approval t u n a why r) = ar_certificate r.
Proof. unfold add_approval. repeat case_match; done. Qed.
Lemma add_approval_requester t u n a why r : ar_requester (add_approval t u n a why r) = ar_requester r.
Proof. unfold add_approval. repeat case_match; done. Qed.
Lemma add_approval_required t u n a why r : ar_required (add_approval t u n a why r) = ar_required r.
Proof. unfold add_approval. repeat case_match; done. Qed.
Create Rewrite HintDb approvals.
#[export] Hint Rewrite add_approval_votes add_approval_certificate add_approval_requester
  add_approval_required : approvals.

Lemma step_final us r r' : row_step us r r' -> ar_status r <> Pending ->
  ar_status r' = ar_status r /\ ar_votes r' = ar_votes r /\ ar_resolved r' = ar_resolved r
  /\ forall c, ar_certificate r = Some c -> ar_certificate r' = Some c.
Proof. intros []; try done. intros _. simpl. repeat split; congruence. Qed.

Lemma steps_final us r r' : rtc (row_step us) r r' -> ar_status r <> Pending ->
  ar_status r' = ar_status r /\ ar_votes r' = ar_votes r /\ ar_resolved r' = ar_resolved r
  /\ forall c, ar_certificate r = Some c -> ar_certificate r' = Some c.
Proof.
  induction 1 as [|r1 r2 r3 H1 _ IH]; [done|]. intros Hp.
  destruct (step_final _ _ _ H1 Hp) as (Hs & Hv & Hr & Hc). destruct IH as (? & ? & ? & ?); [congruence|].
  repeat split; [congruence..|auto].
Qed.

(** ** What holds of every request *)

Definition voters (r : ApprovalRequest) : list Z := omap v_user (ar_votes r).

Record row_ok (r : ApprovalRequest) : Prop := {
  ok_required : 1 <= ar_required r;
  ok_unlinked : ar_status r = Pending -> ar_certificate r = None;
  ok_no_reject : ar_status r = Pending -> forall v, v ∈ ar_votes r -> v_action v = VApprove;
  ok_voters : ar_status r = Pending -> NoDup (voters r) /\ forall v, v ∈ ar_votes r -> is_Some (v_user v);
  ok_not_own : forall v u, v ∈ ar_votes r -> v_action v = VApprove -> v_user v = Some u -> u <> 0 ->
    ar_requester r <> Some u;
  ok_approved : ar_status r = Approved -> exists v, v ∈ ar_votes r /\ v_action v = VApprove;
}.

Lemma count_votes_app a l m : count_votes a (l ++ m) = count_votes a l + count_votes a m.
Proof. unfold count_votes. rewrite List.filter_app, length_app. lia. Qed.

Lemma count_votes_nonneg a l : 0 <= count_votes a l.
Proof. unfold count_votes. lia. Qed.

Lemma count_votes_pos a l : 0 < count_votes a l <-> exists v, v ∈ l /\ v_action v = a.
Proof.
  unfold count_votes. induction l as [|v l IH]; simpl.
  - split; [lia|]. by intros (? & ?%elem_of_nil & _).
  - setoid_rewrite elem_of_cons. case_bool_decide; simpl; [|rewrite IH; naive_solver].
    split; [intros _; exists v; auto|lia].
Qed.

Lemma add_approval_status t u n a why r : let r' := add_approval t u n a why r in
  ar_status r' = Approved /\ ar_required r <= count_votes VApprove (ar_votes r')
  \/ ar_status r' = Rejected /\ 0 < count_votes VReject (ar_votes r')
  \/ ar_status r' = ar_status r /\ count_votes VReject (ar_votes r') = 0.
Proof.
  cbv zeta. unfold add_approval. destruct (_ <=? _) eqn:E1; [apply Z.leb_le in E1; auto|].
  destruct (0 <? _) eqn:E2; simpl; [apply Z.ltb_lt in E2; auto|]. apply Z.ltb_ge in E2.
  right. right. split; [done|]. match goal with |- ?x = 0 => pose proof (count_votes_nonneg VReject
    (ar_votes r ++ [{| v_user := u; v_username := n; v_action := a; v_comment := why; v_timestamp := t |}])) end. lia.
Qed.

Lemma has_voted_spec r u : has_voted r u = true <-> u ∈ voters r.
Proof.
  unfold has_voted, voters. rewrite existsb_exists, list_elem_of_omap. setoid_rewrite bool_decide_eq_true.
  by setoid_rewrite <- list_elem_of_In.
Qed.

Lemma elem_snoc {A} (x y : A) l : x ∈ (l ++ [y])%list <-> x ∈ l \/ x = y.
Proof. by rewrite elem_of_app, list_elem_of_singleton. Qed.

Lemma not_own_snoc r u n a why t :
  row_ok r -> (forall x, a = VApprove -> u = Some x -> x <> 0 -> ar_requester r <> Some x) ->
  forall v x, v ∈ ar_votes (add_approval t u n a why r) -> v_action v = VApprove -> v_user v = Some x ->
    x <> 0 -> ar_requester r <> Some x.
Proof.
  intros H Hu v x. rewrite add_approval_votes. intros [Hv| ->]%elem_snoc; [by eapply ok_not_own|].
  simpl. intros. by apply Hu.
Qed.

Lemma vote_row_ok t u n a why r :
  row_ok r -> ar_status r = Pending -> has_voted r u = false ->
  (a = VApprove -> u <> 0 -> ar_requester r <> Some u) ->
  row_ok (add_approval t (Some u) n a why r).
Proof.
  intros H Hp Hv Hown. pose proof (add_approval_status t (Some u) n a why r) as Hst. cbv zeta in Hst.
  split; autorewrite with approvals.
  - apply H.
  - intros _. by apply H.
  - intros Hp'. destruct Hst as [[? _]|[[? _]|[_ Hc]]]; [congruence..|].
    intros v Hin. destruct (v_action v) eqn:Ea; [done|]. exfalso.
    rewrite add_approval_votes in Hc. enough (0 < 0) by lia. rewrite <- Hc at 2. apply count_votes_pos. eauto.
  - intros _. unfold voters. rewrite add_approval_votes. destruct (ok_voters r H Hp) as [Hn Hs]. split.
    + rewrite omap_app. simpl. apply NoDup_app. split; [done|]. split; [|apply NoDup_singleton].
      intros x Hx ->%list_elem_of_singleton. apply not_true_iff_false in Hv. by apply Hv, has_voted_spec.
    + intros v [?| ->]%elem_snoc; simpl; eauto.
  - intros v x. rewrite <- (add_approval_votes t (Some u) n a why r).
    apply not_own_snoc; [done|]. intros y Ha [= <-]. by apply Hown.
  - intros Ha. destruct Hst as [[_ Hc]|[[? _]|[? _]]]; [|congruence..].
    rewrite add_approval_votes in Hc. apply count_votes_pos. pose proof (ok_required r H). lia.
Qed.

Lemma linked_fields c r : ar_status (linked c r) = ar_status r /\ ar_votes (linked c r) = ar_votes r
  /\ ar_requester (linked c r) = ar_requester r /\ ar_required (linked c r) = ar_required r.
Proof. by destruct c. Qed.

(* a row that is closed with the votes it has and one more *)
Lemma resolved_row_ok t u n a why r r' :
  row_ok r -> ar_status r' <> Pending -> (ar_status r' = Approved -> a = VApprove) ->
  (forall x, a = VApprove -> u = Some x -> x <> 0 -> ar_requester r <> Some x) ->
  ar_votes r' = ar_votes (add_approval t u n a why r) ->
  ar_requester r' = ar_requester r -> ar_required r' = ar_required r -> row_ok r'.
Proof.
  intros H Hp Ha Hown Hv Hr Hq. split; try done.
  - rewrite Hq. apply H.
  - rewrite Hv, Hr. by apply not_own_snoc.
  - intros ->%Ha. rewrite Hv, add_approval_votes. eexists. rewrite elem_snoc. by split; [right|].
Qed.

Lemma step_row_ok us r r' : row_ok r -> row_step us r r' -> row_ok r'.
Proof.
  intros H Hs. destruct Hs as [st t r Hp Hst|t u n why c r Hp He Hu|t u n why r Hp He|c r Ha Hc].
  - split; simpl; try apply H; try (destruct Hst; congruence).
  - destruct (linked_fields c (close Approved t (add_approval t u n VApprove why r))) as (E1 & E2 & E3 & E4).
    apply (resolved_row_ok t u n VApprove why r); rewrite ?E1, ?E2, ?E3, ?E4; simpl; autorewrite with approvals;
      try done. intros x _ -> Hx. by apply Hu.
  - apply (resolved_row_ok t u n VReject why r); simpl; autorewrite with approvals; done.
  - split; simpl; try apply H; congruence.
Qed.

Lemma steps_row_ok us r r' : rtc (row_step us) r r' -> row_ok r -> row_ok r'.
Proof. induction 1; eauto using step_row_ok. Qed.

Lemma created_row_ok t p rd requester ty : (forall n, min_approvers p = Some n -> 0 <= n) ->
  row_ok (create_approval_request t p rd requester ty).
Proof.
  intros Hm. split; simpl; try done.
  - destruct (min_approvers p) as [n|]; [|lia]. specialize (Hm n eq_refl). destruct (n =? 0) eqn:E; lia.
  - by intros _ ? ?%elem_of_nil.
  - intros _. split; [constructor|]. by intros ? ?%elem_of_nil.
  - by intros ? ? ?%elem_of_nil.
Qed.

(** ** The changes of the store *)

Definition row_evolves (us : gmap Z string) (o o' : option ApprovalRequest) : Prop :=
  match o, o' with
  | Some r, Some r' => rtc (row_step us) r r'
  | None, None => True
  | _, _ => False
  end.

Definition is_approved (s : store) (i : Z) : Prop :=
  exists r, requests s !! i = Some r /\ ar_status r = Approved.

Record evolves (s s' : store) : Prop := {
  ev_rows : forall i, row_evolves (users s) (requests s !! i) (requests s' !! i);
  ev_users : users s' = users s;
  ev_policies : policies s' = policies s;
  ev_performed : exists l, performed s' = (performed s ++ l)%list /\ NoDup l
    /\ (forall i, i ∈ l -> (i ∉ performed s) /\ is_approved s' i);
}.

Lemma row_evolves_refl us o : row_evolves us o o.
Proof. destruct o; simpl; [apply rtc_refl|done]. Qed.
Lemma row_evolves_trans us a b c : row_evolves us a b -> row_evolves us b c -> row_evolves us a c.
Proof. destruct a, b, c; simpl; try done. intros; by etrans. Qed.

Lemma approved_evolves s s' i : evolves s s' -> is_approved s i -> is_approved s' i.
Proof.
  intros H (r & Hr & Ha). pose proof (ev_rows _ _ H i) as Hi. rewrite Hr in Hi.
  destruct (requests s' !! i) as [r'|] eqn:E; [|done]. exists r'. split; [done|].
  destruct (steps_final _ _ _ Hi) as [-> _]; [by rewrite Ha|done].
Qed.

#[export] Instance evolves_preorder : PreOrder evolves.
Proof.
  split.
  - intros s. split; [by intros; apply row_evolves_refl|done|done|]. exists []. rewrite app_nil_r.
    split; [done|]. split; [constructor|]. by intros ? ?%elem_of_nil.
  - intros s1 s2 s3 H12 H23. split.
    + intros i. eapply row_evolves_trans; [apply (ev_rows _ _ H12)|]. rewrite <- (ev_users _ _ H12). apply (ev_rows _ _ H23).
    + by rewrite (ev_users _ _ H23), (ev_users _ _ H12).
    + by rewrite (ev_policies _ _ H23), (ev_policies _ _ H12).
    + destruct (ev_performed _ _ H12) as (l1 & E1 & N1 & D1), (ev_performed _ _ H23) as (l2 & E2 & N2 & D2).
      exists (l1 ++ l2)%list. split; [by rewrite E2, E1, app_assoc|]. split.
      * apply NoDup_app. split; [done|]. split; [|done]. intros i H1 H2. apply (proj1 (D2 i H2)).
        rewrite E1. set_solver.
      * intros i [Hi|Hi]%elem_of_app.
        { destruct (D1 i Hi) as [? ?]. split; [done|]. by eapply approved_evolves. }
        { destruct (D2 i Hi) as [Hn ?]. split; [|done]. rewrite E1 in Hn. set_solver. }
Qed.

(* a change of the requests alone, row by row *)
Lemma evolves_requests s f :
  (forall i, row_evolves (users s) (requests s !! i) (f (requests s) !! i)) -> evolves s (with_requests f s).
Proof.
  intros H. split; [done..|]. exists []. rewrite app_nil_r. split; [done|]. split; [constructor|].
  by intros ? ?%elem_of_nil.
Qed.

Lemma evolves_tables s fc fa fx fe : evolves s (with_tables fc fa fx fe s).
Proof.
  split; [intros i; apply row_evolves_refl|done|done|]. exists []. rewrite app_nil_r. split; [done|].
  split; [constructor|]. by intros ? ?%elem_of_nil.
Qed.

Lemma evolves_alter s i f :
  (forall r, requests s !! i = Some r -> rtc (row_step (users s)) r (f r)) -> evolves s (with_requests (alter f i) s).
Proof.
  intros H. apply evolves_requests. intros j. destruct (decide (i = j)) as [->|Hne].
  - rewrite lookup_alter_eq. destruct (requests s !! j) eqn:E; [|done]. by apply H.
  - rewrite lookup_alter_ne by done. apply row_evolves_refl.
Qed.

Lemma evolves_fmap s f :
  (forall i r, requests s !! i = Some r -> rtc (row_step (users s)) r (f r)) -> evolves s (with_requests (fmap f) s).
Proof.
  intros H. apply evolves_requests. intros j. rewrite lookup_fmap.
  destruct (requests s !! j) eqn:E; [|done]. by eapply H.
Qed.

Lemma acted_by_requester_false s u n why t r : _acted_by_requester s u n r = false ->
  not_requester (users s) r {| v_user := u; v_username := n; v_action := VApprove; v_comment := why; v_timestamp := t |}.
Proof.
  unfold _acted_by_requester, not_requester. destruct u as [u|]; cbn; [by intros Ea%bool_decide_eq_false _|].
  intros [En|En%bool_decide_eq_false]%andb_false_iff Hn q Hq Hu; [by destruct n|].
  apply En. unfold requester_name. by rewrite Hq.
Qed.

Lemma moot_row_steps t s m r : rtc (row_step (users s)) r (moot_row t s m r).
Proof.
  unfold moot_row. destruct (pending_naming _ _ _ r) eqn:Ep; [|apply rtc_refl]. apply rtc_once.
  unfold pending_naming in Ep. apply andb_true_iff in Ep as [[Ep _]%andb_true_iff _].
  apply bool_decide_eq_true in Ep. unfold resolve_moot.
  destruct (approval_is_expired t r) eqn:Ee; [constructor; auto|].
  destruct (mt_outcome m).
  - destruct (_acted_by_requester s (mt_user m) (mt_username m) r) eqn:Ea; [constructor; auto|].
    apply (step_moot_approved _ t (mt_user m) (mt_username m) (Some (mt_reason m)) (mt_certificate m)); [done..|].
    by apply acted_by_requester_false.
  - by apply step_rejected.
Qed.

Lemma evolves_moot t m s : evolves s (with_requests (fmap (moot_row t s m)) s).
Proof. apply evolves_fmap. intros i r _. apply moot_row_steps. Qed.

Lemma evolves_perform i s : is_approved s i -> i ∉ performed s -> evolves s (log_performed i s).
Proof.
  intros Ha Hn. split; [intros j; apply row_evolves_refl|done|done|]. exists [i]. split; [done|].
  split; [apply NoDup_singleton|]. intros j ->%list_elem_of_singleton. done.
Qed.

(** ** Sessions

    [calm]: whatever the session held, the call leaves the database evolved. [stage L]:
    a part of a transaction that started at [s0] and reached [s1], where the requests
    of [L] are approved; either nothing was committed yet or all of [s1] was. *)

Definition good (w : session) : Prop := evolves (committed w) (working w).

Definition calm {A} (c : M A) : Prop := forall w, good w ->
  good (c w).2 /\ evolves (committed w) (committed (c w).2).

Definition mode (s0 s1 : store) (w : session) : Prop :=
  evolves s1 (working w) /\ (committed w = s0 \/ evolves s1 (committed w) /\ good w).

Definition left_at (s0 s1 : store) (w : session) : Prop :=
  committed w = s0 \/ evolves s1 (committed w).

Definition post {A} (s0 s1 : store) (rw : result exn A * session) : Prop :=
  match rw with (Ok _, w) => mode s0 s1 w | (Raise _, w) => left_at s0 s1 w end.

Definition stage (L : list Z) {A} (c : M A) : Prop := forall s0 s1 w,
  (forall j, j ∈ L -> is_approved s1 j) -> mode s0 s1 w -> post s0 s1 (c w).

Lemma mode_left s0 s1 w : mode s0 s1 w -> left_at s0 s1 w.
Proof. intros [_ [?|[? _]]]; [by left|by right]. Qed.

Lemma post_weaken {A} s0 s1 s2 (rw : result exn A * session) : evolves s1 s2 -> post s0 s2 rw -> post s0 s1 rw.
Proof.
  intros H. destruct rw as [[a|e] w]; unfold post, mode, left_at.
  - intros [? [?|[? ?]]]; (split; [by etrans|]); [by left|right; split; [by etrans|done]].
  - intros [?|?]; [by left|right; by etrans].
Qed.

Lemma calm_ret {A} (a : A) : calm (mret a).
Proof. intros w Hw. done. Qed.
Lemma calm_gets {A} (f : store -> A) : calm (gets f).
Proof. intros w Hw. done. Qed.
Lemma calm_raise {A} e : calm (raise (A := A) e).
Proof. intros w Hw. done. Qed.
Lemma calm_rollback : calm rollback.
Proof. intros w Hw. unfold good. simpl. done. Qed.
Lemma calm_modify f : (forall s, evolves s (f s)) -> calm (modify f).
Proof. intros H w Hw. unfold good in *. simpl. split; [|done]. etrans; [exact Hw|apply H]. Qed.
Lemma calm_commit : calm safe_commit.
Proof. intros w Hw. unfold safe_commit. repeat case_match; simpl; unfold good; simpl; done. Qed.
Lemma calm_bind {A B} (c : M A) (k : A -> M B) : calm c -> (forall a, calm (k a)) -> calm (c ≫= k).
Proof.
  intros Hc Hk w Hw. unfold mbind, M_bind. destruct (Hc w Hw) as [Hg He].
  destruct (c w) as [[a|e] w']; simpl in *; [|done]. destruct (Hk a w' Hg). split; [done|by etrans].
Qed.
Lemma calm_try {A B} (c : M A) h (k : A -> M B) :
  calm c -> (forall e, calm (h e)) -> (forall a, calm (k a)) -> calm (try_else c h k).
Proof.
  intros Hc Hh Hk w Hw. unfold try_else. destruct (Hc w Hw) as [Hg He].
  destruct (c w) as [[a|e] w']; simpl in *.
  - destruct (Hk a w' Hg). split; [done|by etrans].
  - destruct (Hh e w' Hg). split; [done|by etrans].
Qed.
Lemma calm_each {A} (f : A -> M unit) l : (forall a, calm (f a)) -> calm (each f l).
Proof. intros H. induction l; simpl; [apply calm_ret|apply calm_bind; auto]. Qed.

Lemma stage_ret L {A} (a : A) : stage L (mret a).
Proof. by intros s0 s1 w _ ?. Qed.
Lemma stage_gets L {A} (f : store -> A) : stage L (gets f).
Proof. by intros s0 s1 w _ ?. Qed.
Lemma stage_raise L {A} e : stage L (raise (A := A) e).
Proof. intros s0 s1 w _ Hm. by apply mode_left. Qed.
Lemma stage_modify L f : (forall s, (forall j, j ∈ L -> is_approved s j) -> evolves s (f s)) -> stage L (modify f).
Proof.
  intros H s0 s1 w HL [H1 Hc]. assert (evolves (working w) (f (working w))) as Hf.
  { apply H. intros j Hj. eapply approved_evolves; eauto. }
  split; simpl; [by etrans|]. destruct Hc as [?|[? ?]]; [by left|right]. split; [done|].
  unfold good in *. simpl. by etrans.
Qed.
Lemma stage_bind L {A B} (c : M A) (k : A -> M B) : stage L c -> (forall a, stage L (k a)) -> stage L (c ≫= k).
Proof.
  intros Hc Hk s0 s1 w HL Hw. unfold mbind, M_bind. pose proof (Hc s0 s1 w HL Hw) as H.
  destruct (c w) as [[a|e] w']; [|done]. by apply Hk.
Qed.
Lemma stage_each L {A} (f : A -> M unit) l : (forall a, stage L (f a)) -> stage L (each f l).
Proof. intros H. induction l; simpl; [apply stage_ret|apply stage_bind; auto]. Qed.

(* a call that has committed when it returns *)
Definition lands (L : list Z) {A} (c : M A) : Prop := forall s0 s1 w,
  (forall j, j ∈ L -> is_approved s1 j) -> mode s0 s1 w ->
  match c w with
  | (Ok _, w') => evolves s1 (committed w') /\ good w'
  | (Raise _, w') => left_at s0 s1 w'
  end.

Lemma lands_raise L {A} e : lands L (raise (A := A) e).
Proof. intros s0 s1 w _ Hm. by apply mode_left. Qed.
Lemma lands_commit L e : lands L (commit_or_raise e).
Proof.
  intros s0 s1 w _ [H1 Hc]. unfold commit_or_raise, safe_commit, mbind, M_bind.
  destruct (commits w) as [|[] l]; simpl; [split; [exact H1|]; unfold good; reflexivity..|].
  unfold left_at. simpl. destruct Hc as [?|[? _]]; auto.
Qed.
Lemma lands_bind L {A B} (c : M A) (k : A -> M B) : stage L c -> (forall a, lands L (k a)) -> lands L (c ≫= k).
Proof.
  intros Hc Hk s0 s1 w HL Hw. unfold mbind, M_bind. pose proof (Hc s0 s1 w HL Hw) as H.
  destruct (c w) as [[a|e] w']; [|done]. by apply Hk.
Qed.
Lemma lands_calm L {A B} (c : M A) (k : A -> M B) : lands L c -> (forall a, calm (k a)) -> lands L (c ≫= k).
Proof.
  intros Hc Hk s0 s1 w HL Hw. unfold mbind, M_bind. pose proof (Hc s0 s1 w HL Hw) as H.
  destruct (c w) as [[a|e] w']; [|done]. destruct H as [He Hg]. destruct (Hk a w' Hg) as [Hg' He'].
  assert (evolves s1 (committed (k a w').2)) by (by etrans).
  by destruct (k a w') as [[b|?] w'']; [|right].
Qed.
Lemma lands_stage L {A} (c : M A) : lands L c -> stage L c.
Proof.
  intros Hc s0 s1 w HL Hw. pose proof (Hc s0 s1 w HL Hw) as H. destruct (c w) as [[a|e] w']; [|done].
  destruct H as [He Hg]. split; [etrans; [exact He|exact Hg]|by right].
Qed.
(* past a commit that must succeed, anything calm *)
Lemma stage_commit L {A} e (k : M A) : calm k -> stage L (commit_or_raise e ≫= fun _ => k).
Proof. intros Hk. apply lands_stage, lands_calm; [apply lands_commit|done]. Qed.
Lemma stage_commit_last L e : stage L (commit_or_raise e).
Proof. apply lands_stage, lands_commit. Qed.

(** ** The services *)

Create HintDb calm.
#[export] Hint Resolve calm_ret calm_gets calm_raise calm_rollback calm_commit evolves_tables : calm.
Create HintDb stage.
#[export] Hint Resolve stage_ret stage_gets stage_raise evolves_tables : stage.

Ltac calm_walk := repeat first
  [ solve [eauto with calm] | apply calm_bind; [|intros ?] | apply calm_modify; intros ?
  | apply calm_try; [|intros ?|intros ?] | apply calm_each; intros ? | case_match ].
Ltac stage_walk := repeat first
  [ solve [eauto with stage calm] | apply stage_commit; solve [calm_walk] | apply stage_bind; [|intros ?]
  | apply stage_modify; intros ? ? | apply stage_each; intros ? | case_match ].

Lemma calm_raise_if o : calm (raise_if o).
Proof. unfold raise_if. calm_walk. Qed.
Lemma stage_raise_if L o : stage L (raise_if o).
Proof. unfold raise_if. stage_walk. Qed.
(* the store that is read is the one that is changed *)
Lemma calm_moot t m : calm (_resolve_moot_requests t m).
Proof.
  unfold _resolve_moot_requests. intros w Hw. unfold good, mbind, M_bind in *. cbn. split; [|done].
  etrans; [exact Hw|apply evolves_moot].
Qed.
Lemma stage_moot L t m : stage L (_resolve_moot_requests t m).
Proof.
  unfold _resolve_moot_requests. intros s0 s1 w HL Hw. change (mode s0 s1
    (modify (with_requests (fmap (moot_row t (working w) m))) w).2).
  destruct Hw as [H1 Hc]. pose proof (evolves_moot t m (working w)) as Hm. split; simpl; [by etrans|].
  destruct Hc as [?|[? ?]]; [by left|right]. split; [done|]. unfold good in *. simpl. by etrans.
Qed.
#[export] Hint Resolve calm_raise_if calm_moot : calm.
#[export] Hint Resolve stage_raise_if stage_moot stage_commit_last : stage.
Lemma calm_moot_commit t m : calm (resolve_moot_requests t m).
Proof. unfold resolve_moot_requests. calm_walk. Qed.
Lemma calm_commit_or_raise e : calm (commit_or_raise e).
Proof. unfold commit_or_raise. calm_walk. Qed.
#[export] Hint Resolve calm_moot_commit calm_commit_or_raise : calm.

Lemma calm_sign_csr ev cert inter by_ : calm (sign_csr ev cert inter by_).
Proof. unfold sign_csr, value_error, on_certificates. calm_walk. Qed.
Lemma stage_sign_csr L ev cert inter by_ : stage L (sign_csr ev cert inter by_).
Proof. unfold sign_csr, value_error, on_certificates. stage_walk. Qed.

(* a rollback is harmless just before raising *)
Lemma stage_rollback_raise L {A} e : stage L (rollback ≫= fun _ => raise (A := A) e).
Proof. intros s0 s1 w _ Hm. apply mode_left in Hm. by unfold left_at in *. Qed.
#[export] Hint Resolve stage_rollback_raise : stage.

Lemma calm_renew ev cert by_ id_ sch : calm (renew_certificate_in_place ev cert by_ id_ sch).
Proof. unfold renew_certificate_in_place, on_certificates. calm_walk. Qed.
Lemma stage_renew L ev cert by_ id_ sch : stage L (renew_certificate_in_place ev cert by_ id_ sch).
Proof.
  unfold renew_certificate_in_place, on_certificates. apply stage_bind.
  { destruct (refuses ev); eauto with stage. }
  intros _. apply stage_bind; [stage_walk|]. intros _. apply stage_commit. calm_walk.
Qed.

Lemma calm_revoke_one ev cert reason by_ o o' : calm (revoke_one ev cert reason by_ o o').
Proof. unfold revoke_one, value_error, on_certificates. calm_walk. Qed.
#[export] Hint Resolve calm_revoke_one : calm.
Lemma calm_revoke ev cert reason by_ : calm (revoke_certificate ev cert reason by_).
Proof. unfold revoke_certificate. calm_walk. Qed.

Lemma calm_revoke_ca ev ca by_ : calm (revoke_ca ev ca by_).
Proof. unfold revoke_ca, value_error. calm_walk. Qed.
Lemma stage_revoke_ca L ev ca by_ : stage L (revoke_ca ev ca by_).
Proof. unfold revoke_ca, value_error. stage_walk. Qed.
Lemma calm_revoke_cross ev x by_ : calm (revoke_cross ev x by_).
Proof. unfold revoke_cross. calm_walk. Qed.
Lemma stage_revoke_cross L ev x by_ : stage L (revoke_cross ev x by_).
Proof.
  unfold revoke_cross. apply stage_bind; [eauto with stage|]. intros _.
  apply stage_bind; [apply stage_modify; eauto with stage|]. intros _.
  apply stage_bind; [eauto with stage|]. intros _.
  apply stage_bind; [destruct (published ev); eauto with stage|eauto with stage].
Qed.

Lemma lands_revoke_one L ev cert reason by_ o o' : lands L (revoke_one ev cert reason by_ o o').
Proof.
  unfold revoke_one, value_error, on_certificates. apply lands_bind; [apply stage_gets|].
  intros [c|]; [|apply lands_raise]. destruct (ce_revoked c); [apply lands_raise|].
  apply lands_bind; [destruct o; eauto with stage|]. intros _.
  apply lands_bind; [apply stage_modify; eauto with stage|]. intros _.
  apply lands_bind; [stage_walk|]. intros _. apply lands_calm; [apply lands_commit|]. eauto with calm.
Qed.
Lemma stage_revoke L ev cert reason by_ : stage L (revoke_certificate ev cert reason by_).
Proof.
  unfold revoke_certificate. apply lands_stage, lands_calm; [apply lands_revoke_one|]. intros _. calm_walk.
Qed.
#[export] Hint Resolve stage_sign_csr stage_renew stage_revoke stage_revoke_ca stage_revoke_cross : stage.

(** ** Carrying out a request *)

Lemma stage_link_duplicates L ids cert : (forall j, j ∈ ids -> j ∈ L) -> stage L (_link_duplicates ids cert).
Proof.
  intros Hids. unfold _link_duplicates. apply stage_modify. intros s HL. apply evolves_requests.
  intros i. rewrite map_lookup_imap. destruct (requests s !! i) as [r|] eqn:E; simpl; [|done].
  destruct (bool_decide (i ∈ ids)) eqn:Ei; simpl; [|apply rtc_refl]. apply bool_decide_eq_true in Ei.
  case_bool_decide; [|apply rtc_refl]. destruct (HL i (Hids i Ei)) as (r' & Er & ?).
  rewrite E in Er. injection Er as <-. apply rtc_once. by constructor.
Qed.

Lemma stage_link L i cert : i ∈ L -> stage L (_link_approval i cert).
Proof.
  intros Hi s0 s1 w HL Hm. unfold _link_approval. unfold mbind at 1, M_bind at 1. simpl.
  destruct (approved_evolves s1 (working w) i) as (r & Hr & Ha); [apply Hm|by apply HL|].
  rewrite Hr. destruct r as [ty cert' data pol req st votes rq cr ex rs]. simpl in Ha.
  destruct cert' as [c|]; [by apply (stage_rollback_raise L)|].
  change (post s0 s1 ((update_request i (set_link cert) ≫= fun _ =>
    commit_or_raise {| e_kind := RuntimeError; e_text := "Failed to link approval to certificate" |}) w)).
  unfold mbind, M_bind, update_request. cbn [modify].
  assert (evolves (working w) (with_requests (alter (set_link cert) i) (working w))) as Hev.
  { apply evolves_alter. intros r. rewrite Hr. intros [= <-]. apply rtc_once. by constructor. }
  eapply stage_commit_last; [done|]. destruct Hm as [H1 Hc]. split; simpl; [by etrans|].
  destruct Hc as [?|[? ?]]; [by left|right]. split; [done|]. unfold good in *. simpl. by etrans.
Qed.

(* a transaction that has voted, and may carry out its request once *)
Definition may_perform (i : Z) (w : session) : Prop :=
  is_approved (working w) i /\ (i ∉ performed (working w)).

Definition performs (i : Z) {A} (c : M A) : Prop := forall w, may_perform i w ->
  post (committed w) (working w) (c w).

Lemma performs_gets i {A B} (f : store -> A) (k : A -> M B) :
  (forall a, performs i (k a)) -> performs i (gets f ≫= k).
Proof. intros H w Hw. by apply H. Qed.

Lemma performs_stage i {A} (c : M A) : stage [i] c -> performs i c.
Proof.
  intros H w [Ha _]. apply H; [by intros j ->%list_elem_of_singleton|]. split; [reflexivity|by left].
Qed.

Lemma performs_log i {A} (k : M A) : stage [i] k -> performs i (modify (log_performed i) ≫= fun _ => k).
Proof.
  intros Hk w [Ha Hn]. unfold mbind, M_bind. cbn [modify].
  assert (evolves (working w) (log_performed i (working w))) as Hev by (by apply evolves_perform).
  eapply post_weaken; [exact Hev|]. apply Hk.
  - intros j ->%list_elem_of_singleton. by eapply approved_evolves.
  - split; [reflexivity|by left].
Qed.

Lemma moot_ids_approved t s m j :
  mt_outcome m = MApproved ->
  j ∈ (fst <$> List.filter (fun ir => (resolve_moot t s m ir.2).2)
         (pending_requests_naming (mt_type m) (mt_key m) (mt_target m) s)) ->
  is_approved (with_requests (fmap (moot_row t s m)) s) j.
Proof.
  intros Hm ([k r] & -> & Hin)%list_elem_of_fmap. rewrite list_elem_of_In, filter_In in Hin.
  destruct Hin as [Hin Hres]. unfold pending_requests_naming in Hin. apply filter_In in Hin as [Hin Hp].
  rewrite <- list_elem_of_In in Hin. apply elem_of_map_to_list in Hin. simpl in *.
  exists (moot_row t s m r). simpl. rewrite lookup_fmap, Hin. split; [done|].
  unfold moot_row. rewrite Hp. unfold resolve_moot in *. destruct (approval_is_expired t r); [done|].
  rewrite Hm in *. destruct (_acted_by_requester s (mt_user m) (mt_username m) r); [done|]. simpl.
  by destruct (mt_certificate m).
Qed.

Lemma performs_duplicates i ev t k target {A} (c : list Z -> M A) :
  (forall ids, stage (i :: ids) (c ids)) ->
  performs i (dups ← _close_duplicate_requests ev t k target; _ ← modify (log_performed i); c dups).
Proof.
  intros Hc w [Ha Hn]. unfold _close_duplicate_requests, _resolve_moot_requests.
  set (m := {| mt_type := t |}). set (s := working w) in *.
  set (s1 := with_requests (fmap (moot_row (now ev) s m)) s).
  assert (evolves s s1) as H1 by apply evolves_moot.
  assert (evolves s1 (log_performed i s1)) as H2.
  { apply evolves_perform; [by eapply approved_evolves|done]. }
  unfold mbind, M_bind. simpl. fold s. eapply post_weaken; [transitivity s1; [exact H1|exact H2]|]. apply Hc.
  - intros j [->|Hj]%elem_of_cons; (eapply approved_evolves; [exact H2|]).
    + by eapply approved_evolves.
    + by apply moot_ids_approved.
  - split; [reflexivity|by left].
Qed.

Lemma performs_raise i {A} e : performs i (raise (A := A) e).
Proof. apply performs_stage. eauto with stage. Qed.

Lemma performs_tables i fc fa fx fe {A} (k : unit -> M A) :
  performs i (k tt) -> performs i (modify (with_tables fc fa fx fe) ≫= k).
Proof.
  intros Hk w Hw. unfold mbind, M_bind. cbn [modify].
  eapply post_weaken; [apply (evolves_tables (working w) fc fa fx fe)|]. apply Hk. exact Hw.
Qed.

Lemma performs_params i rd {A} (k : string -> M A) :
  (forall reason, performs i (k reason)) -> performs i (_approved_revocation_params rd ≫= k).
Proof.
  intros Hk. unfold _approved_revocation_params.
  destruct (normalize_revocation_reason _) as [reason|]; [|apply (performs_raise i)].
  case_bool_decide; [apply (performs_raise i)|apply Hk].
Qed.

Section Issue.
Context (ev : env) (i : Z) (r : ApprovalRequest) (rd : request_data).

Lemma link_ret (ids : list Z) c (x : issue_result) : stage (i :: ids) (_ ← _link_approval i c; mret x).
Proof. apply stage_bind; [apply stage_link; left|eauto with stage]. Qed.

Lemma links_ret (ids : list Z) c (x : issue_result) :
  stage (i :: ids) (_ ← _link_duplicates ids c; _ ← _link_approval i c; mret x).
Proof. apply stage_bind; [apply stage_link_duplicates; intros; by right|]. intros _. apply link_ret. Qed.

Lemma csr_performs : performs i (_issue_approved_csr ev i r rd).
Proof.
  unfold _issue_approved_csr. apply performs_gets. intros s.
  destruct (_row _ _) as [[cert c]|]; [|apply performs_raise]. destruct (negb _); [apply performs_raise|].
  destruct (ce_crt c); [apply performs_stage, link_ret|]. destruct (_ca_for_request _ _); [|apply performs_raise].
  apply performs_duplicates. intros ids. apply stage_bind; [eauto with stage|].
  intros [c'|]; [apply links_ret|eauto with stage].
Qed.

Lemma renewal_performs : performs i (_issue_approved_renewal ev i r rd).
Proof.
  unfold _issue_approved_renewal. apply performs_gets. intros s.
  destruct (_row _ _) as [[cert c]|]; [|apply performs_raise]. destruct (negb _); [apply performs_raise|].
  destruct (renewed_since c r); [apply performs_stage, link_ret|].
  apply performs_duplicates. intros ids. apply stage_bind; [eauto with stage|]. intros _. apply links_ret.
Qed.

Lemma revocation_performs : performs i (_revoke_approved_certificate ev i r rd).
Proof.
  unfold _revoke_approved_certificate. apply performs_gets. intros s.
  destruct (_row _ _) as [[cert c]|]; [|apply performs_raise]. destruct (negb _); [apply performs_raise|].
  destruct (negb _); [apply performs_raise|]. destruct (ce_revoked c).
  { destruct (_ && _); [apply performs_raise|apply performs_stage, link_ret]. }
  apply performs_params. intros reason. apply performs_duplicates. intros ids.
  apply stage_bind; [eauto with stage|]. intros _. apply stage_bind; [stage_walk|]. intros _. apply links_ret.
Qed.

Lemma ca_performs : performs i (_revoke_approved_ca ev i r rd).
Proof.
  unfold _revoke_approved_ca. apply performs_gets. intros s.
  destruct (_row _ _) as [[ca c]|]; [|apply performs_raise].
  destruct (ca_revoked c); [apply performs_stage; eauto with stage|].
  apply performs_params. intros reason. apply performs_duplicates. intros ids. stage_walk.
Qed.

Lemma cross_performs : performs i (_revoke_approved_cross_certificate ev i r rd).
Proof.
  unfold _revoke_approved_cross_certificate. apply performs_gets. intros s.
  destruct (_row _ _) as [[x c]|]; [|apply performs_raise].
  destruct (cx_revoked c); [apply performs_stage; eauto with stage|].
  apply performs_params. intros reason. apply performs_duplicates. intros ids. stage_walk.
Qed.

Lemma new_performs : performs i (_issue_new_certificate ev i).
Proof.
  unfold _issue_new_certificate, on_certificates, raise_if. destruct (refuses ev); [apply (performs_raise i)|].
  apply (performs_tables i _ _ _ _ (fun _ => _)), performs_log, link_ret.
Qed.
End Issue.

Lemma issue_performs ev i r : performs i (_issue_approved_certificate ev i r).
Proof.
  unfold _issue_approved_certificate. destruct (get_request_data r) as [rd|]; [|apply performs_raise].
  destruct (ar_type r); auto using csr_performs, renewal_performs, revocation_performs, ca_performs,
    cross_performs, new_performs.
Qed.

(** ** The votes *)

Definition fresh (s : store) (outcomes : list bool) : session :=
  {| committed := s; working := s; commits := outcomes |}.

Record store_ok (s : store) : Prop := {
  so_rows : forall i r, requests s !! i = Some r -> row_ok r;
  so_policies : forall i p n, policies s !! i = Some p -> min_approvers p = Some n -> 0 <= n;
  so_once : NoDup (performed s);
  so_performed : forall i r, i ∈ performed s -> requests s !! i = Some r -> ar_status r = Approved;
}.

Lemma evolves_ok s s' : evolves s s' -> store_ok s -> store_ok s'.
Proof.
  intros He Hok. destruct (ev_performed _ _ He) as (l & El & Nl & Dl). split.
  - intros i r' Hr'. pose proof (ev_rows _ _ He i) as Hi. rewrite Hr' in Hi.
    destruct (requests s !! i) as [r|] eqn:E; [|done]. eapply steps_row_ok; [exact Hi|by eapply so_rows].
  - intros i p. rewrite (ev_policies _ _ He). by apply so_policies.
  - rewrite El. apply NoDup_app. split; [apply Hok|]. split; [|done]. intros i Hi Hl. by apply (Dl i Hl).
  - intros i r'. rewrite El. intros [Hi|Hi]%elem_of_app Hr'.
    + pose proof (ev_rows _ _ He i) as Hrow. rewrite Hr' in Hrow.
      destruct (requests s !! i) as [r|] eqn:E; [|done].
      pose proof (so_performed s Hok i r Hi E) as Ha.
      destruct (steps_final _ _ _ Hrow) as [-> _]; [by rewrite Ha|done].
    + destruct (Dl i Hi) as [_ (r & Hr & Ha)]. congruence.
Qed.

(* the guards that a vote passed *)
Record may_vote (ev : env) (s : store) (i : Z) (r : ApprovalRequest) : Prop := {
  mv_row : requests s !! i = Some r;
  mv_pending : ar_status r = Pending;
  mv_open : approval_is_expired (now ev) r = false;
  mv_allowed : _user_can_act_on_approval s (user ev) r = true;
  mv_first : forall u, user_id ev = Some u -> has_voted r u = false;
}.

Definition approving (ev : env) (comment : option string) (r : ApprovalRequest) : ApprovalRequest :=
  add_approval (now ev) (user_id ev) (username ev) VApprove comment r.
Definition closing (ev : env) (why : string) (r : ApprovalRequest) : ApprovalRequest :=
  close Rejected (now ev) (add_approval (now ev) (user_id ev) (username ev) VReject (Some why) r).
Definition at_row (i : Z) (f : ApprovalRequest -> ApprovalRequest) (s : store) : store :=
  with_requests (alter f i) s.

Lemma alter_const {A} (m : gmap Z A) i (x y : A) (f : A -> A) :
  m !! i = Some x -> f x = y -> alter (fun _ => y) i m = alter f i m.
Proof.
  intros Hx <-. apply map_eq. intros j. destruct (decide (i = j)) as [->|].
  - by rewrite !lookup_alter_eq, Hx.
  - by rewrite !lookup_alter_ne by done.
Qed.

Lemma close_gone_cases ev i why s l :
  let out := _close_request_target_gone ev i why (fresh s l) in
  (out.1 = Ok (RequestClosed why) /\ committed out.2 = at_row i (closing ev why) s)
  \/ (out.1 = Ok CommitError /\ committed out.2 = s).
Proof.
  unfold _close_request_target_gone, update_request, safe_commit, mbind, M_bind. cbn.
  destruct l as [|[] l]; cbn; [left|left|right]; done.
Qed.

(* how a vote can leave the database *)
Inductive vote_left (ev : env) (comment : option string) (s : store) (i : Z) : store -> Prop :=
| vl_same : vote_left ev comment s i s
| vl_expired r : requests s !! i = Some r -> ar_status r = Pending ->
    vote_left ev comment s i (at_row i (close Expired (now ev)) s)
| vl_closed r why : may_vote ev s i r -> vote_left ev comment s i (at_row i (closing ev why) s)
| vl_voted r s' : may_vote ev s i r ->
    (forall u, user_id ev = Some u -> u <> 0 -> ar_requester r <> Some u) ->
    ar_status (approving ev comment r) = Approved \/ s' = at_row i (approving ev comment) s ->
    evolves (at_row i (approving ev comment) s) s' -> vote_left ev comment s i s'.

(* an issue error is answered only when nothing was written *)
Definition error_clean (s : store) (res : result exn response) (s' : store) : Prop :=
  forall st iss err, res = Ok (VoteRecorded st iss (Some err)) -> s' = s /\ st = Pending /\ iss = None.

Definition settled (ev : env) (comment : option string) (s : store) (i : Z)
    (out : result exn response * session) : Prop :=
  vote_left ev comment s i (committed out.2) /\ error_clean s out.1 (committed out.2).

Lemma settled_unchanged ev comment s i (resp : response) w :
  committed w = s -> match resp with VoteRecorded _ _ _ => False | _ => True end ->
  settled ev comment s i (Ok resp, w).
Proof. intros <- Hresp. split; [apply vl_same|]. intros ???. cbn. by intros [= ->]. Qed.

Lemma failed_issue_cases ev comment s i r e w :
  may_vote ev s i r -> (forall u, user_id ev = Some u -> u <> 0 -> ar_requester r <> Some u) ->
  ar_status (approving ev comment r) = Approved ->
  left_at s (at_row i (approving ev comment) s) w ->
  settled ev comment s i (after_failed_issue ev i e w).
Proof.
  intros Hv Hown Ha Hl. unfold settled, after_failed_issue, mbind, M_bind, rollback, gets. cbn.
  destruct Hl as [Hs|He].
  - rewrite Hs, (mv_row _ _ _ _ Hv). rewrite bool_decide_true by apply Hv. cbn [negb].
    destruct (_ && _).
    + change {| committed := s; working := s; commits := commits w |} with (fresh s (commits w)).
      destruct (close_gone_cases ev i (issue_error_text e) s (commits w)) as [[-> ->]|[-> ->]].
      * split; [by eapply vl_closed|by intros ???].
      * split; [by apply vl_same|by intros ???].
    + unfold safe_commit. cbn. destruct (commits w) as [|[] l]; cbn;
        (split; [by apply vl_same|]); intros st iss err [= <- <- _]; rewrite (mv_pending _ _ _ _ Hv); done.
  - pose proof (ev_rows _ _ He i) as Hi. unfold at_row in Hi. cbn in Hi.
    rewrite lookup_alter_eq, (mv_row _ _ _ _ Hv) in Hi. cbn in Hi.
    destruct (requests (committed w) !! i) as [r'|] eqn:Er; [|done].
    destruct (steps_final _ _ _ Hi) as [Es _]; [by rewrite Ha|].
    rewrite bool_decide_false by (by rewrite Es, Ha). cbn.
    split; [eapply vl_voted; eauto|by intros ???].
Qed.

Lemma finish_cases ev comment s i r iss w :
  may_vote ev s i r -> (forall u, user_id ev = Some u -> u <> 0 -> ar_requester r <> Some u) ->
  ar_status (approving ev comment r) = Approved
    \/ working w = at_row i (approving ev comment) s /\ committed w = s ->
  mode s (at_row i (approving ev comment) s) w ->
  settled ev comment s i (finish_vote i iss w).
Proof.
  intros Hv Hown Ha [Hw Hc].
  unfold settled, finish_vote, mbind, M_bind, safe_commit, gets. destruct (commits w) as [|[] l]; cbn.
  1,2: split; [eapply vl_voted; [done..| |done]; tauto|by intros ???].
  split; [|by intros ???]. destruct Ha as [Ha|[_ ->]]; [|apply vl_same].
  destruct Hc as [->|[He _]]; [by apply vl_same|eapply vl_voted; eauto].
Qed.

Lemma approve_cases ev comment s i l : store_ok s ->
  settled ev comment s i (approve_request ev i comment (fresh s l)).
Proof.
  intros Hok. unfold approve_request, mbind at 1, M_bind at 1, gets at 1. cbn [fresh working id].
  change {| committed := s; working := s; commits := l |} with (fresh s l).
  assert (forall resp : response, match resp with VoteRecorded _ _ _ => False | _ => True end ->
    settled ev comment s i ((mret resp : M response) (fresh s l))) as Hr.
  { intros resp ?. by apply settled_unchanged. }
  destruct (requests s !! i) as [r|] eqn:Er; [|by apply Hr].
  unfold guard_open. case_bool_decide as Hp; [|by apply Hr].
  destruct (approval_is_expired (now ev) r) eqn:Ee.
  { unfold settled, expire_request, update_request, mbind, M_bind, safe_commit. cbn.
    destruct l as [|[] l]; cbn; (split; [|by intros ???]); [by eapply vl_expired..|by apply vl_same]. }
  destruct (_user_can_act_on_approval s (user ev) r) eqn:Eu; cbn [negb]; [|by apply Hr].
  match goal with |- context [if ?b then mret OwnRequest else _] => destruct b eqn:Eo end; [by apply Hr|].
  match goal with |- context [if ?b then mret AlreadyVoted else _] => destruct b eqn:Ev end; [by apply Hr|].
  assert (may_vote ev s i r) as Hv.
  { split; [done..|]. intros u Hu. by rewrite Hu in Ev. }
  assert (forall u, user_id ev = Some u -> u <> 0 -> ar_requester r <> Some u) as Hown.
  { intros u Hu Hz. rewrite Hu in Eo. apply andb_false_iff in Eo as [Eo|Eo].
    - apply negb_false_iff, Z.eqb_eq in Eo. done.
    - by apply bool_decide_eq_false in Eo. }
  destruct (_approval_target_gone s r) as [why|].
  { unfold settled. destruct (close_gone_cases ev i why s l) as [[-> ->]|[-> ->]].
    - split; [by eapply vl_closed|by intros ???].
    - split; [by apply vl_same|by intros ???]. }
  fold (approving ev comment r).
  assert (at_row i (fun _ => approving ev comment r) s = at_row i (approving ev comment) s) as Hat.
  { unfold at_row, with_requests. f_equal. by eapply alter_const. }
  unfold update_request at 1, mbind at 1, M_bind at 1. cbn [modify fresh committed working commits].
  fold (at_row i (fun _ => approving ev comment r) s). rewrite Hat.
  set (w1 := {| committed := s; working := _; commits := l |}).
  assert (mode s (at_row i (approving ev comment) s) w1) as Hm by (split; [reflexivity|by left]).
  destruct (bool_decide _ && _ && _) eqn:Eb; [|by apply (finish_cases _ _ _ _ r); auto].
  apply andb_true_iff in Eb as [[Ha%bool_decide_eq_true _]%andb_true_iff _].
  assert (may_perform i w1) as Hmp.
  { split.
    - exists (approving ev comment r). cbn. by rewrite lookup_alter_eq, Er.
    - cbn. intros Hi. pose proof (so_performed s Hok i r Hi Er). congruence. }
  pose proof (issue_performs ev i (approving ev comment r) w1 Hmp) as Hpost.
  unfold try_else. destruct (_issue_approved_certificate ev i (approving ev comment r) w1) as [[res|e] w2].
  - by apply (finish_cases _ _ _ _ r); auto.
  - by apply (failed_issue_cases _ _ _ _ r).
Qed.

Lemma evolves_at_row i f r s : requests s !! i = Some r -> row_step (users s) r (f r) -> evolves s (at_row i f s).
Proof.
  intros Hr Hs. apply evolves_alter. intros r'. rewrite Hr. intros [= <-]. by apply rtc_once.
Qed.

Lemma may_vote_user ev s i r : may_vote ev s i r -> exists u, user_id ev = Some u.
Proof. intros Hv. pose proof (mv_allowed _ _ _ _ Hv) as Hu. unfold user_id. destruct (user ev); [eauto|done]. Qed.

(* how a rejection can leave the database *)
Inductive reject_left (ev : env) (s : store) (i : Z) : store -> Prop :=
| rl_same : reject_left ev s i s
| rl_expired r : requests s !! i = Some r -> ar_status r = Pending ->
    reject_left ev s i (at_row i (close Expired (now ev)) s)
| rl_voted r why : may_vote ev s i r ->
    reject_left ev s i (at_row i (add_approval (now ev) (user_id ev) (username ev) VReject (Some why)) s).

Lemma reject_cases ev comment s i l : reject_left ev s i (committed (reject_request ev i comment (fresh s l)).2).
Proof.
  unfold reject_request. destruct (truthy_text comment) as [why|]; [|constructor].
  unfold mbind at 1, M_bind at 1, gets at 1. cbn [fresh working id].
  destruct (requests s !! i) as [r|] eqn:Er; [|constructor].
  unfold guard_open. case_bool_decide as Hp; [|destruct (ar_status r); by constructor].
  destruct (approval_is_expired (now ev) r) eqn:Ee.
  { unfold expire_request, update_request, mbind, M_bind, safe_commit. cbn.
    destruct l as [|[] l]; cbn; [by eapply rl_expired..|constructor]. }
  destruct (_user_can_act_on_approval s (user ev) r) eqn:Eu; cbn [negb]; [|constructor].
  match goal with |- context [if ?b then mret AlreadyVoted else _] => destruct b eqn:Ev end; [constructor|].
  assert (may_vote ev s i r) as Hv by (split; [done..|]; intros u Hu; by rewrite Hu in Ev).
  unfold update_request, finish_vote, mbind, M_bind, safe_commit, gets. cbn.
  destruct l as [|[] l]; cbn; [by eapply rl_voted..|constructor].
Qed.

Lemma calm_expire t : calm (expire_stale_requests t).
Proof.
  unfold expire_stale_requests. calm_walk. apply evolves_fmap. intros i r _.
  destruct (is_stale t r) eqn:Es; [|apply rtc_refl]. apply rtc_once. constructor; [|auto].
  unfold is_stale in Es. apply andb_true_iff in Es as [Es _]. by apply bool_decide_eq_true in Es.
Qed.

Lemma calm_run {A} (c : M A) s l : calm c -> evolves s (committed (c (fresh s l)).2).
Proof. intros Hc. apply (Hc (fresh s l)). unfold good. reflexivity. Qed.

Lemma get_evolves ev i s l : evolves s (committed (get_approval ev i (fresh s l)).2).
Proof.
  unfold get_approval, mbind, M_bind, gets. cbn. destruct (requests s !! i) as [r|] eqn:Er; [|reflexivity].
  case_bool_decide as Hp; cbn; [|reflexivity]. destruct (approval_is_expired (now ev) r) eqn:Ee; cbn; [|reflexivity].
  unfold safe_commit. destruct l as [|[] l]; cbn; [eapply evolves_at_row; [done|]; constructor; auto..|reflexivity].
Qed.

(** ** Calls *)

(* what the rest of the program may do between two calls *)
Inductive call :=
| CQueue (t : Z) (id : Z) (u : option actor) (q : gate_request) (partner : option (option CertificatePolicy))
| CApprove (ev : env) (i : Z) (comment : option string)
| CReject (ev : env) (i : Z) (comment : option string)
| CGet (ev : env) (i : Z)
| CList (ev : env) (status : option approval_status)
| CDeletePolicy (ev : env) (p : Z)
| CSavePolicy (i : Z) (p : CertificatePolicy)
| CTables (us : gmap Z string) (ms : list (Z * Z)) (cs : gmap Z cert_row) (as_ : gmap Z ca_row)
    (xs : gmap Z cross_row) (es : gmap Z bool)
| CMoot (t : Z) (m : moot)
| CSign (ev : env) (cert : Z) (intermediate : bool) (by_ : string)
| CRenew (ev : env) (cert : Z) (by_ : string) (by_id : option Z) (scheduled : bool)
| CRevoke (ev : env) (cert : Z) (reason by_ : string)
| CRevokeCa (ev : env) (ca : Z) (by_ : string)
| CRevokeCross (ev : env) (x : Z) (by_ : string).

Definition outside_tables us ms cs as_ xs es (s : store) : store :=
  {| requests := requests s; policies := policies s; users := us; members := ms; certificates := cs;
     cas := as_; crosses := xs; enrolments := es; performed := performed s |}.

Definition run_call (c : call) (outcomes : list bool) (s : store) : store :=
  let run {A} (m : M A) := committed (m (fresh s outcomes)).2 in
  match c with
  | CQueue t id u q partner => run (queue_if_approval_required t id u q partner)
  | CApprove ev i comment => run (approve_request ev i comment)
  | CReject ev i comment => run (reject_request ev i comment)
  | CGet ev i => run (get_approval ev i)
  | CList ev status => run (list_approvals ev status)
  | CDeletePolicy ev p => run (delete_policy ev p)
  | CSavePolicy i p => with_policies (insert i p) s
  | CTables us ms cs as_ xs es => outside_tables us ms cs as_ xs es s
  | CMoot t m => run (resolve_moot_requests t m)
  | CSign ev cert inter by_ => run (sign_csr ev cert inter by_)
  | CRenew ev cert by_ id_ sch => run (renew_certificate_in_place ev cert by_ id_ sch)
  | CRevoke ev cert reason by_ => run (revoke_certificate ev cert reason by_)
  | CRevokeCa ev ca by_ => run (revoke_ca ev ca by_)
  | CRevokeCross ev x by_ => run (_ ← revoke_cross ev x by_; safe_commit)
  end.

(* a request gets a key no request had, a saved policy asks for no negative number of approvals *)
Definition admissible (c : call) (s : store) : Prop :=
  match c with
  | CQueue _ id _ _ partner => requests s !! id = None /\ (id ∉ performed s)
      /\ forall p n, partner = Some (Some p) -> min_approvers p = Some n -> 0 <= n
  | CSavePolicy _ p => forall n, min_approvers p = Some n -> 0 <= n
  | _ => True
  end.

Inductive reachable : store -> Prop :=
| reach_start s : requests s = ∅ -> performed s = [] -> policies s = ∅ -> reachable s
| reach_call c outcomes s : reachable s -> admissible c s -> reachable (run_call c outcomes s).

(** ** Every call *)

(* a vote of a call: none, or one by a user who passed the guards *)
Inductive voted (c : call) (s : store) (i : Z) (r : ApprovalRequest) : ApprovalRequest -> Prop :=
| no_vote : voted c s i r r
| voted_approve ev comment : c = CApprove ev i comment -> may_vote ev s i r ->
    (forall u, user_id ev = Some u -> u <> 0 -> ar_requester r <> Some u) ->
    voted c s i r (approving ev comment r)
| voted_reject ev comment why : c = CReject ev i comment -> may_vote ev s i r ->
    voted c s i r (add_approval (now ev) (user_id ev) (username ev) VReject (Some why) r).

(* what a call makes of a request: a vote at most, then changes other than votes *)
Definition moved (c : call) (s : store) (i : Z) (r r' : ApprovalRequest) : Prop :=
  exists r1, voted c s i r r1 /\ rtc (row_step (users s)) r1 r'.
Definition moves (c : call) (s s' : store) : Prop := forall i r', requests s' !! i = Some r' ->
  (requests s !! i = None /\ ar_votes r' = []) \/ exists r, requests s !! i = Some r /\ moved c s i r r'.

Lemma evolves_moves c s s' : evolves s s' -> moves c s s'.
Proof.
  intros He i r' Hr'. pose proof (ev_rows _ _ He i) as H. rewrite Hr' in H.
  destruct (requests s !! i) as [r|]; [|done]. right. exists r. split; [done|]. exists r. by split; [apply no_vote|].
Qed.

Lemma voted_step c s i r r1 : voted c s i r r1 -> r1 = r \/ vote_step r r1.
Proof.
  intros [|ev comment _ Hv Ho|ev comment why _ Hv]; [by left|right..];
    destruct (may_vote_user _ _ _ _ Hv) as [u Hu]; unfold approving; rewrite Hu; apply step_vote;
    try solve [apply Hv|by apply (mv_first _ _ _ _ Hv)|by intros _; apply Ho|discriminate].
Qed.

Lemma vote_step_ok r r' : vote_step r r' -> row_ok r -> row_ok r'.
Proof. intros [] ?. by apply vote_row_ok. Qed.

Lemma moved_final c s i r r' : moved c s i r r' -> ar_status r <> Pending ->
  ar_status r' = ar_status r /\ ar_votes r' = ar_votes r /\ ar_resolved r' = ar_resolved r
  /\ forall cert, ar_certificate r = Some cert -> ar_certificate r' = Some cert.
Proof.
  intros (r1 & Hv & Hs) Hp. destruct (voted_step _ _ _ _ _ Hv) as [->|Hst]; [|by destruct Hst]. by apply (steps_final (users s)).
Qed.

(* casting a vote keeps the store well formed, and what follows it is a move of the call *)
Lemma at_row_ok i r f s : store_ok s -> requests s !! i = Some r -> ar_status r = Pending -> row_ok (f r) ->
  store_ok (at_row i f s).
Proof.
  intros Hok Hr Hp Hf. split; cbn; try apply Hok.
  - intros j r'. destruct (decide (i = j)) as [<-|Hne]; [|rewrite lookup_alter_ne by done; by apply Hok].
    rewrite lookup_alter_eq, Hr. by intros [= <-].
  - intros j r' Hj. destruct (decide (i = j)) as [<-|Hne]; [|rewrite lookup_alter_ne by done; by apply Hok].
    pose proof (so_performed s Hok i r Hj Hr). congruence.
Qed.

Lemma voted_moves c s i r f s' : requests s !! i = Some r -> voted c s i r (f r) ->
  evolves (at_row i f s) s' -> moves c s s'.
Proof.
  intros Hr Hv He j r' Hr'. pose proof (ev_rows _ _ He j) as H. rewrite Hr' in H. cbn in H. right.
  destruct (decide (i = j)) as [<-|Hne].
  - rewrite lookup_alter_eq, Hr in H. exists r. split; [done|]. by exists (f r).
  - rewrite lookup_alter_ne in H by done. destruct (requests s !! j) as [r0|]; [|done].
    exists r0. split; [done|]. exists r0. by split; [apply no_vote|].
Qed.

(* nothing was queued, or one request under a policy that was asked *)
Definition queue_left t id (u : option actor) (q : gate_request) (partner : option (option CertificatePolicy))
    (s s' : store) : Prop :=
  s' = s \/ exists p,
    s' = with_requests (insert id (create_approval_request t p (gr_data q) (ac_id <$> u) (gr_type q))) s
    /\ ((exists k, policies s !! k = Some p) \/ partner = Some (Some p)).

Lemma queue_cases t id u q partner s l :
  queue_left t id u q partner s (committed (queue_if_approval_required t id u q partner (fresh s l)).2).
Proof.
  unfold queue_if_approval_required. destruct (match u with Some _ => _ | None => _ end); [by left|].
  unfold mbind at 1, M_bind at 1, gets. cbn [fresh working].
  set (table := snd <$> map_to_list (policies s)).
  set (asked := match partner with Some other => pair_policy _ other | None => _ end).
  assert (forall p, asked = Ok (Some p) -> (exists k, policies s !! k = Some p) \/ partner = Some (Some p)) as Hp.
  { assert (forall p, check_approval_required table (gr_operations q) (gr_cas q) (gr_template q) (gr_cn q)
      (gr_sans q) = Some p -> exists k, policies s !! k = Some p) as Hc.
    { intros p Hin%check_approval_elem. apply list_elem_of_fmap in Hin as ([k p'] & -> & Hk).
      apply elem_of_map_to_list in Hk. eauto. }
    intros p. unfold asked. destruct partner as [[o|]|]; unfold pair_policy; [|naive_solver..].
    destruct (check_approval_required _ _ _ _ _ _) as [p0|]; [|naive_solver].
    destruct (policy_id p0 =? policy_id o); naive_solver. }
  destruct asked as [[p|]|]; [|by left..]. unfold mbind, M_bind, safe_commit. cbn.
  destruct l as [|[] l]; cbn; [right; eexists; split; [reflexivity|auto]..|by left].
Qed.

Definition removal (p : Z) (s : store) : store :=
  with_policies (delete p) (with_requests (filter (fun ir => of_policy p ir.2 = false)) s).

Lemma removal_sub p s i r : requests (removal p s) !! i = Some r -> requests s !! i = Some r.
Proof. cbn. rewrite map_lookup_filter_Some. tauto. Qed.

Lemma removal_ok p s : store_ok s -> store_ok (removal p s).
Proof.
  intros Hok. split.
  - intros i r Hr%removal_sub. by eapply so_rows.
  - intros i q n. cbn. rewrite lookup_delete_Some. intros [_ ?]. by eapply so_policies.
  - apply Hok.
  - intros i r Hi Hr%removal_sub. by eapply (so_performed s).
Qed.

Lemma delete_cases ev p s l : exists s1,
  evolves s s1 /\ (committed (delete_policy ev p (fresh s l)).2 = s1
                   \/ committed (delete_policy ev p (fresh s l)).2 = removal p s1).
Proof.
  unfold delete_policy. unfold mbind, M_bind, gets. cbn.
  destruct (policies s !! p); [|exists s; split; [reflexivity|by left]].
  destruct (calm_expire (now ev) (fresh s l)) as [Hg He]; [unfold good; reflexivity|].
  destruct (expire_stale_requests (now ev) (fresh s l)) as [[n|e] w]; cbn in *; [|eauto].
  destruct (length _); [|cbn; eauto]. unfold safe_commit. cbn.
  destruct (commits w) as [|[] l']; cbn; [|..|eauto].
  1,2: exists (working w); split; [etrans; [exact He|exact Hg]|by right].
Qed.

Lemma vote_left_policies ev comment s i s' : vote_left ev comment s i s' -> policies s' = policies s.
Proof. intros [| | |r s'' _ _ _ He]; [done..|]. apply He. Qed.
Lemma reject_left_policies ev s i s' : reject_left ev s i s' -> policies s' = policies s.
Proof. by intros []. Qed.

Definition preserved (c : call) (s s' : store) : Prop := moves c s s' /\ store_ok s'.

Lemma evolves_preserved c s s' : store_ok s -> evolves s s' -> preserved c s s'.
Proof. intros Hok He. split; [by apply evolves_moves|by eapply evolves_ok]. Qed.

Lemma voted_preserved c s i r f s' : store_ok s -> requests s !! i = Some r -> ar_status r = Pending ->
  voted c s i r (f r) -> evolves (at_row i f s) s' -> preserved c s s'.
Proof.
  intros Hok Hr Hp Hv He. split; [by eapply voted_moves|]. eapply evolves_ok; [done|]. apply (at_row_ok i r); try done.
  pose proof (so_rows s Hok i r Hr). destruct (voted_step _ _ _ _ _ Hv) as [->|?]; [done|by eapply vote_step_ok].
Qed.

Lemma approve_preserved ev i comment s s' : store_ok s -> vote_left ev comment s i s' ->
  preserved (CApprove ev i comment) s s'.
Proof.
  intros Hok [|r Hr Hp|r why Hv|r s'' Hv Ho _ He]; [by apply evolves_preserved|..].
  - apply evolves_preserved; [done|]. eapply evolves_at_row; [done|]. constructor; auto.
  - apply evolves_preserved; [done|]. eapply evolves_at_row; [apply Hv|]. apply step_rejected; apply Hv.
  - eapply voted_preserved; [done|apply Hv|apply Hv|by apply voted_approve|done].
Qed.

Lemma reject_preserved ev i comment s s' : store_ok s -> reject_left ev s i s' ->
  preserved (CReject ev i comment) s s'.
Proof.
  intros Hok [|r Hr Hp|r why Hv]; [by apply evolves_preserved|..].
  - apply evolves_preserved; [done|]. eapply evolves_at_row; [done|]. constructor; auto.
  - eapply voted_preserved; [done|apply Hv|apply Hv|by eapply voted_reject|done].
Qed.

Lemma queue_preserved t id u q partner s s' :
  store_ok s -> admissible (CQueue t id u q partner) s -> queue_left t id u q partner s s' ->
  preserved (CQueue t id u q partner) s s'.
Proof.
  intros Hok (Hid & Hnp & Hpart) [->|(p & -> & Hp)]; [by apply evolves_preserved|].
  split.
  - intros i r'. cbn. rewrite lookup_insert_Some. intros [[<- <-]|[_ Hr]]; [by left|right].
    exists r'. split; [done|]. exists r'. by split; [apply no_vote|].
  - split; cbn; try apply Hok.
    + intros i r. rewrite lookup_insert_Some. intros [[_ <-]|[_ ?]]; [|by eapply so_rows].
      apply created_row_ok. intros n Hn. destruct Hp as [[k Hk]| ->]; [by eapply (so_policies s)|by eapply Hpart].
    + intros i r Hi. rewrite lookup_insert_Some. intros [[<- _]|[_ ?]]; [done|by eapply (so_performed s)].
Qed.

Lemma delete_preserved ev p s l : store_ok s -> preserved (CDeletePolicy ev p) s (committed (delete_policy ev p (fresh s l)).2).
Proof.
  intros Hok. destruct (delete_cases ev p s l) as (s1 & He & [->| ->]); [by apply evolves_preserved|].
  split; [|by eapply removal_ok, evolves_ok]. intros i r' Hr'%removal_sub. by eapply evolves_moves.
Qed.

Lemma same_rows_moves c s s' : requests s' = requests s -> moves c s s'.
Proof.
  intros E i r' Hr'. right. exists r'. split; [by rewrite <- E|]. exists r'. by split; [apply no_vote|].
Qed.

Lemma save_preserved i p s : store_ok s -> (forall n, min_approvers p = Some n -> 0 <= n) ->
  preserved (CSavePolicy i p) s (with_policies (insert i p) s).
Proof.
  intros Hok Hp. split.
  - by apply same_rows_moves.
  - split; cbn; try apply Hok. intros j q n. rewrite lookup_insert_Some.
    intros [[_ <-]|[_ ?]]; [by apply Hp|by eapply so_policies].
Qed.

#[export] Hint Resolve calm_sign_csr calm_renew calm_revoke calm_revoke_ca calm_revoke_cross calm_expire : calm.

Lemma call_preserved c outcomes s : store_ok s -> admissible c s -> preserved c s (run_call c outcomes s).
Proof.
  intros Hok Ha. destruct c; cbn [run_call];
    try (apply evolves_preserved; [done|]; apply calm_run; solve [calm_walk]).
  - eapply queue_preserved; [done|exact Ha|apply queue_cases].
  - apply approve_preserved; [done|]. by apply approve_cases.
  - apply reject_preserved; [done|]. apply reject_cases.
  - apply evolves_preserved; [done|]. apply get_evolves.
  - by apply delete_preserved.
  - by apply save_preserved.
  - split; [by apply same_rows_moves|]. by destruct Hok.
Qed.

Lemma reachable_store_ok s : reachable s -> store_ok s.
Proof.
  induction 1 as [s Hr Hp Hq|c l s _ IH Ha]; [|by apply call_preserved].
  split; rewrite ?Hr, ?Hp, ?Hq; try done. constructor.
Qed.

(** ** Where votes come from

    [reached h s]: [h] holds the calls that led to [s], each with the store it met. *)

Inductive reached : list (store * call) -> store -> Prop :=
| reached_start s : requests s = ∅ -> performed s = [] -> policies s = ∅ -> reached [] s
| reached_call h c outcomes s : reached h s -> admissible c s -> reached ((s, c) :: h) (run_call c outcomes s).

Lemma reached_reachable h s : reached h s -> reachable s.
Proof. induction 1; by constructor. Qed.

(* an administrator, or a member of the group that the policy of the request names *)
Definition allowed_to_act (s : store) (u : actor) (r : ApprovalRequest) : Prop :=
  ac_admin u = true
  \/ forall k p g, ar_policy r = Some k -> policies s !! k = Some p -> approval_group_id p = Some g -> g <> 0 ->
       (g, ac_id u) ∈ members s.

(* the call [c], run in [s0], cast the vote [v] on the request [r0] that it found there *)
Record cast_by_vote (s0 : store) (c : call) (i : Z) (r0 : ApprovalRequest) (v : vote) : Prop := {
  cv_call : exists ev comment u, c = CApprove ev i comment /\ user ev = Some u /\ v_user v = Some (ac_id u)
    /\ allowed_to_act s0 u r0 /\ forall d, request_deadline r0 = Some d -> now ev <= d;
  cv_first : forall w, w ∈ ar_votes r0 -> v_user w <> v_user v;
}.

Definition cast_in (h : list (store * call)) (i : Z) (r : ApprovalRequest) (v : vote) : Prop :=
  exists s0 c r0, (s0, c) ∈ h /\ requests s0 !! i = Some r0 /\ ar_status r0 = Pending
    /\ ar_requester r0 = ar_requester r /\ not_requester (users s0) r0 v
    /\ (cast_by_vote s0 c i r0 v \/ ar_status r <> Pending).

Definition attributed (h : list (store * call)) (s : store) : Prop := forall i r v,
  requests s !! i = Some r -> v ∈ ar_votes r -> v_action v = VApprove -> cast_in h i r v.

Lemma can_act_allowed s u r : _user_can_act_on_approval s (Some u) r = true -> allowed_to_act s u r.
Proof.
  unfold _user_can_act_on_approval, allowed_to_act. intros [?|H]%orb_true_iff; [by left|right].
  intros k p g Hk Hp Hg Hz. rewrite Hk in H. cbn in H. rewrite Hp, Hg in H.
  apply orb_true_iff in H as [?%Z.eqb_eq|?%bool_decide_eq_true]; done.
Qed.

Lemma not_expired_deadline t r d : approval_is_expired t r = false -> request_deadline r = Some d -> t <= d.
Proof. unfold approval_is_expired. intros H E. rewrite E in H. by apply Z.ltb_ge in H. Qed.

Lemma step_requester us r r' : row_step us r r' -> ar_requester r' = ar_requester r.
Proof.
  intros [|? ? ? ? c ?| |]; cbn; autorewrite with approvals; try done.
  destruct (linked_fields c (close Approved t (add_approval t u n VApprove why r0))) as (_ & _ & -> & _).
  cbn. by autorewrite with approvals.
Qed.

(* a change other than a vote of the routes adds a vote only when it resolves the request *)
Lemma step_votes us r r' v : row_step us r r' -> v ∈ ar_votes r' -> v_action v = VApprove ->
  v ∈ ar_votes r \/ ar_status r = Pending /\ not_requester us r v.
Proof.
  intros [|t u n why c r0 Hp _ Hn|t u n why r0 Hp _|]; try by left.
  - destruct (linked_fields c (close Approved t (add_approval t u n VApprove why r0))) as (_ & -> & _).
    cbn. rewrite add_approval_votes. intros [?| ->]%elem_snoc _; [by left|by right].
  - cbn. rewrite add_approval_votes. by intros [?| ->]%elem_snoc; [left|].
Qed.

Lemma step_resolved us r r' : row_step us r r' -> ar_status r' <> Pending.
Proof.
  intros [st t r0 _ [->| ->]|t u n why c r0 _ _ _| |c r0 Ha _]; cbn; try done; [|congruence].
  by destruct (linked_fields c (close Approved t (add_approval t u n VApprove why r0))) as (-> & _).
Qed.

Lemma steps_votes us r r' v : rtc (row_step us) r r' -> v ∈ ar_votes r' -> v_action v = VApprove ->
  ar_requester r' = ar_requester r /\ (r' = r \/ ar_status r' <> Pending)
  /\ (v ∈ ar_votes r \/ ar_status r = Pending /\ ar_status r' <> Pending /\ not_requester us r v).
Proof.
  intros H. induction H as [r|r1 r2 r3 H1 H2 IH]; [auto|]. intros Hv Ha.
  destruct (IH Hv Ha) as (E & Hs & Hc). pose proof (step_requester _ _ _ H1). pose proof (step_resolved _ _ _ H1) as Hr2.
  assert (ar_status r3 <> Pending) by (destruct Hs as [->|]; done).
  split; [congruence|]. split; [by right|]. destruct Hc as [Hc|[? _]]; [|done].
  destruct (step_votes _ _ _ _ H1 Hc Ha) as [?|[? ?]]; auto.
Qed.

Lemma voted_requester c s i r r1 : voted c s i r r1 -> ar_requester r1 = ar_requester r.
Proof. intros []; unfold approving; by autorewrite with approvals. Qed.

Lemma voted_votes c s i r r1 v : requests s !! i = Some r -> voted c s i r r1 -> v ∈ ar_votes r1 -> v_action v = VApprove ->
  v ∈ ar_votes r \/ ar_status r = Pending /\ not_requester (users s) r v /\ cast_by_vote s c i r v.
Proof.
  intros Hr [|ev comment Ec Hv Ho|ev comment why _ Hv]; [by left| |].
  - unfold approving. rewrite add_approval_votes. intros [?| ->]%elem_snoc _; [by left|right].
    split; [apply Hv|]. destruct (may_vote_user _ _ _ _ Hv) as [u Hu]. rewrite Hu.
    split; [cbn; by apply Ho|]. pose proof (mv_allowed _ _ _ _ Hv) as Hact. unfold user_id in Hu.
    destruct (user ev) as [a|] eqn:Ea; [|done]. cbn in Hu. injection Hu as <-. split.
    + exists ev, comment, a. split_and!; try done; [by apply can_act_allowed|].
      intros d. apply not_expired_deadline, Hv.
    + intros w Hw E. assert (has_voted r (ac_id a) = false) as Hn by (apply (mv_first _ _ _ _ Hv); unfold user_id; by rewrite Ea).
      apply not_true_iff_false in Hn. apply Hn, has_voted_spec, list_elem_of_omap. eauto.
  - rewrite add_approval_votes. by intros [?| ->]%elem_snoc; [left|].
Qed.

Lemma cast_in_past h x i r r' v : cast_in h i r v -> ar_requester r' = ar_requester r ->
  (ar_status r' = Pending -> ar_status r = Pending) -> cast_in (x :: h) i r' v.
Proof.
  intros (s0 & c & r0 & Hin & Hr & Hp & Hq & Hn & Hc) E Hst. exists s0, c, r0. split_and!; try done; [by right|congruence|].
  destruct Hc as [|Hc]; [by left|right; auto].
Qed.

Lemma moves_attributed h c s s' : attributed h s -> moves c s s' -> attributed ((s, c) :: h) s'.
Proof.
  intros Hat Hm i r' v Hr' Hv Ha. destruct (Hm i r' Hr') as [[_ E]|(r & Hr & r1 & Hvo & Hs)].
  { rewrite E in Hv. by apply elem_of_nil in Hv. }
  destruct (steps_votes _ _ _ _ Hs Hv Ha) as (E & Hst & Hc). pose proof (voted_requester _ _ _ _ _ Hvo) as E1.
  assert (ar_status r' = Pending -> ar_status r = Pending) as Hpend.
  { intros Hp. destruct Hst as [->|?]; [|done]. destruct (voted_step _ _ _ _ _ Hvo) as [<-|Hvs]; [done|by destruct Hvs]. }
  assert (v ∈ ar_votes r1 -> cast_in ((s, c) :: h) i r' v) as Hold.
  { intros Hv1. destruct (voted_votes _ _ _ _ _ _ Hr Hvo Hv1 Ha) as [Hv0|(Hp & Hn & Hc')].
    - eapply cast_in_past; [by eapply Hat|congruence|done].
    - exists s, c, r. split_and!; try done; [by left|congruence|by left]. }
  destruct Hc as [|(Hp & Hp' & Hn)]; [auto|].
  exists s, c, r. split_and!; [by left|done| |congruence| |by right].
  - destruct (voted_step _ _ _ _ _ Hvo) as [<-|Hvs]; [done|by destruct Hvs].
  - unfold not_requester in *. by rewrite <- E1.
Qed.

Lemma reached_attributed h s : reached h s -> attributed h s.
Proof.
  induction 1 as [s Hr _ _|h c l s Hs IH Ha]; [intros i r v; by rewrite Hr|].
  apply moves_attributed; [done|]. by apply call_preserved; [eapply reachable_store_ok, reached_reachable|].
Qed.

(** * Properties *)


(** A decision is final: no later call, whatever fails in it, changes the status,
    the votes or the time of a request that was resolved, nor the certificate it is
    linked to, as long as the request is kept. *)
Theorem decision_final s c outcomes i r r' (Hs : reachable s) (Ha : admissible c s)
    (Hr : requests s !! i = Some r) (Hd : ar_status r <> Pending)
    (Hr' : requests (run_call c outcomes s) !! i = Some r') :
  ar_status r' = ar_status r /\ ar_votes r' = ar_votes r /\ ar_resolved r' = ar_resolved r
  /\ forall cert, ar_certificate r = Some cert -> ar_certificate r' = Some cert.
Proof.
  destruct (call_preserved c outcomes s (reachable_store_ok s Hs) Ha) as [Hp _].
  destruct (Hp i r' Hr') as [[? _]|(r0 & Hr0 & Hm)]; [congruence|]. assert (r0 = r) as -> by congruence. by eapply moved_final.
Qed.

Lemma all_approve_count l : (forall v, v ∈ l -> v_action v = VApprove) -> count_votes VApprove l = Z.of_nat (length l).
Proof.
  unfold count_votes. induction l as [|v l IH]; intros H; [done|]. cbn [List.filter].
  rewrite bool_decide_true by (apply H; left). cbn [length]. rewrite !Nat2Z.inj_succ, IH; [done|].
  intros w Hw. apply H. by right.
Qed.

Lemma all_voters_length l : (forall v, v ∈ l -> is_Some (v_user v)) -> length (omap v_user l) = length l.
Proof.
  induction l as [|v l IH]; intros H; [done|]. destruct (H v) as [u Hu]; [left|]. cbn. rewrite Hu. cbn.
  f_equal. apply IH. intros w Hw. apply H. by right.
Qed.

(* the voters of a request that a vote approves *)
Lemma quorum_votes t u n why r (r' := add_approval t (Some u) n VApprove why r) :
  row_ok r -> ar_status r = Pending -> has_voted r u = false -> ar_status r' = Approved ->
  NoDup (voters r') /\ ar_required r <= Z.of_nat (length (voters r'))
  /\ forall x, x ∈ voters r' -> exists v, v ∈ ar_votes r' /\ v_action v = VApprove /\ v_user v = Some x.
Proof.
  intros Hrow Hp Hn Ha. destruct (ok_voters r Hrow Hp) as [Hnd Hsome].
  unfold voters, r' in *. pose proof (add_approval_status t (Some u) n VApprove why r) as Hst. cbv zeta in Hst.
  rewrite add_approval_votes in *.
  set (votes := (ar_votes r ++ [_])%list) in *.
  assert (forall v, v ∈ votes -> is_Some (v_user v) /\ v_action v = VApprove) as Hall.
  { intros v [Hin| ->]%elem_snoc; [split; [auto|by eapply ok_no_reject]|]. cbn. eauto. }
  split; [|split].
  - unfold votes. rewrite omap_app. cbn. apply NoDup_app. split; [done|]. split; [|apply NoDup_singleton].
    intros x Hx ->%list_elem_of_singleton. apply not_true_iff_false in Hn. by apply Hn, has_voted_spec.
  - destruct Hst as [[_ Hc]|[[Hc _]|[Hc _]]]; [|congruence..].
    rewrite all_approve_count in Hc by (intros; by apply Hall).
    by rewrite all_voters_length by (intros; by apply Hall).
  - intros x (v & Hv' & Hx)%list_elem_of_omap. exists v. split; [done|]. split; [by apply Hall|done].
Qed.

(* the call that approved it cast the vote, and nothing changed the row after it *)
Lemma approving_vote ev comment s i r r' s' :
  vote_left ev comment s i s' -> requests s !! i = Some r -> ar_status r = Pending ->
  requests s' !! i = Some r' -> ar_status r' = Approved ->
  may_vote ev s i r /\ (forall u, user_id ev = Some u -> u <> 0 -> ar_requester r <> Some u)
  /\ ar_votes r' = ar_votes (approving ev comment r) /\ ar_status (approving ev comment r) = Approved.
Proof.
  intros Hl Hr Hp Hr' Ha. unfold at_row in *.
  destruct Hl as [|r0 Hr0 Hp0|r0 why Hv|r0 s' Hv Hown Happ He];
    [congruence|cbn in Hr'; rewrite lookup_alter_eq, Hr in Hr'; cbn in Hr'; simplify_eq; discriminate Ha..|].
  assert (r0 = r) as -> by (pose proof (mv_row _ _ _ _ Hv); congruence). split; [done|]. split; [done|].
  pose proof (ev_rows _ _ He i) as Hi. cbn in Hi. rewrite lookup_alter_eq, Hr, Hr' in Hi. cbn in Hi.
  destruct Happ as [Happ| ->].
  - destruct (steps_final _ _ _ Hi) as (? & ? & _); [by rewrite Happ|done].
  - cbn in Hr'. rewrite lookup_alter_eq, Hr in Hr'. injection Hr' as <-. done.
Qed.

(** C3. A vote approves a request only with the quorum: the voters who approve it are at
    least as many different users as it requires, and each of them cast the vote in a call
    of the approval route (this one or an earlier one) that found the request pending and
    not past its deadline, as a user allowed to act on it then (an administrator, or a
    member of the group of its policy), who had not voted and is not the requester (the
    user id 0, which no account has, apart). *)
Theorem approved_by_quorum h s ev i comment outcomes r r' (Hs : reached h s)
    (Hr : requests s !! i = Some r) (Hp : ar_status r = Pending)
    (Hr' : requests (run_call (CApprove ev i comment) outcomes s) !! i = Some r')
    (Ha : ar_status r' = Approved) :
  exists approvers, NoDup approvers /\ ar_required r <= Z.of_nat (length approvers)
    /\ forall x, x ∈ approvers ->
         (x <> 0 -> ar_requester r <> Some x)
         /\ exists s0 ev0 comment0 r0 u, (s0, CApprove ev0 i comment0) ∈ (s, CApprove ev i comment) :: h
              /\ requests s0 !! i = Some r0 /\ ar_status r0 = Pending
              /\ (forall d, request_deadline r0 = Some d -> now ev0 <= d)
              /\ user ev0 = Some u /\ ac_id u = x /\ allowed_to_act s0 u r0
              /\ (forall v, v ∈ ar_votes r0 -> v_user v <> Some x)
              /\ exists v, v ∈ ar_votes r' /\ v_action v = VApprove /\ v_user v = Some x.
Proof.
  pose proof (reachable_store_ok s (reached_reachable h s Hs)) as Hok.
  destruct (approve_cases ev comment s i outcomes Hok) as [Hl _].
  destruct (approving_vote _ _ _ _ _ _ _ Hl Hr Hp Hr' Ha) as (Hv & Hown & Hvotes & Hst).
  destruct (may_vote_user _ _ _ _ Hv) as [u Hu]. unfold approving in Hvotes, Hst. rewrite Hu in Hvotes, Hst.
  destruct (quorum_votes _ _ _ _ _ (so_rows s Hok i r Hr) Hp (mv_first _ _ _ _ Hv _ Hu) Hst) as (Hnd & Hq & Hall).
  exists (voters (add_approval (now ev) (Some u) (username ev) VApprove comment r)). split_and!; [done..|].
  intros x Hx. destruct (Hall x Hx) as (v & Hin & Hact & Ex). rewrite <- Hvotes in Hin.
  assert (cast_in ((s, CApprove ev i comment) :: h) i r v) as (s0 & c & r0 & Hc & Hr0 & Hp0 & Eq & Hn & Hcast).
  { rewrite Hvotes, <- Hu in Hin. destruct (voted_votes (CApprove ev i comment) s i r (approving ev comment r) v) as [Hold|(_ & Hn & Hc)];
      [done|by apply voted_approve|done|done| |].
    - eapply cast_in_past; [by eapply reached_attributed|done|done].
    - exists s, (CApprove ev i comment), r. split_and!; try done; [by left|by left]. }
  unfold not_requester in Hn. rewrite Ex, Eq in Hn. split; [done|]. destruct Hcast as [[(ev0 & c0 & a & -> & Ea & Ev & Hact0 & Hd) Hf]|]; [|done].
  assert (ac_id a = x) as <- by congruence. exists s0, ev0, c0, r0, a. split_and!; try done; [|by exists v].
  intros w Hw. rewrite <- Ev. by apply Hf.
Qed.

(** When the operation of an approved request fails and the answer is an issue
    error, the vote is not kept: the request is still pending and the database is
    exactly as before the call. *)
Theorem failed_issuance_keeps_pending s ev i comment outcomes st issued err (Hs : reachable s)
    (Hout : (approve_request ev i comment (fresh s outcomes)).1 = Ok (VoteRecorded st issued (Some err))) :
  run_call (CApprove ev i comment) outcomes s = s /\ st = Pending /\ issued = None.
Proof.
  destruct (approve_cases ev comment s i outcomes (reachable_store_ok s Hs)) as [_ He]. by eapply He.
Qed.

(** ** Deadlines *)

Lemma stale_is_expired t r : is_stale t r = bool_decide (ar_status r = Pending) && approval_is_expired t r.
Proof.
  unfold is_stale, approval_is_expired, request_deadline.
  destruct (ar_expires r); [done|]. destruct (ar_created r); [|done]. cbn. f_equal.
  destruct (_ <? _) eqn:E1, (_ <? t) eqn:E2; lia.
Qed.

(** The list of pending requests holds no request past its deadline: the filter
    that closes the stale ones agrees with the test the votes make, and when its
    commit goes through the pending requests listed can still be voted on. *)
Theorem pending_list_is_current s ev i r listed w
    (Hlist : list_approvals ev (Some Pending) (fresh s []) = (Ok listed, w)) (Hin : (i, r) ∈ listed) :
  ar_status r = Pending /\ approval_is_expired (now ev) r = false
  /\ requests (committed w) !! i = Some r.
Proof.
  revert Hlist. unfold list_approvals, expire_stale_requests, mbind, M_bind, gets, modify, safe_commit. cbn.
  set (stale := List.filter _ _).
  assert (forall m : gmap Z ApprovalRequest, (i, r) ∈ List.filter (fun ir => bool_decide (ar_status ir.2 = Pending)) (map_to_list m) ->
    m !! i = Some r /\ ar_status r = Pending) as Hf.
  { intros m. rewrite list_elem_of_In, filter_In, <- list_elem_of_In, elem_of_map_to_list. cbn.
    by rewrite bool_decide_eq_true. }
  destruct stale as [|x l] eqn:Es; cbn; intros [= <- <-]; apply Hf in Hin as [Hr Hp]; cbn in *.
  - split; [done|]. split; [|done]. destruct (approval_is_expired (now ev) r) eqn:Ee; [|done]. exfalso.
    apply (not_elem_of_nil (i, r)). rewrite <- Es. unfold stale. rewrite list_elem_of_In, filter_In, <- list_elem_of_In,
      elem_of_map_to_list. cbn. rewrite stale_is_expired, Ee, bool_decide_true; done.
  - split; [done|]. split; [|done]. rewrite lookup_fmap in Hr. destruct (requests s !! i) as [r0|]; [|done].
    cbn in Hr. injection Hr as <-. destruct (is_stale (now ev) r0) eqn:E0; [done|].
    rewrite stale_is_expired, bool_decide_true in E0; done.
Qed.

(** ** A request that goes through *)

(** C36. An approval that completes the quorum of a request for a new certificate, by a
    user who may vote, issues it: when the signing does not refuse and the commits go
    through, the answer says so, the request is approved and linked to the new
    certificate, and the certificate is stored. *)
Theorem approval_issues s ev i comment r rd (Hs : reachable s)
    (Hr : requests s !! i = Some r) (Hp : ar_status r = Pending)
    (Hd : ar_data r = Data rd) (Ht : ar_type r = RCertificate)
    (Ho : approval_is_expired (now ev) r = false)
    (Hu : _user_can_act_on_approval s (user ev) r = true)
    (Hown : forall u, user_id ev = Some u -> ar_requester r <> Some u /\ has_voted r u = false)
    (Hq : ar_required r <= count_votes VApprove (ar_votes r) + 1) (Href : refuses ev = None) :
  exists w r', approve_request ev i comment (fresh s []) = (Ok (VoteRecorded Approved (Some (Issued (new_id ev))) None), w)
    /\ requests (committed w) !! i = Some r' /\ ar_status r' = Approved
    /\ ar_certificate r' = Some (new_id ev) /\ is_Some (certificates (committed w) !! new_id ev)
    /\ i ∈ performed (committed w).
Proof.
  pose proof (ok_unlinked r (so_rows s (reachable_store_ok s Hs) i r Hr) Hp) as Hc.
  unfold approve_request, mbind at 1, M_bind at 1, gets at 1. cbn [fresh working id].
  rewrite Hr. unfold guard_open. rewrite bool_decide_true, Ho, Hu by done. cbn [negb].
  destruct (user ev) as [u|] eqn:Eu; [|done]. destruct (Hown (ac_id u)) as [Hown' Hvoted].
  { unfold user_id. by rewrite Eu. }
  assert (user_id ev = Some (ac_id u)) as -> by (unfold user_id; by rewrite Eu).
  rewrite (bool_decide_false _ Hown'), andb_false_r, Hvoted.
  unfold _approval_target_gone. rewrite Ht.
  set (r' := add_approval (now ev) (Some (ac_id u)) (username ev) VApprove comment r).
  assert (ar_status r' = Approved /\ ar_data r' = Data rd /\ ar_type r' = RCertificate /\ ar_certificate r' = None) as (E1 & E2 & E3 & E4).
  { unfold r', add_approval. rewrite count_votes_app.
    match goal with |- context [count_votes VApprove [?v]] => change (count_votes VApprove [v]) with 1 end.
    destruct (_ <=? _ + 1) eqn:E; [done|]. apply Z.leb_gt in E. lia. }
  rewrite bool_decide_true, E2, bool_decide_true by done. cbn [andb].
  unfold try_else, _issue_approved_certificate, get_request_data. rewrite E2, E3.
  unfold _issue_new_certificate, on_certificates, _link_approval, finish_vote, update_request, raise_if.
  rewrite Href. unfold mbind, M_bind, modify, gets, safe_commit, mret, M_ret. cbn.
  rewrite lookup_alter_eq, Hr. cbn. destruct r' as [ty cert data pol req st votes rq cr ex rs]. cbn in *. subst cert st.
  cbn. rewrite lookup_alter_eq. cbn. rewrite lookup_alter_eq, Hr. cbn. eexists _, _. split; [reflexivity|]. cbn.
  rewrite lookup_alter_eq, lookup_alter_eq, Hr. cbn. split; [reflexivity|]. cbn. split; [done|]. split; [done|].
  rewrite lookup_insert_eq. split; [done|]. apply elem_of_app. right. left.
Qed.

(** * A run: two approvals by members of the group *)

Module Sample.
Definition with_approvers (n : option Z) : CertificatePolicy :=
  {| policy_id := 1; name := "two approvers"; kind := StoredPolicy; policy_type := Some "issuance";
     operations := OpsList ["issuance"]; policy_ca := None; template_id := None; policy_rules := no_rules;
     advisories := None; requires_approval := true; approval_group_id := Some 7; min_approvers := n;
     is_active := true; priority := 10;
     description := None; notify_on_violation := true; notification_emails := None |}.
Definition policy : CertificatePolicy := with_approvers (Some 2).

Definition start : store :=
  {| requests := ∅; policies := ∅; users := {[ 1 := "alice"; 2 := "bob"; 3 := "carol" ]};
     members := [(7, 2); (7, 3)]; certificates := ∅; cas := ∅; crosses := ∅; enrolments := ∅; performed := [] |}.

Definition data : request_data :=
  {| rd_csr := None; rd_certificate := None; rd_target_ca := None; rd_cross := None; rd_ca := Some (VInt 4);
     rd_serial := None; rd_intermediate := false; rd_reason := None; rd_invalidity := None;
     rd_auth_certificate := None; rd_scheduled := false; rd_requested_by := None |}.

Definition asked : gate_request :=
  {| gr_cas := [Some 4]; gr_template := None; gr_cn := Some "www.example.com"; gr_sans := [];
     gr_type := RCertificate; gr_data := data; gr_operations := ["issuance"] |}.

Definition alice := {| ac_id := 1; ac_name := "alice"; ac_admin := false |}.
Definition bob := {| ac_id := 2; ac_name := "bob"; ac_admin := false |}.
Definition carol := {| ac_id := 3; ac_name := "carol"; ac_admin := false |}.

Definition meets (u : actor) (refusal : option exn) : env :=
  {| now := 2000; user := Some u; refuses := refusal; fails_after := None; new_id := 500;
     new_serial := Some "0a"; partners := []; published := false |}.

Definition s1 := run_call (CSavePolicy 1 policy) [] start.
Definition s2 := run_call (CQueue 1000 1 (Some alice) asked None) [] s1.
Definition s3 := run_call (CApprove (meets bob None) 1 None) [] s2.
Definition s4 := run_call (CApprove (meets carol None) 1 None) [] s3.

(* a commit that fails drops the vote; the requester cannot vote; the second vote issues *)
Example run_decisions :
  ar_status <$> requests s3 !! 1 = Some Pending
  /\ run_call (CApprove (meets carol None) 1 None) [false] s3 = s3
  /\ (approve_request (meets alice None) 1 None (fresh s3 [])).1 = Ok NotAllowed
  /\ (approve_request (meets bob None) 1 None (fresh s3 [])).1 = Ok AlreadyVoted
  /\ (ar_status <$> requests s4 !! 1) = Some Approved /\ performed s4 = [1]
  /\ (r ← requests s4 !! 1; ar_certificate r) = Some 500.
Proof. vm_compute. repeat split. Qed.

Lemma reach3 : reachable s3.
Proof.
  unfold s3. apply reach_call; [|exact I]. unfold s2. apply reach_call.
  - unfold s1. apply reach_call; [by apply reach_start|]. intros n [= <-]. done.
  - split; [reflexivity|]. split; [apply not_elem_of_nil|]. intros p n [=].
Defined.
Lemma reach4 : reachable s4.
Proof. unfold s4. apply reach_call; [exact reach3|exact I]. Defined.

Definition row3 : ApprovalRequest :=
  Eval vm_compute in default (create_approval_request 0 policy data None RCertificate) (requests s3 !! 1).
Definition row4 : ApprovalRequest :=
  Eval vm_compute in default (create_approval_request 0 policy data None RCertificate) (requests s4 !! 1).

Definition past3 : list (store * call) :=
  [(s2, CApprove (meets bob None) 1 None); (s1, CQueue 1000 1 (Some alice) asked None); (start, CSavePolicy 1 policy)].
Lemma reached3 : reached past3 s3.
Proof.
  unfold s3, past3. apply reached_call; [|exact I]. unfold s2. apply reached_call.
  - unfold s1. apply reached_call; [by apply reached_start|]. intros n [= <-]. done.
  - split; [reflexivity|]. split; [apply not_elem_of_nil|]. intros p n [=].
Defined.

(* both votes, and a request that a direct renewal closed with a vote that has a name only *)
Definition direct (name : string) : moot :=
  {| mt_type := RCertificate; mt_key := certificate_id; mt_target := 9; mt_outcome := MApproved;
     mt_username := name; mt_user := None; mt_certificate := None; mt_reason := "Signed directly" |}.
Definition naming : gate_request :=
  {| gr_cas := [Some 4]; gr_template := None; gr_cn := Some "www.example.com"; gr_sans := [];
     gr_type := RCertificate;
     gr_data := {| rd_csr := None; rd_certificate := Some (VInt 9); rd_target_ca := None; rd_cross := None;
                   rd_ca := Some (VInt 4); rd_serial := None; rd_intermediate := false; rd_reason := None;
                   rd_invalidity := None; rd_auth_certificate := None; rd_scheduled := false; rd_requested_by := None |};
     gr_operations := ["issuance"] |}.
Definition s5 := run_call (CQueue 1000 2 (Some alice) naming None) [] s3.
Definition s6 := run_call (CMoot 2000 (direct "bob")) [] s5.
Definition past6 : list (store * call) :=
  (s5, CMoot 2000 (direct "bob")) :: (s3, CQueue 1000 2 (Some alice) naming None) :: past3.
Lemma reached6 : reached past6 s6.
Proof.
  unfold s6, past6. apply reached_call; [|exact I]. unfold s5. apply reached_call; [exact reached3|].
  split; [reflexivity|]. split; [apply not_elem_of_nil|]. intros p n [=].
Defined.
Example by_name :
  (ar_status <$> requests s6 !! 2) = Some Approved
  /\ (ar_status <$> requests (run_call (CMoot 2000 (direct "alice")) [] s5) !! 2) = Some Cancelled.
Proof. by vm_compute. Qed.


Definition refused_later : call := CReject (meets bob None) 1 (Some "no").
Definition row5 : ApprovalRequest :=
  Eval vm_compute in default (create_approval_request 0 policy data None RCertificate)
                       (requests (run_call refused_later [] s4) !! 1).

Lemma decision_final_witness : ar_status row4 = Approved /\ ar_status row5 = ar_status row4 /\ ar_votes row5 = ar_votes row4.
Proof.
  split; [reflexivity|].
  destruct (decision_final s4 refused_later [] 1 row4 row5 reach4 I) as (H1 & H2 & _);
    [vm_compute; reflexivity|discriminate|vm_compute; reflexivity|]. by split.
Defined.

Lemma approved_by_quorum_witness : exists approvers, NoDup approvers /\ 2 <= Z.of_nat (length approvers)
  /\ forall x, x ∈ approvers -> (x <> 0 -> Some 1 <> Some x)
       /\ exists s0 ev0 comment0, (s0, CApprove ev0 1 comment0) ∈ (s3, CApprove (meets carol None) 1 None) :: past3.
Proof.
  destruct (approved_by_quorum past3 s3 (meets carol None) 1 None [] row3 row4 reached3) as (approvers & Hn & Hq & H);
    [vm_compute; reflexivity|reflexivity|vm_compute; reflexivity|reflexivity|].
  exists approvers. split; [done|]. split; [done|]. intros x Hx. destruct (H x Hx) as (Hr & s0 & ev0 & c0 & r0 & u & Hin & _).
  split; [exact Hr|]. eauto.
Defined.

Definition hsm_down : exn := {| e_kind := ValueError; e_text := "HSM unreachable" |}.

Lemma failed_issuance_witness :
  reachable s3 /\ run_call (CApprove (meets carol (Some hsm_down)) 1 None) [] s3 = s3.
Proof.
  split; [exact reach3|].
  apply (failed_issuance_keeps_pending s3 (meets carol (Some hsm_down)) 1 None [] Pending None
    "Certificate issuance failed. Check server logs." reach3). vm_compute. reflexivity.
Defined.

Lemma pending_list_witness :
  approval_is_expired 2000 row3 = false.
Proof.
  apply (pending_list_is_current s3 (meets bob None) 1 row3
    [(1, row3)] (list_approvals (meets bob None) (Some Pending) (fresh s3 [])).2).
  - vm_compute. reflexivity.
  - left.
Defined.

Lemma approval_issues_witness : exists w r',
  approve_request (meets carol None) 1 None (fresh s3 []) = (Ok (VoteRecorded Approved (Some (Issued 500)) None), w)
  /\ requests (committed w) !! 1 = Some r'.
Proof.
  destruct (approval_issues s3 (meets carol None) 1 None row3 data reach3) as (w & r' & H1 & H2 & _);
    [vm_compute; reflexivity|reflexivity..|vm_compute; reflexivity| |vm_compute; discriminate|reflexivity|].
  - intros u [= <-]. split; [vm_compute; discriminate|reflexivity].
  - exists w, r'. done.
Defined.

(** A policy may be saved with a negative [min_approvers], which the routes do not
    check: its requests count as approved by their first vote, a rejection included. *)
Lemma negative_quorum_rejection_approves :
  ar_status (add_approval 2000 (Some 2) "bob" VReject (Some "no")
    (create_approval_request 1000 (with_approvers (Some (-1))) data (Some 1) RCertificate)) = Approved.
Proof. reflexivity. Qed.
End Sample.
