(* ===== verification/PolicyAdmin.v ===== *)
(** * PolicyAdmin: creating, changing and switching policies

    Models the policy routes of [backend/api/v2/policies.py] ([create_policy],
    [update_policy], [toggle_policy]; [delete_policy] is in [Approvals]),
    [_validated_operations], [validated_emails] of
    [backend/services/policy_notifications.py] and [_is_valid_address] of
    [backend/services/email_service.py], over the session and tables of [ApprovalModel].
    A body holds JSON where the code validates it; the other members have the type of
    their column. *)

From Stdlib Require Import Ascii String.
From stdpp Require Import prelude gmap strings.
From S2P Require Import Prelude Scalars KeyAlgorithms Policies Json PolicyEditor ApprovalModel Approvals ApprovalSafety.

Local Open Scope string_scope.
Local Open Scope Z_scope.

(** ** E-mail addresses *)

Definition MAX_RECIPIENTS : nat := 50.

(* [^@\s]+@[^@\s]+ *)
Definition _is_valid_address (addr : string) : bool :=
  negb (320 <? slen addr)%nat && negb (any_char is_space addr) &&
  match split "@" addr with
  | [local; domain] => nonempty local && nonempty domain
  | _ => false
  end.

(* CR, LF, comma, semicolon, angle brackets, double quote *)
Definition unsafe_char (c : ascii) : bool :=
  existsb (N.eqb (code c)) [13; 10; 44; 59; 60; 62; 34]%N.

Definition mailbox (addr : string) : bool :=
  nonempty addr && _is_valid_address addr && negb (any_char unsafe_char addr).

Inductive policy_error :=
| NameRequired | NameExists
| BadOperations | BadPolicyType
| EmailsNotList | BadEmail (item : json) | TooManyEmails
| BadRules (e : rule_error).

Fixpoint collect_emails (l : list json) (emails : list string) : result policy_error (list string) :=
  match l with
  | [] => Ok emails
  | item :: l' =>
      match item with
      | JStr s =>
          let addr := strip s in
          if mailbox addr
          then collect_emails l' (if str_in (lower addr) (lower <$> emails) then emails
                                  else (emails ++ [addr])%list)
          else Raise (BadEmail item)
      | _ => Raise (BadEmail item)
      end
  end.

Definition validated_emails (value : option json) : result policy_error (list string) :=
  match value with
  | None | Some JNull | Some (JStr "") => Ok []
  | Some (JList l) =>
      match collect_emails l [] with
      | Raise e => Raise e
      | Ok emails => if (MAX_RECIPIENTS <? length emails)%nat then Raise TooManyEmails else Ok emails
      end
  | Some _ => Raise EmailsNotList
  end.

(** ** The routes *)

(* a member that is absent is None *)
Record policy_body := {
  pb_name : option string;
  pb_description : option (option string);
  pb_operations : option json;
  pb_policy_type : option json;
  pb_ca : option (option Z);
  pb_template : option (option Z);
  pb_rules : option json;
  pb_requires_approval : option bool;
  pb_group : option (option Z);
  pb_min_approvers : option (option Z);
  pb_notify : option bool;
  pb_emails : option json;
  pb_active : option bool;
  pb_priority : option Z;
}.

Definition operation_name (j : json) : option string :=
  match j with JStr s => if str_in s OPERATIONS then Some s else None | _ => None end.

Definition _validated_operations (data : policy_body) : result policy_error (option (list string)) :=
  match pb_operations data with
  | Some (JList (x :: l)) =>
      match collect_all operation_name (x :: l) with
      | Some ops => Ok (Some ops)
      | None => Raise BadOperations
      end
  | Some _ => Raise BadOperations
  | None =>
      match pb_policy_type data with
      | None => Ok None
      | Some j => match operation_name j with
                  | Some op => Ok (Some [op])
                  | None => Raise BadPolicyType
                  end
      end
  end.

Definition falsy (j : json) : bool :=
  match j with
  | JNull | JBool false | JInt 0 | JFloat true | JStr "" | JList [] | JObj [] => true
  | _ => false
  end.

Inductive policy_answer :=
| PolicyRefused (e : policy_error)
| PolicyNotFound
| PolicyNotSaved
| PolicySaved (p : CertificatePolicy).

Definition name_taken (n : string) (except_ : option Z) (s : store) : bool :=
  existsb (fun ip => (name ip.2 =? n)%string && negb (bool_decide (Some ip.1 = except_)))
    (map_to_list (policies s)).

(* set_rules, then what get_rules gives the evaluation *)
Definition set_rules (o : obj) (p : CertificatePolicy) : CertificatePolicy :=
  {| policy_id := policy_id p; name := name p; kind := kind p; policy_type := policy_type p;
     operations := operations p; policy_ca := policy_ca p; template_id := template_id p;
     policy_rules := read_rules o; advisories := read_advisories o;
     requires_approval := requires_approval p; approval_group_id := approval_group_id p;
     min_approvers := min_approvers p; is_active := is_active p; priority := priority p;
     description := description p; notify_on_violation := notify_on_violation p;
     notification_emails := notification_emails p |}.

Definition set_active (b : bool) (p : CertificatePolicy) : CertificatePolicy :=
  {| policy_id := policy_id p; name := name p; kind := kind p; policy_type := policy_type p;
     operations := operations p; policy_ca := policy_ca p; template_id := template_id p;
     policy_rules := policy_rules p; advisories := advisories p;
     requires_approval := requires_approval p; approval_group_id := approval_group_id p;
     min_approvers := min_approvers p; is_active := b; priority := priority p;
     description := description p; notify_on_violation := notify_on_violation p;
     notification_emails := notification_emails p |}.

Definition stored_emails (emails : list string) : option (list string) :=
  match emails with [] => None | _ => Some emails end.

Section Routes.
Variables (reg : _Registry) (fips_enabled : bool).

Definition save (i : Z) (p : CertificatePolicy) : M policy_answer :=
  _ ← modify (with_policies (insert i p));
  ok ← safe_commit;
  mret (if ok : bool then PolicySaved p else PolicyNotSaved).

(* the row the constructor makes *)
Definition blank_policy (i : Z) (n : string) (data : policy_body) (emails : list string) : CertificatePolicy :=
  {| policy_id := i; name := n; kind := StoredPolicy; policy_type := None; operations := OpsNull;
     policy_ca := default None (pb_ca data); template_id := default None (pb_template data);
     policy_rules := no_rules; advisories := None;
     requires_approval := default false (pb_requires_approval data);
     approval_group_id := default None (pb_group data);
     min_approvers := default (Some 1) (pb_min_approvers data);
     is_active := default true (pb_active data); priority := default 100 (pb_priority data);
     description := default None (pb_description data);
     notify_on_violation := default true (pb_notify data);
     notification_emails := stored_emails emails |}.

Definition new_policy (i : Z) (n : string) (data : policy_body) (ops emails : list string)
    (rules : option obj) : CertificatePolicy :=
  let p := blank_policy i n data emails in
  set_operations ops (match rules with Some o => set_rules o p | None => p end).

Definition create_policy (i : Z) (data : policy_body) : M policy_answer :=
  match pb_name data with
  | None | Some "" => mret (PolicyRefused NameRequired)
  | Some n =>
      taken ← gets (name_taken n None);
      if taken : bool then mret (PolicyRefused NameExists)
      else match _validated_operations data with
      | Raise e => mret (PolicyRefused e)
      | Ok ops =>
          match validated_emails (pb_emails data) with
          | Raise e => mret (PolicyRefused e)
          | Ok emails =>
              let ops := default (legacy_operations (Some "issuance")) ops in
              if falsy (default JNull (pb_rules data))
              then save i (new_policy i n data ops emails None)
              else match _validated_rules reg fips_enabled (default JNull (pb_rules data)) with
                   | Raise e => mret (PolicyRefused (BadRules e))
                   | Ok o => save i (new_policy i n data ops emails (Some o))
                   end
          end
      end
  end.

Definition changed (data : policy_body) (emails : list string) (p : CertificatePolicy) : CertificatePolicy :=
  {| policy_id := policy_id p; name := default (name p) (pb_name data); kind := kind p;
     policy_type := policy_type p; operations := operations p;
     policy_ca := default (policy_ca p) (pb_ca data);
     template_id := default (template_id p) (pb_template data);
     policy_rules := policy_rules p; advisories := advisories p;
     requires_approval := default (requires_approval p) (pb_requires_approval data);
     approval_group_id := default (approval_group_id p) (pb_group data);
     min_approvers := default (min_approvers p) (pb_min_approvers data);
     is_active := default (is_active p) (pb_active data);
     priority := default (priority p) (pb_priority data);
     description := default (description p) (pb_description data);
     notify_on_violation := default (notify_on_violation p) (pb_notify data);
     notification_emails := match pb_emails data with
                            | Some _ => stored_emails emails
                            | None => notification_emails p
                            end |}.

Definition update_policy (i : Z) (data : policy_body) : M policy_answer :=
  row ← gets (fun s => policies s !! i);
  match row with
  | None => mret PolicyNotFound
  | Some p =>
      match (match pb_rules data with
             | None => Ok None
             | Some j => match _validated_rules reg fips_enabled (if falsy j then JObj [] else j) with
                         | Raise e => Raise (BadRules e)
                         | Ok o => Ok (Some o)
                         end
             end) with
      | Raise e => mret (PolicyRefused e)
      | Ok rules =>
          match _validated_operations data with
          | Raise e => mret (PolicyRefused e)
          | Ok ops =>
              match validated_emails (pb_emails data) with
              | Raise e => mret (PolicyRefused e)
              | Ok emails =>
                  taken ← gets (fun s => match pb_name data with
                                         | Some n => name_taken n (Some i) s
                                         | None => false
                                         end);
                  if taken : bool then mret (PolicyRefused NameExists)
                  else
                    let p := changed data emails p in
                    let p := match ops with Some ops => set_operations ops p | None => p end in
                    save i (match rules with Some o => set_rules o p | None => p end)
              end
          end
      end
  end.

Definition toggle_policy (i : Z) : M policy_answer :=
  row ← gets (fun s => policies s !! i);
  match row with
  | None => mret PolicyNotFound
  | Some p => save i (set_active (negb (is_active p)) p)
  end.
End Routes.

Example addresses : _is_valid_address "ops@corp.example" = true /\ _is_valid_address "ops" = false
  /\ _is_valid_address "a@b@c" = false /\ _is_valid_address "@b" = false
  /\ validated_emails (Some (JList [JStr " Ops@corp.example "; JStr "ops@corp.example"])) = Ok ["Ops@corp.example"].
Proof. vm_compute. repeat split. Qed.

(** * What is saved is well formed *)

Record emails_ok (l : list string) : Prop := {
  eo_some : l <> [];
  eo_mailboxes : Forall (fun a => mailbox a = true) l;
  eo_distinct : NoDup (lower <$> l);
  eo_few : (length l <= MAX_RECIPIENTS)%nat;
}.

Lemma collect_emails_spec l : forall acc out, collect_emails l acc = Ok out ->
  Forall (fun a => mailbox a = true) acc -> NoDup (lower <$> acc) ->
  Forall (fun a => mailbox a = true) out /\ NoDup (lower <$> out).
Proof.
  induction l as [|[] l IH]; intros acc out; simpl; try done; [by intros [= <-]|].
  destruct (mailbox (strip s)) eqn:Em; [|done]. intros H Hf Hn. eapply IH; [exact H|..].
  - destruct (str_in _ _); [done|]. apply Forall_app. split; [done|by apply Forall_singleton].
  - destruct (str_in _ _) eqn:Es; [done|]. apply str_in_false in Es. rewrite fmap_app. apply NoDup_app.
    split; [done|]. split; [|apply NoDup_singleton]. intros x Hx. cbn. rewrite list_elem_of_singleton. by intros ->.
Qed.

Lemma validated_emails_ok v l : validated_emails v = Ok l -> forall l', stored_emails l = Some l' -> emails_ok l'.
Proof.
  assert (forall x : list string, [] = x -> forall l', stored_emails x = Some l' -> emails_ok l') as Hnil by (by intros ? <-).
  unfold validated_emails. destruct v as [[| | | |s|items|]|]; try done; try (intros [= H]; by apply Hnil).
  - destruct s; [intros [= H]; by apply Hnil|done].
  - destruct (collect_emails items []) as [out|] eqn:E; [|done]. destruct (_ <? _)%nat eqn:El; [done|].
    apply Nat.ltb_ge in El. intros [= <-] l'. destruct out as [|a out]; [done|]. intros [= <-].
    destruct (collect_emails_spec _ _ _ E) as [H1 H2]; [constructor..|]. by split.
Qed.

Section WellFormed.
Variables (mldsa fips_enabled : bool).
Abbreviation reg := (_REGISTRY mldsa).
#[local] Opaque _REGISTRY.

Record policy_ok (i : Z) (p : CertificatePolicy) : Prop := {
  po_id : policy_id p = i;
  po_operations : get_operations p <> [];
  po_type : policy_type p = head (get_operations p);
  po_rules : enforced mldsa (policy_rules p);
  po_advisories : forall r, advisories p = Some r -> enforced mldsa r;
  po_emails : forall l, notification_emails p = Some l -> emails_ok l;
}.

Record table_ok (t : gmap Z CertificatePolicy) : Prop := {
  to_rows : forall i p, t !! i = Some p -> policy_ok i p;
  to_names : forall i j p q, t !! i = Some p -> t !! j = Some q -> name p = name q -> i = j;
}.

(* rules that passed the validation *)
Definition validated (rules : option obj) : Prop :=
  forall o, rules = Some o -> exists j, _validated_rules reg fips_enabled j = Ok o.

(* operations that passed the validation *)
Definition known_operations (ops : list string) : Prop := ops <> [] /\ Forall (fun op => op ∈ OPERATIONS) ops.

Lemma operations_known data ops : _validated_operations data = Ok (Some ops) -> known_operations ops.
Proof.
  assert (forall j op, operation_name j = Some op -> op ∈ OPERATIONS) as Hop.
  { intros [] op; try done. cbn [operation_name]. destruct (str_in s OPERATIONS) eqn:E; [|done].
    intros [= <-]. by apply str_in_spec. }
  unfold _validated_operations. destruct (pb_operations data) as [[| | | | |[|x l]|]|]; try done.
  - destruct (collect_all operation_name (x :: l)) as [names|] eqn:E; [|done]. intros [= ->]. split.
    + intros ->. cbn in E. destruct (operation_name x); [|done]. cbn in E. by destruct (collect_all operation_name l).
    + apply Forall_forall. intros op (j & _ & Hj)%(collect_all_elem _ _ _ E). by eapply Hop.
  - destruct (pb_policy_type data) as [j|]; [|done]. destruct (operation_name j) as [op|] eqn:E; [|done].
    intros [= <-]. split; [done|]. apply Forall_singleton. by eapply Hop.
Qed.

Lemma filter_operations ops :
  List.filter (fun op => str_in op (List.filter (fun op => str_in op ops) OPERATIONS)) OPERATIONS
  = List.filter (fun op => str_in op ops) OPERATIONS.
Proof.
  apply List.filter_ext_in. intros op Hop. apply eq_true_iff_eq. rewrite !str_in_spec, list_elem_of_In, filter_In, str_in_spec.
  naive_solver.
Qed.

Lemma set_operations_governed ops p : known_operations ops ->
  get_operations (set_operations ops p) <> []
  /\ policy_type (set_operations ops p) = head (get_operations (set_operations ops p)).
Proof.
  intros [Hne Hall]. unfold get_operations. cbn [operations set_operations policy_type]. rewrite filter_operations.
  assert (List.filter (fun op => str_in op ops) OPERATIONS <> []) as Hf.
  { destruct ops as [|x ops]; [done|]. apply Forall_cons in Hall as [Hx _]. intros H.
    apply (not_elem_of_nil x). rewrite <- H, list_elem_of_In, filter_In, str_in_spec. split; [by apply list_elem_of_In|left]. }
  split; [done|]. by destruct (List.filter (fun op => str_in op ops) OPERATIONS).
Qed.

Lemma enforced_none : enforced mldsa no_rules.
Proof.
  split; try done; try (by intros kd ?%elem_of_nil). intros q. apply known_key_type. done.
Qed.

Lemma set_rules_enforced rules p o : validated rules -> rules = Some o ->
  enforced mldsa (policy_rules (set_rules o p)) /\ forall r, advisories (set_rules o p) = Some r -> enforced mldsa r.
Proof.
  intros Hv Hr. destruct (Hv _ Hr) as [j Hj]. destruct (saved_fixed _ _ _ _ Hj) as [H1 H2].
  split; [by eapply algorithm_enforced|]. cbn. intros r. unfold read_advisories.
  destruct (dget o "advisories") as [[]|] eqn:Ed; try done. intros [= <-]. by eapply advisories_enforced.
Qed.

Lemma new_policy_ok i n data ops emails rules : known_operations ops -> validated rules ->
  (forall l, stored_emails emails = Some l -> emails_ok l) -> policy_ok i (new_policy i n data ops emails rules).
Proof.
  intros Ho Hv He. unfold new_policy. set (p := match rules with Some _ => _ | None => _ end).
  destruct (set_operations_governed ops p Ho) as [H1 H2].
  assert (enforced mldsa (policy_rules p) /\ forall r, advisories p = Some r -> enforced mldsa r) as [H3 H4].
  { unfold p. destruct rules as [o|]; [by eapply set_rules_enforced|]. split; [apply enforced_none|done]. }
  split; [|exact H1|exact H2|exact H3|exact H4|]; unfold p; by destruct rules.
Qed.

Lemma set_rules_ok rules i p : validated rules -> policy_ok i p ->
  policy_ok i (match rules with Some o => set_rules o p | None => p end).
Proof.
  intros Hv []. destruct rules as [o|]; [|by split].
  destruct (set_rules_enforced (Some o) p o Hv eq_refl). by split.
Qed.

Lemma changed_ok i data emails ops p : (forall l, stored_emails emails = Some l -> emails_ok l) ->
  (forall x, ops = Some x -> known_operations x) -> policy_ok i p ->
  policy_ok i (match ops with Some ops => set_operations ops (changed data emails p) | None => changed data emails p end).
Proof.
  intros He Ho [H1 H2 H3 H4 H5 H6].
  assert (forall l, notification_emails (changed data emails p) = Some l -> emails_ok l) as Hm.
  { cbn. destruct (pb_emails data); [exact He|exact H6]. }
  destruct ops as [ops|]; [|by split]. destruct (set_operations_governed ops (changed data emails p)); [by apply Ho|].
  by split.
Qed.

(** ** Every call of the administration *)

Inductive admin := ACreate (i : Z) (data : policy_body) | AUpdate (i : Z) (data : policy_body) | AToggle (i : Z).

Definition run_admin (a : admin) (outcomes : list bool) (s : store) : store :=
  let run {A} (m : M A) := committed (m (fresh s outcomes)).2 in
  match a with
  | ACreate i data => run (create_policy reg fips_enabled i data)
  | AUpdate i data => run (update_policy reg fips_enabled i data)
  | AToggle i => run (toggle_policy i)
  end.

(* a row that a call may leave *)
Inductive leaves (s : store) : admin -> Z -> CertificatePolicy -> Prop :=
| leaves_new i n data ops emails rules :
    name_taken n None s = false -> known_operations ops -> validated rules ->
    (forall l, stored_emails emails = Some l -> emails_ok l) ->
    leaves s (ACreate i data) i (new_policy i n data ops emails rules)
| leaves_changed i data p ops emails rules :
    policies s !! i = Some p ->
    (forall n, pb_name data = Some n -> name_taken n (Some i) s = false) ->
    (forall x, ops = Some x -> known_operations x) -> validated rules ->
    (forall l, stored_emails emails = Some l -> emails_ok l) ->
    let q := match ops with Some ops => set_operations ops (changed data emails p) | None => changed data emails p end in
    leaves s (AUpdate i data) i (match rules with Some o => set_rules o q | None => q end)
| leaves_toggled i p : policies s !! i = Some p -> leaves s (AToggle i) i (set_active (negb (is_active p)) p).

Definition admin_left (s : store) (a : admin) (s' : store) : Prop :=
  s' = s \/ exists i p, leaves s a i p /\ s' = with_policies (insert i p) s.

Lemma save_left s a l i p : leaves s a i p -> admin_left s a (committed (save i p (fresh s l)).2).
Proof.
  intros H. unfold save, mbind, M_bind, modify, safe_commit. cbn.
  destruct l as [|[] l]; cbn; [right; by eexists _, _|right; by eexists _, _|by left].
Qed.

Lemma create_left s l i data : admin_left s (ACreate i data) (run_admin (ACreate i data) l s).
Proof.
  unfold run_admin, create_policy. destruct (pb_name data) as [n|]; [|by left].
  destruct n as [|c n0]; [by left|]. set (n := String c n0).
  unfold mbind at 1, M_bind at 1, gets at 1. cbn [fresh working].
  destruct (name_taken n None s) eqn:En; [by left|].
  destruct (_validated_operations data) as [ops|] eqn:Eo; [|by left].
  destruct (validated_emails (pb_emails data)) as [emails|] eqn:Ee; [|by left].
  assert (known_operations (default (legacy_operations (Some "issuance")) ops)) as Ho.
  { destruct ops as [ops|]; [by eapply operations_known|]. split; [done|]. apply Forall_singleton. left. }
  pose proof (validated_emails_ok _ _ Ee) as He.
  destruct (falsy _); [apply save_left; by constructor|].
  destruct (_validated_rules _ _ _) as [o|] eqn:Er; [|by left].
  apply save_left. constructor; try done. intros o' [= <-]. by eexists.
Qed.

Lemma update_left s l i data : admin_left s (AUpdate i data) (run_admin (AUpdate i data) l s).
Proof.
  unfold run_admin, update_policy. unfold mbind at 1, M_bind at 1, gets at 1. cbn [fresh working].
  destruct (policies s !! i) as [p|] eqn:Ep; [|by left].
  set (checked := match pb_rules data with Some _ => _ | None => _ end).
  assert (forall rules, checked = Ok rules -> validated rules) as Hv.
  { intros rules. unfold checked. destruct (pb_rules data) as [j|]; [|by intros [= <-]].
    destruct (_validated_rules _ _ _) as [o|] eqn:E; [|done]. intros [= <-] o' [= <-]. by eexists. }
  destruct checked as [rules|]; [|by left].
  destruct (_validated_operations data) as [ops|] eqn:Eo; [|by left].
  destruct (validated_emails (pb_emails data)) as [emails|] eqn:Ee; [|by left].
  unfold mbind at 1, M_bind at 1, gets at 1. cbn [working].
  destruct (match pb_name data with Some n => _ | None => false end) eqn:En; [by left|].
  apply save_left. apply leaves_changed; [done| | |by apply Hv|by eapply validated_emails_ok].
  - intros n Hn. by rewrite Hn in En.
  - intros x ->. by eapply operations_known.
Qed.

Lemma run_admin_left s a l : admin_left s a (run_admin a l s).
Proof.
  destruct a; [apply create_left|apply update_left|]. unfold run_admin, toggle_policy.
  unfold mbind at 1, M_bind at 1, gets at 1. cbn [fresh working].
  destruct (policies s !! i) as [p|] eqn:Ep; [|by left]. apply save_left. by constructor.
Qed.

Lemma name_free n e s : name_taken n e s = false ->
  forall i p, policies s !! i = Some p -> name p = n -> Some i = e.
Proof.
  intros H i p Hp Hn. destruct (decide (Some i = e)) as [?|Hne]; [done|]. exfalso.
  apply not_true_iff_false in H. apply H. apply existsb_exists. exists (i, p).
  split; [by apply list_elem_of_In, elem_of_map_to_list|]. cbn. rewrite Hn, String.eqb_refl. by rewrite bool_decide_false.
Qed.

Lemma leaves_row s a i p : table_ok (policies s) -> leaves s a i p -> policy_ok i p.
Proof.
  intros [Hr _] [? ? ? ? ? ? _ Ho Hv He|? ? ? ? ? ? Hp _ Ho Hv He q|? ? Hp].
  - by apply new_policy_ok.
  - apply set_rules_ok; [done|]. apply changed_ok; auto.
  - by destruct (Hr _ _ Hp).
Qed.

Lemma leaves_name s a i p : table_ok (policies s) -> leaves s a i p ->
  forall j q, policies s !! j = Some q -> name q = name p -> j = i.
Proof.
  intros [_ Hn] [? n ? ops emails rules Hf|? data p0 ops ? rules Hp Hf ? ? ? q|? ? Hp] j q' Hq He.
  - assert (name (new_policy i0 n data ops emails rules) = n) as E by (unfold new_policy; by destruct rules).
    rewrite E in He. by pose proof (name_free _ _ _ Hf _ _ Hq He).
  - assert (name (match rules with Some o => set_rules o q | None => q end) = default (name p0) (pb_name data)) as E.
    { unfold q. by destruct rules, ops. }
    rewrite E in He. destruct (pb_name data) as [n|]; [|by eapply Hn].
    specialize (Hf n eq_refl). by injection (name_free _ _ _ Hf _ _ Hq He).
  - by eapply Hn.
Qed.

(** ** Policies and approvals together *)

Definition asks_nonnegative (data : policy_body) : Prop :=
  forall n, pb_min_approvers data = Some (Some n) -> 0 <= n.

Definition admin_admissible (a : admin) (s : store) : Prop :=
  match a with
  | ACreate i data => policies s !! i = None /\ asks_nonnegative data
  | AUpdate _ data => asks_nonnegative data
  | AToggle _ => True
  end.

Definition saves_policy (c : call) : bool := match c with CSavePolicy _ _ => true | _ => false end.

(* the states of a server on which policies are only saved through the routes *)
Inductive system : store -> Prop :=
| sys_start s : requests s = ∅ -> performed s = [] -> policies s = ∅ -> system s
| sys_call c outcomes s : system s -> admissible c s -> saves_policy c = false -> system (run_call c outcomes s)
| sys_admin a outcomes s : system s -> admin_admissible a s -> system (run_admin a outcomes s).

Lemma leaves_nonnegative s a i p : store_ok s -> leaves s a i p -> admin_admissible a s ->
  forall n, min_approvers p = Some n -> 0 <= n.
Proof.
  intros Hok [? ? data ops emails rules|? data p0 ops emails rules Hp ? ? ? ? q|? p0 Hp] Ha m.
  - destruct Ha as [_ Ha]. unfold new_policy. replace (min_approvers _) with (default (Some 1) (pb_min_approvers data))
      by (by destruct rules). destruct (pb_min_approvers data) as [k|] eqn:Em; cbn; [intros ->; by apply Ha|intros [= <-]; lia].
  - replace (min_approvers _) with (default (min_approvers p0) (pb_min_approvers data)) by (unfold q; by destruct rules, ops).
    destruct (pb_min_approvers data) as [k|] eqn:Em; cbn; [intros ->; by apply Ha|by eapply (so_policies s)].
  - intros Hm. exact (so_policies _ Hok _ _ _ Hp Hm).
Qed.

Lemma system_reachable s : system s -> reachable s.
Proof.
  induction 1 as [s|c l s _ IH Ha _|a l s _ IH Ha]; [by apply reach_start|by apply reach_call|].
  destruct (run_admin_left s a l) as [->|(i & p & Hl & ->)]; [done|].
  apply (reach_call (CSavePolicy i p) [] s IH). intros n.
  apply (leaves_nonnegative s a i p); [by apply reachable_store_ok|done..].
Qed.

Lemma evolves_table s s' : evolves s s' -> policies s' = policies s \/ exists p, policies s' = delete p (policies s).
Proof. intros He. left. apply He. Qed.

Lemma call_policies c l s : store_ok s -> saves_policy c = false ->
  policies (run_call c l s) = policies s \/ exists p, policies (run_call c l s) = delete p (policies s).
Proof.
  intros Hok Hc. destruct c; try done; cbn [run_call];
    try (apply evolves_table, calm_run; solve [calm_walk]).
  - destruct (queue_cases t id u q partner s l) as [->|(p & -> & _)]; by left.
  - left. eapply vote_left_policies. by apply approve_cases.
  - left. eapply reject_left_policies, reject_cases.
  - apply evolves_table, get_evolves.
  - destruct (delete_cases ev p s l) as (s1 & He & [->| ->]); [by apply evolves_table|].
    right. exists p. cbn. by rewrite (ev_policies _ _ He).
  - by left.
Qed.

Lemma delete_table_ok t i : table_ok t -> table_ok (delete i t).
Proof.
  intros [H1 H2]. split.
  - intros j p. rewrite lookup_delete_Some. intros [_ ?]. auto.
  - intros j k p q. rewrite !lookup_delete_Some. intros [_ ?] [_ ?]. by eapply H2.
Qed.

Lemma insert_table_ok s a i p : table_ok (policies s) -> leaves s a i p -> table_ok (insert i p (policies s)).
Proof.
  intros Ht Hl. split.
  - intros j q. rewrite lookup_insert_Some. intros [[<- <-]|[_ Hq]]; [by eapply leaves_row|by apply (to_rows _ Ht)].
  - intros j k q r. rewrite !lookup_insert_Some. intros [[<- <-]|[Hj Hq]] [[<- <-]|[Hk Hr]] He; try done.
    + symmetry. by eapply leaves_name.
    + by eapply leaves_name.
    + by eapply (to_names _ Ht).
Qed.

(** Whatever calls of the policy routes and of the approvals were served, and whichever
    commits failed: no two policies share a name; each governs at least one operation and
    shows the first of them as its type; its rules and advisories are enforced as saved; and
    the addresses it notifies are mailboxes, all different, at most fifty. *)
Theorem policies_well_formed (s : store) : system s -> table_ok (policies s).
Proof.
  induction 1 as [s _ _ ->|c l s Hs IH _ Hc|a l s _ IH _]; [by split| |].
  - apply system_reachable, reachable_store_ok in Hs.
    destruct (call_policies c l s Hs Hc) as [->|[p ->]]; [done|by apply delete_table_ok].
  - destruct (run_admin_left s a l) as [->|(i & p & Hl & ->)]; [done|]. by eapply insert_table_ok.
Qed.
End WellFormed.

Module Sample.
Definition body (n : option string) (ops : option json) : policy_body :=
  {| pb_name := n; pb_description := None; pb_operations := ops; pb_policy_type := None; pb_ca := Some (Some 1);
     pb_template := None; pb_rules := Some PolicyEditor.Sample.body; pb_requires_approval := Some true;
     pb_group := None; pb_min_approvers := Some (Some 2); pb_notify := None;
     pb_emails := Some (JList [JStr "pki@corp.example"]); pb_active := None; pb_priority := None |}.
Definition empty_store : store :=
  {| requests := ∅; policies := ∅; users := ∅; members := []; certificates := ∅; cas := ∅; crosses := ∅;
     enrolments := ∅; performed := [] |}.

Definition one_policy : store :=
  run_admin true false (ACreate 1 (body (Some "servers") (Some (JList [JStr "renewal"; JStr "issuance"])))) [true] empty_store.

Example one_policy_saved :
  (fun p => (name p, get_operations p, policy_type p, notification_emails p)) <$> (policies one_policy !! 1)
  = Some ("servers", ["issuance"; "renewal"], Some "issuance", Some ["pki@corp.example"]).
Proof. vm_compute. reflexivity. Qed.

Lemma policies_well_formed_witness : table_ok true (policies one_policy).
Proof.
  apply (policies_well_formed true false). apply sys_admin; [by apply sys_start|]. split; [done|].
  intros n [= <-]. done.
Defined.

(* an update can take away the name a creation insists on *)
Lemma update_drops_name :
  name <$> (policies (run_admin true false (AUpdate 1 (body (Some "") None)) [true] one_policy) !! 1) = Some ""
  /\ (create_policy (_REGISTRY true) false 2 (body (Some "") None) (fresh one_policy [])).1 = Ok (PolicyRefused NameRequired).
Proof. vm_compute. split; reflexivity. Qed.
End Sample.
