(* ===== verification/Permissions.v ===== *)
(** * Permissions: what an authenticated caller may do

    Models [backend/auth/permissions.py] (the built-in role table, the scopes a
    group or a custom role may grant, role inheritance, the effective
    permissions of a user) and the permission half of
    [backend/auth/unified.py] (the check every route makes, and the re-binding
    of an API key to its owner's current permissions).

    A permission is a string [action:resource]. The custom-role table is a
    finite map from role id to row; the rows of the groups a user belongs to
    are the list the join returns. A failing query (which the code answers with
    "no extra rights") is the [None] of the two database arguments. *)

From Stdlib Require Import Ascii String.
From stdpp Require Import prelude gmap strings.
From S2P Require Import Prelude Scalars.

(** ** Tables *)

Definition ROLE_PERMISSIONS : list (string * list string) :=
  [("admin", ["*"]);
   ("operator",
    ["read:certificates"; "write:certificates";
     "read:user_certificates"; "write:user_certificates"; "delete:user_certificates";
     "read:cas"; "write:cas";
     "read:csrs"; "write:csrs"; "delete:csrs";
     "read:templates";
     "read:truststore"; "write:truststore";
     "read:crl"; "write:crl";
     "read:acme"; "write:acme"; "delete:acme";
     "read:scep"; "read:est"; "read:xcep"; "read:wstep"; "read:kerberos";
     "read:ad_connector"; "read:hsm";
     "read:ssh"; "write:ssh"; "delete:ssh";
     "read:ssh_cas"; "write:ssh_cas"; "delete:ssh_cas";
     "read:policies"; "read:approvals"; "write:approvals";
     "read:key_recovery"; "write:key_recovery";
     "read:audit";
     "read:settings"; "write:settings";
     "read:groups"; "write:groups"]);
   ("auditor",
    ["read:certificates"; "read:user_certificates"; "read:cas"; "read:csrs";
     "read:templates"; "read:truststore"; "read:crl"; "read:acme"; "read:scep";
     "read:est"; "read:xcep"; "read:wstep"; "read:kerberos"; "read:ad_connector";
     "read:hsm"; "read:ssh"; "read:ssh_cas"; "read:policies"; "read:approvals";
     "read:audit"; "read:groups"]);
   ("viewer",
    ["read:certificates"; "read:user_certificates"; "read:cas"; "read:csrs";
     "read:templates"; "read:truststore"; "read:ssh"; "read:ssh_cas"])]%string.

Definition BUILTIN_ROLES : list string := ROLE_PERMISSIONS.*1.

Definition ADMIN_ONLY_RESOURCES : list string :=
  ["users"; "system"; "sso"; "private_keys"; "deploy"]%string.

(* perm.split(':', 1): the action, and the rest when there is a colon *)
Definition split_perm (perm : string) : string * option string :=
  match partition ":" perm with
  | Some (a, r) => (a, Some r)
  | None => (perm, None)
  end.
Definition perm_action (perm : string) : string := (split_perm perm).1.
Definition has_colon (s : string) : bool := contains ":" s.

Definition VALID_RESOURCES : list string :=
  sorted_set (omap (fun perm => (split_perm perm).2) (concat ROLE_PERMISSIONS.*2)
              ++ ADMIN_ONLY_RESOURCES).

Definition GROUP_GRANTABLE_PERMISSIONS : list string :=
  sorted_set (List.filter (fun perm => has_colon perm && negb (startswith perm "admin:"))
                (concat ROLE_PERMISSIONS.*2)).

Definition RESERVED_PERMISSIONS : list string :=
  ["write:users"; "delete:users"; "read:sso"; "write:sso"; "delete:sso"; "read:deploy";
   "write:deploy"; "delete:deploy"; "read:system"; "delete:audit"; "write:ad_connector";
   "write:hsm"]%string.

Definition is_reserved_permission (perm : pyval) : bool :=
  match perm with
  | VStr p => contains "*" p || (perm_action p =? "admin")%string
              || str_in p RESERVED_PERMISSIONS
  | _ => true
  end.

Definition CUSTOM_ROLE_GRANTABLE_PERMISSIONS : list string :=
  sorted_set
  ["read:acme"; "write:acme"; "delete:acme"; "read:ad_connector";
   "read:approvals"; "write:approvals"; "read:audit"; "export:audit";
   "read:cas"; "write:cas"; "delete:cas";
   "read:certificates"; "write:certificates"; "delete:certificates";
   "read:crl"; "write:crl"; "read:csrs"; "write:csrs"; "delete:csrs";
   "read:est"; "write:est"; "read:groups"; "write:groups"; "delete:groups";
   "read:hsm"; "delete:hsm"; "read:kerberos"; "write:kerberos";
   "read:key_recovery"; "write:key_recovery";
   "read:policies"; "write:policies"; "delete:policies"; "read:private_keys";
   "read:scep"; "write:scep"; "read:settings"; "write:settings"; "delete:settings";
   "read:ssh"; "write:ssh"; "delete:ssh"; "read:ssh_cas"; "write:ssh_cas"; "delete:ssh_cas";
   "read:templates"; "write:templates"; "delete:templates";
   "read:truststore"; "write:truststore"; "delete:truststore";
   "read:user_certificates"; "write:user_certificates"; "delete:user_certificates";
   "read:users"; "read:wstep"; "write:wstep"; "read:xcep"; "write:xcep"]%string.

(** ** Rewriting stored permission lists *)

Definition _SSH_CA_SCOPES : list (string * string) :=
  [("read:ssh", "read:ssh_cas"); ("write:ssh", "write:ssh_cas");
   ("delete:ssh", "delete:ssh_cas")]%string.

Definition with_ssh_ca_scopes (perms : list string) : list string :=
  fold_left (fun out perm =>
    let out := if str_in perm out then out else out ++ [perm] in
    match dict_get _SSH_CA_SCOPES perm with
    | Some added => if negb (str_in added perms) && negb (str_in added out)
                    then out ++ [added] else out
    | None => out
    end) perms [].

Definition _LEGACY_RESOURCE_ALIASES : list (string * string) := [("certs", "certificates")]%string.

Definition normalize_permission (perm : string) : string :=
  match split_perm perm with
  | (_, None) => perm
  | (action, Some resource) =>
      (action ++ ":" ++ default resource (dict_get _LEGACY_RESOURCE_ALIASES resource))%string
  end.

(** ** Role inheritance *)

Definition MAX_ROLE_DEPTH : nat := 64.

Record CustomRole := {
  role_id : Z;
  role_permissions : option (list string);
  inherits_from : option Z;
}.

(* role.parent: the row [inherits_from] names, None when there is none *)
Definition role_parent (roles : gmap Z CustomRole) (role : CustomRole) : option CustomRole :=
  i ← inherits_from role; roles !! i.

(* [room] is MAX_ROLE_DEPTH - len(chain) *)
Fixpoint role_chain_from (roles : gmap Z CustomRole) (room : nat) (seen : list Z)
    (role : option CustomRole) : list CustomRole :=
  match role, room with
  | Some r, S room' =>
      if existsb (Z.eqb (role_id r)) seen then []
      else r :: role_chain_from roles room' (seen ++ [role_id r]) (role_parent roles r)
  | _, _ => []
  end.

Definition custom_role_chain (roles : gmap Z CustomRole) (role : option CustomRole)
    : list CustomRole :=
  role_chain_from roles MAX_ROLE_DEPTH [] role.

(* for perm in l: if perm in grantable and perm not in granted: granted.append(perm) *)
Definition grant (grantable : list string) (granted : list string) (perm : string)
    : list string :=
  if str_in perm grantable && negb (str_in perm granted) then granted ++ [perm] else granted.

Definition custom_role_permissions (roles : gmap Z CustomRole) (role : option CustomRole)
    : list string :=
  fold_left (fun granted link =>
      fold_left (fun granted perm =>
          grant CUSTOM_ROLE_GRANTABLE_PERMISSIONS granted (normalize_permission perm))
        (default [] (role_permissions link)) granted)
    (custom_role_chain roles role) [].

(** ** Effective permissions *)

Record User := {
  user_id : option Z;
  user_role : option string;
  custom_role_id : option Z;
}.

(* roles: the custom-role table, or None when it cannot be read *)
Definition get_custom_role_permissions (roles : option (gmap Z CustomRole)) (user : option User)
    : list string :=
  match user with
  | None => []
  | Some u =>
      match custom_role_id u with
      | None => []
      | Some 0%Z => []        (* not role_id *)
      | Some i => match roles with
                  | None => []
                  | Some t => custom_role_permissions t (t !! i)
                  end
      end
  end.

Definition get_role_permissions (role : option string) : list string :=
  match role with
  | None => []
  | Some r => default [] (dict_get ROLE_PERMISSIONS r)
  end.

(* rows: the permission list of each group of the user, or None when unreadable *)
Definition get_group_permissions (rows : option (list (list string))) (user : option User)
    : list string :=
  match user with
  | None => []
  | Some u =>
      match user_id u, rows with
      | Some _, Some rows =>
          fold_left (fun granted perms => fold_left (grant GROUP_GRANTABLE_PERMISSIONS) perms granted)
            rows []
      | _, _ => []
      end
  end.

(* perms += [p for p in extra if p not in perms] *)
Definition add_extra (perms extra : list string) : list string :=
  perms ++ List.filter (fun p => negb (str_in p perms)) extra.

Definition get_effective_permissions (roles : option (gmap Z CustomRole))
    (rows : option (list (list string))) (user : option User) : list string :=
  let perms := get_role_permissions (user ≫= user_role) in
  if str_in "*" perms then perms
  else add_extra (add_extra perms (get_custom_role_permissions roles user))
                 (get_group_permissions rows user).

(** ** The checks *)

(* permissions.has_permission(user_role, required) *)
Definition role_has_permission (role : option string) (required : string) : bool :=
  let permissions := get_role_permissions role in
  str_in "*" permissions || str_in required permissions ||
  let parts := if has_colon required then split ":" required else [required; "*"%string] in
  let action := default ""%string (parts !! 0) in
  let resource := if (1 <? length parts)%nat then default ""%string (parts !! 1) else "*"%string in
  existsb (fun perm => (perm =? action ++ ":*")%string || (perm =? "*:" ++ resource)%string)
    permissions.

(* unified.has_permission(required, user_permissions): what @require_auth calls *)
Definition has_permission (required : string) (user_permissions : list string) : bool :=
  str_in "*" user_permissions || str_in required user_permissions ||
  (has_colon required && str_in (perm_action required ++ ":*")%string user_permissions).

(* require_auth: every listed permission, unless '*' is held *)
Definition require_auth_allows (permissions user_perms : list string) : bool :=
  str_in "*" user_perms || forallb (fun perm => has_permission perm user_perms) permissions.

(* verify_api_key: the permissions of a key, re-bound to its owner's current ones *)
Definition rebind_matched (owner : list string) (perm : string) : list string :=
  if has_colon perm && endswith perm ":*" then
    List.filter (fun p => (p =? perm)%string || (perm_action p =? perm_action perm)%string) owner
  else if has_permission perm owner then [perm]
  else [].

Definition rebind_api_key (owner permissions : list string) : list string :=
  if str_in "*" owner then permissions
  else if str_in "*" permissions then owner
  else fold_left (fun rebound perm =>
         fold_left (append_new String.eqb) (rebind_matched owner perm) rebound) permissions [].

(** * Lemmas *)

#[local] Opaque ROLE_PERMISSIONS CUSTOM_ROLE_GRANTABLE_PERMISSIONS GROUP_GRANTABLE_PERMISSIONS.

(** [grant] only lets listed permissions in, once each. *)
Lemma grant_spec grantable granted perm :
  (forall p, p ∈ granted -> p ∈ grantable) -> NoDup granted ->
  (forall p, p ∈ grant grantable granted perm -> p ∈ grantable)
  /\ NoDup (grant grantable granted perm)
  /\ (forall p, p ∈ granted -> p ∈ grant grantable granted perm)
  /\ (perm ∈ grantable -> perm ∈ grant grantable granted perm).
Proof.
  intros Hsub Hnd. unfold grant.
  destruct (str_in perm grantable) eqn:E1; simpl.
  - apply str_in_spec in E1. destruct (str_in perm granted) eqn:E2; simpl.
    + apply str_in_spec in E2. done.
    + apply str_in_false in E2. split_and!.
      * intros p. rewrite elem_of_app, list_elem_of_singleton. intros [?| ->]; eauto.
      * apply NoDup_app. split_and!; [done| |apply NoDup_singleton]. set_solver.
      * set_solver.
      * set_solver.
  - apply str_in_false in E1. done.
Qed.

Lemma fold_grant_spec {A} (f : A -> string) grantable l : forall granted,
  (forall p, p ∈ granted -> p ∈ grantable) -> NoDup granted ->
  let out := fold_left (fun g x => grant grantable g (f x)) l granted in
  (forall p, p ∈ out -> p ∈ grantable) /\ NoDup out.
Proof.
  induction l as [|x l IH]; intros granted H1 H2; [done|]. cbn [fold_left].
  destruct (grant_spec grantable granted (f x) H1 H2) as (? & ? & _). by apply IH.
Qed.

Lemma fold_fold_grant_spec {A B} (f : A -> string) (g : B -> list A) grantable rows :
  forall granted,
  (forall p, p ∈ granted -> p ∈ grantable) -> NoDup granted ->
  let out := fold_left (fun gr row => fold_left (fun gr x => grant grantable gr (f x)) (g row) gr)
               rows granted in
  (forall p, p ∈ out -> p ∈ grantable) /\ NoDup out.
Proof.
  induction rows as [|r rows IH]; intros granted H1 H2; [done|]. cbn [fold_left].
  destruct (fold_grant_spec f grantable (g r) granted H1 H2) as (? & ?). by apply IH.
Qed.

Lemma custom_role_permissions_spec roles role :
  (forall p, p ∈ custom_role_permissions roles role -> p ∈ CUSTOM_ROLE_GRANTABLE_PERMISSIONS)
  /\ NoDup (custom_role_permissions roles role).
Proof.
  unfold custom_role_permissions.
  apply (fold_fold_grant_spec normalize_permission (fun link => default [] (role_permissions link))
           CUSTOM_ROLE_GRANTABLE_PERMISSIONS (custom_role_chain roles role) []);
    [set_solver|apply NoDup_nil_2].
Qed.

Lemma get_custom_role_permissions_spec roles user p :
  p ∈ get_custom_role_permissions roles user -> p ∈ CUSTOM_ROLE_GRANTABLE_PERMISSIONS.
Proof.
  unfold get_custom_role_permissions.
  repeat case_match; try (intros Hp; by apply not_elem_of_nil in Hp);
    apply custom_role_permissions_spec.
Qed.

Lemma get_group_permissions_spec rows user p :
  p ∈ get_group_permissions rows user -> p ∈ GROUP_GRANTABLE_PERMISSIONS.
Proof.
  unfold get_group_permissions.
  repeat case_match; try (intros Hp; by apply not_elem_of_nil in Hp).
  apply (fold_fold_grant_spec (fun p => p) (fun r => r) GROUP_GRANTABLE_PERMISSIONS _ []);
    [set_solver|apply NoDup_nil_2].
Qed.

Lemma add_extra_elem perms extra p : p ∈ add_extra perms extra <-> p ∈ perms \/ p ∈ extra.
Proof.
  unfold add_extra. rewrite elem_of_app, !list_elem_of_In, filter_In. split.
  - tauto.
  - intros [H|H]; [by left|]. destruct (str_in p perms) eqn:E; [|by right].
    left. by apply list_elem_of_In, str_in_spec.
Qed.

(** The three sources of permissions, checked entry by entry against the
    reserved ones. *)
Definition unreserved (p : string) : bool := negb (is_reserved_permission (VStr p)).

Lemma unreserved_tables :
  forallb unreserved CUSTOM_ROLE_GRANTABLE_PERMISSIONS = true
  /\ forallb unreserved GROUP_GRANTABLE_PERMISSIONS = true
  /\ forallb (fun kv => (kv.1 =? "admin")%string || forallb unreserved kv.2) ROLE_PERMISSIONS = true.
Proof. by vm_compute. Qed.

Lemma forallb_elem {A} (f : A -> bool) l x : forallb f l = true -> x ∈ l -> f x = true.
Proof. rewrite forallb_forall. intros H Hx. by apply H, list_elem_of_In. Qed.

Lemma role_permissions_unreserved role p :
  role <> Some "admin"%string -> p ∈ get_role_permissions role -> unreserved p = true.
Proof.
  intros Hne. unfold get_role_permissions. destruct role as [r|]; [|set_solver].
  destruct (dict_get ROLE_PERMISSIONS r) as [l|] eqn:E; simpl; [|set_solver].
  intros Hp. apply dict_get_In in E.
  destruct unreserved_tables as (_ & _ & HT).
  apply list_elem_of_In in E. apply (forallb_elem _ _ _ HT) in E.
  cbn [fst snd] in E. apply orb_true_iff in E as [E|E].
  - apply String.eqb_eq in E. congruence.
  - exact (forallb_elem _ _ _ E Hp).
Qed.

Lemma effective_unreserved roles rows user p :
  (user ≫= user_role) <> Some "admin"%string ->
  p ∈ get_effective_permissions roles rows user -> unreserved p = true.
Proof.
  intros Hne. unfold get_effective_permissions.
  destruct (str_in "*" _) eqn:E.
  - intros Hp. by eapply role_permissions_unreserved.
  - rewrite !add_extra_elem. destruct unreserved_tables as (HC & HG & _).
    intros [[Hp|Hp]|Hp].
    + by eapply role_permissions_unreserved.
    + apply get_custom_role_permissions_spec in Hp. exact (forallb_elem _ _ _ HC Hp).
    + apply get_group_permissions_spec in Hp. exact (forallb_elem _ _ _ HG Hp).
Qed.

Lemma unreserved_no_star p : unreserved p = true -> contains "*" p = false.
Proof. unfold unreserved, is_reserved_permission. intros H. by bools. Qed.

Lemma contains_star_app s : contains "*" (s ++ ":*") = true.
Proof.
  unfold contains. apply list_contains_spec. exists (chars s ++ [":"%char]), [].
  rewrite chars_app, <- app_assoc. done.
Qed.

(** Without a wildcard among the held permissions, only an exact match passes. *)
Lemma has_permission_exact required perms :
  (forall p, p ∈ perms -> contains "*" p = false) ->
  has_permission required perms = true -> required ∈ perms.
Proof.
  intros Hs. unfold has_permission. rewrite !orb_true_iff, andb_true_iff, !str_in_spec.
  intros [[H|H]|[_ H]]; [|done|]; apply Hs in H; [done|].
  by rewrite contains_star_app in H.
Qed.

Lemma fold_rebind_elem owner perms : forall out p,
  p ∈ fold_left (fun rebound perm =>
        fold_left (append_new String.eqb) (rebind_matched owner perm) rebound) perms out
  <-> p ∈ out \/ exists perm, perm ∈ perms /\ p ∈ rebind_matched owner perm.
Proof.
  induction perms as [|x perms IH]; intros out p; cbn [fold_left].
  - set_solver.
  - rewrite IH, fold_append_new_elem. set_solver.
Qed.

Lemma rebind_matched_elem owner perm p :
  p ∈ rebind_matched owner perm ->
  p ∈ owner \/ (p = perm /\ has_permission perm owner = true
                /\ has_colon perm && endswith perm ":*" = false).
Proof.
  unfold rebind_matched. destruct (has_colon perm && endswith perm ":*") eqn:E.
  - rewrite list_elem_of_In, filter_In. intros [H _]. left. by apply list_elem_of_In.
  - destruct (has_permission perm owner); set_solver.
Qed.

Lemma wildcard_shape s : has_colon (s ++ ":*") && endswith (s ++ ":*") ":*" = true.
Proof.
  apply andb_true_iff. split.
  - unfold has_colon, contains. apply list_contains_spec. exists (chars s), ["*"%char].
    by rewrite chars_app.
  - unfold endswith. apply list_prefix_spec. exists (rev (chars s)).
    by rewrite chars_app, rev_app_distr.
Qed.

#[local] Ltac empty_chain :=
  split_and!; try apply NoDup_nil_2; try (intros ? ?; by set_unfold); try (simpl; lia); try done.

(** What the walk up the inheritance chain produces from [role], with [seen] ids
    already visited and [room] levels left. *)
Lemma role_chain_from_spec roles room : forall seen role,
  let chain := role_chain_from roles room seen role in
  NoDup (role_id <$> chain)
  /\ (forall r, r ∈ chain -> role_id r ∉ seen)
  /\ (length chain <= room)%nat
  /\ head chain = (r ← role; if existsb (Z.eqb (role_id r)) seen then None
                            else match room with O => None | _ => Some r end)
  /\ (forall i a b, chain !! i = Some a -> chain !! S i = Some b -> role_parent roles a = Some b)
  /\ (forall a b, last chain = Some a -> (length chain < room)%nat ->
        role_parent roles a = Some b -> role_id b ∈ seen ++ (role_id <$> chain)).
Proof.
  induction room as [|room IH]; intros seen role.
  { destruct role as [r|]; cbn [role_chain_from]; empty_chain; simpl; by destruct (existsb _ _). }
  destruct role as [r|]; cbn [role_chain_from]; [|empty_chain].
  destruct (existsb (Z.eqb (role_id r)) seen) eqn:E; [empty_chain; simpl; by rewrite E|].
  assert (role_id r ∉ seen) as Hr.
  { intros Hin. apply not_true_iff_false in E. apply E, existsb_exists.
    exists (role_id r). split; [by apply list_elem_of_In | apply Z.eqb_refl]. }
  specialize (IH (seen ++ [role_id r]) (role_parent roles r)).
  set (tl := role_chain_from roles room (seen ++ [role_id r]) (role_parent roles r)) in *.
  destruct IH as (Hnd & Hseen & Hlen & Hhd & Hlink & Hlast).
  split_and!.
  - cbn [fmap list_fmap]. apply NoDup_cons. split; [|done].
    intros (r' & Heq & Hin)%list_elem_of_fmap. specialize (Hseen _ Hin). set_solver.
  - intros r' [->|Hin]%elem_of_cons; [done|]. specialize (Hseen _ Hin). set_solver.
  - simpl. lia.
  - simpl. by rewrite E.
  - intros [|i] a b Ha Hb; simpl in Ha, Hb; [|eauto]. simplify_eq.
    destruct tl as [|t tl'] eqn:Et; simplify_eq/=.
    destruct (role_parent roles a) as [q|]; [|done]. simpl in Hhd.
    destruct (existsb _ (seen ++ _)); [done|]. destruct room; congruence.
  - intros a b Ha Hl Hp. destruct tl as [|t tl'] eqn:Et.
    + simpl in Ha. simplify_eq. rewrite Hp in Hhd. simpl in Hhd, Hl.
      destruct (existsb (Z.eqb (role_id b)) (seen ++ [role_id a])) eqn:Eb.
      * apply existsb_exists in Eb as (x & Hx & ->%Z.eqb_eq). by apply list_elem_of_In in Hx.
      * destruct room; [lia|done].
    + rewrite last_cons_cons in Ha. specialize (Hlast a b Ha).
      cbn [fmap list_fmap] in *. rewrite <- app_assoc in Hlast.
      apply Hlast; [simpl in *; lia | done].
Qed.

Lemma ssh_scopes_fold all perms : forall out,
  NoDup out ->
  let res := fold_left (fun out perm =>
    let out := if str_in perm out then out else out ++ [perm] in
    match dict_get _SSH_CA_SCOPES perm with
    | Some added => if negb (str_in added all) && negb (str_in added out)
                    then out ++ [added] else out
    | None => out
    end) perms out in
  NoDup res
  /\ forall x, x ∈ res <-> x ∈ out \/ x ∈ perms
       \/ (exists p, p ∈ perms /\ dict_get _SSH_CA_SCOPES p = Some x /\ x ∉ all).
Proof.
  assert (forall (l : list string) x, NoDup l -> x ∉ l -> NoDup (l ++ [x])) as Hsnoc.
  { intros. apply NoDup_app. split_and!; [done|set_solver|apply NoDup_singleton]. }
  induction perms as [|p perms IH]; intros out Hnd; cbn [fold_left]; [set_solver|].
  set (out1 := if str_in p out then out else out ++ [p]).
  assert (NoDup out1 /\ forall x, x ∈ out1 <-> x ∈ out \/ x = p) as [Hnd1 Hin1].
  { subst out1. destruct (str_in p out) eqn:E.
    - apply str_in_spec in E. set_solver.
    - apply str_in_false in E. split; [by apply Hsnoc|set_solver]. }
  destruct (dict_get _SSH_CA_SCOPES p) as [added|] eqn:Ed.
  - destruct (negb (str_in added all) && negb (str_in added out1)) eqn:Ea.
    + bools. apply str_in_false in H, H0.
      destruct (IH (out1 ++ [added])) as [Hn Hx]; [by apply Hsnoc|]. split; [done|].
      intros x. rewrite Hx. set_solver.
    + destruct (IH out1 Hnd1) as [Hn Hx]. split; [done|]. intros x. rewrite Hx.
      apply andb_false_iff in Ea as [Ea|Ea]; apply negb_false_iff, str_in_spec in Ea; set_solver.
  - destruct (IH out1 Hnd1) as [Hn Hx]. split; [done|]. intros x. rewrite Hx. set_solver.
Qed.

(** * Properties *)

(** C38. An API key may narrow what its owner can do, never widen it: whatever a
    route requires, a key that passes has an owner whose current permissions
    pass, whatever scopes were stored in the key. *)
Theorem api_key_never_widens (owner stored : list string) (required : string) :
  has_permission required (rebind_api_key owner stored) = true ->
  has_permission required owner = true.
Proof.
  unfold rebind_api_key. destruct (str_in "*" owner) eqn:Eo.
  { intros _. unfold has_permission. by rewrite Eo. }
  destruct (str_in "*" stored) eqn:Es; [done|].
  set (rebound := fold_left _ _ _).
  assert (forall p, p ∈ rebound -> p ∈ owner \/ (has_permission p owner = true
            /\ p ∈ stored /\ has_colon p && endswith p ":*" = false)) as HR.
  { intros p Hp. apply fold_rebind_elem in Hp as [Hp|(q & Hq & Hp)]; [set_solver|].
    apply rebind_matched_elem in Hp as [?|(-> & ? & ?)]; [by left|by right]. }
  unfold has_permission at 1. rewrite !orb_true_iff, andb_true_iff, !str_in_spec.
  apply str_in_false in Eo, Es. intros [[H|H]|[Hc H]].
  - destruct (HR _ H) as [?|(_ & ? & _)]; done.
  - destruct (HR _ H) as [Ho|[? _]]; [|done].
    unfold has_permission. rewrite (proj2 (str_in_spec _ _) Ho).
    by rewrite !orb_true_r.
  - destruct (HR _ H) as [Ho|(_ & _ & Hw)].
    + unfold has_permission. rewrite Hc, (proj2 (str_in_spec _ _) Ho). by rewrite !orb_true_r.
    + by rewrite wildcard_shape in Hw.
Qed.

Lemma api_key_never_widens_witness :
  has_permission "read:cas" (rebind_api_key ["read:cas"; "read:crl"] ["read:*"; "write:cas"]) = true
  /\ has_permission "read:cas" ["read:cas"; "read:crl"] = true.
Proof.
  split; [reflexivity|].
  apply (api_key_never_widens _ ["read:*"; "write:cas"]%string). reflexivity.
Defined.

(** Nothing short of the admin role reaches what is reserved to
    administrators: whatever the custom-role and group tables hold, a route
    requiring a reserved permission (account, SSO, deployment, audit erasure,
    any wildcard or [admin:] scope) refuses a user of any other role. *)
Theorem reserved_needs_admin (roles : option (gmap Z CustomRole))
    (rows : option (list (list string))) (user : option User) (required : string) :
  (user ≫= user_role) <> Some "admin"%string ->
  is_reserved_permission (VStr required) = true ->
  has_permission required (get_effective_permissions roles rows user) = false.
Proof.
  intros Hne Hres. apply not_true_is_false. intros H.
  apply has_permission_exact in H.
  - apply effective_unreserved in H; [|done]. unfold unreserved in H. by rewrite Hres in H.
  - intros p Hp. apply unreserved_no_star. by eapply effective_unreserved.
Qed.

Definition demo_roles : gmap Z CustomRole :=
  {[ 7%Z := {| role_id := 7; role_permissions := Some ["write:users"; "read:audit"; "*"]%string;
              inherits_from := Some 7%Z |} ]}.
Definition demo_user : option User :=
  Some {| user_id := Some 3%Z; user_role := Some "viewer"%string; custom_role_id := Some 7%Z |}.

Lemma reserved_needs_admin_witness :
  has_permission "write:users"
    (get_effective_permissions (Some demo_roles) (Some [["*"; "write:users"]]%string) demo_user) = false
  /\ has_permission "read:audit"
    (get_effective_permissions (Some demo_roles) (Some [["*"; "write:users"]]%string) demo_user) = true.
Proof.
  split; [|vm_compute; reflexivity]. apply reserved_needs_admin; [discriminate|].
  vm_compute; reflexivity.
Defined.

(** C40. Walking up role inheritance terminates on every table, cycles included:
    the chain visits each role once, at most 64 of them, follows parent links,
    and stops early only at a role without a parent or whose parent was visited. *)
Theorem custom_role_chain_sound (roles : gmap Z CustomRole) (role : option CustomRole) :
  let chain := custom_role_chain roles role in
  NoDup (role_id <$> chain) /\ (length chain <= MAX_ROLE_DEPTH)%nat /\ head chain = role
  /\ (forall i a b, chain !! i = Some a -> chain !! S i = Some b -> role_parent roles a = Some b)
  /\ (forall a b, last chain = Some a -> (length chain < MAX_ROLE_DEPTH)%nat ->
        role_parent roles a = Some b -> role_id b ∈ role_id <$> chain).
Proof.
  intros chain. destruct (role_chain_from_spec roles MAX_ROLE_DEPTH [] role)
    as (H1 & _ & H3 & H4 & H5 & H6).
  split_and!; try done. unfold chain, custom_role_chain. rewrite H4. by destruct role.
Qed.

(** Restoring an archive older than the SSH-CA scopes keeps every stored
    permission, adds exactly the [X:ssh_cas] scope of each [X:ssh] held, and
    repeats nothing. *)
Theorem with_ssh_ca_scopes_spec (perms : list string) :
  NoDup (with_ssh_ca_scopes perms)
  /\ forall x, x ∈ with_ssh_ca_scopes perms
       <-> x ∈ perms \/ exists p, p ∈ perms /\ dict_get _SSH_CA_SCOPES p = Some x.
Proof.
  destruct (ssh_scopes_fold perms perms [] NoDup_nil_2) as [Hn Hx].
  split; [done|]. intros x. unfold with_ssh_ca_scopes. rewrite Hx.
  destruct (decide (x ∈ perms)); set_solver.
Qed.
