(* ===== verification/DomainMatch.v ===== *)
(** * DomainMatch: which registered entry covers a domain

    Models [backend/services/acme/domain_match.py]: the validation of an entry,
    the bare form of a domain, the stored spellings that cover it, the most
    specific row covering it, and the wildcard refusal. A table is the list of
    its rows in the order the query returns them; the SQL [IN] is string
    equality. *)

From Stdlib Require Import Ascii String Sorted.
From stdpp Require Import prelude strings.
From S2P Require Import Prelude Scalars.

Definition _WILDCARD : string := "*.".

Definition is_label_char (c : ascii) : bool := is_alnum c || Ascii.eqb c "-".

(* label[0] != '-' and label[-1] != '-' *)
Definition no_edge_hyphen (l : list ascii) : bool :=
  match head l, last l with
  | Some a, Some b => negb (Ascii.eqb a "-") && negb (Ascii.eqb b "-")
  | _, _ => true
  end.

Definition _is_label (label : string) : bool :=
  (0 <? slen label)%nat && (slen label <=? 63)%nat
  && all_chars is_label_char label && no_edge_hyphen (chars label).

Definition strip_wildcard (s : string) : string :=
  if startswith s _WILDCARD then sdrop 2 s else s.

Definition is_valid_entry (domain : option string) (allow_single_label : bool) : bool :=
  match domain with
  | None | Some "" => false
  | Some d =>
      let labels := split "." (strip_wildcard d) in
      if (length labels <? (if allow_single_label then 1 else 2))%nat then false
      else if negb (forallb _is_label labels) then false
      else match last labels with
           | Some top => (2 <=? slen top)%nat && isalpha top
           | None => false
           end
  end.

Definition normalize (domain : option string) : string :=
  match domain with
  | None | Some "" => ""
  | Some d =>
      let bare := rstrip_char "." (strip_wildcard (lower (strip d))) in
      if contains "*" bare then "" else bare
  end.

(* '.'.join(parts[index:]) for each index, both spellings of each level *)
Fixpoint levels (parts : list string) : list string :=
  match parts with
  | [] => []
  | _ :: parts' => join "." parts :: levels parts'
  end.

Definition candidates (domain : option string) : list string :=
  let bare := normalize domain in
  if nonempty bare
  then concat ((fun level => [level; (_WILDCARD ++ level)%string]) <$> levels (split "." bare))
  else [].

Record domain_row := {
  row_domain : option string;
  auto_approve : bool;
  is_wildcard_allowed : option bool;
  issuing_ca_id : option Z;
}.

(* min(rows, key=...): the first row of least key *)
Fixpoint min_by (key : domain_row -> nat) (best : domain_row) (rows : list domain_row)
    : domain_row :=
  match rows with
  | [] => best
  | r :: rows' => min_by key (if (key r <? key best)%nat then r else best) rows'
  end.

Definition rank_of (wanted : list string) (name : string) : nat :=
  default (length wanted) (dict_get (zip wanted (seq 0 (length wanted))) name).

Definition row_rank (wanted : list string) (row : domain_row) : nat :=
  rank_of wanted (lower (default "" (row_domain row))).

Definition row_matches (wanted : list string) (row : domain_row) : bool :=
  match row_domain row with None => false | Some d => str_in d wanted end.

Definition find (table : list domain_row) (domain : option string) : option domain_row :=
  let wanted := candidates domain in
  match wanted with
  | [] => None
  | _ => match List.filter (row_matches wanted) table with
         | [] => None
         | r :: rows => Some (min_by (row_rank wanted) r rows)
         end
  end.

(* the value of each identifier, None when it is not a string *)
Definition wildcard_refused (acme_domains : list domain_row) (values : list (option string))
    : list string :=
  omap (fun value =>
    v ← value;
    if startswith v _WILDCARD then
      entry ← find acme_domains (Some v);
      match is_wildcard_allowed entry with Some false => Some v | _ => None end
    else None) values.

(** * Lemmas *)

(** The zones above a name, as character lists. *)
Lemma levels_chars parts z :
  Forall (fun w => "."%char ∉ w) (chars <$> parts) -> parts <> [] ->
  (z ∈ levels parts <->
   z = join "." parts \/ exists p, join "." parts = (p ++ "." ++ z)%string).
Proof.
  intros Hdot Hne. revert z. induction parts as [|w parts IH]; [done|]. intros z.
  cbn [levels]. rewrite elem_of_cons. inversion Hdot as [|? ? Hw Hrest]; subst.
  destruct parts as [|v parts].
  - simpl. split; [intros [?|H]; [by left|by apply not_elem_of_nil in H]|].
    intros [?|[p Hp]]; [by left|]. exfalso. apply Hw.
    rewrite Hp, !chars_app, !elem_of_app. right. left. by left.
  - specialize (IH Hrest ltac:(done)). rewrite IH.
    change (join "." (w :: v :: parts)) with (w ++ "." ++ join "." (v :: parts))%string.
    set (rest := join "." (v :: parts)). clearbody rest. clear IH. split.
    + intros [?|[->|[p Hp]]]; [by left|right; by exists w|right].
      exists (w ++ "." ++ p)%string. rewrite Hp. apply chars_inj.
      rewrite !chars_app, <- !app_assoc. done.
    + intros [?|[p Hp]]; [by left|right].
      apply (f_equal chars) in Hp. rewrite !chars_app in Hp.
      change (chars ".") with ["."%char] in Hp.
      apply app_eq_inv in Hp as [(k & Hw' & Hk)|(k & Hp' & Hk)].
      * destruct k as [|c k].
        -- left. apply chars_inj. cbn in Hk. congruence.
        -- cbn in Hk. simplify_eq. exfalso. apply Hw. rewrite Hw'. set_solver.
      * destruct k as [|c k].
        -- left. apply chars_inj. cbn in Hk. congruence.
        -- cbn in Hk. injection Hk as <- Hk. right. exists (unchars k). apply chars_inj.
           rewrite !chars_app, chars_unchars. done.
Qed.

Lemma split_no_dot s : Forall (fun w => "."%char ∉ w) (chars <$> split "." s).
Proof.
  apply Forall_fmap, Forall_fmap, Forall_forall. intros w Hw. simpl.
  rewrite chars_unchars. by eapply split_chars_no_sep.
Qed.

Lemma split_nonempty c s : split c s <> [].
Proof. unfold split. intros H%fmap_nil_inv. by apply split_chars_nonempty in H. Qed.

Lemma levels_split z bare :
  z ∈ levels (split "." bare) <->
  z = bare \/ exists p, bare = (p ++ "." ++ z)%string.
Proof.
  rewrite levels_chars by (apply split_no_dot || apply split_nonempty).
  by rewrite (join_split "." bare).
Qed.

(** The characters of a zone above [bare] all occur in [bare]. *)
Lemma level_chars_incl z bare c :
  z ∈ levels (split "." bare) -> c ∈ chars z -> c ∈ chars bare.
Proof.
  rewrite levels_split. intros [->|[p ->]]; [done|]. rewrite !chars_app. set_solver.
Qed.

Lemma elem_of_drop_while {A} (p : A -> bool) l c : c ∈ drop_while p l -> c ∈ l.
Proof.
  induction l as [|x l IH]; simpl; [done|]. destruct (p x); [|done].
  intros H. right. auto.
Qed.

Lemma elem_of_rstrip c k s : c ∈ chars (rstrip_char k s) -> c ∈ chars s.
Proof.
  unfold rstrip_char, rstrip_by. rewrite chars_unchars.
  rewrite list_elem_of_In, <- in_rev, <- list_elem_of_In. intros H%elem_of_drop_while.
  by rewrite list_elem_of_In, <- in_rev, <- list_elem_of_In in H.
Qed.

Lemma elem_of_sdrop c n s : c ∈ chars (sdrop n s) -> c ∈ chars s.
Proof.
  unfold sdrop. rewrite chars_unchars. intros H.
  rewrite <- (take_drop n (chars s)). apply elem_of_app. by right.
Qed.

Lemma normalize_chars d c :
  c ∈ chars (normalize d) -> lower_char c = c /\ c <> "*"%char.
Proof.
  unfold normalize. destruct d as [[|a s]|]; [by intros ?%not_elem_of_nil| |by intros ?%not_elem_of_nil].
  set (bare := rstrip_char _ _). destruct (contains "*" bare) eqn:E; [by intros ?%not_elem_of_nil|].
  intros Hc. split.
  - apply elem_of_rstrip in Hc. unfold strip_wildcard in Hc.
    assert (c ∈ chars (lower (strip (String a s)))) as Hl
      by (destruct (startswith _ _); [by apply elem_of_sdrop in Hc|done]).
    unfold lower in Hl. rewrite chars_smap in Hl.
    apply list_elem_of_fmap in Hl as (c0 & -> & _). apply lower_char_idemp.
  - intros ->. apply not_true_iff_false in E. apply E. unfold contains.
    apply list_contains_spec. apply list_elem_of_split in Hc as (l1 & l2 & ->).
    by exists l1, l2.
Qed.

Lemma lower_fix s : (forall c, c ∈ chars s -> lower_char c = c) -> lower s = s.
Proof.
  intros H. apply chars_inj. unfold lower. rewrite chars_smap.
  induction (chars s) as [|c l IH]; [done|]. cbn [fmap list_fmap].
  rewrite H by by left. f_equal. apply IH. intros c' Hc'. apply H. by right.
Qed.

Lemma elem_of_candidates d x :
  x ∈ candidates d <->
  normalize d <> ""%string /\
  exists z, z ∈ levels (split "." (normalize d)) /\ (x = z \/ x = ("*." ++ z)%string).
Proof.
  unfold candidates. destruct (nonempty (normalize d)) eqn:E.
  - rewrite list_elem_of_In, in_concat. split.
    + intros (l & Hl & Hx). apply list_elem_of_In, list_elem_of_fmap in Hl as (z & -> & Hz).
      split; [by intros Hn; rewrite Hn in E|]. exists z. split; [done|].
      simpl in Hx. destruct_or!; auto.
    + intros (_ & z & Hz & Hx). exists [z; (_WILDCARD ++ z)%string].
      split; [by apply list_elem_of_In, list_elem_of_fmap; exists z|].
      simpl. destruct Hx as [->| ->]; auto.
  - split; [by intros ?%not_elem_of_nil|]. intros [H _].
    destruct (normalize d); done.
Qed.

Lemma candidate_lower d x : x ∈ candidates d -> lower x = x.
Proof.
  intros (_ & z & Hz & Hx)%elem_of_candidates.
  assert (lower z = z) as Hl.
  { apply lower_fix. intros c Hc. eapply level_chars_incl in Hc; [|done].
    by apply normalize_chars in Hc as [? _]. }
  destruct Hx as [->| ->]; [done|]. apply chars_inj. unfold lower in *.
  apply (f_equal chars) in Hl. rewrite chars_smap in Hl.
  rewrite chars_smap, chars_app, fmap_app, Hl. done.
Qed.

(** The zone an entry names, whichever spelling it uses. *)
Lemma strip_wildcard_star z : strip_wildcard ("*." ++ z) = z.
Proof.
  unfold strip_wildcard.
  rewrite (proj2 (startswith_spec _ _)) by (by exists z).
  unfold sdrop. rewrite chars_app. apply unchars_chars.
Qed.

Lemma strip_wildcard_plain z : "*"%char ∉ chars z -> strip_wildcard z = z.
Proof.
  intros H. unfold strip_wildcard. destruct (startswith z _WILDCARD) eqn:E; [|done].
  apply startswith_spec in E as [t ->]. exfalso. apply H. rewrite chars_app. set_solver.
Qed.

Lemma levels_shorter parts z : z ∈ levels parts -> (slen z <= slen (join "." parts))%nat.
Proof.
  induction parts as [|w parts IH]; cbn [levels]; [by intros ?%not_elem_of_nil|].
  intros [->|H]%elem_of_cons; [done|]. specialize (IH H).
  destruct parts as [|v parts]; [by apply not_elem_of_nil in H|].
  change (join "." (w :: v :: parts)) with (w ++ "." ++ join "." (v :: parts))%string.
  unfold slen in *. rewrite !chars_app, !length_app. lia.
Qed.

Definition zone_len (x : string) : nat := slen (strip_wildcard x).
Definition less_specific (x y : string) : Prop := (zone_len y <= zone_len x)%nat.

Lemma candidates_sorted parts :
  (forall z, z ∈ levels parts -> "*"%char ∉ chars z) ->
  StronglySorted less_specific
    (concat ((fun level => [level; (_WILDCARD ++ level)%string]) <$> levels parts)).
Proof.
  induction parts as [|w parts IH]; intros Hs; [constructor|].
  cbn [levels fmap list_fmap concat] in *.
  set (top := join "." (w :: parts)) in *.
  assert (zone_len top = slen top) as Ht
    by (unfold zone_len; rewrite strip_wildcard_plain; [done|apply Hs; by left]).
  assert (zone_len (_WILDCARD ++ top) = slen top) as Hw
    by (unfold zone_len; by rewrite strip_wildcard_star).
  assert (Forall (fun y => (zone_len y <= slen top)%nat)
    (concat ((fun level => [level; (_WILDCARD ++ level)%string]) <$> levels parts))) as HF.
  { apply Forall_forall. intros y (l & Hl & Hy)%list_elem_of_In%in_concat.
    apply list_elem_of_In, list_elem_of_fmap in Hl as (z & -> & Hz).
    assert (slen z <= slen top)%nat as Hle by (apply levels_shorter; by right).
    unfold zone_len. simpl in Hy. destruct_or!; subst; [|by rewrite strip_wildcard_star].
    rewrite strip_wildcard_plain; [done|]. apply Hs. by right. }
  repeat constructor; unfold less_specific; rewrite ?Ht, ?Hw; try done; try lia.
  apply IH. intros z Hz. apply Hs. by right.
Qed.

Lemma sorted_lookup {A} (R : A -> A -> Prop) l : forall i j x y,
  (forall z, R z z) -> StronglySorted R l ->
  l !! i = Some x -> l !! j = Some y -> (i <= j)%nat -> R x y.
Proof.
  induction l as [|a l IH]; intros i j x y Hrefl HS Hi Hj Hij; [done|].
  inversion HS as [|? ? HS' HF]; subst. destruct i as [|i], j as [|j]; simplify_eq/=.
  - apply Hrefl.
  - rewrite Forall_forall in HF. apply HF. by eapply list_elem_of_lookup_2.
  - lia.
  - eapply IH; eauto. lia.
Qed.

Lemma rank_of_lookup wanted x :
  x ∈ wanted -> wanted !! rank_of wanted x = Some x.
Proof.
  intros Hx. unfold rank_of.
  destruct (dict_get _ x) as [i|] eqn:E.
  - apply dict_get_In, list_elem_of_In, list_elem_of_lookup in E as (j & Hj).
    apply lookup_zip_Some in Hj as [H1 H2]. apply lookup_seq in H2 as [-> _]. done.
  - exfalso. unfold dict_get in E. apply fmap_None in E.
    apply list_elem_of_lookup in Hx as (i & Hi).
    assert (In (x, i) (zip wanted (seq 0 (length wanted)))) as Hin.
    { apply list_elem_of_In, list_elem_of_lookup. exists i. apply lookup_zip_Some.
      split; [done|]. apply lookup_seq. split; [done|]. by eapply lookup_lt_Some. }
    apply in_rev in Hin. apply (List.find_none _ _ E) in Hin. simpl in Hin.
    by rewrite String.eqb_refl in Hin.
Qed.

Lemma min_by_spec key rows : forall best,
  let m := min_by key best rows in
  (m = best \/ m ∈ rows) /\ (key m <= key best)%nat
  /\ forall r, r ∈ rows -> (key m <= key r)%nat.
Proof.
  induction rows as [|r rows IH]; intros best; cbn [min_by].
  { split_and!; [by left|done|by intros r ?%not_elem_of_nil]. }
  specialize (IH (if (key r <? key best)%nat then r else best)).
  set (m := min_by key _ rows) in *. destruct IH as (Hm & Hb & Hr).
  destruct (Nat.ltb_spec (key r) (key best)).
  - split_and!; [destruct Hm; set_solver|lia|].
    intros r' [->|?]%elem_of_cons; eauto.
  - split_and!; [destruct Hm; set_solver|lia|].
    intros r' [->|?]%elem_of_cons; [lia|eauto].
Qed.

(** * Properties *)

(** The spellings that cover a domain are exactly those of the zones above
    it: the bare domain itself or what follows one of its dots, written plain or
    with a leading wildcard label. *)
Theorem candidates_cover (d : option string) (x : string) :
  x ∈ candidates d <->
  normalize d <> ""%string /\
  exists z, (z = normalize d \/ exists p, normalize d = (p ++ "." ++ z)%string)
            /\ (x = z \/ x = ("*." ++ z)%string).
Proof.
  rewrite elem_of_candidates. split; intros (Hn & z & Hz & Hx); (split; [done|]);
    exists z; (split; [by apply levels_split|done]).
Qed.

(** The row found for a domain is registered, covers it, and is the most
    specific one: no registered row covering the domain names a longer zone. A
    row is found whenever one covers the domain. *)
Theorem find_most_specific (table : list domain_row) (d : option string) :
  match find table d with
  | None => forall r x, r ∈ table -> row_domain r = Some x -> x ∉ candidates d
  | Some r => r ∈ table /\ exists x, row_domain r = Some x /\ x ∈ candidates d
      /\ forall r' x', r' ∈ table -> row_domain r' = Some x' -> x' ∈ candidates d ->
         (zone_len x' <= zone_len x)%nat
  end.
Proof.
  unfold find. destruct (candidates d) as [|w ws] eqn:Ec; [by intros ???? ?%not_elem_of_nil|].
  rewrite <- Ec in *. clear w ws Ec.
  assert (forall r, r ∈ List.filter (row_matches (candidates d)) table <->
            r ∈ table /\ exists x, row_domain r = Some x /\ x ∈ candidates d) as HF.
  { intros r. rewrite !list_elem_of_In, filter_In. unfold row_matches.
    destruct (row_domain r) as [x|]; [rewrite str_in_spec|]; naive_solver. }
  destruct (List.filter _ table) as [|r rows] eqn:E.
  { intros r x Hr Hx Hin. apply (not_elem_of_nil r), (proj2 (HF r)). eauto. }
  destruct (min_by_spec (row_rank (candidates d)) rows r) as (Hm & Hbest & Hall).
  set (m := min_by _ r rows) in *.
  destruct (proj1 (HF m)) as (Hmt & x & Hx & Hxc); [set_solver|].
  split; [done|]. exists x. split_and!; [done..|]. intros r' x' Hr' Hx' Hc'.
  assert (row_rank (candidates d) m <= row_rank (candidates d) r')%nat as Hle.
  { assert (r' ∈ r :: rows) as [->|?]%elem_of_cons by (apply (proj2 (HF r')); eauto); eauto. }
  unfold row_rank in Hle. rewrite Hx, Hx' in Hle. simpl in Hle.
  rewrite (candidate_lower d x), (candidate_lower d x') in Hle by done.
  assert (StronglySorted less_specific (candidates d)) as HS.
  { unfold candidates. destruct (nonempty _); [|constructor]. apply candidates_sorted.
    intros z Hz Hin. eapply level_chars_incl in Hin; [|done].
    by apply normalize_chars in Hin as [_ ?]. }
  change (less_specific x x').
  eapply (sorted_lookup less_specific (candidates d)); [by intros ?; unfold less_specific|done
    |by apply rank_of_lookup|by apply rank_of_lookup|done].
Qed.

(** Both wildcard spellings name one zone: a domain and its wildcard form
    are covered by the same rows, so an entry registered either way is found
    for both. *)
Theorem find_wildcard_spelling (table : list domain_row) (s : string) :
  s <> ""%string -> strip s = s -> strip ("*." ++ s) = ("*." ++ s)%string ->
  "*"%char ∉ chars s ->
  find table (Some ("*." ++ s)%string) = find table (Some s).
Proof.
  intros Hne Hs Hws Hstar. unfold find, candidates.
  assert (normalize (Some ("*." ++ s)%string) = normalize (Some s)) as ->; [|done].
  unfold normalize. destruct s as [|c s]; [done|].
  change ("*." ++ String c s)%string with (String "*" (String "." (String c s))) in *.
  rewrite Hs, Hws.
  assert (strip_wildcard (lower (String "*" (String "." (String c s)))) = lower (String c s)) as ->.
  { change (lower (String "*" (String "." (String c s))))
      with ("*." ++ lower (String c s))%string. apply strip_wildcard_star. }
  rewrite (strip_wildcard_plain (lower (String c s))); [done|].
  unfold lower. rewrite chars_smap. intros (c0 & E & Hc)%list_elem_of_fmap.
  assert (c0 = "*"%char) as -> by (revert E; clear; by_chars c0). done.
Qed.

Definition demo_table : list domain_row :=
  [{| row_domain := Some "lan"%string; auto_approve := false;
      is_wildcard_allowed := None; issuing_ca_id := Some 1%Z |};
   {| row_domain := Some "*.prod.lan"%string; auto_approve := true;
      is_wildcard_allowed := None; issuing_ca_id := Some 2%Z |}].

Lemma find_wildcard_spelling_witness :
  find demo_table (Some "*.prod.lan"%string) = find demo_table (Some "prod.lan"%string)
  /\ find demo_table (Some "prod.lan"%string) = demo_table !! 1.
Proof.
  split; [|reflexivity]. apply (find_wildcard_spelling demo_table "prod.lan");
    [discriminate|reflexivity|reflexivity|]. apply (bool_decide_unpack _). reflexivity.
Defined.
