(* ===== verification/AcmeModel.v ===== *)
(** * AcmeModel: the rows of the ACME server and the session that writes them

    Data of [backend/models/acme_models.py] (orders, authorizations,
    challenges) and the effects the service code has on them: a SQLAlchemy
    session over a database, in which [commit] may fail and roll back, and the
    random tokens of [secrets.token_urlsafe].

    A table is the list of its rows in insertion (primary-key) order. A row's
    integer key and public random id are one number, drawn fresh. JSON columns
    hold the value they encode. An instant is an integer number of microseconds
    and each operation reads the clock once. *)

From Stdlib Require Import Ascii String.
From stdpp Require Import prelude strings.
From S2P Require Import Prelude Scalars DomainMatch.

Local Open Scope Z_scope.

(** ** Rows *)

Inductive order_status := OPending | OReady | OProcessing | OValid | OInvalid.
Inductive authz_status := APending | AValid | AInvalid | ADeactivated.
Inductive chall_status := CPending | CProcessing | CValid | CInvalid.
Inductive chall_type := http_01 | dns_01 | dns_persist_01 | tls_alpn_01.

#[export] Instance order_status_eq_dec : EqDecision order_status.
Proof. solve_decision. Defined.
#[export] Instance authz_status_eq_dec : EqDecision authz_status.
Proof. solve_decision. Defined.
#[export] Instance chall_status_eq_dec : EqDecision chall_status.
Proof. solve_decision. Defined.
#[export] Instance chall_type_eq_dec : EqDecision chall_type.
Proof. solve_decision. Defined.

Record identifier := { id_type : string; id_value : string }.
#[export] Instance identifier_eq_dec : EqDecision identifier.
Proof. solve_decision. Defined.

(* {'type': ..., 'detail': ...} and, on an order, the subproblems *)
Record problem := { p_type : string; p_detail : string }.
Record order_problem := {
  op_problem : problem;
  op_subproblems : list (problem * identifier);
}.

Record AcmeOrder := {
  order_id : nat;
  o_account : string;
  o_status : order_status;
  identifiers : list identifier;
  o_not_before : option Z;
  o_not_after : option Z;
  o_replaces : option string;
  o_profile : option string;
  o_error : option order_problem;
  o_csr : option string;
  o_certificate_id : option Z;
  o_expires : Z;
}.

Record AcmeAuthorization := {
  authorization_id : nat;
  a_order : option nat;
  a_account : option string;
  a_identifier : identifier;
  a_status : authz_status;
  a_expires : Z;
  a_wildcard : bool;
}.

Record AcmeChallenge := {
  challenge_id : nat;
  c_authz : nat;
  c_type : chall_type;
  c_status : chall_status;
  c_token : string;
  c_url : string;
  c_validated : option Z;
  c_error : option problem;
}.

(** ** Attribute writes *)

Definition set_o_status (s : order_status) (o : AcmeOrder) : AcmeOrder :=
  {| order_id := order_id o; o_account := o_account o; o_status := s;
     identifiers := identifiers o; o_not_before := o_not_before o; o_not_after := o_not_after o;
     o_replaces := o_replaces o; o_profile := o_profile o; o_error := o_error o;
     o_csr := o_csr o; o_certificate_id := o_certificate_id o; o_expires := o_expires o |}.

Definition set_o_error (e : order_problem) (o : AcmeOrder) : AcmeOrder :=
  {| order_id := order_id o; o_account := o_account o; o_status := o_status o;
     identifiers := identifiers o; o_not_before := o_not_before o; o_not_after := o_not_after o;
     o_replaces := o_replaces o; o_profile := o_profile o; o_error := Some e;
     o_csr := o_csr o; o_certificate_id := o_certificate_id o; o_expires := o_expires o |}.

Definition set_o_issued (csr : string) (cert : Z) (o : AcmeOrder) : AcmeOrder :=
  {| order_id := order_id o; o_account := o_account o; o_status := OValid;
     identifiers := identifiers o; o_not_before := o_not_before o; o_not_after := o_not_after o;
     o_replaces := o_replaces o; o_profile := o_profile o; o_error := o_error o;
     o_csr := Some csr; o_certificate_id := Some cert; o_expires := o_expires o |}.

Definition set_a_status (s : authz_status) (a : AcmeAuthorization) : AcmeAuthorization :=
  {| authorization_id := authorization_id a; a_order := a_order a; a_account := a_account a;
     a_identifier := a_identifier a; a_status := s; a_expires := a_expires a;
     a_wildcard := a_wildcard a |}.

Definition set_c_valid (now : Z) (c : AcmeChallenge) : AcmeChallenge :=
  {| challenge_id := challenge_id c; c_authz := c_authz c; c_type := c_type c;
     c_status := CValid; c_token := c_token c; c_url := c_url c;
     c_validated := Some now; c_error := c_error c |}.

Definition set_c_invalid (p : problem) (c : AcmeChallenge) : AcmeChallenge :=
  {| challenge_id := challenge_id c; c_authz := c_authz c; c_type := c_type c;
     c_status := CInvalid; c_token := c_token c; c_url := c_url c;
     c_validated := c_validated c; c_error := Some p |}.

(** ** Tables *)

Record db := {
  orders : list AcmeOrder;
  authzs : list AcmeAuthorization;
  challs : list AcmeChallenge;
}.

Definition empty_db : db := {| orders := []; authzs := []; challs := [] |}.

Definition with_orders (f : list AcmeOrder -> list AcmeOrder) (d : db) : db :=
  {| orders := f (orders d); authzs := authzs d; challs := challs d |}.
Definition with_authzs (f : list AcmeAuthorization -> list AcmeAuthorization) (d : db) : db :=
  {| orders := orders d; authzs := f (authzs d); challs := challs d |}.
Definition with_challs (f : list AcmeChallenge -> list AcmeChallenge) (d : db) : db :=
  {| orders := orders d; authzs := authzs d; challs := f (challs d) |}.

(* UPDATE ... WHERE: change the rows that satisfy p, count is left to the caller *)
Definition update_where {A} (p : A -> bool) (f : A -> A) (l : list A) : list A :=
  (fun r => if p r then f r else r) <$> l.

Definition is_order (i : nat) (o : AcmeOrder) : bool := Nat.eqb (order_id o) i.
Definition is_authz (i : nat) (a : AcmeAuthorization) : bool := Nat.eqb (authorization_id a) i.
Definition is_chall (i : nat) (c : AcmeChallenge) : bool := Nat.eqb (challenge_id c) i.

Definition find_order (d : db) (i : nat) : option AcmeOrder := List.find (is_order i) (orders d).
Definition find_authz (d : db) (i : nat) : option AcmeAuthorization :=
  List.find (is_authz i) (authzs d).
Definition find_chall (d : db) (i : nat) : option AcmeChallenge :=
  List.find (is_chall i) (challs d).

(* order.authorizations and authorization.challenges *)
Definition belongs_to (oid : nat) (a : AcmeAuthorization) : bool :=
  bool_decide (a_order a = Some oid).
Definition order_authzs (d : db) (oid : nat) : list AcmeAuthorization :=
  List.filter (belongs_to oid) (authzs d).
Definition authz_challs (d : db) (aid : nat) : list AcmeChallenge :=
  List.filter (fun c => Nat.eqb (c_authz c) aid) (challs d).

Definition update_order (i : nat) (f : AcmeOrder -> AcmeOrder) (d : db) : db :=
  with_orders (update_where (is_order i) f) d.
Definition update_authz (i : nat) (f : AcmeAuthorization -> AcmeAuthorization) (d : db) : db :=
  with_authzs (update_where (is_authz i) f) d.
Definition update_chall (i : nat) (f : AcmeChallenge -> AcmeChallenge) (d : db) : db :=
  with_challs (update_where (is_chall i) f) d.

(** ** The session *)

Inductive py_error :=
| CommitFailed              (* db.session.commit() raised *)
| StaleData                 (* the row to write is gone *)
| PyError (msg : string).   (* any other exception *)

Record world := {
  committed : db;          (* what the database holds *)
  session : db;            (* what this session sees: committed plus its own writes *)
  commits : list bool;     (* outcomes of the commits to come; past the end they succeed *)
  draws : nat;             (* ids and tokens drawn so far *)
}.

Definition M (A : Type) : Type := world -> result py_error A * world.

#[export] Instance M_ret : MRet M := fun A a w => (Ok a, w).
#[export] Instance M_bind : MBind M := fun A B k c w =>
  match c w with
  | (Ok a, w') => k a w'
  | (Raise e, w') => (Raise e, w')
  end.

Definition gets {A} (f : db -> A) : M A := fun w => (Ok (f (session w)), w).
Definition modify (f : db -> db) : M unit := fun w =>
  (Ok tt, {| committed := committed w; session := f (session w);
             commits := commits w; draws := draws w |}).
Definition rollback : M unit := fun w =>
  (Ok tt, {| committed := committed w; session := committed w;
             commits := commits w; draws := draws w |}).
(* try: db.session.commit() except: db.session.rollback(); raise *)
Definition commit : M unit := fun w =>
  match commits w with
  | false :: l => (Raise CommitFailed,
      {| committed := committed w; session := committed w; commits := l; draws := draws w |})
  | l => (Ok tt,
      {| committed := session w; session := session w; commits := tail l; draws := draws w |})
  end.
Definition draw : M nat := fun w =>
  (Ok (draws w), {| committed := committed w; session := session w;
                    commits := commits w; draws := S (draws w) |}).
Definition raise {A} (e : py_error) : M A := fun w => (Raise e, w).
Definition try_except {A} (body : M A) (handler : py_error -> M A) : M A := fun w =>
  match body w with
  | (Ok a, w') => (Ok a, w')
  | (Raise e, w') => handler e w'
  end.
(* str(e) *)
Definition err_text (e : py_error) : string :=
  match e with
  | CommitFailed => "commit failed"
  | StaleData => "stale data"
  | PyError m => m
  end.

Fixpoint mapM_ {A} (f : A -> M unit) (l : list A) : M unit :=
  match l with
  | [] => mret tt
  | x :: l' => f x ;; mapM_ f l'
  end.

(** ** What the deployment configures *)

(* secrets.token_urlsafe: the text of the n-th draw *)
Class Randomness := { token_urlsafe : nat -> string }.

Record config := {
  local_domains : list domain_row;   (* acme_local_domains *)
  acme_domains : list domain_row;    (* acme_domains *)
  dns_persist_enabled : bool;
  base_url : string;
}.

(* 7 days *)
Definition week : Z := 7 * day_us.
