(* ===== verification/AcmeOrders.v ===== *)
(** * AcmeOrders: orders, authorizations and their life cycle

    Models [backend/services/acme/mixins/order.py]: creation of an order with
    its authorizations and challenges (reuse of a valid authorization,
    auto-approved domains, wildcard and IP rules), pre-authorization, lazy
    expiry, deactivation, and the ready/processing hand-over of finalize.

    [_create_authorization] commits once per identifier, before the order as a
    whole is complete: the model keeps every commit where the code has it. The
    audit entries written after a commit do not touch these tables and are left
    out. *)

From Stdlib Require Import Ascii String.
From stdpp Require Import prelude strings.
From S2P Require Import Prelude Scalars DomainMatch AcmeModel.

Local Open Scope Z_scope.

Definition EXPIRED_AUTHORIZATION_DETAIL : string := "Authorization has expired".

Definition _problem_data (error_type detail : string) : problem :=
  {| p_type := "urn:ietf:params:acme:error:" ++ error_type; p_detail := detail |}.

Definition plain (p : problem) : order_problem := {| op_problem := p; op_subproblems := [] |}.
Definition _problem (error_type detail : string) : order_problem :=
  plain (_problem_data error_type detail).

(** ** Creation *)

Definition _normalize_authorization_identifier (i : identifier) : identifier * bool :=
  let is_wildcard := (id_type i =? "dns")%string && startswith (id_value i) "*." in
  ({| id_type := id_type i;
      id_value := if is_wildcard then sdrop 2 (id_value i) else id_value i |}, is_wildcard).

Definition _is_domain_auto_approved (cfg : config) (domain : string) : bool :=
  if nonempty domain then
    existsb (fun table => match find table (Some domain) with
                          | Some entry => auto_approve entry
                          | None => false
                          end) [local_domains cfg; acme_domains cfg]
  else false.

Section Creation.
Context `{Randomness} (cfg : config) (now : Z).

Definition challenge_url (n : nat) : string :=
  (base_url cfg ++ "/acme/challenge/" ++ token_urlsafe n)%string.

(* AcmeChallenge(...); auth.challenges.append(...) *)
Definition add_challenge (aid : nat) (type : chall_type) (status : chall_status)
    (token : string) (validated : option Z) : M unit :=
  u ← draw;
  i ← draw;
  modify (with_challs (fun l => l ++
    [{| challenge_id := i; c_authz := aid; c_type := type; c_status := status;
        c_token := token; c_url := challenge_url u; c_validated := validated;
        c_error := None |}])).

Definition new_challenge (aid : nat) (type : chall_type) (status : chall_status)
    (validated : option Z) : M unit :=
  t ← draw;
  add_challenge aid type status (token_urlsafe t) validated.

Definition _create_challenges (a : AcmeAuthorization) (status : chall_status)
    (validated : option Z) : M unit :=
  let is_wildcard := a_wildcard a || startswith (id_value (a_identifier a)) "*." in
  let is_ip := (id_type (a_identifier a) =? "ip")%string in
  let aid := authorization_id a in
  (if is_ip then mret tt
   else new_challenge aid dns_01 status validated ;;
        if bool_decide (status <> CValid) && dns_persist_enabled cfg
        then new_challenge aid dns_persist_01 status validated
        else mret tt) ;;
  if is_wildcard then mret tt
  else new_challenge aid http_01 status validated ;;
       new_challenge aid tls_alpn_01 status validated.

Definition _copy_validated_challenges (aid source : nat) : M unit :=
  l ← gets (fun d => authz_challs d source);
  mapM_ (fun c => if bool_decide (c_status c = CValid)
                  then add_challenge aid (c_type c) CValid (c_token c) (c_validated c)
                  else mret tt) l.

(* AcmeAuthorization(...); db.session.add(auth); db.session.flush() *)
Definition add_authorization (oid : option nat) (account : option string) (i : identifier)
    (status : authz_status) (wildcard : bool) (expires : Z) : M AcmeAuthorization :=
  aid ← draw;
  let a := {| authorization_id := aid; a_order := oid; a_account := account; a_identifier := i;
              a_status := status; a_expires := expires; a_wildcard := wildcard |} in
  modify (with_authzs (fun l => l ++ [a])) ;;
  mret a.

Definition reusable (account : string) (i : identifier) (wildcard : bool)
    (a : AcmeAuthorization) : bool :=
  bool_decide (a_account a = Some account) && bool_decide (a_identifier a = i)
  && Bool.eqb (a_wildcard a) wildcard && bool_decide (a_status a = AValid) && (now <? a_expires a).

(* .order_by(AcmeAuthorization.expires.desc()).first() *)
Fixpoint latest_expiry (best : option AcmeAuthorization) (l : list AcmeAuthorization)
    : option AcmeAuthorization :=
  match l with
  | [] => best
  | a :: l' => latest_expiry (match best with
                              | Some b => if a_expires b <? a_expires a then Some a else Some b
                              | None => Some a
                              end) l'
  end.

Definition find_reusable (account : option string) (i : identifier) (wildcard : bool) (d : db)
    : option AcmeAuthorization :=
  match account with
  | None | Some "" => None
  | Some acct => latest_expiry None (List.filter (reusable acct i wildcard) (authzs d))
  end.

Definition _create_authorization (oid : nat) (i : identifier) (account : option string)
    : M AcmeAuthorization :=
  let '(authorization_identifier, is_wildcard) := _normalize_authorization_identifier i in
  valid_auth ← gets (find_reusable account authorization_identifier is_wildcard);
  match valid_auth with
  | Some src =>
      a ← add_authorization (Some oid) account authorization_identifier AValid is_wildcard
            (a_expires src);
      _copy_validated_challenges (authorization_id a) (authorization_id src) ;;
      mret a
  | None =>
      if (id_type i =? "dns")%string && _is_domain_auto_approved cfg (id_value i) then
        a ← add_authorization (Some oid) account authorization_identifier AValid is_wildcard
              (now + week);
        _create_challenges a CValid (Some now) ;;
        commit ;;
        mret a
      else
        a ← add_authorization (Some oid) account authorization_identifier APending is_wildcard
              (now + week);
        _create_challenges a CPending None ;;
        commit ;;
        mret a
  end.

Definition all_valid (l : list AcmeAuthorization) : bool :=
  forallb (fun a => bool_decide (a_status a = AValid)) l.

Definition create_order (account : string) (ids : list identifier)
    (not_before not_after : option Z) (replaces profile : option string) : M nat :=
  oid ← draw;
  modify (with_orders (fun l => l ++
    [{| order_id := oid; o_account := account; o_status := OPending; identifiers := ids;
        o_not_before := not_before; o_not_after := not_after; o_replaces := replaces;
        o_profile := profile; o_error := None; o_csr := None; o_certificate_id := None;
        o_expires := now + week |}])) ;;
  mapM_ (fun i => _create_authorization oid i (Some account) ;; mret tt) ids ;;
  l ← gets (fun d => order_authzs d oid);
  (if all_valid l then modify (update_order oid (set_o_status OReady)) else mret tt) ;;
  commit ;;
  mret oid.

Definition create_pre_authorization (account : string) (i : identifier) : M nat :=
  let '(authorization_identifier, is_wildcard) := _normalize_authorization_identifier i in
  existing ← gets (fun d => List.find (reusable account authorization_identifier is_wildcard)
                              (authzs d));
  match existing with
  | Some a => mret (authorization_id a)
  | None =>
      let skip_challenges := (id_type i =? "dns")%string && nonempty (id_value i)
                             && _is_domain_auto_approved cfg (id_value i) in
      a ← add_authorization None (Some account) authorization_identifier
            (if skip_challenges then AValid else APending) is_wildcard (now + week);
      (if skip_challenges then _create_challenges a CValid (Some now)
       else _create_challenges a CPending None) ;;
      commit ;;
      mret (authorization_id a)
  end.
End Creation.

(** ** Expiry, deactivation, problems *)

Definition default_problem : problem := _problem_data "malformed" "Authorization failed".

Definition _challenge_problem (c : AcmeChallenge) : problem := default default_problem (c_error c).

(* the problem of each failed authorization, in primary-key order *)
Definition subproblems (d : db) (oid : nat) : list (problem * identifier) :=
  (fun a =>
     let challenge := List.find (fun c => bool_decide (c_status c = CInvalid))
                        (authz_challs d (authorization_id a)) in
     (match challenge with Some c => _challenge_problem c | None => default_problem end,
      a_identifier a))
  <$> List.filter (fun a => bool_decide (a_status a = AInvalid)) (order_authzs d oid).

Definition _set_order_authorization_error (oid : nat) (fallback : problem) (d : db) : db :=
  let subs := subproblems d oid in
  update_order oid (set_o_error
    (if (1 <? length subs)%nat
     then {| op_problem := {| p_type := "urn:ietf:params:acme:error:compound";
                              p_detail := "Multiple authorization failures" |};
             op_subproblems := subs |}
     else plain fallback)) d.

Definition open_order (o : AcmeOrder) : bool :=
  bool_decide (o_status o = OPending \/ o_status o = OReady).

(* if order.status in ('pending', 'ready'): order.status = 'invalid';
   if order.status == 'invalid': record the problem *)
Definition fail_order (oid : option nat) (problem : problem) (d : db) : db :=
  match oid with
  | None => d
  | Some i =>
      match find_order d i with
      | None => d
      | Some o =>
          if open_order o
          then _set_order_authorization_error i problem (update_order i (set_o_status OInvalid) d)
          else if bool_decide (o_status o = OInvalid)
               then _set_order_authorization_error i problem d
               else d
      end
  end.

Definition live_challenge (c : AcmeChallenge) : bool :=
  bool_decide (c_status c = CPending \/ c_status c = CProcessing).

Definition _expire_authorization (a : AcmeAuthorization) (update_order' : bool) (d : db) : db :=
  let problem := _problem_data "malformed" EXPIRED_AUTHORIZATION_DETAIL in
  let d := update_authz (authorization_id a) (set_a_status AInvalid) d in
  let d := with_challs (update_where
             (fun c => Nat.eqb (c_authz c) (authorization_id a) && live_challenge c)
             (set_c_invalid problem)) d in
  if update_order' then fail_order (a_order a) problem d else d.

Definition expire_order_if_needed (now : Z) (oid : nat) : M bool :=
  o ← gets (fun d => find_order d oid);
  match o with
  | None => mret false
  | Some o =>
      if negb (open_order o) || (now <=? o_expires o) then mret false
      else
        let problem := _problem_data "malformed" "Order has expired" in
        modify (update_order oid (fun o => set_o_error (plain problem) (set_o_status OInvalid o))) ;;
        l ← gets (fun d => order_authzs d oid);
        mapM_ (fun a => if bool_decide (a_status a = APending)
                        then modify (_expire_authorization a false) else mret tt) l ;;
        modify (_set_order_authorization_error oid problem) ;;
        commit ;;
        mret true
  end.

Definition expire_authorization_if_needed (now : Z) (aid : nat) : M bool :=
  a ← gets (fun d => find_authz d aid);
  match a with
  | None => mret false
  | Some a =>
      if negb (bool_decide (a_status a = APending)) || (now <=? a_expires a) then mret false
      else modify (_expire_authorization a true) ;; commit ;; mret true
  end.

(* the other valid copies of the same proof *)
Definition same_proof (a b : AcmeAuthorization) : bool :=
  negb (Nat.eqb (authorization_id b) (authorization_id a))
  && bool_decide (a_account b = a_account a) && bool_decide (a_identifier b = a_identifier a)
  && Bool.eqb (a_wildcard b) (a_wildcard a) && bool_decide (a_status b = AValid)
  && (a_expires b =? a_expires a).

Definition truthy_account (a : AcmeAuthorization) : bool :=
  match a_account a with None | Some "" => false | Some _ => true end.

(* the body of the loop over the deactivated rows *)
Definition deactivate_row (row : AcmeAuthorization) (d : db) : db :=
  let d := update_authz (authorization_id row) (set_a_status ADeactivated) d in
  match a_order row with
  | None => d
  | Some i =>
      match find_order d i with
      | None => d
      | Some o =>
          if open_order o
          then update_order i (fun o => set_o_error
                 (_problem "unauthorized"
                    ("Authorization for " ++ id_value (a_identifier row) ++ " was deactivated"))
                 (set_o_status OInvalid o)) d
          else d
      end
  end.

Definition deactivate_authorization (aid : nat) : M unit :=
  a ← gets (fun d => find_authz d aid);
  match a with
  | None => mret tt
  | Some a =>
      if bool_decide (a_status a = ADeactivated) then mret tt
      else
        copies ← gets (fun d =>
          if bool_decide (a_status a = AValid) && truthy_account a
          then List.filter (same_proof a) (authzs d) else []);
        mapM_ (fun row => modify (deactivate_row row)) (a :: copies) ;;
        commit
  end.

(** ** Finalize hand-over *)

(* UPDATE acme_orders SET status='processing' WHERE id=... AND status='ready' *)
Definition claimable (oid : nat) (o : AcmeOrder) : bool :=
  is_order oid o && bool_decide (o_status o = OReady).

Definition begin_order_processing (oid : nat) : M bool :=
  claimed ← gets (fun d => length (List.filter (claimable oid) (orders d)));
  modify (with_orders (update_where (claimable oid) (set_o_status OProcessing))) ;;
  if Nat.eqb claimed 1
  then commit ;; mret true
  else rollback ;; mret false.

Definition restore_processing_order (oid : nat) : M unit :=
  o ← gets (fun d => find_order d oid);
  match o with
  | None => mret tt
  | Some o =>
      if bool_decide (o_status o = OProcessing)
      then modify (update_order oid (set_o_status OReady)) ;; commit
      else mret tt
  end.

Definition invalidate_processing_order (oid : nat) (error_type detail : string) : M unit :=
  o ← gets (fun d => find_order d oid);
  match o with
  | None => mret tt
  | Some o =>
      if bool_decide (o_status o = OProcessing)
      then modify (update_order oid (fun o =>
             set_o_error (_problem error_type detail) (set_o_status OInvalid o))) ;; commit
      else mret tt
  end.

(* the order as finalize sees it: 'processing' shown as 'ready' to the finalizer *)
Definition get_order (finalizing : option nat) (d : db) (oid : nat) : option AcmeOrder :=
  (fun o => if bool_decide (o_status o = OProcessing) && bool_decide (finalizing = Some oid)
            then set_o_status OReady o else o) <$> find_order d oid.

Definition get_challenge (d : db) (cid : nat) : option AcmeChallenge := find_chall d cid.
