(* ===== verification/DnsPersist.v ===== *)
(** * DnsPersist: persistent DNS validation records

    Models [backend/services/acme/dns_persist.py]: the issue-value parser and
    the test one parsed record has to pass (draft-ietf-acme-dns-persist). A
    parse error keeps the reason the code puts in its message. *)

From Stdlib Require Import Ascii String.
From stdpp Require Import prelude strings.
From S2P Require Import Prelude Scalars.

Local Open Scope Z_scope.

Definition VALIDATION_LABEL : string := "_validation-persist".
Definition _MAX_ISSUER_DOMAINS : nat := 10.

Definition ld_char (c : ascii) : bool := is_lower c || is_digit c.

(* [a-z0-9]([a-z0-9-]*[a-z0-9])? *)
Definition re_label (s : string) : bool :=
  match head (chars s), last (chars s) with
  | Some a, Some b => ld_char a && ld_char b
                      && forallb (fun c => ld_char c || Ascii.eqb c "-") (chars s)
  | _, _ => false
  end.

(* _DOMAIN_RE: 1 to 253 characters, two labels or more, a final newline let through *)
Definition _DOMAIN_RE (s : string) : bool :=
  let s := chomp s in
  (1 <=? slen s)%nat && (slen s <=? 253)%nat
  && (2 <=? length (split "." s))%nat && forallb re_label (split "." s).

(* row: the value of acme.dns_persist_enabled, None without a row or on an error *)
Definition is_enabled (row : option string) : bool :=
  match row with
  | None => false
  | Some v => (lower (strip v) =? "true")%string
  end.

Definition normalize_domain (name : option string) : string :=
  lower (rstrip_char "." (strip (default ""%string name))).

(* row: the value of acme_caa_identifiers *)
Definition get_issuer_domain_names (row : option string) (fallback_host : option string)
    : list string :=
  let configured :=
    match row with
    | Some v => if nonempty (strip v)
                then List.filter nonempty
                       ((fun d => normalize_domain (Some d)) <$>
                          List.filter (fun d => nonempty (strip d)) (split "," v))
                else []
    | None => []
    end in
  match configured with
  | [] => let host := normalize_domain fallback_host in
          if nonempty host then [host] else []
  | _ => take _MAX_ISSUER_DOMAINS configured
  end.

Inductive malformed :=
| BadIssuer (issuer : string)
| MissingValue (tag : string)
| Duplicate (tag : string)
| BadPersistUntil (text : string).

(* the three tags the draft knows; params holds their raw values *)
Definition known_tag (tag : string) : bool :=
  str_in tag ["accounturi"; "policy"; "persistuntil"].

Record params := {
  accounturi : option string;
  policy : option string;
  persistuntil : option string;
}.

Definition no_params : params := {| accounturi := None; policy := None; persistuntil := None |}.

Definition set_param (tag value : string) (p : params) : params :=
  if (tag =? "accounturi")%string
  then {| accounturi := Some value; policy := policy p; persistuntil := persistuntil p |}
  else if (tag =? "policy")%string
  then {| accounturi := accounturi p; policy := Some value; persistuntil := persistuntil p |}
  else if (tag =? "persistuntil")%string
  then {| accounturi := accounturi p; policy := policy p; persistuntil := Some value |}
  else p.

Fixpoint parse_chunks (chunks : list string) (seen : list string) (p : params)
    : result malformed params :=
  match chunks with
  | [] => Ok p
  | chunk :: rest =>
      if negb (nonempty (strip chunk)) then parse_chunks rest seen p
      else match partition "=" chunk with
           | None =>
               let tag := lower (strip chunk) in
               if known_tag tag then Raise (MissingValue tag) else parse_chunks rest seen p
           | Some (tag, value) =>
               let tag := lower (strip tag) in
               let value := strip value in
               if str_in tag seen then Raise (Duplicate tag)
               else parse_chunks rest (seen ++ [tag])
                      (if known_tag tag then set_param tag value p else p)
           end
  end.

(* a parsed record: persistUntil read as an integer *)
Record parsed := {
  pr_accounturi : option string;
  pr_policy : option string;
  pr_persistuntil : option Z;
}.

Definition parse_issue_value (record : string) : result malformed (string * parsed) :=
  match split ";" record with
  | [] => Raise (BadIssuer "")
  | first :: chunks =>
      let issuer := normalize_domain (Some first) in
      if negb (nonempty issuer) || negb (_DOMAIN_RE issuer) then Raise (BadIssuer issuer)
      else match parse_chunks chunks [] no_params with
           | Raise e => Raise e
           | Ok p =>
               match persistuntil p with
               | None => Ok (issuer, {| pr_accounturi := accounturi p; pr_policy := policy p;
                                        pr_persistuntil := None |})
               | Some pu =>
                   if isdigit pu
                   then Ok (issuer, {| pr_accounturi := accounturi p; pr_policy := policy p;
                                       pr_persistuntil := py_int 10 pu |})
                   else Raise (BadPersistUntil pu)
               end
           end
  end.

(* the error types of a record that is ours but does not authorize *)
Inductive record_error := Malformed | Unauthorized.
Inductive verdict :=
| Accepted
| Ignored                                   (* (False, None, None) *)
| Refused (err : record_error) (detail : string).

Definition check_record_against (issuer : string) (p : parsed) (issuer_domains : list string)
    (account_uri : string) (is_exact_fqdn is_wildcard_request : bool) (now_ts : Z) : verdict :=
  if negb (str_in issuer issuer_domains) then Ignored
  else match pr_accounturi p with
  | None | Some "" =>
      Refused Malformed "dns-persist-01 record is missing the mandatory accounturi parameter"
  | Some account_in_record =>
      if match pr_persistuntil p with Some t => t <? now_ts | None => false end
      then Refused Unauthorized "dns-persist-01 record persistUntil has expired: refresh the record"
      else if negb (account_in_record =? account_uri)%string
      then Refused Unauthorized "dns-persist-01 record accounturi does not identify this ACME account"
      else
        let policy_wildcard := (lower (default ""%string (pr_policy p)) =? "wildcard")%string in
        if (is_wildcard_request || negb is_exact_fqdn) && negb policy_wildcard
        then Refused Unauthorized
               "dns-persist-01 record needs policy=wildcard to authorize wildcard or subdomain identifiers"
        else Accepted
  end.

(** * Properties *)

(** A persistent record is accepted exactly when it names one of our
    issuers, carries this account's URI, has not passed its persistUntil, and
    says policy=wildcard (any case) whenever the request is a wildcard or the
    record sits on an ancestor of the name. *)
Theorem check_record_accepts (issuer : string) (p : parsed) (ours : list string)
    (account_uri : string) (exact wild : bool) (now_ts : Z) :
  account_uri <> ""%string ->
  check_record_against issuer p ours account_uri exact wild now_ts = Accepted <->
  issuer ∈ ours /\ pr_accounturi p = Some account_uri
  /\ (forall t, pr_persistuntil p = Some t -> now_ts <= t)
  /\ (wild = true \/ exact = false ->
      exists v, pr_policy p = Some v /\ lower v = "wildcard"%string).
Proof.
  intros Hne. unfold check_record_against.
  destruct (str_in issuer ours) eqn:Ei; simpl.
  2: { apply str_in_false in Ei. naive_solver. }
  apply str_in_spec in Ei.
  assert (forall o : option string,
            (lower (default ""%string o) =? "wildcard")%string = true
            <-> exists v, o = Some v /\ lower v = "wildcard"%string) as HP.
  { intros o. rewrite String.eqb_eq. destruct o as [v|]; simpl; [naive_solver|].
    split; [discriminate|naive_solver]. }
  destruct (pr_accounturi p) as [u|]; [|naive_solver].
  assert (u = ""%string \/ u <> ""%string) as [->|Hu] by (destruct u; auto).
  { split; [discriminate|naive_solver]. }
  destruct u as [|c u]; [done|]. set (uri := String c u) in *. clearbody uri.
  destruct (match pr_persistuntil p with Some t => t <? now_ts | None => false end) eqn:Et.
  { split; [discriminate|]. intros (_ & _ & H & _). destruct (pr_persistuntil p) as [t|]; [|done].
    bools. specialize (H t eq_refl). lia. }
  destruct (String.eqb_spec uri account_uri) as [->|Hneq]; simpl; [|naive_solver].
  specialize (HP (pr_policy p)).
  destruct (lower _ =? "wildcard")%string; rewrite ?andb_false_r; simpl.
  - split; [intros _|done]. split_and!; [done|done| |intros _; by apply HP].
    intros t Ht. rewrite Ht in Et. bools. done.
  - rewrite andb_true_r. destruct (wild || negb exact) eqn:Ew.
    + split; [discriminate|]. intros (_ & _ & _ & H). exfalso.
      assert (false = true) by (apply HP, H; apply orb_true_iff in Ew as [?|?]; bools; auto). done.
    + split; [intros _|done]. bools. split_and!; [done|done| |by intros [?|?]; congruence].
      intros t Ht. rewrite Ht in Et. bools. done.
Qed.

Lemma check_record_accepts_witness :
  match parse_issue_value "CA.example.; accounturi=https://ca/acct/1; policy=WildCard; persistUntil=1700000000" with
  | Ok (issuer, p) =>
      check_record_against issuer p ["ca.example"]%string "https://ca/acct/1" false true 1699999999
      = Accepted
  | Raise _ => False
  end.
Proof.
  vm_compute parse_issue_value. apply check_record_accepts; [discriminate|].
  split_and!; [apply str_in_spec; reflexivity|reflexivity|intros t [= <-]; lia|].
  intros _. exists "WildCard"%string. split; reflexivity.
Defined.
