(* ===== verification/AcmeChallenges.v ===== *)
(** * AcmeChallenges: validating a challenge and what follows from it

    Models [backend/services/acme/mixins/challenge.py]: the four validation
    methods, and how a success or a failure propagates to the authorization and
    the order.

    What the network answers is an argument ([internet]): the guards of
    [utils/ssrf_protection.py], which resolve names, Python's URL and address
    parsing, the GET of one URL, the connection and the TLS handshake; the URL that
    is asked, the redirects that are followed, the addresses that are pinned and
    the SNI are computed here, as [services/acme/http01.py] and [utils/acme_ip.py]
    do. The hash of a key authorization is a parameter ([KeyDigest]). A validation works
    on the challenge it was given, then writes to whatever the tables hold at
    that time. *)

From Stdlib Require Import Ascii String.
From stdpp Require Import prelude strings.
From S2P Require Import Prelude Scalars DomainMatch AcmeModel AcmeOrders DnsPersist.

Local Open Scope Z_scope.

(** ** Propagation *)

(* an UPDATE of a row that is gone fails at flush and leaves nothing written *)
Definition require_row (cid : nat) : M unit :=
  c ← gets (fun d => find_chall d cid);
  match c with
  | Some _ => mret tt
  | None => rollback ;; raise StaleData
  end.

Definition _invalidate_challenge (c : AcmeChallenge) (error_type detail : string) : M unit :=
  let problem := _problem_data error_type detail in
  require_row (challenge_id c) ;;
  modify (update_chall (challenge_id c) (set_c_invalid problem)) ;;
  a ← gets (fun d => find_authz d (c_authz c));
  match a with
  | None => mret tt
  | Some a =>
      if bool_decide (a_status a = ADeactivated) then mret tt
      else modify (update_authz (authorization_id a) (set_a_status AInvalid)) ;;
           modify (fail_order (a_order a) problem)
  end.

Definition _update_authorization_status (aid : nat) : M unit :=
  a ← gets (fun d => find_authz d aid);
  match a with
  | None => mret tt
  | Some a =>
      if bool_decide (a_status a = ADeactivated) then mret tt
      else
        valid_challenges ← gets (fun d =>
          List.filter (fun c => bool_decide (c_status c = CValid)) (authz_challs d aid));
        match valid_challenges with
        | [] => mret tt
        | _ =>
            modify (update_authz aid (set_a_status AValid)) ;;
            modify (with_challs (List.filter
              (fun c => negb (Nat.eqb (c_authz c) aid && live_challenge c)))) ;;
            o ← gets (fun d => i ← a_order a; find_order d i);
            match o with
            | None => mret tt
            | Some o =>
                l ← gets (fun d => order_authzs d (order_id o));
                if all_valid l
                then modify (update_order (order_id o) (set_o_status OReady)) ;; commit
                else mret tt
            end
        end
  end.

(* challenge.status = "valid"; challenge.validated = utc_now(); ...; commit; return True *)
Definition mark_valid (now : Z) (c : AcmeChallenge) : M bool :=
  require_row (challenge_id c) ;;
  modify (update_chall (challenge_id c) (set_c_valid now)) ;;
  _update_authorization_status (c_authz c) ;;
  commit ;;
  mret true.

(* self._invalidate_challenge(...); db.session.commit(); return False *)
Definition mark_invalid (c : AcmeChallenge) (error_type detail : string) : M bool :=
  _invalidate_challenge c error_type detail ;;
  commit ;;
  mret false.

(** ** HTTP-01 *)

Definition _compute_key_authorization (token thumbprint : string) : string :=
  (token ++ "." ++ thumbprint)%string.

(* a certificate that cannot be read is a handshake that raised *)
Record tls_peer := {
  negotiated : option string;
  (* the peer certificate; in it the acmeIdentifier extension: critical flag, DER value *)
  peer_cert : option (option (bool * list Z));
}.
Record http_response := {
  status_code : Z; status_reason : string; response_url : string;
  location : option string;    (* the Location header *)
  response_text : string;
}.
(* urlparse(url): scheme, hostname and port, which raises when it is not a number *)
Record parsed_url := { u_scheme : string; u_hostname : option string; u_port : result string (option Z) }.
Inductive connection := Connected | ConnectFailed (os_error : string) | ConnectRaised (text : string).

(* what the server reaches out with; Raise holds the text of the exception *)
Record internet := {
  allow_private : bool;                                                   (* _acme_allow_private_ips() *)
  validate_url_not_cloud_metadata : string -> bool -> result string unit; (* allow_loopback *)
  validate_host_not_private : string -> result string (list string);
  validated_addresses : string -> bool -> result string (list string);
  ip_version : string -> option Z;                                        (* ipaddress.ip_address(s).version *)
  reverse_pointer : string -> option string;
  urljoin : string -> string -> string;
  urlparse : string -> parsed_url;
  requests_get : string -> option (string * list string) -> result string http_response;  (* the URL, pinned *)
  create_connection : string -> connection;                               (* to port 443 *)
  handshake : string -> string -> result string tls_peer;                 (* the address connected to, the SNI *)
}.

Definition format_ip_for_url (net : internet) (ip_str : string) : string :=
  if bool_decide (ip_version net ip_str = Some 6) then ("[" ++ ip_str ++ "]")%string else ip_str.

(* the addresses of the target once vetted, or the detail of the rejectedIdentifier problem *)
Definition vetted_addresses (net : internet) (url value : string) : result string (list string) :=
  match validate_url_not_cloud_metadata net url (allow_private net) with
  | Raise _ => Raise "Identifier targets a forbidden address"%string
  | Ok _ =>
      if negb (allow_private net) then
        match validate_host_not_private net value with
        | Raise _ => Raise "Identifier resolves to a non-public address"%string
        | Ok ips => Ok ips
        end
      else match validated_addresses net url true with
           | Raise _ => Raise "Identifier targets a forbidden address"%string
           | Ok ips => Ok ips
           end
  end.

Definition REDIRECT_STATUSES : list Z := [301; 302; 303; 307; 308].
Definition MAX_REDIRECTS : nat := 5.

Definition standard_port (port : option Z) : bool :=
  match port with None => true | Some p => (p =? 80) || (p =? 443) end.

(* the hops left, the URL and what it is pinned to *)
Fixpoint follow (net : internet) (hops : nat) (current : string) (pin : option (string * list string))
    : result string http_response :=
  match hops with
  | O => Raise "more than 5 redirects during http-01 validation"%string
  | S hops' =>
      match requests_get net current pin with
      | Raise e => Raise e
      | Ok response =>
          if negb (existsb (Z.eqb (status_code response)) REDIRECT_STATUSES) then Ok response
          else match location response with
          | None | Some "" => Raise "redirect without a Location header"%string
          | Some l =>
              let current := urljoin net current l in
              let parsed := urlparse net current in
              let scheme := lower (u_scheme parsed) in
              if negb (str_in scheme ["http"; "https"]%string)
              then Raise ("redirect to unsupported scheme '" ++ scheme ++ "'")%string
              else match u_hostname parsed with
              | None | Some "" => Raise "redirect without a hostname"%string
              | Some host =>
                  match u_port parsed with
                  | Raise e => Raise e
                  | Ok port =>
                      if negb (standard_port port) then Raise "redirect to a non-standard port"%string
                      else match validate_url_not_cloud_metadata net current (allow_private net) with
                      | Raise e => Raise e
                      | Ok _ =>
                          match (if allow_private net then validated_addresses net current true
                                 else validate_host_not_private net host) with
                          | Raise e => Raise e
                          | Ok ips => follow net hops' current (Some (host, ips))
                          end
                      end
                  end
              end
          end
      end
  end.

Definition fetch_following_redirects (net : internet) (url : string) (pin : option (string * list string))
    : result string http_response :=
  follow net (S MAX_REDIRECTS) url pin.

(* response.raise_for_status() of requests *)
Definition raise_for_status (r : http_response) : option string :=
  let error kind := Some (py_str (status_code r) ++ " " ++ kind ++ " Error: " ++ status_reason r
                          ++ " for url: " ++ response_url r)%string in
  if (400 <=? status_code r) && (status_code r <? 500) then error "Client"%string
  else if (500 <=? status_code r) && (status_code r <? 600) then error "Server"%string
  else None.

Definition validate_http01_challenge (now : Z) (c : AcmeChallenge) (thumbprint : string)
    (i : identifier) (net : internet) : M bool :=
  let key_authz := _compute_key_authorization (c_token c) thumbprint in
  let is_ip := (id_type i =? "ip")%string in
  let url_host := if is_ip then format_ip_for_url net (id_value i) else id_value i in
  let url := ("http://" ++ url_host ++ "/.well-known/acme-challenge/" ++ c_token c)%string in
  try_except
    (match vetted_addresses net url (id_value i) with
     | Raise detail => mark_invalid c "rejectedIdentifier" detail
     | Ok pinned_ips =>
         let pin := if is_ip then None else Some (id_value i, pinned_ips) in
         match fetch_following_redirects net url pin with
         | Raise msg => raise (PyError msg)
         | Ok response =>
             match raise_for_status response with
             | Some msg => raise (PyError msg)
             | None =>
                 if (strip (response_text response) =? key_authz)%string then mark_valid now c
                 else mark_invalid c "incorrectResponse" "Key authorization mismatch"
             end
         end
     end)
    (fun e => mark_invalid c "connection" (err_text e)).

(** ** DNS-01 *)

(* a TXT rdata: its character strings, or the text of another kind of rdata *)
Inductive rdata :=
| TxtStrings (l : list string)
| OtherRdata (text : string).

Definition strip_quotes (s : string) : string :=
  unchars (rstrip_by (Ascii.eqb (ascii_of_nat 34)) (lstrip_by (Ascii.eqb (ascii_of_nat 34)) (chars s))).

Definition rdata_matches (txt_value : string) (r : rdata) : bool :=
  match r with
  | TxtStrings l => str_in txt_value l
  | OtherRdata text => (strip_quotes text =? txt_value)%string
  end.

Class KeyDigest := {
  txt_digest : string -> string;    (* base64url(sha256(key authorization)), unpadded *)
  raw_digest : string -> list Z;    (* sha256(key authorization), as octets *)
}.

Section Methods.
Context `{KeyDigest}.

Definition dns01_domain (a : AcmeAuthorization) : string :=
  strip_wildcard (id_value (a_identifier a)).

Definition validate_dns01_challenge (now : Z) (c : AcmeChallenge) (thumbprint : string)
    (domain : string) (resolve : string -> result string (list rdata)) : M bool :=
  let txt_value := txt_digest (_compute_key_authorization (c_token c) thumbprint) in
  let txt_record := ("_acme-challenge." ++ domain)%string in
  try_except
    (match resolve txt_record with
     | Raise msg => raise (PyError msg)
     | Ok answers =>
         if existsb (rdata_matches txt_value) answers then mark_valid now c
         else mark_invalid c "incorrectResponse"
                ("No matching TXT record found at " ++ txt_record)
     end)
    (fun e => mark_invalid c "dns" (err_text e)).

(** ** TLS-ALPN-01 *)

(* what is checked of the peer after the handshake *)
Definition tls_check (expected_hash : list Z) (peer : tls_peer) : option string :=
  if negb (bool_decide (negotiated peer = Some "acme-tls/1"%string))
  then Some ("ALPN negotiation failed: " ++ default "None"%string (negotiated peer))%string
  else match peer_cert peer with
  | None => Some "No certificate presented"%string
  | Some None => Some "Certificate missing acmeIdentifier extension"%string
  | Some (Some (critical, ext_value)) =>
      if negb critical
      then Some "acmeIdentifier extension is not marked critical (RFC 8737 §3)"%string
      else
        let actual_hash :=
          if (2 <? length ext_value)%nat && bool_decide (head ext_value = Some 4)
          then drop 2 ext_value else ext_value in
        if bool_decide (actual_hash = expected_hash) then None
        else Some "acmeIdentifier hash mismatch"%string
  end.

(* the first address that can be connected to *)
Fixpoint connect_first (net : internet) (candidates : list string) (last_err : string) : result string string :=
  match candidates with
  | [] => Raise last_err
  | cand :: rest =>
      match create_connection net cand with
      | Connected => Ok cand
      | ConnectFailed conn_err => connect_first net rest conn_err
      | ConnectRaised text => Raise text
      end
  end.

Definition ip_to_reverse_ptr (net : internet) (ip_str : string) : option string := reverse_pointer net ip_str.

Definition validate_tls_alpn01_challenge (now : Z) (c : AcmeChallenge) (thumbprint : string)
    (i : identifier) (net : internet) : M bool :=
  let expected_hash := raw_digest (_compute_key_authorization (c_token c) thumbprint) in
  let url := ("https://" ++ format_ip_for_url net (id_value i) ++ "/")%string in
  try_except
    (match vetted_addresses net url (id_value i) with
     | Raise detail => mark_invalid c "rejectedIdentifier" detail
     | Ok pinned_ips =>
         let sni := if (id_type i =? "ip")%string
                    then match ip_to_reverse_ptr net (id_value i) with Some "" => None | o => o end
                    else Some (id_value i) in
         match sni with
         | None => raise (PyError ("Invalid IP address for TLS-ALPN-01: " ++ id_value i))
         | Some sni_hostname =>
             let candidates := match pinned_ips with [] => [id_value i] | _ => pinned_ips end in
             match connect_first net candidates "exceptions must derive from BaseException" with
             | Raise msg => raise (PyError msg)
             | Ok cand =>
                 match handshake net cand sni_hostname with
                 | Raise msg => raise (PyError msg)
                 | Ok peer => match tls_check expected_hash peer with
                              | None => mark_valid now c
                              | Some msg => raise (PyError msg)
                              end
                 end
             end
         end
     end)
    (fun e => mark_invalid c "tls" (err_text e)).
End Methods.

(** ** DNS-PERSIST-01 *)

(* labels[i:] for i in range(1, len(labels) - 1): ancestors of two labels or more *)
Fixpoint ancestors (labels : list string) : list string :=
  match labels with
  | [] => []
  | _ :: rest => if (2 <=? length rest)%nat then join "." rest :: ancestors rest else []
  end.

Definition persist_candidates (requested : string) : list string :=
  requested :: ancestors (split "." requested).

(* a failure, with its rank: unauthorized 2, malformed 1 *)
Definition error_rank (e : record_error) : nat :=
  match e with Unauthorized => 2 | Malformed => 1 end.

Definition malformed_text (m : malformed) : string :=
  match m with
  | BadIssuer s => "malformed: invalid issuer-domain-name: " ++ s
  | MissingValue t => "malformed: missing value for " ++ t
  | Duplicate t => "malformed: duplicate parameter: " ++ t
  | BadPersistUntil s => "malformed: persistUntil is not a base-10 integer: " ++ s
  end.

Definition judge_record (issuer_domains : list string) (account_uri : string)
    (exact wild : bool) (now_ts : Z) (raw : string) : verdict :=
  match parse_issue_value raw with
  | Raise m => Refused Malformed (malformed_text m)
  | Ok (issuer, p) =>
      if negb (str_in issuer issuer_domains) then Ignored
      else check_record_against issuer p issuer_domains account_uri exact wild now_ts
  end.

Inductive scan_result :=
| Found
| Failures (l : list (record_error * string)).

(* the records of one name, then of the next: stops at the first accepted record *)
Fixpoint scan_records (judge : string -> verdict) (raws : list string)
    (failures : list (record_error * string)) : scan_result :=
  match raws with
  | [] => Failures failures
  | raw :: rest =>
      match judge raw with
      | Accepted => Found
      | Ignored => scan_records judge rest failures
      | Refused e d => scan_records judge rest (failures ++ [(e, d)])
      end
  end.

Fixpoint scan_candidates (resolve : string -> option (list string))
    (judge : bool -> string -> verdict) (exact : bool) (names : list string)
    (failures : list (record_error * string)) : scan_result :=
  match names with
  | [] => Failures failures
  | fqdn :: rest =>
      match resolve (VALIDATION_LABEL ++ "." ++ fqdn)%string with
      | None => scan_candidates resolve judge false rest failures
      | Some raws =>
          match scan_records (judge exact) raws failures with
          | Found => Found
          | Failures l => scan_candidates resolve judge false rest l
          end
      end
  end.

(* failures.sort(key=rank, reverse=True)[0]: the first of greatest rank *)
Definition worst_failure (l : list (record_error * string)) : option (record_error * string) :=
  match List.find (fun f => Nat.eqb (error_rank f.1) 2) l with
  | Some f => Some f
  | None => head l
  end.

Definition error_name (e : record_error) : string :=
  match e with Unauthorized => "unauthorized" | Malformed => "malformed" end.

Definition validate_dns_persist01_challenge (now : Z) (c : AcmeChallenge)
    (a : AcmeAuthorization) (account_uri : string) (issuer_domains : list string)
    (now_ts : Z) (resolve : string -> option (list string)) : M bool :=
  let value := id_value (a_identifier a) in
  let is_wildcard := a_wildcard a || startswith value "*." in
  let requested := normalize_domain (Some (strip_wildcard value)) in
  match issuer_domains with
  | [] => mark_invalid c "serverInternal" "dns-persist-01: no issuer-domain-name configured"
  | _ =>
      let judge exact := judge_record issuer_domains account_uri exact is_wildcard now_ts in
      match scan_candidates resolve judge true (persist_candidates requested) [] with
      | Found => mark_valid now c
      | Failures l =>
          match worst_failure l with
          | Some (e, d) => mark_invalid c (error_name e) d
          | None => mark_invalid c "incorrectResponse"
                      ("No dns-persist-01 TXT record found at " ++ VALIDATION_LABEL ++ "."
                       ++ requested ++ " authorizing account " ++ account_uri
                       ++ " via issuers " ++ py_list_repr issuer_domains)
          end
      end
  end.
