(* ===== verification/AcmeIdentifiers.v ===== *)
(** * AcmeIdentifiers: what an order may name, and what a CSR may ask for

    Models [backend/services/acme/identifiers.py], the domain scope of an EAB
    credential ([backend/models/acme_models.py], [AcmeEabCredential]) and the
    comparison of a CSR with the order it finalizes
    ([backend/services/acme/mixins/issuance.py]). Reading an IP address is
    Python's [ipaddress.ip_address]: a parameter that maps a value to its
    canonical text or to the text of the [ValueError]. A CSR is what the
    X.509 library exposes of it. *)

From Stdlib Require Import Ascii String.
From stdpp Require Import prelude strings.
From S2P Require Import Prelude Scalars DomainMatch AcmeModel.

(** ** identifiers.py *)

Definition ends_with_char (c : ascii) (s : string) : bool :=
  match last (chars s) with Some x => Ascii.eqb x c | None => false end.
Definition begins_with_char (c : ascii) (s : string) : bool :=
  match head (chars s) with Some x => Ascii.eqb x c | None => false end.

(* ^(?!-)[class]{1,63}(?<!-)$ *)
Definition hyphen_label_re (class : ascii -> bool) (s : string) : bool :=
  let s := chomp s in
  (1 <=? slen s)%nat && (slen s <=? 63)%nat && all_chars class s
  && negb (begins_with_char "-" s) && negb (ends_with_char "-" s).

Definition word_char (c : ascii) : bool := is_alnum c || Ascii.eqb c "_" || Ascii.eqb c "-".

Definition _DNS_LABEL_RE : string -> bool := hyphen_label_re word_char.

Definition is_valid_dns_identifier (value : pyval) : bool :=
  match value with
  | VStr v =>
      if negb (nonempty v) || (253 <? slen v)%nat then false
      else
        let v := if startswith v "*." then sdrop 2 v else v in
        let v := if endswith v "." then stake (slen v - 1) v else v in
        nonempty v && forallb _DNS_LABEL_RE (split "." v)
  | _ => false
  end.

(* one entry of the request's identifiers: None when it is not an object with both keys *)
Record raw_identifier := { raw_type : pyval; raw_value : pyval }.

Definition IpReader : Type := pyval -> result string string.

Section Ip.
Variable ip_address : IpReader.

Definition validate_ip_address (v : pyval) : result string string :=
  match ip_address v with
  | Ok text => Ok text
  | Raise e => Raise ("Invalid IP address format: " ++ e)%string
  end.

Definition normalize_ip_for_identifier (v : pyval) : option string :=
  match validate_ip_address v with Ok t => Some t | Raise _ => None end.

Definition py_text (v : pyval) : string :=
  match v with
  | VStr s => s | VInt z => py_str z | VBool true => "True" | VBool false => "False"
  | VNone => "None" | VFloat _ | VOther => "?"
  end.

(* the identifier with its value canonical, or the problem type and detail *)
Definition validate_acme_identifier (i : option raw_identifier)
    : result (string * string) identifier :=
  match i with
  | None => Raise ("malformed", "Valid identifier required")%string
  | Some r =>
      match raw_type r with
      | VStr "dns" =>
          match raw_value r with
          | VStr v => if is_valid_dns_identifier (VStr v)
                      then Ok {| id_type := "dns"; id_value := v |}
                      else Raise ("malformed", "Malformed DNS identifier value")%string
          | _ => Raise ("malformed", "Malformed DNS identifier value")%string
          end
      | VStr "ip" =>
          match validate_ip_address (raw_value r) with
          | Ok text => Ok {| id_type := "ip"; id_value := text |}
          | Raise e => Raise ("malformed"%string, e)
          end
      | t => Raise ("unsupportedIdentifier",
                    "Identifier type " ++ py_text t ++ " not supported")%string
      end
  end.

(** ** The outbound client's rule *)

Definition CLIENT_MAX_DOMAIN_LENGTH : nat := 253.

Definition client_label (s : string) : bool :=
  (1 <=? slen s)%nat && (slen s <=? 63)%nat
  && all_chars (fun c => is_alnum c || Ascii.eqb c "-") s
  && negb (begins_with_char "-" s) && negb (ends_with_char "-" s).

(* ^(\*\.)?(label\.)+label$ *)
Definition _CLIENT_FQDN_RE (s : string) : bool :=
  let s := chomp s in
  let host := if startswith s "*." then sdrop 2 s else s in
  (2 <=? length (split "." host))%nat && forallb client_label (split "." host).

Definition normalize_client_identifier (value : pyval) : option string * bool * option string :=
  match value with
  | VStr "" => (None, false, Some "Invalid domain (empty or not a string)"%string)
  | VStr v =>
      match normalize_ip_for_identifier (VStr v) with
      | Some ip => (Some ip, true, None)
      | None =>
          if (CLIENT_MAX_DOMAIN_LENGTH <? slen v)%nat
          then (None, false,
                Some ("Invalid domain (>" ++ py_str (Z.of_nat CLIENT_MAX_DOMAIN_LENGTH)
                      ++ " chars): " ++ stake 60 v ++ "...")%string)
          else if negb (_CLIENT_FQDN_RE v)
          then (None, false, Some ("Invalid domain syntax: " ++ v)%string)
          else (Some v, false, None)
      end
  | _ => (None, false, Some "Invalid domain (empty or not a string)"%string)
  end.
End Ip.

(** ** The scope of an EAB credential *)

Definition MAX_ALLOWED_DOMAINS : nat := 100.

Definition _normalize_domain (value : string) : string :=
  let v := lower (strip value) in
  if endswith v "." then stake (slen v - 1) v else v.

(* the stored JSON: NULL, not a list, or a list of values *)
Inductive stored_domains :=
| NullDomains
| BrokenDomains
| ListDomains (entries : list pyval).

Definition keep_pattern (patterns : list string) (entry : pyval) : list string :=
  match entry with
  | VStr e =>
      let norm := _normalize_domain e in
      if (norm =? "*")%string && negb (strip e =? "*")%string then patterns
      else if nonempty norm then append_new String.eqb patterns norm else patterns
  | _ => patterns
  end.

Definition allowed_domains (stored : stored_domains) : option (list string) :=
  match stored with
  | NullDomains => None
  | BrokenDomains => Some []
  | ListDomains l => Some (fold_left keep_pattern l [])
  end.

Definition _wildcard_covers (suffix value : string) : bool :=
  if nonempty suffix then endswith value ("." ++ suffix) else false.

Definition allows_identifier (stored : stored_domains) (i : identifier) : bool :=
  match allowed_domains stored with
  | None => true
  | Some patterns =>
      if str_in "*" patterns then true
      else
        let value := _normalize_domain (id_value i) in
        if negb (nonempty value) then false
        else if (id_type i =? "ip")%string
        then existsb (fun p => negb (startswith p "*.") && (p =? value)%string) patterns
        else existsb (fun p => if startswith p "*." then _wildcard_covers (sdrop 2 p) value
                               else (p =? value)%string) patterns
  end.

Definition _LABEL_RE : string -> bool :=
  hyphen_label_re (fun c => is_lower c || is_digit c || Ascii.eqb c "_" || Ascii.eqb c "-").
Definition _LAST_LABEL_RE : string -> bool :=
  hyphen_label_re (fun c => is_lower c || is_digit c || Ascii.eqb c "-").

Section Patterns.
Variable _is_ip : string -> bool.    (* ipaddress.ip_address accepts the text *)

Definition _check_domain_pattern (pattern shown : string) : result string unit :=
  let wildcard := startswith pattern "*." in
  let host := if wildcard then sdrop 2 pattern else pattern in
  if _is_ip host then
    if wildcard then Raise ("Wildcard patterns cannot apply to IP addresses: " ++ shown)%string
    else Ok tt
  else
    let labels := split "." host in
    if (slen pattern <=? 255)%nat && (slen host <=? 253)%nat
       && forallb _LABEL_RE (removelast labels)
       && match last labels with Some l => _LAST_LABEL_RE l | None => false end
    then Ok tt
    else Raise ("Invalid domain pattern: " ++ shown)%string.

Fixpoint clean_entries (patterns : list string) (raw : list pyval) : result string (list string) :=
  match raw with
  | [] => Ok patterns
  | VStr entry :: rest =>
      let stripped := lower (strip entry) in
      let pattern := _normalize_domain entry in
      if negb (nonempty pattern) then clean_entries patterns rest
      else if endswith pattern "." || ((pattern =? "*")%string && negb (stripped =? "*")%string)
      then Raise ("Invalid domain pattern: " ++ strip entry)%string
      else match (if (pattern =? "*")%string then Ok tt
                  else _check_domain_pattern pattern (strip entry)) with
           | Raise e => Raise e
           | Ok _ => clean_entries (append_new String.eqb patterns pattern) rest
           end
  | _ :: _ => Raise "allowed_domains entries must be strings"%string
  end.

Definition clean_allowed_domains (raw : option (list pyval)) : result string (list string) :=
  match raw with
  | None => Raise "allowed_domains must be an array of strings"%string
  | Some l => if (MAX_ALLOWED_DOMAINS <? length l)%nat
              then Raise ("allowed_domains accepts at most "
                          ++ py_str (Z.of_nat MAX_ALLOWED_DOMAINS) ++ " patterns")%string
              else clean_entries [] l
  end.
End Patterns.

(** ** The CSR of a finalize request *)

Inductive general_name :=
| DNSName (v : string)
| IPAddress (v : string)      (* the text of the address *)
| OtherGeneralName (type_name : string).

(* the SubjectAlternativeName extension: absent, unreadable, or its names *)
Inductive san_extension := NoSan | BadSan (exc : string) | San (names : list general_name).

Record csr := {
  common_names : list string;      (* in the order of the subject *)
  email_addresses : list string;
  san : san_extension;
}.

Definition csr_norm (d : string) : string := rstrip_char "." (lower d).

(* set equality *)
Definition same_set (l m : list string) : bool :=
  forallb (fun x => str_in x m) l && forallb (fun x => str_in x l) m.

Definition add_dns (domains : list string) (n : general_name) : list string :=
  match n with DNSName v => append_new String.eqb domains v | _ => domains end.

Definition _extract_domains_from_csr (c : csr) : list string :=
  let domains := match common_names c with cn :: _ => [cn] | [] => [] end in
  match san c with
  | San names => fold_left add_dns names domains
  | _ => domains
  end.

Definition _extract_ips_from_csr (c : csr) : list string :=
  match san c with
  | San names => omap (fun n => match n with IPAddress v => Some v | _ => None end) names
  | _ => []
  end.

Inductive csr_refusal :=
| DomainsDiffer | IpsDiffer | SanUnreadable | SanNotAuthorized (n : general_name)
| SubjectEmail (e : string) | SubjectCn (cn : string).

Fixpoint check_san_names (allowed_domains allowed_ips : list string) (l : list general_name)
    : option csr_refusal :=
  match l with
  | [] => None
  | n :: rest =>
      if match n with
         | DNSName v => str_in (csr_norm v) allowed_domains
         | IPAddress v => str_in v allowed_ips
         | OtherGeneralName _ => false
         end
      then check_san_names allowed_domains allowed_ips rest
      else Some (SanNotAuthorized n)
  end.

Definition _validate_csr_san_types (c : csr) (allowed_domains allowed_ips : list string)
    : option csr_refusal :=
  match san c with
  | NoSan => None
  | BadSan _ => Some SanUnreadable
  | San names => check_san_names allowed_domains allowed_ips names
  end.

Definition cn_allowed (allowed_domains allowed_ips : list string) (cn : string) : bool :=
  str_in (csr_norm cn) allowed_domains || str_in (csr_norm cn) allowed_ips
  || str_in cn allowed_ips.

Definition _validate_csr_subject (c : csr) (allowed_domains allowed_ips : list string)
    : option csr_refusal :=
  match email_addresses c with
  | e :: _ => Some (SubjectEmail e)
  | [] => SubjectCn <$> List.find (fun cn => negb (cn_allowed allowed_domains allowed_ips cn))
                          (common_names c)
  end.

Definition values_of_type (t : string) (ids : list identifier) : list string :=
  id_value <$> List.filter (fun i => (id_type i =? t)%string) ids.

(* the checks of finalize_order before the signature, None when the CSR is accepted *)
Definition check_csr (c : csr) (order_identifiers : list identifier) : option csr_refusal :=
  let order_domains_norm := csr_norm <$> values_of_type "dns" order_identifiers in
  let order_ips := values_of_type "ip" order_identifiers in
  if negb (same_set (csr_norm <$> _extract_domains_from_csr c) order_domains_norm)
  then Some DomainsDiffer
  else if negb (same_set (_extract_ips_from_csr c) order_ips) then Some IpsDiffer
  else match _validate_csr_san_types c order_domains_norm order_ips with
       | Some e => Some e
       | None => _validate_csr_subject c order_domains_norm order_ips
       end.

(** * Lemmas *)

Lemma same_set_spec l m : same_set l m = true <-> (forall x, x ∈ l <-> x ∈ m).
Proof.
  unfold same_set. rewrite andb_true_iff, !forallb_forall.
  setoid_rewrite str_in_spec. setoid_rewrite <- list_elem_of_In. naive_solver.
Qed.

(* the names of a readable SAN extension *)
Definition san_names (c : csr) : list general_name :=
  match san c with San names => names | _ => [] end.

Lemma fold_add_dns names : forall domains x,
  x ∈ fold_left add_dns names domains <-> x ∈ domains \/ DNSName x ∈ names.
Proof.
  induction names as [|n names IH]; intros domains x; cbn [fold_left].
  { rewrite elem_of_nil. naive_solver. }
  rewrite IH, elem_of_cons. destruct n; cbn [add_dns].
  1: rewrite append_new_elem. all: naive_solver.
Qed.

Lemma extract_domains_spec c x :
  x ∈ _extract_domains_from_csr c <-> head (common_names c) = Some x \/ DNSName x ∈ san_names c.
Proof.
  unfold _extract_domains_from_csr, san_names.
  assert (forall l, x ∈ match l with cn :: _ => [cn] | [] => [] end <-> head l = Some x) as H.
  { intros [|cn l]; simpl; [rewrite elem_of_nil|rewrite list_elem_of_singleton]; naive_solver. }
  destruct (san c) as [| |names]; rewrite ?fold_add_dns, H; rewrite ?elem_of_nil; naive_solver.
Qed.

Lemma extract_ips_spec c x : x ∈ _extract_ips_from_csr c <-> IPAddress x ∈ san_names c.
Proof.
  unfold _extract_ips_from_csr, san_names. destruct (san c) as [| |names];
    [by rewrite !elem_of_nil..|].
  rewrite list_elem_of_omap. split.
  - intros ([] & ? & ?); naive_solver.
  - intros H. exists (IPAddress x). done.
Qed.

Lemma check_san_names_spec ds ips l :
  check_san_names ds ips l = None <->
  forall n, n ∈ l -> match n with
                     | DNSName v => csr_norm v ∈ ds
                     | IPAddress v => v ∈ ips
                     | OtherGeneralName _ => False
                     end.
Proof.
  induction l as [|n l IH]; cbn [check_san_names].
  { split; [intros _ n []%elem_of_nil|done]. }
  destruct n as [v|v|t].
  1,2: destruct (str_in _ _) eqn:E; [apply str_in_spec in E; rewrite IH|apply str_in_false in E].
  1,3: split; [intros H n [->|?]%elem_of_cons; [done|by apply H]|intros H n ?; apply H; by right].
  all: split; [done|]. all: intros H; exfalso.
  1: apply E, (H (DNSName v)); by left.
  1: apply E, (H (IPAddress v)); by left.
  apply (H (OtherGeneralName t)); by left.
Qed.

Lemma find_none_iff {A} (p : A -> bool) l : List.find p l = None <-> (forall x, x ∈ l -> p x = false).
Proof.
  split.
  - intros H x Hx%list_elem_of_In. by apply (List.find_none p l).
  - intros H. destruct (List.find p l) as [x|] eqn:E; [|done].
    apply List.find_some in E as [?%list_elem_of_In E]. rewrite H in E; done.
Qed.

(** * Properties *)

(** C37. A CSR passes the checks of finalize exactly when it asks for what the
    order names and nothing else: the DNS names it carries (first common name
    and subject alternative names) are the order's up to case and a final dot,
    its addresses are the order's, its SAN is readable and holds no other kind of
    name, no e-mail address is in the subject, and every common name is one of
    the order's identifiers. *)
Theorem check_csr_exact (c : csr) (ids : list identifier) :
  let domains := csr_norm <$> values_of_type "dns" ids in
  let ips := values_of_type "ip" ids in
  check_csr c ids = None <->
  (forall x, x ∈ domains <->
     exists v, csr_norm v = x /\ (head (common_names c) = Some v \/ DNSName v ∈ san_names c))
  /\ (forall x, x ∈ ips <-> IPAddress x ∈ san_names c)
  /\ (forall e, san c <> BadSan e)
  /\ (forall t, OtherGeneralName t ∉ san_names c)
  /\ email_addresses c = []
  /\ (forall cn, cn ∈ common_names c ->
        csr_norm cn ∈ domains \/ csr_norm cn ∈ ips \/ cn ∈ ips).
Proof.
  intros domains ips. unfold check_csr. fold domains ips.
  destruct (same_set (csr_norm <$> _) domains) eqn:Ed; simpl.
  2: { split; [done|]. intros (H & _). exfalso. apply not_true_iff_false in Ed. apply Ed.
       apply same_set_spec. intros x. rewrite H, list_elem_of_fmap.
       setoid_rewrite extract_domains_spec. naive_solver. }
  destruct (same_set (_extract_ips_from_csr c) ips) eqn:Ei; simpl.
  2: { split; [done|]. intros (_ & H & _). exfalso. apply not_true_iff_false in Ei. apply Ei.
       apply same_set_spec. intros x. by rewrite H, extract_ips_spec. }
  rewrite same_set_spec in Ed, Ei.
  assert (forall x, x ∈ domains <->
     exists v, csr_norm v = x /\ (head (common_names c) = Some v \/ DNSName v ∈ san_names c)) as Hd.
  { intros x. rewrite <- Ed, list_elem_of_fmap. setoid_rewrite extract_domains_spec. naive_solver. }
  assert (forall x, x ∈ ips <-> IPAddress x ∈ san_names c) as Hi.
  { intros x. by rewrite <- Ei, extract_ips_spec. }
  clear Ed Ei.
  assert (_validate_csr_san_types c domains ips = None <->
            (forall e, san c <> BadSan e) /\ (forall t, OtherGeneralName t ∉ san_names c)) as Hs.
  { unfold _validate_csr_san_types. destruct (san c) as [|e|names] eqn:Es.
    - unfold san_names. rewrite Es. split; [intros _; split; [done|intros t; apply not_elem_of_nil]|done].
    - split; [done|]. intros [H _]. by destruct (H e).
    - rewrite check_san_names_spec. unfold san_names in *. rewrite Es in *. split.
      + intros H. split; [done|]. intros t Ht. by apply H in Ht.
      + intros [_ H] [v|v|t] Hn; [apply Hd; eauto|by apply Hi|by apply H in Hn]. }
  destruct (_validate_csr_san_types c domains ips).
  { split; [done|]. intros (_ & _ & H1 & H2 & _). by apply Hs. }
  destruct (proj1 Hs eq_refl) as (H1 & H2). clear Hs.
  unfold _validate_csr_subject. destruct (email_addresses c) as [|e l]; [|naive_solver].
  rewrite fmap_None, find_none_iff. unfold cn_allowed.
  setoid_rewrite negb_false_iff. setoid_rewrite orb_true_iff. setoid_rewrite orb_true_iff.
  setoid_rewrite str_in_spec. naive_solver.
Qed.

(** A wildcard pattern of an EAB credential covers the names strictly below
    its zone, never the apex; a requested wildcard name is covered exactly when
    its base is the zone or lies below it. *)
Theorem wildcard_scope (suffix value : string) :
  (_wildcard_covers suffix value = true <->
     suffix <> ""%string /\ exists p, value = (p ++ "." ++ suffix)%string)
  /\ _wildcard_covers suffix suffix = false
  /\ (_wildcard_covers suffix ("*." ++ value) = true <->
        suffix <> ""%string
        /\ (value = suffix \/ exists p, value = (p ++ "." ++ suffix)%string)).
Proof.
  assert (forall v, _wildcard_covers suffix v = true <->
            suffix <> ""%string /\ exists p, v = (p ++ "." ++ suffix)%string) as H.
  { intros v. unfold _wildcard_covers. destruct suffix as [|a suffix]; [naive_solver|].
    cbn [nonempty]. rewrite endswith_spec. naive_solver. }
  split_and!; [apply H| |].
  - apply not_true_iff_false. intros (_ & p & E)%H.
    apply (f_equal (fun s => length (chars s))) in E. rewrite !chars_app, !length_app in E. simpl in E. lia.
  - rewrite H. apply and_iff_compat_l. split.
    + intros (p & E). destruct p as [|a [|b p]].
      * change ("*." ++ value)%string with (String "*" (String "." value)) in E. discriminate.
      * left. change (String "*" (String "." value) = String a (String "." suffix)) in E. congruence.
      * right. exists p. change (String "*" (String "." value)
                                 = String a (String b (p ++ "." ++ suffix))) in E. congruence.
    + intros [->|[p ->]]; [exists "*"%string; reflexivity|].
      exists ("*." ++ p)%string. reflexivity.
Qed.

(** A label may end in a newline: the pattern's [$] matches before it. *)
Lemma newline_identifier_accepted :
  is_valid_dns_identifier (VStr ("example.com" ++ String "010" ""))%string = true.
Proof. reflexivity. Qed.
