(* ===== verification/AcmeApi.v ===== *)
(** * AcmeApi: the requests of the ACME server

    Models the handlers of [backend/api/acme/acme_api.py] that read or change
    orders, authorizations and challenges, and [finalize_order] of
    [backend/services/acme/mixins/issuance.py]. A request is what is left of it
    once the JWS is verified: the account that signed it and the payload. The
    answers of other subsystems (certificate signing, CAA lookup, profiles,
    ownership of a certificate identifier, the network side of a validation) are
    arguments of the request. A challenge is named by its row: the handler finds
    that row by the random last segment of its URL. [exec] runs one request on the database and
    returns what is committed when it ends. *)

From Stdlib Require Import Ascii String.
From stdpp Require Import prelude strings.
From S2P Require Import Prelude Scalars DomainMatch AcmeModel AcmeOrders DnsPersist AcmeChallenges AcmeIdentifiers.

Local Open Scope Z_scope.

Inductive reply :=
| OrderReply (o : AcmeOrder) (authorizations : list nat)
| AuthzReply (a : AcmeAuthorization) (challenges : list AcmeChallenge)
| ChallengeReply (c : AcmeChallenge)
| OrderList (ids : list nat)
| Problem (type detail : string) (status : Z).

Definition acme_error (type detail : string) : reply := Problem type detail 400.

(** ** CAA failures *)

Definition word_or_digit (c : ascii) : bool := is_alnum c || Ascii.eqb c "_".

(* \bcaa\b at the head of l, when the character before is not a word character *)
Fixpoint caa_word (after_word : bool) (l : list ascii) : bool :=
  (negb after_word && list_prefix ["c"; "a"; "a"]%char (lower_char <$> l)
   && match drop 3 l with c :: _ => negb (word_or_digit c) | [] => true end)
  || match l with
     | [] => false
     | c :: l' => caa_word (word_or_digit c) l'
     end.

Definition _is_caa_failure (text : string) : bool :=
  if contains "dns error" (lower text) then false else caa_word false (chars text).

(** ** Issuance *)

Inductive signing_exc :=
| ExcPolicyViolation (text : string)
| ExcIssuerWindow (text : string)
| ExcCAOffline (text : string)
| ExcValueError (text : string)
| ExcOther (text : string).

Definition exc_text (e : signing_exc) : string :=
  match e with
  | ExcPolicyViolation t | ExcIssuerWindow t | ExcCAOffline t | ExcValueError t | ExcOther t => t
  end.

Definition server_words : list string :=
  ["signing key"; "HSM"; "No CA available"; "awaiting its certificate"; "has no private key";
   "KEY_ENCRYPTION_KEY"]%string.

Definition _is_request_failure (e : option signing_exc) : bool :=
  match e with
  | None => true
  | Some (ExcPolicyViolation _) => true
  | Some (ExcIssuerWindow _) | Some (ExcCAOffline _) => false
  | Some e' =>
      if existsb (fun w => contains w (exc_text e')) server_words then false
      else match e' with ExcValueError _ => true | _ => false end
  end.

(* what _sign_certificate_with_ca answers *)
Inductive signing :=
| Signed (cert_id : Z)
| SigningFailed (exc : option signing_exc) (error : string)
| SigningRaised (text : string).

Record finalize_env := {
  fe_csr : csr;
  fe_csr_pem : string;
  fe_csr_error : option string;    (* why decode_csr_b64 refuses the payload *)
  fe_profile_known : string -> bool;
  fe_template_refusal : option string;
  fe_caa : list (string * option chall_type) -> option string;  (* the reason of a refusal *)
  fe_sign : signing;
}.

(* the validation method per DNS name: only when it is unique *)
Definition caa_domain (a : AcmeAuthorization) : string :=
  let domain := id_value (a_identifier a) in
  if a_wildcard a && negb (startswith domain "*.") then ("*." ++ domain)%string else domain.

Definition valid_methods (d : db) (a : AcmeAuthorization) : list chall_type :=
  remove_dups (c_type <$> List.filter (fun c => bool_decide (c_status c = CValid))
                            (authz_challs d (authorization_id a))).

Definition _caa_request_context (d : db) (oid : nat) : list (string * option chall_type) :=
  (fun a => (caa_domain a,
             match valid_methods d a with [t] => Some t | _ => None end))
  <$> List.filter (fun a => (id_type (a_identifier a) =? "dns")%string) (order_authzs d oid).

Definition general_name_text (n : general_name) : string :=
  match n with
  | DNSName v => "CSR SAN dNSName " ++ py_repr v ++ " is not an authorized order identifier"
  | IPAddress v => "CSR SAN iPAddress " ++ v ++ " is not an authorized order identifier"
  | OtherGeneralName t =>
      "CSR SAN contains unauthorized general name type " ++ t
      ++ "; ACME may only certify the DNS and IP identifiers validated by the order"
  end.

Definition refusal_text (c : csr) (ids : list identifier) (r : csr_refusal) : string :=
  match r with
  | DomainsDiffer =>
      "CSR domains " ++ py_list_repr (sorted_set (csr_norm <$> _extract_domains_from_csr c))
      ++ " don't match order domains "
      ++ py_list_repr (sorted_set (csr_norm <$> values_of_type "dns" ids))
  | IpsDiffer =>
      "CSR IPs " ++ py_list_repr (sorted_set (_extract_ips_from_csr c))
      ++ " don't match order IPs " ++ py_list_repr (sorted_set (values_of_type "ip" ids))
  | SanUnreadable =>
      "Unable to parse CSR SubjectAlternativeName: "
      ++ match san c with BadSan e => e | _ => "" end
  | SanNotAuthorized n => general_name_text n
  | SubjectEmail e =>
      "CSR subject contains an emailAddress attribute (" ++ py_repr e
      ++ "); ACME may only certify the DNS and IP identifiers validated by the order"
  | SubjectCn cn =>
      "CSR subject commonName " ++ py_repr cn ++ " is not an authorized order identifier"
  end%string.

Definition status_text (s : order_status) : string :=
  match s with
  | OPending => "pending" | OReady => "ready" | OProcessing => "processing"
  | OValid => "valid" | OInvalid => "invalid"
  end.

(* (True, None) is None, (False, error) is Some error; the problem type recorded
   when it is not badCSR comes with it *)
Definition finalize_order (oid : nat) (env : finalize_env) : M (option (string * string)) :=
  o ← gets (fun d => get_order (Some oid) d oid);
  match o with
  | None => mret (Some ("badCSR", "Order not found")%string)
  | Some o =>
      if negb (bool_decide (o_status o = OReady))
      then mret (Some ("badCSR", "Order status is " ++ status_text (o_status o)
                                 ++ ", must be 'ready'")%string)
      else match check_csr (fe_csr env) (identifiers o) with
      | Some r => mret (Some ("badCSR"%string, refusal_text (fe_csr env) (identifiers o) r))
      | None =>
      match fe_template_refusal env with
      | Some refusal => mret (Some ("badCSR"%string, refusal))
      | None =>
      caa ← gets (fun d =>
        match values_of_type "dns" (identifiers o) with
        | [] => None
        | _ => fe_caa env (_caa_request_context d oid)
        end);
      match caa with
      | Some reason => mret (Some ("badCSR", "CAA check failed: " ++ reason)%string)
      | None =>
      match fe_sign env with
      | SigningRaised text => raise (PyError text)
      | SigningFailed exc error =>
          if negb (_is_request_failure exc) then mret (Some ("serverInternal"%string, error))
          else modify (update_order oid (fun o =>
                 set_o_error (_problem "badCSR" error) (set_o_status OInvalid o))) ;;
               commit ;;
               mret (Some ("badCSR"%string, error))
      | Signed cert_id =>
          modify (update_order oid (set_o_issued (fe_csr_pem env) cert_id)) ;;
          commit ;;
          mret None
      end end end end
  end.

(** ** Orders *)

Inductive replaces_verdict := CertidMalformed | CertidForeign | CertidOwned.
#[export] Instance replaces_verdict_eq_dec : EqDecision replaces_verdict.
Proof. solve_decision. Defined.

Record new_order_payload := {
  np_identifiers : option (list (option raw_identifier));  (* None: not an array *)
  np_replaces : option string;
  np_profile : option string;
  np_dates : option (option Z * option Z);                 (* None: not ISO dates *)
}.

Record new_order_env := {
  ne_ip : IpReader;
  ne_eab : option stored_domains;          (* scope of the bound EAB credential *)
  ne_certid : string -> replaces_verdict;
  ne_profile_known : string -> bool;
  ne_default_profile : option string;
}.

Definition oks {E A} (l : list (result E A)) : list A :=
  omap (fun r => match r with Ok a => Some a | Raise _ => None end) l.
Definition errors {E A} (l : list (result E A)) : list E :=
  omap (fun r => match r with Ok _ => None | Raise e => Some e end) l.

(* one subproblem: its own type and detail; several: compound *)
Definition compound (details : list (string * string)) (detail : string) : option reply :=
  match details with
  | [] => None
  | [(t, d)] => Some (acme_error t d)
  | _ => Some (acme_error "compound" detail)
  end.

Definition wildcard_not_allowed (v : string) : string * string :=
  ("rejectedIdentifier", "Wildcard certificates are not allowed for this domain")%string.

Definition eab_refused (i : identifier) : string * string :=
  ("rejectedIdentifier", "Identifier " ++ id_value i
     ++ " is not allowed by this account's external account binding")%string.

(* the refusals that come before anything is written, in the order of the code *)
Definition identifiers_refusal (cfg : config) (env : new_order_env)
    (checked : list (result (string * string) identifier)) : option reply :=
  match compound (errors checked) "Multiple identifiers could not be accepted" with
  | Some r => Some r
  | None =>
      match compound (wildcard_not_allowed <$>
                        wildcard_refused (acme_domains cfg) (Some ∘ id_value <$> oks checked))
              "Wildcard certificates are not allowed for these domains" with
      | Some r => Some r
      | None =>
          match ne_eab env with
          | None => None
          | Some stored =>
              compound (eab_refused <$> List.filter (fun i => negb (allows_identifier stored i))
                                          (oks checked))
                "Identifiers are not allowed by this account's external account binding"
          end
      end
  end.

Definition has_valid_replacement (now : Z) (certid : string) (d : db) : bool :=
  existsb (fun o => bool_decide (o_replaces o = Some certid)
                    && negb (bool_decide (o_status o = OInvalid))
                    && (bool_decide (o_status o = OValid) || (now <? o_expires o))) (orders d).

Definition order_reply (oid : nat) (d : db) : reply :=
  match find_order d oid with
  | Some o => OrderReply o (authorization_id <$> order_authzs d oid)
  | None => Problem "serverInternal" "Internal server error" 500
  end.

Section Server.
Context `{Randomness, KeyDigest} (cfg : config) (now : Z).

Definition new_order (account : string) (env : new_order_env) (p : new_order_payload) : M reply :=
  match np_identifiers p with
  | Some [] => mret (acme_error "malformed" "At least one identifier required")
  | None => mret (acme_error "malformed" "Identifiers must be an array")
  | Some raws =>
      let checked := validate_acme_identifier (ne_ip env) <$> raws in
      match identifiers_refusal cfg env checked with
      | Some r => mret r
      | None =>
      used ← gets (fun d => match np_replaces p with
                            | Some c => has_valid_replacement now c d
                            | None => false
                            end);
      let verdict := ne_certid env <$> np_replaces p in
      match verdict with
      | Some CertidMalformed =>
          mret (acme_error "malformed" "Malformed replacement certificate identifier")
      | _ =>
      if bool_decide (verdict = Some CertidOwned) && used
      then mret (Problem "alreadyReplaced"
             ("The certificate named by " ++ String (ascii_of_nat 34) "replaces"
              ++ String (ascii_of_nat 34) " has already been replaced") 409)
      else
      let replaces := if bool_decide (verdict = Some CertidOwned) then np_replaces p else None in
      if match np_profile p with Some n => negb (ne_profile_known env n) | None => false end
      then mret (acme_error "invalidProfile"
             "The requested certificate profile is not offered by this server")
      else
      let profile := match np_profile p with
                     | Some n => Some n
                     | None => match ne_default_profile env with Some "" => None | x => x end
                     end in
      match np_dates p with
      | None => raise (PyError "Invalid isoformat string")
      | Some (nb, na) =>
          oid ← create_order cfg now account (oks checked) nb na replaces profile;
          gets (order_reply oid)
      end end end
  end.

Definition new_authz (account : string) (env : new_order_env) (raw : option raw_identifier)
    : M reply :=
  match validate_acme_identifier (ne_ip env) raw with
  | Raise (t, d) => mret (acme_error t d)
  | Ok i =>
      if match ne_eab env with Some stored => negb (allows_identifier stored i) | None => false end
      then mret (acme_error "rejectedIdentifier" (eab_refused i).2)
      else
        aid ← create_pre_authorization cfg now account i;
        gets (fun d => match find_authz d aid with
                       | Some a => AuthzReply a (authz_challs d aid)
                       | None => Problem "serverInternal" "Internal server error" 500
                       end)
  end.

Definition account_orders (account : string) : M reply :=
  gets (fun d => OrderList (rev (order_id <$>
    List.filter (fun o => (o_account o =? account)%string) (orders d)))).

Definition order_info (account : string) (oid : nat) : M reply :=
  o ← gets (fun d => get_order None d oid);
  match o with
  | None => mret (Problem "malformed" "Order not found" 404)
  | Some o =>
      if negb (o_account o =? account)%string
      then mret (Problem "unauthorized" "Order does not belong to this account" 403)
      else expire_order_if_needed now oid ;; gets (order_reply oid)
  end.

Definition order_not_ready (o : AcmeOrder) : reply :=
  Problem "orderNotReady"
    ("Order status is " ++ status_text (o_status o) ++ ", must be ready") 403.

Definition finalize (account : string) (oid : nat) (env : finalize_env) : M reply :=
  existing ← gets (fun d => get_order None d oid);
  match existing with
  | None => mret (Problem "malformed" "Order not found" 404)
  | Some o =>
      if negb (o_account o =? account)%string
      then mret (Problem "unauthorized" "Order does not belong to this account" 403)
      else if bool_decide (is_Some (fe_csr_error env))
      then mret (acme_error "malformed" (default ""%string (fe_csr_error env)))
      else if negb (bool_decide (o_status o = OReady)) then mret (order_not_ready o)
      else if match o_profile o with
              | None | Some "" => false
              | Some n => negb (fe_profile_known env n)
              end
      then mret (acme_error "invalidProfile"
             "The certificate profile of this order is no longer offered by this server")
      else
      claimed ← begin_order_processing oid;
      if negb claimed then
        fresh ← gets (fun d => find_order d oid);
        mret (order_not_ready (default o fresh))
      else
      failed ← try_except (r ← finalize_order oid env; mret (inl r))
                 (fun e => if _is_caa_failure (err_text e)
                           then invalidate_processing_order oid "caa" (err_text e) ;;
                                mret (inr (acme_error "caa" (err_text e)))
                           else restore_processing_order oid ;; raise e);
      match failed with
      | inr r => mret r
      | inl None => gets (order_reply oid)
      | inl (Some (type, error)) =>
          if _is_caa_failure error
          then invalidate_processing_order oid "caa" error ;; mret (acme_error "caa" error)
          else restore_processing_order oid ;;
               mret (if (type =? "serverInternal")%string
                     then Problem type "Certificate signing failed on the server; retry later" 500
                     else acme_error type error)
      end
  end.

(** ** Authorizations and challenges *)

(* auth.account_id or (auth.order.account_id if auth.order else None) *)
Definition authz_account (d : db) (a : AcmeAuthorization) : option string :=
  if truthy_account a then a_account a
  else o_account <$> (i ← a_order a; find_order d i).

Definition authz_status_text (s : authz_status) : string :=
  match s with
  | APending => "pending" | AValid => "valid" | AInvalid => "invalid"
  | ADeactivated => "deactivated"
  end.

Definition listed_challenges (a : AcmeAuthorization) (d : db) : list AcmeChallenge :=
  let l := authz_challs d (authorization_id a) in
  if bool_decide (a_status a = AValid)
  then List.filter (fun c => bool_decide (c_status c = CValid)) l else l.

Definition authz_reply (aid : nat) (d : db) : reply :=
  match find_authz d aid with
  | Some a => AuthzReply a (listed_challenges a d)
  | None => Problem "serverInternal" "Internal server error" 500
  end.

Definition authorization_info (account : string) (aid : nat) (deactivate : bool) : M reply :=
  found ← gets (fun d => a ← find_authz d aid; Some (a, authz_account d a));
  match found with
  | None => mret (Problem "malformed" "Authorization not found" 404)
  | Some (a, owner) =>
      if negb (bool_decide (owner = Some account))
      then mret (Problem "unauthorized" "Authorization does not belong to this account" 403)
      else
        expire_authorization_if_needed now aid ;;
        current ← gets (fun d => default a (find_authz d aid));
        if negb deactivate then gets (authz_reply aid)
        else if bool_decide (a_status current = AInvalid)
        then mret (acme_error "malformed"
               ("Authorization is " ++ authz_status_text (a_status current)
                ++ "; only a pending or valid authorization can be deactivated"))
        else deactivate_authorization aid ;; gets (authz_reply aid)
  end.

(* what the network answers to the validation of one challenge *)
Record network := {
  net_thumbprint : string;               (* of the account's key *)
  net_account_uri : string;
  net_reach : internet;
  net_txt : string -> result string (list rdata);
  net_issuers : list string;
  net_now_ts : Z;
  net_persist : string -> option (list string);
}.

Definition validate_challenge (c : AcmeChallenge) (a : option AcmeAuthorization) (n : network)
    : M bool :=
  let i := default {| id_type := "dns"; id_value := "" |} (a_identifier <$> a) in
  match c_type c with
  | http_01 => validate_http01_challenge now c (net_thumbprint n) i (net_reach n)
  | dns_01 => validate_dns01_challenge now c (net_thumbprint n)
                (strip_wildcard (id_value i)) (net_txt n)
  | dns_persist_01 =>
      match a with
      | Some a => validate_dns_persist01_challenge now c a (net_account_uri n) (net_issuers n)
                    (net_now_ts n) (net_persist n)
      | None => raise (PyError "no authorization")
      end
  | tls_alpn_01 => validate_tls_alpn01_challenge now c (net_thumbprint n) i (net_reach n)
  end.

Definition challenge_owner (d : db) (a : AcmeAuthorization) : option string :=
  match authz_account d a with Some "" => None | x => x end.

Definition respond_to_challenge (account : string) (cid : nat) (n : network) : M reply :=
  found ← gets (fun d => c ← find_chall d cid;
                         let a := find_authz d (c_authz c) in
                         Some (c, a, a ≫= challenge_owner d));
  match found with
  | None => mret (Problem "malformed" "Challenge not found" 404)
  | Some (c, a, owner) =>
      if match owner with Some x => negb (x =? account)%string | None => false end
      then mret (Problem "unauthorized" "Challenge does not belong to this account" 403)
      else if bool_decide (c_status c = CValid \/ c_status c = CInvalid)
      then mret (ChallengeReply c)
      else match a with
      | Some a' =>
          if negb (bool_decide (a_status a' = APending))
          then mret (Problem "malformed"
                 ("Authorization is " ++ authz_status_text (a_status a') ++ ", not pending") 403)
          else validate_challenge c a n ;;
               gets (fun d => ChallengeReply (default c (find_chall d cid)))
      | None =>
          validate_challenge c a n ;;
          gets (fun d => ChallengeReply (default c (find_chall d cid)))
      end
  end.

(** ** Requests *)

Inductive request :=
| NewOrder (account : string) (env : new_order_env) (p : new_order_payload)
| NewAuthz (account : string) (env : new_order_env) (raw : option raw_identifier)
| ListOrders (account : string)
| OrderInfo (account : string) (oid : nat)
| Finalize (account : string) (oid : nat) (env : finalize_env)
| AuthzInfo (account : string) (aid : nat) (deactivate : bool)
| Respond (account : string) (cid : nat) (n : network).

Definition handle (r : request) : M reply :=
  match r with
  | NewOrder account env p => new_order account env p
  | NewAuthz account env raw => new_authz account env raw
  | ListOrders account => account_orders account
  | OrderInfo account oid => order_info account oid
  | Finalize account oid env => finalize account oid env
  | AuthzInfo account aid deactivate => authorization_info account aid deactivate
  | Respond account cid n => respond_to_challenge account cid n
  end.

Definition internal_error : reply := Problem "serverInternal" "Internal server error" 500.

(* a request starts with a fresh session; an exception is answered 500 *)
Definition exec (r : request) (outcomes : list bool) (d : db) (n : nat) : reply * db * nat :=
  let '(res, w) := handle r {| committed := d; session := d; commits := outcomes; draws := n |} in
  (match res with Ok x => x | Raise _ => internal_error end, committed w, draws w).
End Server.
