(* ===== verification/AcmeEvidence.v ===== *)
(** * AcmeEvidence: what a validation has seen when it answers True

    For each validation method, the proof that RFC 8555, RFC 8737, RFC 8738 and the
    dns-persist-01 draft ask for, in terms of the network alone: which URL was asked and
    where the redirects led, which name was resolved, which address was connected to with
    which SNI. [validate_judging] shows that a validation marks its challenge valid only
    behind that proof. *)

From Stdlib Require Import Ascii String.
From stdpp Require Import prelude strings.
From S2P Require Import Prelude Scalars DomainMatch AcmeModel AcmeOrders DnsPersist AcmeChallenges AcmeIdentifiers AcmeApi.

Local Open Scope Z_scope.

(** ** Where a fetch leads *)

(* the addresses a hop may be pinned to *)
Definition allowed_addresses (net : internet) (url host : string) (ips : list string) : Prop :=
  validate_url_not_cloud_metadata net url (allow_private net) = Ok tt
  /\ (allow_private net = false -> validate_host_not_private net host = Ok ips)
  /\ (allow_private net = true -> validated_addresses net url true = Ok ips).

(* a GET of this URL, with the host pinned, ends in this response: it answers it, or redirects
   over HTTP or HTTPS, on a standard port, to a host that is allowed and pinned in turn *)
Inductive leads_to (net : internet) : string -> option (string * list string) -> http_response -> Prop :=
| leads_here url pin r :
    requests_get net url pin = Ok r -> (status_code r ∉ [301; 302; 303; 307; 308]) -> leads_to net url pin r
| leads_on url pin r l host port ips r' :
    requests_get net url pin = Ok r -> status_code r ∈ [301; 302; 303; 307; 308] -> location r = Some l -> l <> ""%string ->
    (let next := urljoin net url l in
     lower (u_scheme (urlparse net next)) ∈ ["http"; "https"]%string
     /\ u_hostname (urlparse net next) = Some host /\ host <> ""%string
     /\ u_port (urlparse net next) = Ok port /\ (port = None \/ port = Some 80 \/ port = Some 443)
     /\ allowed_addresses net next host ips) ->
    leads_to net (urljoin net url l) (Some (host, ips)) r' -> leads_to net url pin r'.

(** ** The proofs *)

Section Proofs.
Context `{KeyDigest}.

(* an IPv6 literal is bracketed in a URL *)
Definition host_text (net : internet) (i : identifier) : string :=
  if decide (id_type i = "ip"%string /\ ip_version net (id_value i) = Some 6)
  then ("[" ++ id_value i ++ "]")%string else id_value i.

(* the well-known URL of the name and of this token serves the key authorization *)
Definition http_proof (net : internet) (i : identifier) (token key_authz : string) : Prop :=
  exists ips r,
    let url := ("http://" ++ host_text net i ++ "/.well-known/acme-challenge/" ++ token)%string in
    allowed_addresses net url (id_value i) ips
    /\ leads_to net url (if decide (id_type i = "ip"%string) then None else Some (id_value i, ips)) r
    /\ ~ 400 <= status_code r < 600 /\ strip (response_text r) = key_authz.

(* a TXT record at the validation name carries its digest *)
Definition dns_proof (resolve : string -> result string (list rdata)) (i : identifier) (key_authz : string) : Prop :=
  exists answers r, resolve ("_acme-challenge." ++ strip_wildcard (id_value i))%string = Ok answers /\ r ∈ answers
    /\ match r with
       | TxtStrings l => txt_digest key_authz ∈ l
       | OtherRdata text => strip_quotes text = txt_digest key_authz
       end.

(* the name of the SNI: the identifier, or the reverse name of an address *)
Definition sni_of (net : internet) (i : identifier) (sni : string) : Prop :=
  (id_type i <> "ip"%string -> sni = id_value i)
  /\ (id_type i = "ip"%string -> reverse_pointer net (id_value i) = Some sni /\ sni <> ""%string).

(* one of the addresses vetted for the identifier, asked under its name, negotiates acme-tls/1 and
   presents a critical acmeIdentifier extension with the digest *)
Definition tls_proof (net : internet) (i : identifier) (key_authz : string) : Prop :=
  exists ips addr sni peer ext,
    allowed_addresses net ("https://" ++ format_ip_for_url net (id_value i) ++ "/")%string (id_value i) ips
    /\ (addr ∈ ips \/ ips = [] /\ addr = id_value i)
    /\ create_connection net addr = Connected /\ sni_of net i sni /\ handshake net addr sni = Ok peer
    /\ negotiated peer = Some "acme-tls/1"%string /\ peer_cert peer = Some (Some (true, ext))
    /\ (ext = raw_digest key_authz \/ exists tag len, ext = tag :: len :: raw_digest key_authz /\ tag = 4).

(* a record at the name, or at an ancestor of two labels or more, of one of our issuers, accepted;
   as an exact match only at the name itself *)
Definition persist_proof (n : network) (a : AcmeAuthorization) : Prop :=
  let requested := normalize_domain (Some (strip_wildcard (id_value (a_identifier a)))) in
  let wild := a_wildcard a || startswith (id_value (a_identifier a)) "*." in
  exists name raws raw issuer p ex,
    name ∈ persist_candidates requested
    /\ net_persist n (VALIDATION_LABEL ++ "." ++ name)%string = Some raws /\ raw ∈ raws
    /\ parse_issue_value raw = Ok (issuer, p) /\ issuer ∈ net_issuers n
    /\ check_record_against issuer p (net_issuers n) (net_account_uri n) ex wild (net_now_ts n) = Accepted
    /\ (ex = true -> name = requested).

(* what the validation of this challenge must have seen *)
Definition proof_shown (n : network) (c : AcmeChallenge) (a : option AcmeAuthorization) : Prop :=
  let key_authz := (c_token c ++ "." ++ net_thumbprint n)%string in
  let i := default {| id_type := "dns"; id_value := "" |} (a_identifier <$> a) in
  match c_type c with
  | http_01 => http_proof (net_reach n) i (c_token c) key_authz
  | dns_01 => dns_proof (net_txt n) i key_authz
  | tls_alpn_01 => tls_proof (net_reach n) i key_authz
  | dns_persist_01 => exists a', a = Some a' /\ persist_proof n a'
  end.
End Proofs.

(** ** How a validation ends *)

(* it raises, or marks the challenge: as valid only when the proof was shown *)
Inductive judging (now : Z) (c : AcmeChallenge) (shown : Prop) : M bool -> Prop :=
| judge_valid : shown -> judging now c shown (mark_valid now c)
| judge_invalid et dt : judging now c shown (mark_invalid c et dt)
| judge_raise e : judging now c shown (raise e)
| judge_try body et : judging now c shown body ->
    judging now c shown (try_except body (fun e => mark_invalid c et (err_text e))).
#[local] Hint Constructors judging : core.

Lemma judging_weaken now c (P Q : Prop) m : (P -> Q) -> judging now c P m -> judging now c Q m.
Proof. intros HPQ. induction 1; auto. Qed.

Lemma vetted_allowed net url value ips : vetted_addresses net url value = Ok ips -> allowed_addresses net url value ips.
Proof.
  unfold vetted_addresses, allowed_addresses. destruct (validate_url_not_cloud_metadata _ _ _) as [[]|]; [|done].
  destruct (allow_private net); cbn [negb]; repeat case_match; naive_solver.
Qed.

Lemma redirect_spec s : existsb (Z.eqb s) REDIRECT_STATUSES = true <-> s ∈ [301; 302; 303; 307; 308].
Proof.
  change [301; 302; 303; 307; 308] with REDIRECT_STATUSES. rewrite existsb_exists. split.
  - by intros (x & Hx%list_elem_of_In & ->%Z.eqb_eq).
  - intros Hs. exists s. split; [by apply list_elem_of_In|apply Z.eqb_refl].
Qed.

Lemma follow_leads net hops : forall url pin r, follow net hops url pin = Ok r -> leads_to net url pin r.
Proof.
  induction hops as [|hops IH]; intros url pin r; cbn [follow]; [done|].
  destruct (requests_get net url pin) as [r0|] eqn:Eg; [|done].
  destruct (existsb _ _) eqn:Er; cbn [negb].
  2: { intros [= <-]. apply leads_here; [done|]. rewrite <- redirect_spec. congruence. }
  apply redirect_spec in Er. destruct (location r0) as [[|ch l]|] eqn:El; [done| |done].
  destruct (str_in _ _) eqn:Es; cbn [negb]; [|done]. apply str_in_spec in Es.
  destruct (u_hostname _) as [[|hc host]|] eqn:Eh; [done| |done]. destruct (u_port _) as [port|] eqn:Ep; [|done].
  destruct (standard_port port) eqn:Esp; cbn [negb]; [|done].
  destruct (validate_url_not_cloud_metadata _ _ _) as [[]|] eqn:Em; [|done].
  destruct (if allow_private net then _ else _) as [ips|] eqn:Ei; [|done]. intros Hf%IH.
  assert (allowed_addresses net (urljoin net url (String ch l)) (String hc host) ips) as Ha
    by (unfold allowed_addresses; split; [done|]; by destruct (allow_private net)).
  assert (port = None \/ port = Some 80 \/ port = Some 443) as Hport.
  { destruct port as [p|]; [|by left]. right. apply orb_true_iff in Esp as [->%Z.eqb_eq| ->%Z.eqb_eq]; auto. }
  eapply leads_on with (port := port) (ips := ips); [done..| |exact Hf]. by split_and!.
Qed.

Lemma status_fine r : raise_for_status r = None -> ~ 400 <= status_code r < 600.
Proof.
  unfold raise_for_status. intros Hr Hs. destruct (Z.leb_spec 400 (status_code r)); [|lia].
  destruct (Z.ltb_spec (status_code r) 500); [done|]. destruct (Z.leb_spec 500 (status_code r)); [|lia].
  by destruct (Z.ltb_spec (status_code r) 600); [|lia].
Qed.

Lemma connect_first_spec net l : forall e addr, connect_first net l e = Ok addr -> addr ∈ l /\ create_connection net addr = Connected.
Proof.
  induction l as [|x l IH]; intros e addr; cbn; [done|].
  destruct (create_connection net x) eqn:Ex; [intros [= <-]|intros [? ?]%IH|done]; (split; [|done]); [by left|by right].
Qed.

Lemma tls_check_spec h peer : tls_check h peer = None ->
  negotiated peer = Some "acme-tls/1"%string
  /\ exists ext, peer_cert peer = Some (Some (true, ext)) /\ (ext = h \/ exists tag len, ext = tag :: len :: h /\ tag = 4).
Proof.
  unfold tls_check. destruct (bool_decide (negotiated peer = _)) eqn:En; cbn [negb]; [|done]. apply bool_decide_eq_true in En.
  destruct (peer_cert peer) as [[[[] ext]|]|]; cbn [negb]; [|done..]. intros Hd. split; [done|]. exists ext. split; [done|].
  destruct (bool_decide (_ = h)) eqn:Ed; [|done]. apply bool_decide_eq_true in Ed.
  destruct ((2 <? length ext)%nat && _) eqn:E; [|by left]. apply andb_prop in E as [El Eh%bool_decide_eq_true].
  destruct ext as [|t [|x ext]]; [done|done|]. right. exists t, x. cbn in Ed, Eh. by simplify_eq.
Qed.

(** ** Every method *)

Section Methods.
Context `{KeyDigest} (now : Z) (c : AcmeChallenge).

Lemma http_judging thumbprint i net :
  judging now c (http_proof net i (c_token c) (c_token c ++ "." ++ thumbprint)%string)
    (validate_http01_challenge now c thumbprint i net).
Proof.
  unfold validate_http01_challenge. apply judge_try.
  set (host := if (id_type i =? "ip")%string then _ else _).
  assert (host = host_text net i) as ->.
  { unfold host, host_text, format_ip_for_url. destruct (String.eqb_spec (id_type i) "ip"); [|by rewrite decide_False by naive_solver].
    case_bool_decide; [by rewrite decide_True|by rewrite decide_False by naive_solver]. }
  destruct (vetted_addresses _ _ _) as [ips|] eqn:Ev; [|auto]. apply vetted_allowed in Ev.
  destruct (fetch_following_redirects _ _ _) as [r|] eqn:Ef; [|auto]. apply follow_leads in Ef.
  destruct (raise_for_status r) eqn:Er; [auto|]. apply status_fine in Er.
  destruct (String.eqb_spec (strip (response_text r)) (_compute_key_authorization (c_token c) thumbprint)); [|auto].
  apply judge_valid. exists ips, r. split_and!; [done| |done..].
  revert Ef. by destruct (String.eqb_spec (id_type i) "ip"), (decide (id_type i = "ip"%string)).
Qed.

Lemma dns_judging thumbprint i resolve :
  judging now c (dns_proof resolve i (c_token c ++ "." ++ thumbprint)%string)
    (validate_dns01_challenge now c thumbprint (strip_wildcard (id_value i)) resolve).
Proof.
  unfold validate_dns01_challenge. apply judge_try.
  destruct (resolve _) as [answers|] eqn:Er; [|auto]. destruct (existsb _ _) eqn:Eb; [|auto].
  apply existsb_exists in Eb as (r & Hr%list_elem_of_In & Hm). apply judge_valid. exists answers, r. split_and!; [done..|].
  destruct r as [l|text]; [by apply str_in_spec|by apply String.eqb_eq].
Qed.

Lemma tls_judging thumbprint i net :
  judging now c (tls_proof net i (c_token c ++ "." ++ thumbprint)%string) (validate_tls_alpn01_challenge now c thumbprint i net).
Proof.
  unfold validate_tls_alpn01_challenge. apply judge_try.
  destruct (vetted_addresses _ _ _) as [ips|] eqn:Ev; [|auto]. apply vetted_allowed in Ev.
  set (sni := if (id_type i =? "ip")%string then _ else _). assert (forall x, sni = Some x -> sni_of net i x) as Hsni.
  { intros x. unfold sni, sni_of, ip_to_reverse_ptr. destruct (String.eqb_spec (id_type i) "ip"); [|naive_solver].
    destruct (reverse_pointer net (id_value i)) as [[|ch y]|]; naive_solver. }
  destruct sni as [x|]; [|auto]. destruct (connect_first _ _ _) as [addr|] eqn:Ec; [|auto].
  apply connect_first_spec in Ec as [Ha Ec]. destruct (handshake _ _ _) as [peer|] eqn:Eh; [|auto].
  destruct (tls_check _ peer) eqn:Et; [auto|]. apply tls_check_spec in Et as (Hn & ext & Hp & Hd).
  apply judge_valid. exists ips, addr, x, peer, ext. split_and!; auto. destruct ips; [|by left]. apply list_elem_of_singleton in Ha. auto.
Qed.

Lemma scan_records_found judge raws : forall failures,
  scan_records judge raws failures = Found -> exists raw, raw ∈ raws /\ judge raw = Accepted.
Proof.
  induction raws as [|raw raws IH]; intros failures; simpl; [done|].
  destruct (judge raw) eqn:E; intros Hf.
  1: exists raw; split; [by left|done].
  all: apply IH in Hf as (r & Hr & ?); exists r; split; [by right|done].
Qed.

Lemma scan_candidates_found resolve judge names : forall exact failures,
  scan_candidates resolve judge exact names failures = Found ->
  exists name raws raw ex, name ∈ names /\ resolve (VALIDATION_LABEL ++ "." ++ name)%string = Some raws
    /\ raw ∈ raws /\ judge ex raw = Accepted /\ (ex = true -> exact = true /\ head names = Some name).
Proof.
  induction names as [|fqdn names IH]; intros exact failures; cbn [scan_candidates]; [done|].
  destruct (resolve _) as [raws|] eqn:Er.
  - destruct (scan_records (judge exact) raws failures) as [|l] eqn:Es; intros Hf.
    + apply scan_records_found in Es as (raw & Hr & Hj). exists fqdn, raws, raw, exact.
      split_and!; [by left|done..|by intros ->].
    + apply IH in Hf as (name & r & raw & ex & Hn & Hr & Hraw & Hj & Hex).
      exists name, r, raw, ex. split_and!; [by right|done..|]. intros [? _]%Hex. done.
  - intros Hf. apply IH in Hf as (name & r & raw & ex & Hn & Hr & Hraw & Hj & Hex).
    exists name, r, raw, ex. split_and!; [by right|done..|]. intros [? _]%Hex. done.
Qed.

Lemma persist_judging n a :
  judging now c (persist_proof n a)
    (validate_dns_persist01_challenge now c a (net_account_uri n) (net_issuers n) (net_now_ts n) (net_persist n)).
Proof.
  unfold validate_dns_persist01_challenge. destruct (net_issuers n) as [|x xs] eqn:Ei; [auto|]. rewrite <- Ei. clear Ei.
  destruct (scan_candidates _ _ _ _ _) as [|l] eqn:Es; [|destruct (worst_failure l) as [[e dt]|]; auto].
  apply scan_candidates_found in Es as (name & raws & raw & ex & Hn & Hr & Hraw & Hj & Hex).
  unfold judge_record in Hj. destruct (parse_issue_value raw) as [[issuer p]|m] eqn:Ep; [|done].
  destruct (str_in issuer (net_issuers n)) eqn:Ein; [|done]. apply str_in_spec in Ein.
  apply judge_valid. exists name, raws, raw, issuer, p, ex. split_and!; [done..|]. intros [_ Hh]%Hex. by injection Hh.
Qed.

Lemma validate_judging a n : judging now c (proof_shown n c a) (validate_challenge now c a n).
Proof.
  unfold validate_challenge, proof_shown. destruct (c_type c).
  - apply http_judging.
  - apply dns_judging.
  - destruct a as [a|]; [|auto]. assert (judging now c (persist_proof n a) 
      (validate_dns_persist01_challenge now c a (net_account_uri n) (net_issuers n) (net_now_ts n) (net_persist n))) as Hj by apply persist_judging.
    revert Hj. apply judging_weaken. eauto.
  - apply tls_judging.
Qed.
End Methods.

Lemma mark_invalid_false c et dt w w' : mark_invalid c et dt w <> (Ok true, w').
Proof. unfold mark_invalid, mbind, M_bind. intros Hm. repeat case_match; simplify_eq. Qed.

(* a validation that answers True marked the challenge valid *)
Lemma judging_true now c shown m w w' : judging now c shown m -> m w = (Ok true, w') -> shown.
Proof.
  intros Hj. revert w w'. induction Hj as [Hs|et dt|e|body et _ IH]; intros w w' Hm; [done|..].
  - by apply mark_invalid_false in Hm.
  - done.
  - unfold try_except in Hm. destruct (body w) as [[b|e] w1] eqn:Eb; [|by apply mark_invalid_false in Hm].
    injection Hm as -> <-. by eapply IH.
Qed.
