(* ===== verification/AcmeLogic.v ===== *)
(** * AcmeLogic: a program logic for the session, and the tables' invariant

    [triple P Q m R]: started with a committed database satisfying [P] and a
    session satisfying [Q], the code [m] keeps [P] on the committed database,
    ends with a session satisfying [R], and leaves a session satisfying [P] when
    it raises. Commits may fail at any point: [P] is what every request leaves
    behind, whichever of its commits succeed.

    [Inv] is the consistency of the ACME tables and [Evolves] what one request,
    or any sequence of them, may change of the rows it finds. *)

From Stdlib Require Import Ascii String.
From stdpp Require Import prelude strings.
From S2P Require Import Prelude Scalars DomainMatch AcmeModel AcmeOrders AcmeChallenges.

(** ** Triples *)

Section Triples.
Variable P : nat -> db -> Prop.

Definition triple {A} (Q : nat -> db -> Prop) (m : M A) (R : A -> nat -> db -> Prop) : Prop :=
  forall w, P (draws w) (committed w) -> Q (draws w) (session w) ->
  match m w with
  | (Ok a, w') => (draws w <= draws w')%nat /\ P (draws w') (committed w')
                  /\ R a (draws w') (session w')
  | (Raise _, w') => (draws w <= draws w')%nat /\ P (draws w') (committed w')
                     /\ P (draws w') (session w')
  end.

Lemma triple_conseq {A} Q Q' (m : M A) R R' :
  triple Q' m R' -> (forall n d, Q n d -> Q' n d) -> (forall a n d, R' a n d -> R a n d) ->
  triple Q m R.
Proof.
  intros H HQ HR w Hp Hq. specialize (H w Hp (HQ _ _ Hq)).
  destruct (m w) as [[a|e] w']; naive_solver.
Qed.

Lemma triple_pre {A} Q Q' (m : M A) R :
  triple Q' m R -> (forall n d, Q n d -> Q' n d) -> triple Q m R.
Proof. intros. eapply triple_conseq; eauto. Qed.

Lemma triple_post {A} Q (m : M A) R R' :
  triple Q m R' -> (forall a n d, R' a n d -> R a n d) -> triple Q m R.
Proof. intros. eapply triple_conseq; eauto. Qed.

Lemma triple_ret {A} (a : A) (Q : nat -> db -> Prop) (R : A -> nat -> db -> Prop) :
  (forall n d, Q n d -> R a n d) -> triple Q (mret a) R.
Proof. intros H w Hp Hq. simpl. auto. Qed.

Lemma triple_bind {A B} Q (m : M A) (k : A -> M B) S R :
  triple Q m S -> (forall a, triple (S a) (k a) R) -> triple Q (m ≫= k) R.
Proof.
  intros Hm Hk w Hp Hq. unfold mbind, M_bind. specialize (Hm w Hp Hq).
  destruct (m w) as [[a|e] w1]; [|done]. destruct Hm as (Hle & Hp1 & Hs).
  specialize (Hk a w1 Hp1 Hs). destruct (k a w1) as [[b|e] w2]; naive_solver lia.
Qed.

Lemma triple_pure {A} (phi : Prop) Q (m : M A) R :
  (phi -> triple Q m R) -> triple (fun n d => phi /\ Q n d) m R.
Proof. intros H w Hp [Hphi Hq]. by apply H. Qed.

Lemma triple_gets {A} (f : db -> A) Q : triple Q (gets f) (fun a n d => a = f d /\ Q n d).
Proof. intros w Hp Hq. simpl. auto. Qed.

Lemma triple_look {A} (f : db -> A) Q : triple Q (gets f) (fun _ => Q).
Proof. intros w Hp Hq. simpl. auto. Qed.

Lemma triple_modify f (Q : nat -> db -> Prop) (R : unit -> nat -> db -> Prop) :
  (forall n d, Q n d -> R tt n (f d)) -> triple Q (modify f) R.
Proof. intros H w Hp Hq. simpl. auto. Qed.

Lemma triple_commit (Q : nat -> db -> Prop) :
  (forall n d, Q n d -> P n d) -> triple Q commit (fun _ => Q).
Proof.
  intros H w Hp Hq. unfold commit. destruct (commits w) as [|[] l]; simpl; auto.
Qed.

Lemma triple_rollback Q : triple Q rollback (fun _ => P).
Proof. intros w Hp Hq. simpl. auto. Qed.

Lemma triple_raise {A} e (Q : nat -> db -> Prop) (R : A -> nat -> db -> Prop) :
  (forall n d, Q n d -> P n d) -> triple Q (raise e) R.
Proof. intros H w Hp Hq. simpl. auto. Qed.

Lemma triple_try {A} Q (m : M A) h R :
  triple Q m R -> (forall e, triple P (h e) R) -> triple Q (try_except m h) R.
Proof.
  intros Hm Hh w Hp Hq. unfold try_except. specialize (Hm w Hp Hq).
  destruct (m w) as [[a|e] w1]; [done|]. destruct Hm as (Hle & Hp1 & Hs).
  specialize (Hh e w1 Hp1 Hs). destruct (h e w1) as [[b|e'] w2]; naive_solver lia.
Qed.

Lemma triple_mapM {A} (f : A -> M unit) (I : list A -> nat -> db -> Prop) l :
  (forall x done rest, l = done ++ x :: rest ->
     triple (I done) (f x) (fun _ => I (done ++ [x]))) ->
  triple (I []) (mapM_ f l) (fun _ => I l).
Proof.
  intros Hf.
  assert (forall rest pre, l = pre ++ rest -> triple (I pre) (mapM_ f rest) (fun _ => I l)) as H.
  { induction rest as [|x rest IH]; intros pre Hpre; simpl.
    - apply triple_ret. intros n d. by rewrite Hpre, app_nil_r.
    - eapply triple_bind; [by eapply Hf|]. intros []. apply IH. by rewrite <- app_assoc. }
  by apply H.
Qed.

Hypothesis P_mono : forall n n' d, (n <= n')%nat -> P n d -> P n' d.

Lemma triple_draw (Q : nat -> db -> Prop) (R : nat -> nat -> db -> Prop) :
  (forall n d, Q n d -> R n (S n) d) -> triple Q draw R.
Proof. intros H w Hp Hq. simpl. split_and!; [lia| |auto]. eapply P_mono; [|done]; lia. Qed.
End Triples.

(* one step of symbolic execution *)
Ltac tbind := eapply triple_bind; [|intros ?].
Ltac tgets x := eapply triple_bind; [apply triple_gets|intros x].

(** ** Consistency of the tables *)

Definition failed_status (s : authz_status) : Prop := s = AInvalid \/ s = ADeactivated.

(* a ready order has only valid authorizations; an order past that point has none pending,
   or one that failed *)
Definition order_ok (d : db) (o : AcmeOrder) : Prop :=
  let none_pending := forall a, a ∈ authzs d -> a_order a = Some (order_id o) ->
                                a_status a <> APending in
  match o_status o with
  | OPending => True
  | OReady => forall a, a ∈ authzs d -> a_order a = Some (order_id o) -> a_status a = AValid
  | OProcessing | OValid => none_pending
  | OInvalid => none_pending \/
      exists a, a ∈ authzs d /\ a_order a = Some (order_id o) /\ failed_status (a_status a)
  end.

(* a valid authorization was proved by a challenge and has none left to answer *)
Definition authz_ok (d : db) (a : AcmeAuthorization) : Prop :=
  a_status a = AValid ->
  (forall c, c ∈ challs d -> c_authz c = authorization_id a -> live_challenge c = false)
  /\ exists c, c ∈ challs d /\ c_authz c = authorization_id a /\ c_status c = CValid.

(* keys are unique and were drawn, references too *)
Record Shape (n : nat) (d : db) : Prop := {
  sh_oid : NoDup (order_id <$> orders d);
  sh_aid : NoDup (authorization_id <$> authzs d);
  sh_cid : NoDup (challenge_id <$> challs d);
  sh_o : forall o, o ∈ orders d -> (order_id o < n)%nat;
  sh_a : forall a, a ∈ authzs d ->
           (authorization_id a < n)%nat /\ forall i, a_order a = Some i -> (i < n)%nat;
  sh_c : forall c, c ∈ challs d -> (challenge_id c < n)%nat /\ (c_authz c < n)%nat;
}.

(* the invariant, but for the orders in Xo and the authorizations in Xa *)
Record InvX (Xo : nat -> order_status -> Prop) (Xa : nat -> Prop) (n : nat) (d : db) : Prop := {
  ix_shape : Shape n d;
  ix_order : forall o, o ∈ orders d -> ~ Xo (order_id o) (o_status o) -> order_ok d o;
  ix_authz : forall a, a ∈ authzs d -> ~ Xa (authorization_id a) -> authz_ok d a;
}.

Definition no_order (_ : nat) (_ : order_status) : Prop := False.
Definition no_authz (_ : nat) : Prop := False.
Definition Inv : nat -> db -> Prop := InvX no_order no_authz.

(** ** What may change *)

(* what one request may do to the status of an order, and what any number of them may *)
Definition order_move (s s' : order_status) : Prop :=
  s' = s \/ (s = OPending /\ (s' = OReady \/ s' = OInvalid))
  \/ (s = OReady /\ (s' = OProcessing \/ s' = OValid \/ s' = OInvalid)).
Definition order_reach (s s' : order_status) : Prop :=
  s' = s \/ s = OPending \/ (s = OReady /\ s' <> OPending).
Definition authz_reach (s s' : authz_status) : Prop :=
  s' = s \/ s = APending \/ (s = AValid /\ s' = ADeactivated).

Definition order_step (R : relation order_status) (o o' : AcmeOrder) : Prop :=
  order_id o' = order_id o /\ o_account o' = o_account o /\ identifiers o' = identifiers o
  /\ o_expires o' = o_expires o /\ R (o_status o) (o_status o').
Definition authz_step (a a' : AcmeAuthorization) : Prop :=
  authorization_id a' = authorization_id a /\ a_order a' = a_order a
  /\ a_account a' = a_account a /\ a_identifier a' = a_identifier a
  /\ a_wildcard a' = a_wildcard a /\ a_expires a' = a_expires a
  /\ authz_reach (a_status a) (a_status a').
Definition chall_same (c c' : AcmeChallenge) : Prop :=
  challenge_id c' = challenge_id c /\ c_authz c' = c_authz c /\ c_type c' = c_type c
  /\ c_token c' = c_token c.

(* rows of [d0], whose keys are below [n0], in [d]: orders and authorizations stay, in
   their order and with their fixed columns; the rows added have newer keys *)
Record Evolves (R : relation order_status) (n0 : nat) (d0 d : db) : Prop := {
  ev_orders : exists l new, orders d = l ++ new /\ Forall2 (order_step R) (orders d0) l
                /\ Forall (fun o => (n0 <= order_id o)%nat) new;
  ev_authzs : exists l new, authzs d = l ++ new /\ Forall2 authz_step (authzs d0) l
                /\ Forall (fun a => (n0 <= authorization_id a)%nat
                                    /\ forall i, a_order a = Some i -> (n0 <= i)%nat) new;
  ev_challs : forall c, c ∈ challs d -> (challenge_id c < n0)%nat ->
                exists c0, c0 ∈ challs d0 /\ chall_same c0 c;
}.

#[export] Instance order_reach_refl : Reflexive order_reach.
Proof. intros s. by left. Qed.
#[export] Instance order_reach_trans : Transitive order_reach.
Proof. intros x y z [->|[->|[-> ?]]] [->|[->|[-> ?]]]; unfold order_reach; naive_solver. Qed.
#[export] Instance authz_reach_refl : Reflexive authz_reach.
Proof. intros s. by left. Qed.
#[export] Instance authz_reach_trans : Transitive authz_reach.
Proof. intros x y z [->|[->|[-> ->]]] [->|[?|[? ?]]]; unfold authz_reach; naive_solver. Qed.
#[export] Instance order_move_refl : Reflexive order_move.
Proof. intros s. by left. Qed.
#[export] Instance order_step_refl R `{!Reflexive R} : Reflexive (order_step R).
Proof. intros o. unfold order_step. done. Qed.
#[export] Instance order_step_trans R `{!Transitive R} : Transitive (order_step R).
Proof.
  intros x y z (? & ? & ? & ? & ?) (? & ? & ? & ? & ?). unfold order_step.
  split_and!; try congruence. by etrans.
Qed.
#[export] Instance authz_step_refl : Reflexive authz_step.
Proof. intros o. unfold authz_step. done. Qed.
#[export] Instance authz_step_trans : Transitive authz_step.
Proof.
  intros x y z (? & ? & ? & ? & ? & ? & ?) (? & ? & ? & ? & ? & ? & ?). unfold authz_step.
  split_and!; try congruence. by etrans.
Qed.

(** ** Rows and keys *)

Lemma unique_by {A B} (f : A -> B) (l : list A) x y :
  NoDup (f <$> l) -> x ∈ l -> y ∈ l -> f x = f y -> x = y.
Proof.
  induction l as [|z l IH]; [intros _ []%elem_of_nil|].
  rewrite fmap_cons, NoDup_cons. intros [Hz Hn] [->|Hx]%elem_of_cons [->|Hy]%elem_of_cons E; auto.
  - destruct Hz. rewrite E. by apply list_elem_of_fmap_2.
  - destruct Hz. rewrite <- E. by apply list_elem_of_fmap_2.
Qed.

Lemma find_spec {A} (p : A -> bool) l x : List.find p l = Some x -> x ∈ l /\ p x = true.
Proof. intros [H1%list_elem_of_In H2]%List.find_some. done. Qed.

Lemma find_order_some d i o : find_order d i = Some o -> o ∈ orders d /\ order_id o = i.
Proof. intros [? ?%Nat.eqb_eq]%find_spec. done. Qed.
Lemma find_authz_some d i a : find_authz d i = Some a -> a ∈ authzs d /\ authorization_id a = i.
Proof. intros [? ?%Nat.eqb_eq]%find_spec. done. Qed.
Lemma find_chall_some d i c : find_chall d i = Some c -> c ∈ challs d /\ challenge_id c = i.
Proof. intros [? ?%Nat.eqb_eq]%find_spec. done. Qed.

Lemma find_order_none d i o : find_order d i = None -> o ∈ orders d -> order_id o <> i.
Proof.
  unfold find_order. intros H Ho%list_elem_of_In. eapply List.find_none in H; [|done].
  by apply Nat.eqb_neq in H.
Qed.

Lemma order_unique n d o o' :
  Shape n d -> o ∈ orders d -> o' ∈ orders d -> order_id o = order_id o' -> o = o'.
Proof. intros []. by apply unique_by. Qed.
Lemma authz_unique n d a a' :
  Shape n d -> a ∈ authzs d -> a' ∈ authzs d -> authorization_id a = authorization_id a' -> a = a'.
Proof. intros []. by apply unique_by. Qed.
Lemma chall_unique n d c c' :
  Shape n d -> c ∈ challs d -> c' ∈ challs d -> challenge_id c = challenge_id c' -> c = c'.
Proof. intros []. by apply unique_by. Qed.

Lemma elem_of_filter_list {A} (p : A -> bool) l x : x ∈ List.filter p l <-> x ∈ l /\ p x = true.
Proof. by rewrite !list_elem_of_In, filter_In. Qed.

Lemma elem_of_order_authzs d i a : a ∈ order_authzs d i <-> a ∈ authzs d /\ a_order a = Some i.
Proof.
  unfold order_authzs, belongs_to. by rewrite elem_of_filter_list, bool_decide_eq_true.
Qed.

Lemma elem_of_authz_challs d i c : c ∈ authz_challs d i <-> c ∈ challs d /\ c_authz c = i.
Proof. unfold authz_challs. by rewrite elem_of_filter_list, Nat.eqb_eq. Qed.

Lemma all_valid_spec l : all_valid l = true <-> forall a, a ∈ l -> a_status a = AValid.
Proof.
  unfold all_valid. rewrite forallb_forall. setoid_rewrite bool_decide_eq_true.
  by setoid_rewrite <- list_elem_of_In.
Qed.

Lemma elem_of_update_where {A} (p : A -> bool) f (l : list A) y :
  y ∈ update_where p f l <-> exists x, x ∈ l /\ y = if p x then f x else x.
Proof. unfold update_where. rewrite list_elem_of_fmap. naive_solver. Qed.

Lemma update_where_keys {A B} (key : A -> B) p f (l : list A) :
  (forall x, key (f x) = key x) -> key <$> update_where p f l = key <$> l.
Proof.
  intros H. unfold update_where. rewrite <- list_fmap_compose. apply list_fmap_ext.
  intros _ x _. simpl. by destruct (p x).
Qed.

(** ** Writes keep the shape *)

Lemma shape_mono n n' d : (n <= n')%nat -> Shape n d -> Shape n' d.
Proof.
  intros Hle [H1 H2 H3 Ho Ha Hc]. split; [done..| | |].
  - intros o ?%Ho. lia.
  - intros a [? Hi]%Ha. split; [lia|]. intros i ?%Hi. lia.
  - intros c ?%Hc. lia.
Qed.

Lemma shape_update_orders n d p g :
  (forall o, order_id (g o) = order_id o) -> Shape n d -> Shape n (with_orders (update_where p g) d).
Proof.
  intros Hg [H1 H2 H3 Ho Ha Hc]. split; simpl; [by rewrite update_where_keys|done..| |done|done].
  intros o (o1 & Hin & ->)%elem_of_update_where. destruct (p o1); rewrite ?Hg; auto.
Qed.

Lemma shape_update_authzs n d p f :
  (forall a, authorization_id (f a) = authorization_id a /\ a_order (f a) = a_order a) ->
  Shape n d -> Shape n (with_authzs (update_where p f) d).
Proof.
  intros Hf [H1 H2 H3 Ho Ha Hc].
  split; simpl; [done|by rewrite update_where_keys by apply Hf|done|done| |done].
  intros a (a1 & Hin & ->)%elem_of_update_where. destruct (Hf a1) as [E1 E2].
  destruct (p a1); rewrite ?E1, ?E2; auto.
Qed.

Lemma shape_update_challs n d p f :
  (forall c, challenge_id (f c) = challenge_id c /\ c_authz (f c) = c_authz c) ->
  Shape n d -> Shape n (with_challs (update_where p f) d).
Proof.
  intros Hf [H1 H2 H3 Ho Ha Hc].
  split; simpl; [done|done|by rewrite update_where_keys by apply Hf|done|done|].
  intros c (c1 & Hin & ->)%elem_of_update_where. destruct (Hf c1) as [E1 E2].
  destruct (p c1); rewrite ?E1, ?E2; auto.
Qed.

Lemma filter_keys_sublist {A B} (key : A -> B) (p : A -> bool) (l : list A) :
  key <$> List.filter p l `sublist_of` key <$> l.
Proof.
  induction l as [|x l IH]; simpl; [done|]. destruct (p x); simpl; by constructor.
Qed.

Lemma shape_filter_challs n d p : Shape n d -> Shape n (with_challs (List.filter p) d).
Proof.
  intros [H1 H2 H3 Ho Ha Hc]. split; simpl; [done|done| |done|done|].
  - eapply sublist_NoDup; [done|apply filter_keys_sublist].
  - intros c [? _]%elem_of_filter_list. auto.
Qed.

(** ** Writes and the invariant *)

Lemma invx_weaken (Xo Xo' : nat -> order_status -> Prop) (Xa Xa' : nat -> Prop) n d :
  (forall i s, Xo i s -> Xo' i s) -> (forall i, Xa i -> Xa' i) ->
  InvX Xo Xa n d -> InvX Xo' Xa' n d.
Proof. intros Ho Ha [? H1 H2]. split; [done|intros; apply H1; naive_solver..|naive_solver]. Qed.

Lemma invx_mono Xo Xa n n' d : (n <= n')%nat -> InvX Xo Xa n d -> InvX Xo Xa n' d.
Proof. intros Hle [? H1 H2]. split; [by eapply shape_mono|done..]. Qed.

(** An authorization that fails breaks at most its own order, and only when ready. *)
Lemma invx_fail_authz Xo Xa n d aid oo s :
  failed_status s ->
  (forall a, a ∈ authzs d -> authorization_id a = aid -> a_order a = oo) ->
  InvX Xo Xa n d ->
  InvX (fun i st => Xo i st \/ (st = OReady /\ oo = Some i)) (fun i => Xa i /\ i <> aid) n
    (update_authz aid (set_a_status s) d).
Proof.
  intros Hs Hoo [Hsh Ho Ha]. split.
  - by apply shape_update_authzs.
  - intros o Hin Hx. specialize (Ho o Hin ltac:(tauto)). revert Ho Hx. unfold order_ok.
    assert (forall a, a ∈ authzs (update_authz aid (set_a_status s) d) ->
              a_order a = Some (order_id o) -> a_status a = s /\ oo = Some (order_id o)
              \/ a ∈ authzs d) as Hcase.
    { intros a (a1 & H1 & ->)%elem_of_update_where. unfold is_authz.
      destruct (Nat.eqb_spec (authorization_id a1) aid); [|by right].
      simpl. intros E. left. split; [done|]. rewrite <- E. symmetry. by apply Hoo. }
    assert (s <> APending) by (by destruct Hs as [->| ->]).
    destruct (o_status o); [done|..]; intros Ho Hx.
    + intros a Hin' E. destruct (Hcase a Hin' E) as [[_ ?]|?]; [|auto]. tauto.
    + intros a Hin' E. destruct (Hcase a Hin' E) as [[-> _]|?]; auto.
    + intros a Hin' E. destruct (Hcase a Hin' E) as [[-> _]|?]; auto.
    + destruct Ho as [Ho|(a & Hin' & E & Hf)].
      * left. intros a Hin' E. destruct (Hcase a Hin' E) as [[-> _]|?]; auto.
      * right. eexists. split; [apply elem_of_update_where; by exists a|].
        unfold is_authz. by destruct (Nat.eqb _ _).
  - intros a (a1 & H1 & ->)%elem_of_update_where Hx. unfold is_authz in *.
    destruct (Nat.eqb_spec (authorization_id a1) aid); simpl in *.
    { intros E. simpl in E. destruct Hs as [->| ->]; done. }
    intros E. apply Ha; tauto.
Qed.

Definition failed_in (d : db) (i : nat) : Prop :=
  exists a, a ∈ authzs d /\ a_order a = Some i /\ failed_status (a_status a).
Definition none_pending (d : db) (i : nat) : Prop :=
  forall a, a ∈ authzs d -> a_order a = Some i -> a_status a <> APending.

(** An order may be closed as invalid once one of its authorizations failed or
    none of them is pending. *)
Lemma invx_fail_order (Xo : nat -> order_status -> Prop) Xa n d i g :
  (forall o, order_id (g o) = order_id o /\ o_status (g o) = OInvalid) ->
  failed_in d i \/ none_pending d i ->
  InvX Xo Xa n d ->
  InvX (fun j s => Xo j s /\ j <> i) Xa n (update_order i g d).
Proof.
  intros Hg Hf [Hsh Ho Ha]. split; [apply shape_update_orders; [apply Hg|done]| |done].
  intros o (o1 & Hin & ->)%elem_of_update_where. unfold is_order.
  destruct (Nat.eqb_spec (order_id o1) i) as [E|E].
  - destruct (Hg o1) as [E1 E2]. intros _. unfold order_ok. rewrite E1, E2, E.
    destruct Hf; [by right|by left].
  - intros Hx. apply (Ho o1 Hin). tauto.
Qed.

(** Columns other than the status do not matter. *)
Lemma invx_touch_order (Xo : nat -> order_status -> Prop) Xa n d i g :
  (forall o, order_id (g o) = order_id o /\ o_status (g o) = o_status o) ->
  InvX Xo Xa n d -> InvX Xo Xa n (update_order i g d).
Proof.
  intros Hg [Hsh Ho Ha]. split; [apply shape_update_orders; [apply Hg|done]| |done].
  intros o (o1 & Hin & ->)%elem_of_update_where. destruct (Hg o1) as [E1 E2].
  destruct (is_order i o1); [|by apply Ho]. unfold order_ok. rewrite E1, E2. by apply Ho.
Qed.

(** Any status that the authorizations allow may be given to an order. *)
Lemma invx_set_order (Xo : nat -> order_status -> Prop) Xa n d i g :
  (forall o, order_id (g o) = order_id o) ->
  (forall o, o ∈ orders d -> order_id o = i -> order_ok d (g o)) ->
  InvX Xo Xa n d -> InvX (fun j s => Xo j s /\ j <> i) Xa n (update_order i g d).
Proof.
  intros Hg Hi [Hsh Ho Ha]. split; [by apply shape_update_orders| |done].
  intros o (o1 & Hin & ->)%elem_of_update_where. unfold is_order.
  destruct (Nat.eqb_spec (order_id o1) i) as [E|E]; [intros _; by apply (Hi o1)|].
  intros Hx. apply (Ho o1 Hin). tauto.
Qed.

(** Writes to the challenges of one authorization concern only that one. *)
Lemma invx_update_challs Xo Xa n d aid p f :
  (forall c, challenge_id (f c) = challenge_id c /\ c_authz (f c) = c_authz c) ->
  (forall c, c ∈ challs d -> p c = true -> c_authz c = aid) ->
  InvX Xo Xa n d ->
  InvX Xo (fun i => Xa i \/ i = aid) n (with_challs (update_where p f) d).
Proof.
  intros Hf Hp [Hsh Ho Ha]. split; [by apply shape_update_challs|done|].
  intros a Hin Hx Hs. destruct (Ha a Hin ltac:(tauto) Hs) as (H1 & c & Hc & E & Hv). split.
  - intros c' (c1 & Hc1 & ->)%elem_of_update_where. destruct (p c1) eqn:E1; [|by apply H1].
    destruct (Hf c1) as [_ ->]. rewrite (Hp c1) by done. intros ->. naive_solver.
  - exists c. split; [|done]. apply elem_of_update_where. exists c. split; [done|].
    destruct (p c) eqn:E1; [|done]. exfalso. rewrite (Hp c) in E by done. naive_solver.
Qed.

Lemma invx_filter_challs Xo Xa n d aid p :
  (forall c, c ∈ challs d -> p c = false -> c_authz c = aid) ->
  InvX Xo Xa n d ->
  InvX Xo (fun i => Xa i \/ i = aid) n (with_challs (List.filter p) d).
Proof.
  intros Hp [Hsh Ho Ha]. split; [by apply shape_filter_challs|done|].
  intros a Hin Hx Hs. destruct (Ha a Hin ltac:(tauto) Hs) as (H1 & c & Hc & E & Hv). split.
  - intros c' [Hc' _]%elem_of_filter_list. by apply H1.
  - exists c. split; [|done]. apply elem_of_filter_list. split; [done|].
    destruct (p c) eqn:E1; [done|]. exfalso. rewrite (Hp c) in E by done. naive_solver.
Qed.

(** An authorization left aside may be counted again once it is in order. *)
Lemma invx_settle Xo Xa n d aid :
  (forall a, a ∈ authzs d -> authorization_id a = aid -> authz_ok d a) ->
  InvX Xo Xa n d -> InvX Xo (fun i => Xa i /\ i <> aid) n d.
Proof.
  intros H [Hsh Ho Ha]. split; [done..|]. intros a Hin Hx.
  destruct (decide (authorization_id a = aid)); [by apply H|]. apply Ha; tauto.
Qed.

(** Additions: a key that was just drawn is new. *)
Lemma nodup_snoc_fresh {A} (key : A -> nat) l x n :
  (forall y, y ∈ l -> (key y < n)%nat) -> key x = n -> NoDup (key <$> l) ->
  NoDup (key <$> l ++ [x]).
Proof.
  intros Hlt Hx Hn. rewrite fmap_app. apply NoDup_app. split_and!; [done| |apply NoDup_singleton].
  intros k (y & -> & Hy)%list_elem_of_fmap. intros E%list_elem_of_singleton.
  apply Hlt in Hy. lia.
Qed.

Lemma invx_add_order Xo Xa n d o :
  order_id o = n -> o_status o = OPending ->
  InvX Xo Xa n d -> InvX Xo Xa (S n) (with_orders (fun l => l ++ [o]) d).
Proof.
  intros Hid Hst [[H1 H2 H3 Ho Ha Hc] Hok Hak]. split; [|simpl|done].
  - split; simpl; [by eapply nodup_snoc_fresh|done|done| | |].
    + intros o' [?%Ho| ->%list_elem_of_singleton]%elem_of_app; lia.
    + intros a [? Hi]%Ha. split; [lia|]. intros i ?%Hi. lia.
    + intros c ?%Hc. lia.
  - intros o' [Hin| ->%list_elem_of_singleton]%elem_of_app Hx; [by apply Hok|].
    unfold order_ok. by rewrite Hst.
Qed.

Lemma invx_add_authz (Xo : nat -> order_status -> Prop) Xa n d a :
  authorization_id a = n ->
  (forall i, a_order a = Some i ->
     (i < n)%nat /\ forall o, o ∈ orders d -> order_id o = i -> o_status o = OPending) ->
  InvX Xo Xa n d -> InvX Xo (fun i => Xa i \/ i = n) (S n) (with_authzs (fun l => l ++ [a]) d).
Proof.
  intros Hid Hord [[H1 H2 H3 Ho Ha Hc] Hok Hak]. split.
  - split; simpl; [done|by eapply nodup_snoc_fresh; [by intros ? []%Ha| |]|done| | |].
    + intros o' ?%Ho; lia.
    + intros a' [[? Hi]%Ha| ->%list_elem_of_singleton]%elem_of_app.
      * split; [lia|]. intros i ?%Hi. lia.
      * split; [lia|]. intros i [? _]%Hord. lia.
    + intros c ?%Hc. lia.
  - simpl. intros o Hin Hx. specialize (Hok o Hin Hx). revert Hok. unfold order_ok.
    assert (forall a', a' ∈ authzs d ++ [a] -> a_order a' = Some (order_id o) ->
              o_status o <> OPending -> a' ∈ authzs d) as Hcase.
    { intros a' [?| ->%list_elem_of_singleton]%elem_of_app E Hne; [done|].
      apply Hord in E as [_ E]. by apply E in Hin. }
    destruct (o_status o) eqn:Es; [done|naive_solver..|].
    intros [?|(b & ? & ?)]; [left; naive_solver|right]. exists b. simpl.
    rewrite elem_of_app. naive_solver.
  - simpl. intros b [Hin| ->%list_elem_of_singleton]%elem_of_app Hx; [|naive_solver].
    by apply Hak; [|tauto].
Qed.

Lemma invx_add_chall Xo (Xa : nat -> Prop) n d c :
  challenge_id c = n -> (c_authz c < n)%nat ->
  InvX Xo Xa n d ->
  InvX Xo (fun i => Xa i \/ i = c_authz c) (S n) (with_challs (fun l => l ++ [c]) d).
Proof.
  intros Hid Hlt [[H1 H2 H3 Ho Ha Hc] Hok Hak]. split; [|done|].
  - split; simpl; [done|done|by eapply nodup_snoc_fresh; [by intros ? []%Hc| |]| | |].
    + intros o' ?%Ho; lia.
    + intros a [? Hi]%Ha. split; [lia|]. intros i ?%Hi. lia.
    + intros c' [?%Hc| ->%list_elem_of_singleton]%elem_of_app; lia.
  - intros a Hin Hx Hs. destruct (Hak a Hin ltac:(tauto) Hs) as (Hl & c0 & ? & ? & ?). split.
    + simpl. intros c' [?| ->%list_elem_of_singleton]%elem_of_app E; [by apply Hl|]. naive_solver.
    + exists c0. simpl. rewrite elem_of_app. naive_solver.
Qed.

(** ** Writes and evolution *)

Lemma forall2_map_r {A B} (R : A -> B -> Prop) (f : B -> B) l k :
  (forall x y, x ∈ l -> y ∈ k -> R x y -> R x (f y)) -> Forall2 R l k -> Forall2 R l (f <$> k).
Proof.
  intros Hf H. induction H as [|x y l k Hxy H IH]; simpl; constructor.
  - apply Hf; [by left|by left|done].
  - apply IH. intros x' y' ? ?. apply Hf; by right.
Qed.

Lemma forall2_trans {A} (R : relation A) `{!Transitive R} l k m :
  Forall2 R l k -> Forall2 R k m -> Forall2 R l m.
Proof.
  intros H. revert m. induction H; intros m Hm; inversion Hm; subst; constructor;
    [by etrans|auto].
Qed.

Lemma forall2_elem_r {A} (R : relation A) l k y :
  Forall2 R l k -> y ∈ k -> exists x, x ∈ l /\ R x y.
Proof.
  intros H [i Hi]%list_elem_of_lookup. destruct (Forall2_lookup_r _ _ _ _ _ H Hi) as (x & Hx & ?).
  exists x. split; [|done]. by eapply list_elem_of_lookup_2.
Qed.

Lemma ev_refl R `{!Reflexive R} n d : Evolves R n d d.
Proof.
  split.
  - exists (orders d), []. rewrite app_nil_r. split_and!; [done| |done]. by apply Forall_Forall2_diag, Forall_true.
  - exists (authzs d), []. rewrite app_nil_r. split_and!; [done| |done]. by apply Forall_Forall2_diag, Forall_true.
  - intros c Hc _. exists c. done.
Qed.

Lemma ev_update_orders R n0 d0 d p g :
  (forall o, order_id (g o) = order_id o) ->
  (forall o0 o, o0 ∈ orders d0 -> o ∈ orders d -> p o = true ->
     order_step R o0 o -> order_step R o0 (g o)) ->
  Evolves R n0 d0 d -> Evolves R n0 d0 (with_orders (update_where p g) d).
Proof.
  intros Hid Hg [(l & new & E & H1 & H2) Ha Hc]. split; [|done..]. simpl.
  exists (update_where p g l), (update_where p g new). split_and!.
  - by rewrite E; unfold update_where; rewrite fmap_app.
  - apply forall2_map_r; [|done]. intros o0 o Hin0 Hin Hs. destruct (p o) eqn:Ep; [|done].
    apply Hg; [done| |done..]. rewrite E. set_solver.
  - apply Forall_forall. intros o (o1 & Hin & ->)%elem_of_update_where.
    rewrite Forall_forall in H2. destruct (p o1); rewrite ?Hid; by apply H2.
Qed.

Lemma ev_update_authzs R n0 d0 d p f :
  (forall a, authorization_id (f a) = authorization_id a /\ a_order (f a) = a_order a) ->
  (forall a0 a, a0 ∈ authzs d0 -> a ∈ authzs d -> p a = true ->
     authz_step a0 a -> authz_step a0 (f a)) ->
  Evolves R n0 d0 d -> Evolves R n0 d0 (with_authzs (update_where p f) d).
Proof.
  intros Hid Hg [Ho (l & new & E & H1 & H2) Hc]. split; [done| |done]. simpl.
  exists (update_where p f l), (update_where p f new). split_and!.
  - by rewrite E; unfold update_where; rewrite fmap_app.
  - apply forall2_map_r; [|done]. intros a0 a Hin0 Hin Hs. destruct (p a) eqn:Ep; [|done].
    apply Hg; [done| |done..]. rewrite E. set_solver.
  - apply Forall_forall. intros a (a1 & Hin & ->)%elem_of_update_where.
    rewrite Forall_forall in H2. destruct (Hid a1) as [E1 E2].
    destruct (p a1); rewrite ?E1, ?E2; by apply H2.
Qed.

Lemma ev_update_challs R n0 d0 d p f :
  (forall c, chall_same c (f c)) ->
  Evolves R n0 d0 d -> Evolves R n0 d0 (with_challs (update_where p f) d).
Proof.
  intros Hf [Ho Ha Hc]. split; [done..|]. simpl.
  intros c (c1 & Hin & ->)%elem_of_update_where Hlt.
  destruct (p c1); [|by apply Hc]. destruct (Hf c1) as (E1 & E2 & E3 & E4).
  rewrite E1 in Hlt. destruct (Hc c1 Hin Hlt) as (c0 & ? & ? & ? & ? & ?).
  exists c0. split; [done|]. unfold chall_same. split_and!; congruence.
Qed.

Lemma ev_filter_challs R n0 d0 d p :
  Evolves R n0 d0 d -> Evolves R n0 d0 (with_challs (List.filter p) d).
Proof.
  intros [Ho Ha Hc]. split; [done..|]. simpl. intros c [Hin _]%elem_of_filter_list. by apply Hc.
Qed.

Lemma ev_add_order R n0 d0 d o :
  (n0 <= order_id o)%nat -> Evolves R n0 d0 d -> Evolves R n0 d0 (with_orders (fun l => l ++ [o]) d).
Proof.
  intros Hle [(l & new & E & H1 & H2) Ha Hc]. split; [|done..].
  exists l, (new ++ [o]). simpl. rewrite E, <- app_assoc. split_and!; [done..|].
  apply Forall_app. split; [done|]. by constructor.
Qed.

Lemma ev_add_authz R n0 d0 d a :
  (n0 <= authorization_id a)%nat -> (forall i, a_order a = Some i -> (n0 <= i)%nat) ->
  Evolves R n0 d0 d -> Evolves R n0 d0 (with_authzs (fun l => l ++ [a]) d).
Proof.
  intros Hle Hi [Ho (l & new & E & H1 & H2) Hc]. split; [done| |done].
  exists l, (new ++ [a]). simpl. rewrite E, <- app_assoc. split_and!; [done..|].
  apply Forall_app. split; [done|]. by constructor.
Qed.

Lemma ev_add_chall R n0 d0 d c :
  (n0 <= challenge_id c)%nat -> Evolves R n0 d0 d -> Evolves R n0 d0 (with_challs (fun l => l ++ [c]) d).
Proof.
  intros Hle [Ho Ha Hc]. split; [done..|]. simpl.
  intros c' [Hin| ->%list_elem_of_singleton]%elem_of_app Hlt; [by apply Hc|lia].
Qed.

Lemma ev_trans R `{!Transitive R} n0 n1 d0 d1 d2 :
  (n0 <= n1)%nat -> Evolves R n0 d0 d1 -> Evolves R n1 d1 d2 -> Evolves R n0 d0 d2.
Proof.
  intros Hn [(l & new & E & H1 & H2) (m & anew & F & G1 & G2) Hc]
    [(l' & new' & E' & H1' & H2') (m' & anew' & F' & G1' & G2') Hc'].
  split.
  - rewrite E in H1'. apply Forall2_app_inv_l in H1' as (k1 & k2 & K1 & K2 & ->).
    exists k1, (k2 ++ new'). rewrite E', app_assoc. split_and!; [done|by eapply forall2_trans; [apply _|..]|].
    apply Forall_app. split.
    + rewrite Forall_forall in H2 |- *. intros o (o1 & Ho1 & Hs)%(forall2_elem_r _ _ _ _ K2).
      destruct Hs as (-> & _). by apply H2.
    + eapply Forall_impl; [done|]. simpl. lia.
  - rewrite F in G1'. apply Forall2_app_inv_l in G1' as (k1 & k2 & K1 & K2 & ->).
    exists k1, (k2 ++ anew'). rewrite F', app_assoc. split_and!; [done|by eapply forall2_trans; [apply _|..]|].
    apply Forall_app. split.
    + rewrite Forall_forall in G2 |- *. intros a (a1 & Ha1 & Hs)%(forall2_elem_r _ _ _ _ K2).
      destruct Hs as (-> & -> & _). by apply G2.
    + eapply Forall_impl; [done|]. simpl. intros a [? Hi]. split; [lia|]. intros i ?%Hi. lia.
  - intros c Hin Hlt. destruct (Hc' c Hin ltac:(lia)) as (c1 & Hin1 & S1).
    destruct (Hc c1 Hin1) as (c0 & ? & S0); [destruct S1 as (E1 & _); lia|].
    exists c0. split; [done|]. unfold chall_same in *. naive_solver congruence.
Qed.

Lemma ev_impl (R R' : relation order_status) n0 d0 d :
  (forall s s', R s s' -> R' s s') -> Evolves R n0 d0 d -> Evolves R' n0 d0 d.
Proof.
  intros H [(l & new & E & H1 & H2) Ha Hc]. split; [|done..]. exists l, new. split_and!; [done| |done].
  eapply Forall2_impl; [done|]. unfold order_step. naive_solver.
Qed.

(** The row of an old key is a row that was there. *)
Lemma ev_order_old R n0 d0 d o :
  Evolves R n0 d0 d -> o ∈ orders d -> (order_id o < n0)%nat ->
  exists o0, o0 ∈ orders d0 /\ order_step R o0 o.
Proof.
  intros [(l & new & E & H1 & H2) _ _]. rewrite E.
  intros [Hin|Hin]%elem_of_app Hlt; [by eapply forall2_elem_r|].
  rewrite Forall_forall in H2. apply H2 in Hin. lia.
Qed.

Lemma ev_authz_old R n0 d0 d a :
  Evolves R n0 d0 d -> a ∈ authzs d -> (authorization_id a < n0)%nat ->
  exists a0, a0 ∈ authzs d0 /\ authz_step a0 a.
Proof.
  intros [_ (l & new & E & H1 & H2) _]. rewrite E.
  intros [Hin|Hin]%elem_of_app Hlt; [by eapply forall2_elem_r|].
  rewrite Forall_forall in H2. apply H2 in Hin as [? _]. lia.
Qed.
