(* ===== verification/AcmeProtocol.v ===== *)
(** * AcmeProtocol: the requests of the ACME server keep its tables consistent

    Every request of [AcmeApi], run on its own from a consistent database and
    with any of its commits failing, leaves a consistent database in which old
    rows have only moved along the status graph; an issued certificate was
    proved name by name. Then, with requests that overlap or fail half-way, the
    traces where this does not hold. *)

From Stdlib Require Import Ascii String.
From stdpp Require Import prelude strings.
From S2P Require Import Prelude Scalars DomainMatch AcmeModel AcmeOrders DnsPersist AcmeChallenges AcmeIdentifiers AcmeApi AcmeEvidence AcmeLogic.

(** ** Closing an order *)

Lemma invx_drop (Xo : nat -> order_status -> Prop) Xa n d :
  (forall i s, Decision (Xo i s)) ->
  (forall o, o ∈ orders d -> Xo (order_id o) (o_status o) -> order_ok d o) ->
  InvX Xo Xa n d -> InvX no_order Xa n d.
Proof.
  intros Hdec H [Hsh Ho Ha]. split; [done| |done]. intros o Hin _.
  destruct (decide (Xo (order_id o) (o_status o))); auto.
Qed.

(* the exception an authorization that failed leaves: its own order, when ready *)
Definition own_ready (oo : option nat) (i : nat) (s : order_status) : Prop :=
  s = OReady /\ oo = Some i.
#[export] Instance own_ready_dec oo i s : Decision (own_ready oo i s).
Proof. unfold own_ready. apply _. Defined.

Lemma open_order_spec o : open_order o = true <-> o_status o = OPending \/ o_status o = OReady.
Proof. unfold open_order. by rewrite bool_decide_eq_true. Qed.

Lemma open_to_invalid o0 o (g : AcmeOrder -> AcmeOrder) :
  open_order o = true -> order_step order_move o0 o ->
  order_id (g o) = order_id o /\ o_account (g o) = o_account o
  /\ identifiers (g o) = identifiers o /\ o_expires (g o) = o_expires o ->
  o_status (g o) = OInvalid ->
  order_step order_move o0 (g o).
Proof.
  intros Hop%open_order_spec (? & ? & ? & ? & Hm) (? & ? & ? & ?) Hs. unfold order_step.
  split_and!; try congruence. rewrite Hs. unfold order_move in *. intuition congruence.
Qed.

Lemma ev_touch_order n0 d0 d p e :
  Evolves order_move n0 d0 d ->
  Evolves order_move n0 d0 (with_orders (update_where p (set_o_error e)) d).
Proof. intros Hev. apply ev_update_orders; [done| |done]. intros o0 o _ _ _ H. exact H. Qed.

Lemma update_order_compose i f g d :
  (forall o, order_id (g o) = order_id o) ->
  update_order i f (update_order i g d) = update_order i (fun o => f (g o)) d.
Proof.
  intros Hg. unfold update_order, with_orders. simpl. f_equal. unfold update_where.
  rewrite <- list_fmap_compose. apply list_fmap_ext. intros _ o _. simpl.
  unfold is_order. destruct (Nat.eqb (order_id o) i) eqn:E; [rewrite Hg|]; by rewrite E.
Qed.

(** [g] closes the order [i] when it is open. *)
Lemma close_order Xa n n0 d0 d i (g : AcmeOrder -> AcmeOrder) o :
  (forall o, order_id (g o) = order_id o /\ o_account (g o) = o_account o
     /\ identifiers (g o) = identifiers o /\ o_expires (g o) = o_expires o
     /\ o_status (g o) = OInvalid) ->
  find_order d i = Some o -> open_order o = true -> failed_in d i ->
  InvX (own_ready (Some i)) Xa n d -> Evolves order_move n0 d0 d ->
  InvX no_order Xa n (update_order i g d) /\ Evolves order_move n0 d0 (update_order i g d).
Proof.
  intros Hg [Ho Hid]%find_order_some Hop Hf Hix Hev. split.
  - eapply invx_weaken; [| |eapply (invx_fail_order _ _ _ _ i g); [|by left|done]];
      [|done|intros o'; split; apply Hg].
    intros j s [[_ [= ->]] ?]. done.
  - apply ev_update_orders; [apply Hg| |done]. intros o0 o' _ Hin' Hi' Hst.
    apply Nat.eqb_eq in Hi'. assert (o' = o) as ->.
    { eapply order_unique; [by eapply ix_shape|done..|]. congruence. }
    eapply open_to_invalid; [done|done| |apply Hg]. split_and!; apply Hg.
Qed.

(** An order that is not open needs no closing. *)
Lemma keep_order Xa n d oo :
  (forall i o, oo = Some i -> find_order d i = Some o -> open_order o = false) ->
  InvX (own_ready oo) Xa n d -> InvX no_order Xa n d.
Proof.
  intros H Hix. apply (invx_drop (own_ready oo)); [apply _| |done]. intros o Hin [Hr ->].
  destruct (find_order d (order_id o)) as [o'|] eqn:Eo.
  2: by destruct (find_order_none _ _ _ Eo Hin).
  pose proof (H _ _ eq_refl Eo) as Hop. apply find_order_some in Eo as [Hin' E].
  assert (o' = o) as -> by (eapply order_unique; [by eapply ix_shape|done..]).
  apply not_true_iff_false in Hop. destruct Hop. apply open_order_spec. auto.
Qed.

Lemma fail_order_ok Xa n n0 d0 d oo p :
  (forall i, oo = Some i -> failed_in d i) ->
  InvX (own_ready oo) Xa n d -> Evolves order_move n0 d0 d ->
  InvX no_order Xa n (fail_order oo p d) /\ Evolves order_move n0 d0 (fail_order oo p d).
Proof.
  intros Hf Hix Hev. unfold fail_order.
  destruct oo as [i|]; [|split; [by eapply keep_order; [|done]|done]].
  destruct (find_order d i) as [o|] eqn:Eo.
  2: { split; [|done]. eapply keep_order; [|done]. intros ? ? [= <-]. congruence. }
  destruct (open_order o) eqn:Eop.
  - unfold _set_order_authorization_error. rewrite update_order_compose by done.
    eapply close_order; [|done|done|by apply Hf|done|done]. done.
  - assert (InvX no_order Xa n d) as Hok.
    { eapply keep_order; [|done]. intros ? ? [= <-]. congruence. }
    case_bool_decide; [|done]. split; [by apply invx_touch_order|by apply ev_touch_order].
Qed.

(** ** The response to a challenge *)

Section Request.
Variables (n0 : nat) (d0 : db).

(* what every request keeps true of the committed database *)
Definition PI (n : nat) (d : db) : Prop :=
  Inv n d /\ Evolves order_move n0 d0 d /\ (n0 <= n)%nat.

Lemma PI_mono n n' d : (n <= n')%nat -> PI n d -> PI n' d.
Proof. intros Hle (? & ? & ?). split_and!; [by eapply invx_mono|done|lia]. Qed.

Hypothesis Hinv0 : Inv n0 d0.

Lemma PI_start : PI n0 d0.
Proof. split_and!; [done|apply ev_refl; apply _|lia]. Qed.

Definition start (n : nat) (d : db) : Prop := n = n0 /\ d = d0.

Lemma start_PI n d : start n d -> PI n d.
Proof. intros [-> ->]. apply PI_start. Qed.

Section Challenge.
Variable c : AcmeChallenge.
Hypothesis Hc0 : c ∈ challs d0.
(* the authorization was pending when the response came in *)
Hypothesis Hpend0 : forall a, a ∈ authzs d0 -> authorization_id a = c_authz c -> a_status a = APending.

Lemma challenge_owner_fixed n d c' :
  PI n d -> c' ∈ challs d -> challenge_id c' = challenge_id c -> c_authz c' = c_authz c.
Proof.
  intros (_ & Hev & _) Hin E. destruct (ix_shape _ _ _ _ Hinv0) as [_ _ _ _ _ Hc].
  destruct (ev_challs _ _ _ _ Hev c' Hin) as (c1 & H1 & (E1 & E2 & _)).
  { rewrite E. by apply Hc. }
  assert (c1 = c) as ->; [|done].
  eapply chall_unique; [apply Hinv0|done..|congruence].
Qed.

Lemma authz_free a0 a s :
  a0 ∈ authzs d0 -> authorization_id a = c_authz c ->
  authz_step a0 a -> authz_step a0 (set_a_status s a).
Proof.
  intros H0 E (E1 & ? & ? & ? & ? & ? & _). unfold authz_step; simpl.
  split_and!; [done..|]. right. left. apply Hpend0; [done|congruence].
Qed.

(* while the challenge is being written, its own authorization is set aside *)
Definition writing (n : nat) (d : db) : Prop :=
  InvX no_order (fun i => i = c_authz c) n d /\ Evolves order_move n0 d0 d /\ (n0 <= n)%nat.

Lemma update_chall_ok n d f :
  (forall c, chall_same c (f c)) -> PI n d -> writing n (update_chall (challenge_id c) f d).
Proof.
  intros Hf HP. pose proof HP as (Hi & Hev & Hle). split_and!; [|by apply ev_update_challs|done].
  eapply invx_weaken; [done| |apply (invx_update_challs no_order no_authz n d (c_authz c)); [| |exact Hi]].
  - by intros i [[]|?].
  - intros c'. destruct (Hf c') as (? & ? & _). done.
  - intros c' Hin Hid%Nat.eqb_eq. by eapply challenge_owner_fixed.
Qed.

Lemma find_authz_none d i a : find_authz d i = None -> a ∈ authzs d -> authorization_id a <> i.
Proof.
  unfold find_authz. intros H Ha%list_elem_of_In. eapply List.find_none in H; [|done].
  by apply Nat.eqb_neq in H.
Qed.

Lemma settle_owner n d :
  (forall a, a ∈ authzs d -> authorization_id a = c_authz c -> authz_ok d a) ->
  InvX no_order (fun i => i = c_authz c) n d -> Inv n d.
Proof.
  intros H Hix. eapply invx_weaken; [done| |by eapply invx_settle]. simpl. intros i [? ?]. done.
Qed.

Lemma require_row_ok (Q : nat -> db -> Prop) :
  (forall n d, Q n d -> PI n d) ->
  triple PI Q (require_row (challenge_id c))
    (fun _ n d => Q n d /\ exists c', c' ∈ challs d /\ challenge_id c' = challenge_id c).
Proof.
  intros HQ. unfold require_row. tgets r. destruct r as [c'|].
  - apply triple_ret. intros n d [E HQ']. split; [done|]. exists c'. symmetry in E.
    by apply find_chall_some in E.
  - tbind; [apply triple_rollback|]. apply triple_raise. done.
Qed.

Lemma mark_invalid_ok et dt : triple PI PI (mark_invalid c et dt) (fun _ => PI).
Proof.
  unfold mark_invalid, _invalidate_challenge. eapply triple_bind with (S := fun _ => PI); [|intros _].
  { eapply triple_bind; [by apply require_row_ok|intros []]. simpl.
    eapply triple_bind with (S := fun _ => writing);
      [apply triple_modify; intros n d [HP _]; by apply update_chall_ok|intros _].
    tgets r. destruct r as [a'|].
    2: { apply triple_ret. intros n d (E & Hi & Hev & Hle). unfold PI. split_and!; [|done..].
         apply settle_owner; [|done]. intros a Hin Eid. by destruct (find_authz_none _ _ _ (eq_sym E) Hin). }
    case_bool_decide as Hde.
    - apply triple_ret. intros n d (E & Hi & Hev & Hle). unfold PI. split_and!; [|done..].
      apply settle_owner; [|done]. intros a Hin Eid Hs.
      apply eq_sym, find_authz_some in E as [Hin' E'].
      rewrite (authz_unique n d a a') in Hs; [congruence|by eapply ix_shape|done..|congruence].
    - eapply triple_bind with (S := fun _ n d =>
        InvX (own_ready (a_order a')) no_authz n d /\ Evolves order_move n0 d0 d /\ (n0 <= n)%nat
        /\ forall i, a_order a' = Some i -> failed_in d i).
      + apply triple_modify. intros n d (E & Hi & Hev & Hle).
        apply eq_sym, find_authz_some in E as [Hin' E'].
        assert (forall a, a ∈ authzs d -> authorization_id a = authorization_id a' -> a = a') as Hu.
        { intros a Hin Eid. by eapply authz_unique; [eapply ix_shape| | |]. }
        split_and!; [| |done|].
        * eapply invx_weaken; [| |eapply (invx_fail_authz no_order _ _ _ _ (a_order a')); [by left| |exact Hi]].
          -- by intros i s [[]|?].
          -- intros i [-> ?]. congruence.
          -- by intros a Hin Eid; rewrite (Hu a).
        * apply ev_update_authzs; [done| |done]. intros a0 a H0 Hin Hp%Nat.eqb_eq Hs.
          apply authz_free; [done|congruence|done].
        * intros i Ei. exists (set_a_status AInvalid a'). split_and!; [|done|by left].
          apply elem_of_update_where. exists a'. split; [done|]. unfold is_authz. by rewrite Nat.eqb_refl.
      + intros []. apply triple_modify. intros n d (Hi & Hev & Hle & Hf).
        destruct (fail_order_ok _ _ _ _ _ _ (_problem_data et dt) Hf Hi Hev). done. }
  simpl. tbind; [by apply triple_commit|]. by apply triple_ret.
Qed.

(* the authorization of the challenge is pending *)
Definition pend (d : db) : Prop :=
  forall a, a ∈ authzs d -> authorization_id a = c_authz c -> a_status a = APending.

(* its order is pending, or has an authorization that failed *)
Definition own_open (oo : option nat) (d : db) : Prop :=
  forall o, o ∈ orders d -> oo = Some (order_id o) -> o_status o = OPending \/ failed_in d (order_id o).

Lemma pend_own_open n d a :
  Inv n d -> pend d -> a ∈ authzs d -> authorization_id a = c_authz c -> own_open (a_order a) d.
Proof.
  intros Hi Hp Hin Eid o Ho Eo. specialize (Hp a Hin Eid).
  assert (order_ok d o) as Hok by (apply Hi; [done|intros []]). unfold order_ok in Hok.
  destruct (o_status o); [by left|..]; [| | |destruct Hok as [Hok|Hf]; [|by right]];
    specialize (Hok a Hin Eo); congruence.
Qed.

Lemma invx_validate Xo Xa n d :
  pend d -> InvX Xo Xa n d ->
  InvX Xo (fun i => Xa i \/ i = c_authz c) n (update_authz (c_authz c) (set_a_status AValid) d).
Proof.
  intros Hp [Hsh Ho Ha]. split; [by apply shape_update_authzs| |].
  - intros o Hin Hx. specialize (Ho o Hin Hx). revert Ho. unfold order_ok.
    assert (forall a, a ∈ authzs (update_authz (c_authz c) (set_a_status AValid) d) ->
              a_status a = AValid \/ a ∈ authzs d) as Hcase.
    { intros a (a1 & H1 & ->)%elem_of_update_where. unfold is_authz.
      destruct (Nat.eqb_spec (authorization_id a1) (c_authz c)); [by left|by right]. }
    destruct (o_status o); [done|..]; intros Ho.
    1-3: intros a Hin' E; destruct (Hcase a Hin') as [->|?]; [done|auto].
    destruct Ho as [Ho|(a & Hin' & E & Hf)]; [left|right].
    + intros a Hin' E. destruct (Hcase a Hin') as [->|?]; [done|auto].
    + exists a. split; [|done]. apply elem_of_update_where. exists a. split; [done|].
      unfold is_authz. destruct (Nat.eqb_spec (authorization_id a) (c_authz c)) as [Eid|]; [|done].
      rewrite (Hp a Hin' Eid) in Hf. by destruct Hf.
  - intros a (a1 & H1 & ->)%elem_of_update_where Hx. unfold is_authz in *.
    destruct (Nat.eqb_spec (authorization_id a1) (c_authz c)); simpl in *; [tauto|].
    by apply Ha; [|tauto].
Qed.

Lemma own_open_validate n d oo :
  Shape n d -> pend d -> own_open oo d ->
  own_open oo (update_authz (c_authz c) (set_a_status AValid) d).
Proof.
  intros Hsh Hp Hown o Ho E. destruct (Hown o Ho E) as [?|(a & Hin & Ea & Hf)]; [by left|right].
  exists a. split; [|done]. apply elem_of_update_where. exists a. split; [done|].
  unfold is_authz. destruct (Nat.eqb_spec (authorization_id a) (c_authz c)) as [Eid|]; [|done].
  rewrite (Hp a Hin Eid) in Hf. by destruct Hf.
Qed.

(* after the authorization was made valid *)
Definition validated (oo : option nat) (n : nat) (d : db) : Prop :=
  writing n d /\ own_open oo d /\
  exists c1, c1 ∈ challs d /\ c_authz c1 = c_authz c /\ c_status c1 = CValid.

Lemma validated_filter oo n d :
  validated oo n d ->
  let d' := with_challs (List.filter (fun c' => negb (Nat.eqb (c_authz c') (c_authz c)
                                                      && live_challenge c'))) d in
  PI n d' /\ own_open oo d'.
Proof.
  intros ((Hi & Hev & Hle) & Hown & c1 & H1 & E1 & V1) d'. split; [|done].
  split_and!; [|by apply ev_filter_challs|done]. apply settle_owner.
  - intros a Hin Eid _. split.
    + intros c' [Hc' Hp]%elem_of_filter_list E. rewrite E, Eid, Nat.eqb_refl in Hp.
      by destruct (live_challenge c').
    + exists c1. split; [|by rewrite Eid]. apply elem_of_filter_list. split; [done|].
      unfold live_challenge. rewrite V1, andb_false_r. done.
  - eapply invx_weaken; [done| |eapply (invx_filter_challs _ _ _ _ (c_authz c)); [|exact Hi]].
    + by intros i [?|?].
    + intros c' _ Hp. destruct (Nat.eqb_spec (c_authz c') (c_authz c)); done.
Qed.

(** An order whose authorizations are all valid may become ready. *)
Lemma make_ready n d oo o :
  PI n d -> own_open oo d -> o ∈ orders d -> oo = Some (order_id o) ->
  all_valid (order_authzs d (order_id o)) = true ->
  PI n (update_order (order_id o) (set_o_status OReady) d).
Proof.
  intros (Hi & Hev & Hle) Hown Ho Eo Hall.
  assert (forall a, a ∈ authzs d -> a_order a = Some (order_id o) -> a_status a = AValid) as Hv.
  { intros a Ha E. eapply all_valid_spec; [done|]. by apply elem_of_order_authzs. }
  split_and!; [| |done].
  - eapply invx_weaken; [| |eapply (invx_set_order no_order); [| |exact Hi]]; [|done|done|].
    + by intros j s [[] _].
    + intros o' Ho' E'. unfold order_ok. simpl. by rewrite E'.
  - apply ev_update_orders; [done| |done]. intros o0 o' _ Ho' Hid%Nat.eqb_eq Hst.
    assert (o' = o) as -> by (eapply order_unique; [by eapply ix_shape|done..]).
    destruct (Hown o Ho Eo) as [Hs|(a & Ha & Ea & Hf)].
    + destruct Hst as (? & ? & ? & ? & Hm). unfold order_step; simpl. split_and!; [done..|].
      unfold order_move in *. intuition congruence.
    + rewrite (Hv a Ha Ea) in Hf. by destruct Hf.
Qed.

Lemma update_status_ok :
  triple PI (fun n d => writing n d /\ pend d
               /\ forall a, a ∈ authzs d -> authorization_id a = c_authz c -> own_open (a_order a) d)
    (_update_authorization_status (c_authz c)) (fun _ => PI).
Proof.
  unfold _update_authorization_status. tgets r. destruct r as [a'|].
  2: { apply triple_ret. intros n d (E & (Hi & Hev & Hle) & _). unfold PI. split_and!; [|done..].
       apply settle_owner; [|done]. intros a Hin Eid.
       by destruct (find_authz_none _ _ _ (eq_sym E) Hin). }
  assert (forall n d, writing n d -> pend d -> PI n d) as Hsettle.
  { intros n d (Hi & Hev & Hle) Hp. unfold PI. split_and!; [|done..]. apply settle_owner; [|done].
    intros a Hin Eid Hs. rewrite (Hp a Hin Eid) in Hs. done. }
  case_bool_decide as Hde.
  { apply triple_ret. intros n d (E & Hw & Hp & _). auto. }
  tgets vs. destruct vs as [|c1 vs].
  { apply triple_ret. intros n d (_ & E & Hw & Hp & _). auto. }
  eapply triple_bind with (S := fun _ => validated (a_order a')); [|intros _].
  { apply triple_modify. intros n d (Ec & E & Hw & Hp & Hown).
    apply eq_sym, find_authz_some in E as [Hin Eid]. pose proof Hw as (Hi & Hev & Hle).
    split_and!.
    - split_and!; [| |done].
      + eapply invx_weaken; [done| |by apply invx_validate]. by intros i [?|?].
      + apply ev_update_authzs; [done| |done]. intros a0 a H0 Ha Hq%Nat.eqb_eq Hs.
        by apply authz_free.
    - eapply own_open_validate; [by eapply ix_shape|done|by apply Hown].
    - assert (c1 ∈ c1 :: vs) as H1 by (by left). rewrite Ec in H1.
      apply elem_of_filter_list in H1 as [H1 Hv]. apply elem_of_authz_challs in H1 as [H1 E1].
      exists c1. by apply bool_decide_eq_true in Hv. }
  eapply triple_bind with (S := fun _ n d => PI n d /\ own_open (a_order a') d); [|intros _].
  { apply triple_modify. intros n d Hv. by apply validated_filter. }
  tgets ro. destruct ro as [o|]; [|apply triple_ret; naive_solver].
  tgets l. destruct (all_valid l) eqn:Hall; [|apply triple_ret; naive_solver].
  eapply triple_bind with (S := fun _ => PI); [|intros _; by apply triple_commit].
  apply triple_modify. intros n d (-> & Eo & HP & Hown).
  destruct (a_order a') as [i|]; [|done].
  apply eq_sym, find_order_some in Eo as [Ho Ei]. eapply make_ready; [done..| |done]. by rewrite Ei.
Qed.

Lemma mark_valid_ok now :
  triple PI (fun n d => PI n d /\ pend d) (mark_valid now c) (fun _ => PI).
Proof.
  unfold mark_valid. eapply triple_bind; [apply require_row_ok; by intros n d [? _]|intros []].
  simpl.
  eapply triple_bind with (S := fun _ n d => writing n d /\ pend d
    /\ forall a, a ∈ authzs d -> authorization_id a = c_authz c -> own_open (a_order a) d);
    [|intros []].
  { apply triple_modify. intros n d ((HP & Hp) & _). split; [by apply update_chall_ok|].
    split; [done|]. intros a Ha Eid. eapply (pend_own_open n d); [apply HP|done..]. }
  eapply triple_bind; [apply update_status_ok|intros []].
  eapply triple_bind; [by apply triple_commit|intros []]. by apply triple_ret.
Qed.

Lemma start_pend n d : start n d -> PI n d /\ pend d.
Proof. intros [-> ->]. split; [apply PI_start|exact Hpend0]. Qed.

Lemma judging_ok now shown m : judging now c shown m -> triple PI start m (fun _ => PI).
Proof.
  induction 1 as [Hs|et dt|e|body et _ IH].
  - eapply triple_pre; [apply mark_valid_ok|exact start_pend].
  - eapply triple_pre; [apply mark_invalid_ok|exact start_PI].
  - apply triple_raise. exact start_PI.
  - apply triple_try; [exact IH|intros e; apply mark_invalid_ok].
Qed.

Lemma validate_challenge_ok `{KeyDigest} now a net :
  triple PI start (validate_challenge now c a net) (fun _ => PI).
Proof. eapply judging_ok, validate_judging. Qed.
End Challenge.

Lemma gets_start {A B} (f : db -> A) (k : A -> M B) R :
  triple PI start (k (f d0)) R -> triple PI start (gets f ≫= k) R.
Proof.
  intros Hk w Hp [Hn Hd]. unfold mbind, M_bind, gets. rewrite Hd. by apply Hk.
Qed.

Lemma ret_start {A} (r : A) : triple PI start (mret r) (fun _ => PI).
Proof. apply triple_ret. exact start_PI. Qed.

Lemma gets_PI {A} (f : db -> A) : triple PI PI (gets f) (fun _ => PI).
Proof. apply triple_look. Qed.

(* a guard that answers without writing *)
Ltac refuse := match goal with
  | |- triple _ start (if ?b then mret _ else _) _ => destruct b eqn:?; [apply ret_start|]
  end.

Lemma respond_ok `{KeyDigest} now account cid net :
  triple PI start (respond_to_challenge now account cid net) (fun _ => PI).
Proof.
  unfold respond_to_challenge. apply gets_start.
  destruct (find_chall d0 cid) as [c|] eqn:Ec; simpl; [|apply ret_start].
  apply find_chall_some in Ec as [Hc Ec].
  refuse. refuse.
  destruct (find_authz d0 (c_authz c)) as [a|] eqn:Ea.
  - destruct (find_authz_some _ _ _ Ea) as [Ha Eid].
    destruct (bool_decide (a_status a = APending)) eqn:Hp; simpl; [|apply ret_start].
    apply bool_decide_eq_true in Hp. eapply triple_bind; [apply validate_challenge_ok; [done|]|intros ?; apply gets_PI].
    intros a' Ha' Eid'. rewrite (authz_unique n0 d0 a' a); [done|apply Hinv0|done..|congruence].
  - eapply triple_bind; [apply validate_challenge_ok; [done|]|intros ?; apply gets_PI].
    intros a' Ha' Eid'. by destruct (find_authz_none _ _ _ Ea Ha').
Qed.

(** ** Expiry *)

(** An authorization expires with its live challenges. *)
Lemma expire_authz_ok Xo n d a :
  a ∈ authzs d -> a_status a = APending ->
  InvX Xo no_authz n d -> Evolves order_move n0 d0 d ->
  let d' := _expire_authorization a false d in
  InvX (fun i s => Xo i s \/ own_ready (a_order a) i s) no_authz n d'
  /\ Evolves order_move n0 d0 d'.
Proof.
  intros Ha Hs Hi Hev. unfold _expire_authorization.
  set (problem := _problem_data _ _).
  set (d1 := update_authz (authorization_id a) (set_a_status AInvalid) d).
  assert (InvX (fun i s => Xo i s \/ own_ready (a_order a) i s) no_authz n d1) as H1.
  { eapply invx_weaken; [| |eapply (invx_fail_authz Xo no_authz n d _ (a_order a)); [by left| |exact Hi]].
    - done.
    - by intros i [[] _].
    - intros a' Ha' E. rewrite (authz_unique n d a' a); [done|by eapply ix_shape|done..]. }
  split.
  - eapply invx_weaken; [| |eapply (invx_settle _ _ _ _ (authorization_id a));
      [|eapply (invx_update_challs _ _ _ _ (authorization_id a)); [| |exact H1]]].
    + done.
    + simpl. by intros i [[[]|?] ?].
    + intros a' (a1 & Ha1 & ->)%elem_of_update_where E'. unfold is_authz in *.
      destruct (Nat.eqb_spec (authorization_id a1) (authorization_id a)); [|done].
      intros Hv. done.
    + done.
    + intros c' _ [->%Nat.eqb_eq _]%andb_true_iff. done.
  - apply ev_update_challs; [done|]. apply ev_update_authzs; [done| |done].
    intros a0 a' H0 Ha' E%Nat.eqb_eq Hst.
    assert (a' = a) as -> by (apply (authz_unique n d); [by eapply ix_shape|done..]).
    destruct Hst as (? & ? & ? & ? & ? & ? & Hm). unfold authz_step; simpl. split_and!; [done..|].
    unfold authz_reach in *. intuition congruence.
Qed.

Lemma expire_authorization_ok now aid :
  triple PI start (expire_authorization_if_needed now aid) (fun _ => PI).
Proof.
  unfold expire_authorization_if_needed. apply gets_start.
  destruct (find_authz d0 aid) as [a|] eqn:Ea; [|apply ret_start].
  apply find_authz_some in Ea as [Ha Eid]. refuse.
  assert (a_status a = APending) as Hs.
  { apply orb_false_iff in Heqb as [H _]. by apply negb_false_iff, bool_decide_eq_true in H. }
  eapply triple_bind with (S := fun _ => PI); [|intros _].
  - apply triple_modify. intros n d [-> ->]. destruct PI_start as (Hi & Hev & Hle).
    destruct (expire_authz_ok no_order n0 d0 a Ha Hs Hi Hev) as [H1 H2].
    change (_expire_authorization a true d0) with
      (fail_order (a_order a) (_problem_data "malformed" EXPIRED_AUTHORIZATION_DETAIL)
         (_expire_authorization a false d0)).
    destruct (fail_order_ok no_authz n0 n0 d0 (_expire_authorization a false d0) (a_order a)
      (_problem_data "malformed" EXPIRED_AUTHORIZATION_DETAIL)); [|by eapply invx_weaken; [| |exact H1]; [intros ? ? [[]|?]|]|done|done].
    intros i Ei. exists (set_a_status AInvalid a). split_and!; [|done|by left].
    apply elem_of_update_where. exists a. split; [done|]. unfold is_authz. by rewrite Nat.eqb_refl.
  - eapply triple_bind; [by apply triple_commit|intros ?]. by apply triple_ret.
Qed.

(* while the pending authorizations of an expired order are closed one by one *)
Definition expiring (oid : nat) (l done : list AcmeAuthorization) (n : nat) (d : db) : Prop :=
  InvX (fun i _ => i = oid) no_authz n d /\ Evolves order_move n0 d0 d /\ (n0 <= n)%nat
  /\ (forall o, o ∈ orders d -> order_id o = oid -> o_status o = OInvalid)
  /\ (forall a, a ∈ l -> a ∉ done -> a ∈ authzs d)
  /\ (forall a, a ∈ authzs d -> a_order a = Some oid ->
        a_status a <> APending \/ (a ∈ l /\ a ∉ done)).

Lemma expiring_step oid l done x n d :
  x ∈ l -> x ∉ done -> a_order x = Some oid -> NoDup (authorization_id <$> l) ->
  expiring oid l done n d ->
  expiring oid l (done ++ [x]) n
    (if bool_decide (a_status x = APending) then _expire_authorization x false d else d).
Proof.
  intros Hx Hnd Eo Hl (Hi & Hev & Hle & Hinv & Hin & Hp).
  assert (forall a, ~ (a ∈ done ++ [x]) <-> ~ (a ∈ done) /\ a <> x) as Hsnoc.
  { intros a. rewrite elem_of_app, list_elem_of_singleton. tauto. }
  case_bool_decide as Hs.
  - destruct (expire_authz_ok (fun i _ => i = oid) n d x (Hin x Hx Hnd) Hs Hi Hev) as [H1 H2].
    split_and!; [|done|done|done| |].
    + eapply invx_weaken; [| |exact H1]; [|done]. intros i s [?|[_ E]]; congruence.
    + intros a Ha [Hna Hne]%Hsnoc. apply elem_of_update_where. exists a. split; [by apply Hin|].
      unfold is_authz. destruct (Nat.eqb_spec (authorization_id a) (authorization_id x)) as [E|]; [|done].
      destruct Hne. by eapply unique_by.
    + intros a (a1 & H3 & ->)%elem_of_update_where Ea. unfold is_authz in *.
      destruct (Nat.eqb_spec (authorization_id a1) (authorization_id x)) as [E|E]; [by left|].
      destruct (Hp a1 H3 Ea) as [?|[? ?]]; [by left|right]. rewrite Hsnoc. naive_solver.
  - split_and!; [done..| |].
    + intros a Ha [Hna _]%Hsnoc. by apply Hin.
    + intros a Ha Ea. destruct (Hp a Ha Ea) as [?|[? ?]]; [by left|].
      destruct (decide (a_status a = APending)) as [E|]; [right|by left]. rewrite Hsnoc.
      split_and!; [done..|]. by intros ->.
Qed.

Lemma expire_order_ok now oid :
  triple PI start (expire_order_if_needed now oid) (fun _ => PI).
Proof.
  unfold expire_order_if_needed. apply gets_start.
  destruct (find_order d0 oid) as [o|] eqn:Eo; [|apply ret_start].
  apply find_order_some in Eo as [Ho Eid]. refuse.
  apply orb_false_iff in Heqb as [Hop%negb_false_iff _].
  set (p := _problem_data _ _).
  set (d1 := update_order oid (fun o => set_o_error (plain p) (set_o_status OInvalid o)) d0).
  assert (expiring oid (order_authzs d1 oid) [] n0 d1) as H1.
  { destruct PI_start as (Hi & Hev & Hle). split_and!.
    - split; [by apply shape_update_orders; [|apply Hi]| |apply Hi].
      intros o' (o1 & Hin & ->)%elem_of_update_where. unfold is_order.
      destruct (Nat.eqb_spec (order_id o1) oid) as [E|E]; [intros []; done|].
      intros _. by apply Hi; [|intros []].
    - apply ev_update_orders; [done| |done]. intros o0 o' _ Hin' Hi'%Nat.eqb_eq Hst.
      assert (o' = o) as -> by (apply (order_unique n0 d0); [apply Hi|done..|congruence]).
      by apply (open_to_invalid o0 o (fun o => set_o_error (plain p) (set_o_status OInvalid o))).
    - done.
    - intros o' (o1 & Hin & ->)%elem_of_update_where. unfold is_order.
      by destruct (Nat.eqb_spec (order_id o1) oid).
    - intros a [? _]%elem_of_order_authzs _. done.
    - intros a Ha Ea. right. split; [by apply elem_of_order_authzs|]. apply not_elem_of_nil. }
  eapply triple_bind with (S := fun _ n d => n = n0 /\ d = d1); [|intros _].
  { apply triple_modify. by intros n d [-> ->]. }
  eapply triple_bind; [apply triple_gets|intros l]. simpl.
  eapply triple_pre with (Q' := fun n d => l = order_authzs d1 oid /\ (n = n0 /\ d = d1));
    [|intros n d (-> & -> & ->); done].
  apply triple_pure. intros ->.
  assert (NoDup (authorization_id <$> order_authzs d1 oid)) as Hnd.
  { eapply sublist_NoDup; [|apply filter_keys_sublist]. apply Hinv0. }
  eapply triple_bind with (S := fun _ => expiring oid (order_authzs d1 oid) (order_authzs d1 oid));
    [|intros _].
  { eapply triple_pre; [apply (triple_mapM PI _ (expiring oid (order_authzs d1 oid)))|by intros n d [-> ->]].
    intros x done rest El.
    assert (x ∈ order_authzs d1 oid /\ x ∉ done) as [Hx Hxd].
    { rewrite El in Hnd |- *. rewrite fmap_app, NoDup_app in Hnd. destruct Hnd as (_ & Hd & _).
      split; [set_solver|]. intros H. apply (Hd (authorization_id x)); [by apply list_elem_of_fmap_2|].
      simpl. by left. }
    destruct (proj1 (elem_of_order_authzs _ _ _) Hx) as [_ Ex].
    destruct (bool_decide (a_status x = APending)) eqn:Es.
    - apply triple_modify. intros n d H. apply (expiring_step _ _ _ x) in H; [|done..].
      by rewrite Es in H.
    - apply triple_ret. intros n d H. apply (expiring_step _ _ _ x) in H; [|done..].
      by rewrite Es in H. }
  eapply triple_bind with (S := fun _ => PI); [|intros _].
  { apply triple_modify. intros n d (Hi & Hev & Hle & Hst & _ & Hp).
    split_and!; [|by apply ev_touch_order|done].
    eapply invx_weaken; [| |eapply (invx_set_order _ _ _ _ oid); [| |exact Hi]]; [|done|done|].
    - simpl. intros j s [-> ?]. done.
    - intros o' Ho' E'. unfold order_ok. simpl. rewrite (Hst o' Ho' E'), E'. left.
      intros a Ha Ea. destruct (Hp a Ha Ea) as [?|[? []]]; done. }
  eapply triple_bind; [by apply triple_commit|intros ?]. by apply triple_ret.
Qed.

(** ** Deactivation *)

(* the row can be deactivated: it is there, and did not fail *)
Definition deactivable (d : db) (row : AcmeAuthorization) : Prop :=
  (exists a, a ∈ authzs d /\ authorization_id a = authorization_id row)
  /\ forall a, a ∈ authzs d -> authorization_id a = authorization_id row ->
       a_order a = a_order row /\ a_status a <> AInvalid.

Lemma deactivable_update d row i :
  deactivable d row -> deactivable (update_authz i (set_a_status ADeactivated) d) row.
Proof.
  intros [(a & Ha & E) H]. split.
  - eexists. split; [apply elem_of_update_where; by exists a|]. by destruct (is_authz i a).
  - intros a' (a1 & Ha1 & ->)%elem_of_update_where E'.
    destruct (is_authz i a1); simpl in *; destruct (H a1 Ha1 E'); done.
Qed.

Lemma deactivate_row_ok n d row :
  deactivable d row -> PI n d -> PI n (deactivate_row row d).
Proof.
  intros [(a1 & Ha1 & E1) Hrow] (Hi & Hev & Hle). unfold deactivate_row.
  set (d1 := update_authz (authorization_id row) (set_a_status ADeactivated) d).
  assert (InvX (own_ready (a_order row)) no_authz n d1) as H1.
  { eapply invx_weaken; [| |eapply (invx_fail_authz no_order no_authz n d _ (a_order row));
      [by right| |exact Hi]].
    - by intros i s [[]|?].
    - by intros i [[] _].
    - intros a Ha E. by apply Hrow. }
  assert (Evolves order_move n0 d0 d1) as H2.
  { apply ev_update_authzs; [done| |done]. intros a0 a _ Ha E%Nat.eqb_eq Hst.
    etrans; [exact Hst|]. unfold authz_step; simpl. split_and!; [done..|].
    destruct (Hrow a Ha E) as [_ Hne]. unfold authz_reach. destruct (a_status a); naive_solver. }
  assert (forall i, a_order row = Some i -> failed_in d1 i) as Hf.
  { intros i Ei. exists (set_a_status ADeactivated a1). split_and!; [| |by right].
    - apply elem_of_update_where. exists a1. split; [done|]. unfold is_authz. by rewrite E1, Nat.eqb_refl.
    - simpl. rewrite <- Ei. by apply Hrow. }
  destruct (a_order row) as [i|].
  2: { split_and!; [by eapply keep_order; [|done]|done|done]. }
  destruct (find_order d1 i) as [o|] eqn:Eo.
  2: { split_and!; [|done|done]. eapply keep_order; [|done]. intros ? ? [= <-]. congruence. }
  destruct (open_order o) eqn:Eop.
  - edestruct (close_order no_authz n n0 d0 d1 i) as [? ?]; [|done|done|by apply Hf|done|done|].
    2: { split_and!; done. }
    done.
  - split_and!; [|done|done]. eapply keep_order; [|done]. intros ? ? [= <-]. congruence.
Qed.

Lemma deactivate_row_authzs row d :
  authzs (deactivate_row row d)
  = authzs (update_authz (authorization_id row) (set_a_status ADeactivated) d).
Proof. unfold deactivate_row. by repeat case_match. Qed.

Lemma deactivate_ok aid :
  triple PI (fun n d => PI n d /\ forall a, a ∈ authzs d -> authorization_id a = aid ->
                                            a_status a <> AInvalid)
    (deactivate_authorization aid) (fun _ => PI).
Proof.
  unfold deactivate_authorization. tgets ra. destruct ra as [a|]; [|apply triple_ret; naive_solver].
  case_bool_decide; [apply triple_ret; naive_solver|].
  tgets copies.
  set (I := fun (_ : list AcmeAuthorization) n d =>
              PI n d /\ forall row, row ∈ a :: copies -> deactivable d row).
  eapply triple_bind with (S := fun _ => I (a :: copies)); [|intros _; eapply triple_post; [by apply triple_commit; intros ? ? []|by intros ? ? ? []]].
  eapply triple_pre; [apply (triple_mapM PI _ I)|].
  - intros x done rest El. apply triple_modify. intros n d [HP Hrows].
    assert (x ∈ a :: copies) as Hx by (rewrite El; set_solver).
    split; [by apply deactivate_row_ok; [apply Hrows|]|].
    intros row Hr. apply (deactivable_update d row (authorization_id x)) in Hrows; [|done].
    unfold deactivable in *. by rewrite deactivate_row_authzs.
  - intros n d (-> & Ea & HP & Hst). split; [done|].
    apply eq_sym, find_authz_some in Ea as [Ha Eid].
    assert (forall row, row ∈ authzs d -> a_status row <> AInvalid -> deactivable d row) as Hd.
    { intros row Hr Hs. split; [by exists row|]. intros a' Ha' E.
      rewrite (authz_unique n d a' row); [done|apply HP|done..]. }
    intros row [->|Hr]%elem_of_cons; [by apply Hd; [|apply Hst]|].
    case_match; [|by apply elem_of_nil in Hr].
    apply elem_of_filter_list in Hr as [Hr Hs]. apply Hd; [done|].
    unfold same_proof in Hs. apply andb_true_iff in Hs as [[_ Hs]%andb_true_iff _].
    apply bool_decide_eq_true in Hs. congruence.
Qed.

Lemma authorization_info_ok now account aid deactivate :
  triple PI start (authorization_info now account aid deactivate) (fun _ => PI).
Proof.
  unfold authorization_info. apply gets_start.
  destruct (find_authz d0 aid) as [a|] eqn:Ea; simpl; [|apply ret_start]. refuse.
  eapply triple_bind; [apply expire_authorization_ok|intros ?].
  tgets current. destruct deactivate; simpl.
  2: { eapply triple_pre; [apply gets_PI|by intros ? ? []]. }
  destruct (bool_decide (a_status current = AInvalid)) eqn:Hc; [apply triple_ret; by intros ? ? []|].
  apply bool_decide_eq_false in Hc.
  eapply triple_bind; [|intros ?; apply gets_PI].
  eapply triple_pre; [apply deactivate_ok|]. intros n d [-> HP]. split; [done|].
  intros a' Ha' E. destruct (find_authz d aid) as [a2|] eqn:E2.
  - apply find_authz_some in E2 as [Ha2 E2].
    rewrite (authz_unique n d a' a2); [done|apply HP|done..|congruence].
  - by destruct (find_authz_none _ _ _ E2 Ha').
Qed.

(** ** Finalize *)

Section Finalize.
Variable oid : nat.
Hypothesis Hready0 : forall o, o ∈ orders d0 -> order_id o = oid -> o_status o = OReady.

(* while the order is finalized its authorizations stay valid *)
Definition FZ (n : nat) (d : db) : Prop :=
  PI n d /\ forall a, a ∈ authzs d -> a_order a = Some oid -> a_status a = AValid.

Lemma FZ_start : (exists o, o ∈ orders d0 /\ order_id o = oid) -> FZ n0 d0.
Proof.
  intros (o & Ho & E). split; [apply PI_start|]. pose proof (Hready0 o Ho E) as Hr.
  assert (order_ok d0 o) as Hok by (apply Hinv0; [done|intros []]).
  unfold order_ok in Hok. by rewrite Hr, E in Hok.
Qed.

(** The order under finalization may take any status but pending. *)
Lemma FZ_set n d p g s :
  s <> OPending -> (forall o, p o = true -> order_id o = oid) ->
  (forall o, order_id (g o) = order_id o /\ o_account (g o) = o_account o
     /\ identifiers (g o) = identifiers o /\ o_expires (g o) = o_expires o
     /\ o_status (g o) = s) ->
  FZ n d -> FZ n (with_orders (update_where p g) d).
Proof.
  intros Hs Hp Hg [(Hi & Hev & Hle) Hall]. split; [|done]. split_and!; [| |done].
  - split; [apply shape_update_orders; [apply Hg|apply Hi]| |apply Hi].
    intros o (o1 & Hin & ->)%elem_of_update_where _. destruct (p o1) eqn:Ep.
    2: { by apply Hi; [|intros []]. }
    destruct (Hg o1) as (E1 & _ & _ & _ & E2). unfold order_ok. rewrite E1, E2, (Hp o1 Ep).
    assert (forall a, a ∈ authzs d -> a_order a = Some oid -> a_status a <> APending) as Hn.
    { intros a Ha E. by rewrite (Hall a Ha E). }
    destruct s; [done|exact Hall|exact Hn|exact Hn|by left].
  - apply ev_update_orders; [apply Hg| |done]. intros o0 o H0 Ho Ep Hst.
    destruct Hst as (E1 & E2 & E3 & E4 & _). destruct (Hg o) as (G1 & G2 & G3 & G4 & G5).
    unfold order_step. split_and!; try congruence. rewrite G5.
    assert (o_status o0 = OReady) as -> by (apply Hready0; [done|rewrite <- E1; by apply Hp]).
    unfold order_move. destruct s; naive_solver.
Qed.

Lemma FZ_update n d g s :
  s <> OPending ->
  (forall o, order_id (g o) = order_id o /\ o_account (g o) = o_account o
     /\ identifiers (g o) = identifiers o /\ o_expires (g o) = o_expires o
     /\ o_status (g o) = s) ->
  FZ n d -> FZ n (update_order oid g d).
Proof. intros Hs Hg. apply (FZ_set _ _ _ _ s); [done| |done]. by intros o ?%Nat.eqb_eq. Qed.

Lemma FZ_write_commit {A} g s (r : A) :
  s <> OPending ->
  (forall o, order_id (g o) = order_id o /\ o_account (g o) = o_account o
     /\ identifiers (g o) = identifiers o /\ o_expires (g o) = o_expires o
     /\ o_status (g o) = s) ->
  triple FZ FZ (modify (update_order oid g) ;; commit ;; mret r) (fun _ => FZ).
Proof.
  intros Hs Hg. eapply triple_bind with (S := fun _ => FZ); [|intros _].
  - apply triple_modify. intros n d. by apply (FZ_update _ _ _ s).
  - eapply triple_bind; [by apply triple_commit|intros ?]. by apply triple_ret.
Qed.

Lemma begin_ok : triple FZ FZ (begin_order_processing oid) (fun _ => FZ).
Proof.
  unfold begin_order_processing. tgets claimed.
  eapply triple_bind with (S := fun _ => FZ); [|intros _].
  - apply triple_modify. intros n d [_ H]. eapply (FZ_set _ _ _ _ OProcessing); [done| |done|done].
    intros o [?%Nat.eqb_eq _]%andb_true_iff. done.
  - case_match.
    + eapply triple_bind; [by apply triple_commit|intros ?]. by apply triple_ret.
    + eapply triple_bind; [apply triple_rollback|intros ?]. by apply triple_ret.
Qed.

Lemma restore_ok : triple FZ FZ (restore_processing_order oid) (fun _ => FZ).
Proof.
  unfold restore_processing_order. tgets o. destruct o as [o|]; [|by apply triple_ret; intros ? ? []].
  case_bool_decide; [|by apply triple_ret; intros ? ? []].
  eapply triple_bind with (S := fun _ => FZ); [|intros _; by apply triple_commit].
  apply triple_modify. intros n d [_ HF]. by apply (FZ_update _ _ _ OReady).
Qed.

Lemma invalidate_ok et dt : triple FZ FZ (invalidate_processing_order oid et dt) (fun _ => FZ).
Proof.
  unfold invalidate_processing_order. tgets o. destruct o as [o|]; [|by apply triple_ret; intros ? ? []].
  case_bool_decide; [|by apply triple_ret; intros ? ? []].
  eapply triple_bind with (S := fun _ => FZ); [|intros _; by apply triple_commit].
  apply triple_modify. intros n d [_ HF]. by apply (FZ_update _ _ _ OInvalid).
Qed.

Lemma finalize_order_ok env : triple FZ FZ (finalize_order oid env) (fun _ => FZ).
Proof.
  assert (forall (r : option (string * string)), triple FZ FZ (mret r) (fun _ => FZ)) as Hret.
  { intros r. by apply triple_ret. }
  unfold finalize_order.
  eapply triple_bind; [apply triple_look|intros o].
  destruct o as [o|]; [|apply Hret]. destruct (negb _); [apply Hret|].
  destruct (check_csr _ _); [apply Hret|]. destruct (fe_template_refusal env); [apply Hret|].
  eapply triple_bind; [apply triple_look|intros caa].
  destruct caa; [apply Hret|]. destruct (fe_sign env) as [cert|exc err|t].
  - by apply (FZ_write_commit _ OValid).
  - destruct (negb _); [apply Hret|]. by apply (FZ_write_commit _ OInvalid).
  - by apply triple_raise.
Qed.
End Finalize.

(** ** Creation *)

(* an authorization stands for the identifier, for this account: the name without its
   wildcard label, and the flag that says whether it had one *)
Definition stands_for (acct : string) (i : identifier) (a : AcmeAuthorization) : Prop :=
  (a_identifier a, a_wildcard a) = _normalize_authorization_identifier i /\ a_account a = Some acct.

Definition order_facts (acct : string) (oid : nat) (ids : list identifier) (os : list AcmeOrder) : Prop :=
  (exists o, o ∈ os /\ order_id o = oid)
  /\ forall o, o ∈ os -> order_id o = oid -> o_status o = OPending /\ identifiers o = ids /\ o_account o = acct.

(* an authorization [aid] is being given its challenges, all of status [st] so far *)
Definition equipping (F : list AcmeOrder -> list AcmeAuthorization -> Prop) (aid : nat)
    (st : chall_status) (b : Prop) (n : nat) (d : db) : Prop :=
  InvX no_order (fun i => i = aid) n d /\ Evolves order_move n0 d0 d /\ (n0 <= aid < n)%nat
  /\ (forall c, c ∈ challs d -> c_authz c = aid -> c_status c = st)
  /\ (b -> exists c, c ∈ challs d /\ c_authz c = aid)
  /\ F (orders d) (authzs d).

Section Creating.
Context `{Randomness} (cfg : config) (now : Z).

Lemma add_challenge_ok F aid st b b' ty tok v :
  triple PI (equipping F aid st b) (add_challenge cfg aid ty st tok v) (fun _ => equipping F aid st b').
Proof.
  unfold add_challenge.
  eapply triple_bind with (S := fun _ => equipping F aid st b).
  { apply triple_draw; [apply PI_mono|]. intros n d (Hi & Hev & Hle & Hc & Hb & HF).
    unfold equipping. split_and!; [eapply invx_mono; [|done]; lia|done|lia|lia|done..]. }
  intros u. eapply triple_bind with (S := fun i n d => n = S i /\ equipping F aid st b i d).
  { apply triple_draw; [apply PI_mono|]. done. }
  intros i. apply triple_modify. intros n d (-> & Hi & Hev & [Hle Hlt] & Hc & Hb & HF).
  unfold equipping. split_and!.
  - eapply invx_weaken; [| |apply (invx_add_chall no_order (fun i => i = aid)); [done|done|exact Hi]];
      [done|]. by intros j [?|?].
  - apply ev_add_chall; [simpl; lia|done].
  - done.
  - lia.
  - simpl. intros c [Hin| ->%list_elem_of_singleton]%elem_of_app; [by apply Hc|done].
  - intros _. eexists. simpl. rewrite elem_of_app, list_elem_of_singleton. by split; [by right|].
  - done.
Qed.

Lemma new_challenge_ok F aid st b b' ty v :
  triple PI (equipping F aid st b) (new_challenge cfg aid ty st v) (fun _ => equipping F aid st b').
Proof.
  unfold new_challenge. eapply triple_bind with (S := fun _ => equipping F aid st b).
  { apply triple_draw; [apply PI_mono|]. intros n d (Hi & Hev & Hle & Hc & Hb & HF).
    unfold equipping. split_and!; [eapply invx_mono; [|done]; lia|done|lia|lia|done..]. }
  intros t. apply add_challenge_ok.
Qed.

Lemma equipping_weaken F aid st (b b' : Prop) n d :
  (b' -> b) -> equipping F aid st b n d -> equipping F aid st b' n d.
Proof. unfold equipping. intuition. Qed.

Lemma create_challenges_ok F a st v :
  triple PI (equipping F (authorization_id a) st False) (_create_challenges cfg a st v)
    (fun _ => equipping F (authorization_id a) st (id_type (a_identifier a) <> "ip"%string)).
Proof.
  unfold _create_challenges.
  set (P1 := id_type (a_identifier a) <> "ip"%string).
  assert (forall b : Prop, triple PI (equipping F (authorization_id a) st b) (mret tt)
            (fun _ => equipping F (authorization_id a) st b)) as Hret.
  { intros b. by apply triple_ret. }
  eapply triple_bind with (S := fun _ => equipping F (authorization_id a) st P1); [|intros _].
  - destruct (String.eqb_spec (id_type (a_identifier a)) "ip") as [E|E].
    + apply triple_ret. intros n d. by apply equipping_weaken.
    + eapply triple_bind; [apply (new_challenge_ok _ _ _ _ P1)|intros ?].
      case_match; [apply new_challenge_ok|apply Hret].
  - case_match; [apply Hret|].
    eapply triple_bind; [apply (new_challenge_ok _ _ _ _ P1)|intros ?]. apply new_challenge_ok.
Qed.

Lemma copy_challenges_ok F aid src :
  (forall os l, F os l -> src ∈ l /\ a_status src = AValid /\ authorization_id src <> aid) ->
  triple PI (equipping F aid CValid False)
    (_copy_validated_challenges cfg aid (authorization_id src))
    (fun _ => equipping F aid CValid True).
Proof.
  intros Hsrc. unfold _copy_validated_challenges. tgets l.
  eapply triple_pre with (Q' := fun n d => (exists c, c ∈ l /\ c_status c = CValid)
                                           /\ equipping F aid CValid False n d).
  2: { intros n d [-> He]. split; [|done]. pose proof He as (Hi & _ & _ & _ & _ & HF).
       destruct (Hsrc _ _ HF) as (Hin & Hs & Hne).
       destruct (ix_authz _ _ _ _ Hi src Hin Hne Hs) as (_ & c & Hc & E & Hv).
       exists c. split; [|done]. by apply elem_of_authz_challs. }
  apply triple_pure. intros (c0 & Hc0 & Hv0).
  eapply triple_conseq;
    [apply (triple_mapM PI _ (fun done => equipping F aid CValid
                                            (exists c, c ∈ done /\ c_status c = CValid)))| |].
  - intros x done rest _. case_bool_decide as Hx; [apply add_challenge_ok|].
    apply triple_ret. intros n d. apply equipping_weaken.
    intros (c & [Hc| ->%list_elem_of_singleton]%elem_of_app & Hv); [by exists c|done].
  - intros n d. apply equipping_weaken. intros (c & Hc & _). by apply elem_of_nil in Hc.
  - intros ? n d. apply equipping_weaken. eauto.
Qed.

(* once equipped, the authorization counts *)
Lemma equipped F aid st b ast n d :
  (forall os l, F os l -> forall a, a ∈ l -> authorization_id a = aid -> a_status a = ast) ->
  (ast = AValid -> st = CValid /\ b) ->
  equipping F aid st b n d -> PI n d /\ F (orders d) (authzs d).
Proof.
  intros HF Hst (Hi & Hev & Hle & Hc & Hb & HF'). split; [|done]. split_and!; [|done|lia].
  eapply invx_weaken; [done| |eapply invx_settle; [|exact Hi]].
  - simpl. by intros i [-> ?].
  - intros a Ha E Hs. rewrite (HF _ _ HF' a Ha E) in Hs. destruct (Hst Hs) as [-> Hb1].
    split.
    + intros c Hin E'. unfold live_challenge. rewrite (Hc c Hin ltac:(congruence)). done.
    + destruct (Hb Hb1) as (c & Hin & E'). exists c. split_and!; [done|congruence|by apply Hc].
Qed.

Lemma add_authorization_ok (Q : nat -> db -> Prop) F oo acct i st wc e cst :
  let mk k := {| authorization_id := k; a_order := oo; a_account := acct; a_identifier := i;
                 a_status := st; a_expires := e; a_wildcard := wc |} in
  (forall n d, Q n d -> PI n d /\ forall k, oo = Some k -> (n0 <= k < n)%nat
     /\ forall o, o ∈ orders d -> order_id o = k -> o_status o = OPending) ->
  (forall n d, Q n d -> F n (orders d) (authzs d ++ [mk n])) ->
  triple PI Q (add_authorization oo acct i st wc e)
    (fun a n d => a = mk (authorization_id a)
                  /\ equipping (F (authorization_id a)) (authorization_id a) cst False n d).
Proof.
  intros mk HQ HF. unfold add_authorization.
  eapply triple_bind with (S := fun aid n d => n = S aid /\ Q aid d).
  { apply triple_draw; [apply PI_mono|]. done. }
  intros aid. simpl. fold (mk aid).
  eapply triple_bind with (S := fun _ => equipping (F aid) aid cst False); [|intros _].
  2: { apply triple_ret. done. }
  apply triple_modify. intros n d [-> Hq]. destruct (HQ _ _ Hq) as ((Hi & Hev & Hle) & Hoo).
  unfold equipping. split_and!.
  - eapply invx_weaken; [| |apply (invx_add_authz no_order no_authz); [done| |exact Hi]]; [done| |].
    + by intros j [[]|?].
    + intros k Hk. destruct (Hoo k Hk) as [[_ ?] ?]. done.
  - apply ev_add_authz; [done| |done]. intros k Hk. by destruct (Hoo k Hk) as [[? _] _].
  - done.
  - lia.
  - simpl. intros c Hin E. apply (sh_c _ _ (ix_shape _ _ _ _ Hi)) in Hin. lia.
  - done.
  - exact (HF aid d Hq).
Qed.

Lemma latest_expiry_elem l : forall best a,
  latest_expiry best l = Some a -> a ∈ l \/ best = Some a.
Proof.
  induction l as [|b l IH]; intros best a; simpl; [by right|].
  intros [?|Hb]%IH; [left; by right|].
  destruct best as [x|]; [destruct (_ <? _)%Z|]; simplify_eq; [left; by left|by right|left; by left].
Qed.

Lemma find_reusable_valid account i wc d src :
  find_reusable now account i wc d = Some src -> src ∈ authzs d /\ a_status src = AValid.
Proof.
  unfold find_reusable. intros Hf. destruct account as [[|ch acct]|]; [done| |done].
  apply latest_expiry_elem in Hf as [[Hin Hr]%elem_of_filter_list|?]; [|done]. split; [done|].
  unfold reusable in Hr. apply andb_true_iff in Hr as [[_ Hr]%andb_true_iff _].
  by apply bool_decide_eq_true in Hr.
Qed.

Variable acct : string.

(* part of the way through the identifiers of a new order *)
Definition creating (oid : nat) (ids done : list identifier) (n : nat) (d : db) : Prop :=
  PI n d /\ (n0 <= oid)%nat /\ order_facts acct oid ids (orders d)
  /\ Forall2 (stands_for acct) done (order_authzs d oid).

Lemma creating_lt oid ids done n d : creating oid ids done n d -> (oid < n)%nat.
Proof.
  intros ((Hi & _) & _ & [(o & Ho & <-) _] & _). by apply (sh_o _ _ (ix_shape _ _ _ _ Hi)).
Qed.

(* the order, its authorizations with the new one, and the one it is copied from *)
Definition new_authz_frame oid ids done i st (src : option AcmeAuthorization) (aid : nat)
    (os : list AcmeOrder) (l : list AcmeAuthorization) : Prop :=
  (n0 <= oid)%nat /\ order_facts acct oid ids os
  /\ Forall2 (stands_for acct) (done ++ [i]) (List.filter (belongs_to oid) l)
  /\ (forall a, a ∈ l -> authorization_id a = aid -> a_status a = st)
  /\ (forall s, src = Some s -> s ∈ l /\ a_status s = AValid /\ authorization_id s <> aid).

Lemma new_order_authz_ok oid ids done i st e src cst :
  let ai := _normalize_authorization_identifier i in
  triple PI (fun n d => creating oid ids done n d
                        /\ forall s, src = Some s -> s ∈ authzs d /\ a_status s = AValid)
    (add_authorization (Some oid) (Some acct) ai.1 st ai.2 e)
    (fun a n d => a_identifier a = ai.1 /\
       equipping (new_authz_frame oid ids done i st src (authorization_id a))
         (authorization_id a) cst False n d).
Proof.
  intros ai. eapply triple_post;
    [apply (add_authorization_ok _ (new_authz_frame oid ids done i st src) _ _ _ _ _ _ cst)|].
  - intros n d [Hcr _]. split; [apply Hcr|]. intros k [= <-].
    pose proof (creating_lt _ _ _ _ _ Hcr). destruct Hcr as (_ & ? & [_ Ho] & _).
    split; [lia|]. intros o Hin E. by apply Ho.
  - intros n d [((Hi & _) & Hle & Hof & Hall) Hsrc]. unfold new_authz_frame.
    pose proof (sh_a _ _ (ix_shape _ _ _ _ Hi)) as Hlt.
    split_and!; [done|done| | |].
    + rewrite List.filter_app. apply Forall2_app; [exact Hall|]. simpl.
      unfold belongs_to. simpl. rewrite bool_decide_true by done. constructor; [|constructor].
      unfold stands_for. simpl. split; [by destruct ai|done].
    + intros a [Hin| ->%list_elem_of_singleton]%elem_of_app; [|done].
      intros E. apply Hlt in Hin. lia.
    + intros s Es. destruct (Hsrc s Es) as [Hin ?]. split_and!; [by apply elem_of_app; left|done|].
      apply Hlt in Hin. lia.
  - intros a n d [-> He]. split; [done|exact He].
Qed.

Lemma new_authz_done oid ids done i st src aid cst b n d :
  (st = AValid -> cst = CValid /\ b) ->
  equipping (new_authz_frame oid ids done i st src aid) aid cst b n d ->
  creating oid ids (done ++ [i]) n d.
Proof.
  intros Hst He. eapply equipped in He as [HP (? & ? & ? & _)].
  - done.
  - intros os l (_ & _ & _ & Hs & _). exact Hs.
  - done.
Qed.

Lemma create_authorization_ok oid ids done i :
  triple PI (creating oid ids done) (_create_authorization cfg now oid i (Some acct))
    (fun _ => creating oid ids (done ++ [i])).
Proof.
  unfold _create_authorization.
  pose proof (new_order_authz_ok oid ids done i) as Hadd.
  pose proof (fun st src aid cst b n d => new_authz_done oid ids done i st src aid cst b n d) as Hdone.
  destruct (_normalize_authorization_identifier i) as [ai wc] eqn:Eai. simpl in Hadd.
  assert (id_type ai = id_type i) as Hty.
  { unfold _normalize_authorization_identifier in Eai. by simplify_eq. }
  assert (forall st e cst v, (st = AValid -> cst = CValid /\ id_type i = "dns"%string) ->
    triple PI (creating oid ids done)
      (a ← add_authorization (Some oid) (Some acct) ai st wc e; _create_challenges cfg a cst v ;;
       commit ;; mret a) (fun _ => creating oid ids (done ++ [i]))) as Hnew.
  { intros st e cst v Hst.
    eapply triple_bind; [eapply triple_pre; [apply (Hadd st e None cst)|naive_solver]|intros a].
    apply triple_pure. intros Ea.
    eapply triple_bind with (S := fun _ => creating oid ids (done ++ [i])); [|intros _].
    - eapply triple_post; [apply create_challenges_ok|]. intros ? n d. apply Hdone.
      intros [-> Edns]%Hst. rewrite Ea, Hty, Edns. split; [done|discriminate].
    - eapply triple_bind; [apply triple_commit; by intros n d []|intros ?]. by apply triple_ret. }
  tgets src. destruct src as [src|].
  - eapply triple_bind; [eapply triple_pre; [apply (Hadd AValid (a_expires src) (Some src) CValid)|]|].
    { intros n d [E Hcr]. split; [done|]. intros s [= <-]. by eapply find_reusable_valid. }
    intros a. apply triple_pure. intros Ea.
    eapply triple_bind; [apply copy_challenges_ok|intros ?].
    + intros os l (_ & _ & _ & _ & Hs). by apply Hs.
    + apply triple_ret. intros n d. by apply Hdone.
  - case_match eqn:Eb.
    + eapply triple_pre; [apply Hnew|by intros n d []]. intros _. split; [done|].
      apply andb_true_iff in Eb as [Eb _]. by apply String.eqb_eq.
    + eapply triple_pre; [apply Hnew|by intros n d []]. done.
Qed.

(* the order names exactly what its authorizations stand for *)
Definition covered (d : db) (o : AcmeOrder) : Prop :=
  Forall2 (stands_for (o_account o)) (identifiers o) (order_authzs d (order_id o)).

Definition created (ids : list identifier) (oid n : nat) (d : db) : Prop :=
  PI n d /\ (n0 <= oid)%nat
  /\ (forall o, o ∈ orders d -> order_id o = oid -> identifiers o = ids /\ o_account o = acct)
  /\ Forall2 (stands_for acct) ids (order_authzs d oid).

Lemma create_order_ok ids nb na rep prof :
  triple PI PI (create_order cfg now acct ids nb na rep prof) (created ids).
Proof.
  unfold create_order.
  eapply triple_bind with (S := fun oid n d => n = S oid /\ PI oid d).
  { apply triple_draw; [apply PI_mono|]. done. }
  intros oid. eapply triple_bind with (S := fun _ => creating oid ids []); [|intros _].
  { apply triple_modify. intros n d (-> & Hi & Hev & Hle).
    pose proof (ix_shape _ _ _ _ Hi) as [_ _ _ Hol Hal _].
    unfold creating. split_and!; [split_and!| | |].
    - by apply invx_add_order.
    - by apply ev_add_order.
    - lia.
    - done.
    - split.
      + eexists. simpl. rewrite elem_of_app, list_elem_of_singleton. by split; [right|].
      + simpl. intros o [Hin| ->%list_elem_of_singleton]%elem_of_app E; [|done].
        apply Hol in Hin. lia.
    - unfold order_authzs. simpl.
      destruct (List.filter (belongs_to oid) (authzs d)) as [|a l] eqn:Ef; [constructor|].
      assert (a ∈ List.filter (belongs_to oid) (authzs d)) as Hin by (rewrite Ef; by left).
      apply elem_of_order_authzs in Hin as [Hin E]. apply Hal in Hin as [_ Hin]. apply Hin in E. lia. }
  eapply triple_bind with (S := fun _ => creating oid ids ids); [|intros _].
  { apply (triple_mapM PI _ (creating oid ids)). intros i done rest _.
    eapply triple_bind; [apply create_authorization_ok|intros ?]. by apply triple_ret. }
  tgets l. eapply triple_bind with (S := fun _ => created ids oid); [|intros _].
  { destruct (all_valid l) eqn:Hall.
    - apply triple_modify. intros n d (-> & HP & Hle & [(o & Ho & E) Hof] & Hall2).
      split_and!; [|done| |done].
      + rewrite <- E in *. eapply make_ready; [done| |done..].
        intros o' Ho' [= E']. left. by apply Hof.
      + intros o' (o1 & Ho1 & ->)%elem_of_update_where E'.
        destruct (is_order oid o1); by destruct (Hof o1 Ho1 E').
    - apply triple_ret. intros n d (-> & HP & Hle & [_ Hof] & Hall2). split_and!; [done..| |done].
      intros o Ho E. by apply Hof. }
  eapply triple_bind; [apply triple_commit; by intros n d []|intros ?]. by apply triple_ret.
Qed.

Lemma create_pre_authorization_ok account i :
  triple PI PI (create_pre_authorization cfg now account i) (fun _ => PI).
Proof.
  unfold create_pre_authorization.
  destruct (_normalize_authorization_identifier i) as [ai wc] eqn:Eai.
  assert (id_type ai = id_type i) as Hty.
  { unfold _normalize_authorization_identifier in Eai. by simplify_eq. }
  tgets found. destruct found as [a|]; [apply triple_ret; naive_solver|]. simpl.
  set (skip := _ && _ && _).
  set (st := if skip then AValid else APending). set (cst := if skip then CValid else CPending).
  set (F := fun (aid : nat) (_ : list AcmeOrder) (l : list AcmeAuthorization) =>
              forall a, a ∈ l -> authorization_id a = aid -> a_status a = st).
  eapply triple_bind; [eapply triple_pre; [apply (add_authorization_ok PI F _ _ _ _ _ _ cst)|by intros n d []]|].
  - intros n d HP. done.
  - intros n d (Hi & _) a [Hin| ->%list_elem_of_singleton]%elem_of_app E; [|done].
    apply (sh_a _ _ (ix_shape _ _ _ _ Hi)) in Hin. lia.
  - intros a. apply triple_pure. intros Ea.
    eapply triple_bind with (S := fun _ => PI); [|intros _].
    + eapply triple_post with (R' := fun _ => equipping (F (authorization_id a)) (authorization_id a)
        cst (id_type (a_identifier a) <> "ip"%string)).
      * unfold cst. destruct skip; apply create_challenges_ok.
      * intros ? n d He. eapply equipped in He as [HP _]; [done|intros os l HF; exact HF|].
        unfold st, cst. destruct skip eqn:Es; [|done]. intros _. split; [done|].
        rewrite Ea. simpl. rewrite Hty. unfold skip in Es.
        apply andb_true_iff in Es as [[Es _]%andb_true_iff _]. apply String.eqb_eq in Es.
        rewrite Es. discriminate.
    + eapply triple_bind; [by apply triple_commit|intros ?]. by apply triple_ret.
Qed.
End Creating.

(** ** Any request *)

(* run on the database itself, the code leaves it consistent *)
Definition leaves {A} (m : M A) : Prop := forall w,
  draws w = n0 -> committed w = d0 -> session w = d0 -> PI (draws (m w).2) (committed (m w).2).

Lemma triple_leaves {A} P (m : M A) R :
  P n0 d0 -> (forall n d, P n d -> PI n d) -> triple P start m R -> leaves m.
Proof.
  intros H0 HP Hm w Hn Hc Hs. specialize (Hm w). rewrite Hn, Hc, Hs in Hm.
  specialize (Hm H0 (conj eq_refl eq_refl)). destruct (m w) as [[a|e] w']; simpl; naive_solver.
Qed.

Lemma leaves_gets {A B} (f : db -> A) (k : A -> M B) : leaves (k (f d0)) -> leaves (gets f ≫= k).
Proof. intros Hk w Hn Hc Hs. unfold mbind, M_bind, gets. rewrite Hs. by apply Hk. Qed.

Lemma leaves_ret {A} (r : A) : leaves (mret r).
Proof. apply (triple_leaves PI _ (fun _ => PI)); [apply PI_start|done|apply ret_start]. Qed.

Ltac stop := match goal with
  | |- leaves (if ?b then mret _ else _) => destruct b eqn:?; [apply leaves_ret|]
  end.

Lemma get_order_none d i : get_order None d i = find_order d i.
Proof.
  unfold get_order. destruct (find_order d i) as [o|]; [|done].
  cbn [fmap option_fmap option_map]. by destruct (bool_decide (o_status o = OProcessing)).
Qed.

Lemma finalize_ok account oid env : leaves (finalize account oid env).
Proof.
  unfold finalize. apply leaves_gets. rewrite get_order_none.
  destruct (find_order d0 oid) as [o|] eqn:Eo; simpl; [|apply leaves_ret].
  apply find_order_some in Eo as [Ho Eid].
  stop. stop. destruct (bool_decide (o_status o = OReady)) eqn:Er; simpl; [|apply leaves_ret].
  apply bool_decide_eq_true in Er. stop.
  assert (forall o', o' ∈ orders d0 -> order_id o' = oid -> o_status o' = OReady) as Hr.
  { intros o' Ho' E'. rewrite (order_unique n0 d0 o' o); [done|apply Hinv0|done..|congruence]. }
  assert (FZ oid n0 d0) as H0 by (apply FZ_start; eauto).
  apply (triple_leaves (FZ oid) _ (fun _ => FZ oid)); [done|by intros n d []|].
  eapply triple_pre with (Q' := FZ oid); [|by intros n d [-> ->]].
  assert (forall r : reply, triple (FZ oid) (FZ oid) (mret r) (fun _ => FZ oid)) as Hret.
  { intros r. by apply triple_ret. }
  eapply triple_bind; [exact (begin_ok oid Hr)|intros claimed]. destruct claimed; simpl.
  2: { eapply triple_bind; [apply triple_look|intros ?]. apply Hret. }
  eapply triple_bind with (S := fun _ => FZ oid).
  - apply triple_try.
    + eapply triple_bind; [exact (finalize_order_ok oid Hr env)|intros ?]. by apply triple_ret.
    + intros e. destruct (_is_caa_failure _).
      * eapply triple_bind; [exact (invalidate_ok oid Hr _ _)|intros ?]. by apply triple_ret.
      * eapply triple_bind; [exact (restore_ok oid Hr)|intros ?]. by apply triple_raise.
  - intros [[[type err]|]|r]; [|apply triple_look|apply Hret].
    destruct (_is_caa_failure _); eapply triple_bind; [exact (invalidate_ok oid Hr _ _)|intros ?; apply Hret| |].
    + exact (restore_ok oid Hr).
    + intros ?. apply Hret.
Qed.

Lemma handle_ok `{Randomness, KeyDigest} cfg now r : leaves (handle cfg now r).
Proof.
  assert (forall A (m : M A), triple PI start m (fun _ => PI) -> leaves m) as HL.
  { intros A m. apply triple_leaves; [apply PI_start|done]. }
  destruct r as [acct env p|acct env raw|acct|acct oid|acct oid env|acct aid de|acct cid net]; simpl.
  - apply HL. unfold new_order. destruct (np_identifiers p) as [[|r l]|]; [apply ret_start| |apply ret_start].
    simpl. destruct (identifiers_refusal _ _ _); [apply ret_start|]. apply gets_start.
    assert (triple PI start (raise (A := reply) (PyError "Invalid isoformat string")) (fun _ => PI)) as Hraise.
    { apply triple_raise. apply start_PI. }
    assert (forall ids nb na rep prof, triple PI start
              (oid ← create_order cfg now acct ids nb na rep prof; gets (order_reply oid))
              (fun _ => PI)) as Hcreate.
    { intros. eapply triple_bind; [eapply triple_pre; [apply create_order_ok|apply start_PI]|intros oid].
      eapply triple_pre; [apply gets_PI|]. by intros n d []. }
    destruct (ne_certid env <$> np_replaces p) as [[]|]; [apply ret_start|..].
    all: refuse; refuse; destruct (np_dates p) as [[nb na]|]; [apply Hcreate|exact Hraise].
  - apply HL. unfold new_authz. destruct (validate_acme_identifier _ _) as [i|[t dt]]; [|apply ret_start].
    refuse. eapply triple_bind; [eapply triple_pre; [apply create_pre_authorization_ok|apply start_PI]|].
    intros aid. apply gets_PI.
  - apply HL. apply gets_start || (eapply triple_pre; [apply gets_PI|apply start_PI]).
  - apply HL. unfold order_info. apply gets_start. destruct (get_order None d0 oid); [|apply ret_start].
    refuse. eapply triple_bind; [apply expire_order_ok|intros ?; apply gets_PI].
  - apply finalize_ok.
  - apply HL, authorization_info_ok.
  - apply HL, respond_ok.
Qed.
End Request.

(** ** Traces *)

Lemma covered_evolves R n0 d0 d o0 o :
  Evolves R n0 d0 d -> (order_id o0 < n0)%nat -> order_step R o0 o ->
  covered d0 o0 -> covered d o.
Proof.
  intros [_ (l & new & E & H1 & H2) _] Hlt (Eid & Eacct & Eids & _). unfold covered, order_authzs.
  rewrite E, Eid, Eacct, Eids, List.filter_app.
  assert (List.filter (belongs_to (order_id o0)) new = []) as ->.
  { clear -H2 Hlt. induction new as [|a new IH]; [done|]. inversion H2 as [|? ? [_ Ha] Hn]; subst. simpl.
    unfold belongs_to at 1. rewrite bool_decide_false; [|intros ?%Ha; lia]. by apply IH. }
  rewrite app_nil_r. clear E H2. revert l H1. generalize (identifiers o0).
  induction (authzs d0) as [|a0 as0 IH]; intros ids l H1 Hc; inversion H1 as [|? a ? l' Hs Hl]; subst; [done|].
  destruct Hs as (_ & Eo & Ea & Ei & Ew & _). simpl in *. unfold belongs_to in *. rewrite Eo.
  destruct (bool_decide _); [|by apply IH].
  inversion Hc as [|i ? ids' ? Hst Hrest]; subst. constructor; [|by apply IH].
  unfold stands_for in *. by rewrite Ei, Ew, Ea.
Qed.

(* the code ends with a commit *)
Definition syncs {A} (m : M A) : Prop := forall w a w', m w = (Ok a, w') -> committed w' = session w'.

Lemma syncs_bind {A B} (m : M A) (k : A -> M B) : (forall a, syncs (k a)) -> syncs (m ≫= k).
Proof.
  intros Hk w b w'. unfold mbind, M_bind. destruct (m w) as [[a|e] w1]; [apply Hk|done].
Qed.

Lemma syncs_commit_ret {A} (x : A) : syncs (commit ;; mret x).
Proof.
  intros w a w'. unfold mbind, M_bind, commit. destruct (commits w) as [|[] l]; simpl; intros E;
    [|by inversion E|discriminate]; by inversion E.
Qed.

Section Traces.
Context `{Randomness, KeyDigest}.

Lemma create_order_syncs cfg now acct ids nb na rep prof :
  syncs (create_order cfg now acct ids nb na rep prof).
Proof. unfold create_order. do 5 (apply syncs_bind; intros ?). apply syncs_commit_ret. Qed.

Lemma identifiers_refusal_problem cfg env checked rp :
  identifiers_refusal cfg env checked = Some rp -> exists t dt st, rp = Problem t dt st.
Proof.
  assert (forall l s r, compound l s = Some r -> exists t dt st, r = Problem t dt st) as Hc.
  { intros [|[t dt] [|x l]] s r; simpl; intros [= <-]; unfold acme_error; eauto. }
  unfold identifiers_refusal. intros E.
  destruct (compound (errors checked) _) eqn:E1; [simplify_eq; by eapply Hc|].
  destruct (compound (wildcard_not_allowed <$> _) _) eqn:E2; [simplify_eq; by eapply Hc|].
  destruct (ne_eab env); [by eapply Hc|done].
Qed.

(** An order answered with success names what its authorizations stand for. *)
Lemma new_order_covered cfg now acct env p outcomes d n o l d' n' :
  Inv n d ->
  exec cfg now (NewOrder acct env p) outcomes d n = (OrderReply o l, d', n') ->
  o ∈ orders d' /\ covered d' o.
Proof.
  intros Hi. unfold exec. simpl. unfold new_order.
  set (w0 := {| committed := d; session := d; commits := outcomes; draws := n |}).
  assert (forall ids nb na rep prof,
    (let '(res, w) := (oid ← create_order cfg now acct ids nb na rep prof;
                       gets (order_reply oid)) w0 in
     (match res with Ok x => x | Raise _ => internal_error end, committed w, draws w))
      = (OrderReply o l, d', n') -> o ∈ orders d' /\ covered d' o) as Hcreate.
  { intros ids nb na rep prof.
    pose proof (create_order_ok n d cfg now acct ids nb na rep prof w0) as Ht.
    pose proof (create_order_syncs cfg now acct ids nb na rep prof w0) as Hs.
    unfold mbind at 1, M_bind at 1.
    destruct (create_order cfg now acct ids nb na rep prof w0) as [[oid|e] w1]; [|done].
    specialize (Ht (PI_start n d Hi) (PI_start n d Hi)) as (_ & _ & _ & _ & Hids & Hc).
    specialize (Hs _ _ eq_refl). unfold gets, order_reply. rewrite <- Hs in *.
    destruct (find_order (committed w1) oid) as [o'|] eqn:Eo; [|done].
    intros [= <- <- <- <-]. apply find_order_some in Eo as [Ho Eid]. split; [done|].
    unfold covered. destruct (Hids _ Ho Eid) as [-> ->]. by rewrite Eid. }
  destruct (np_identifiers p) as [[|r l0]|]; [done| |done].
  destruct (identifiers_refusal _ _ _) as [rp|] eqn:Eref.
  { apply identifiers_refusal_problem in Eref as (t & dt & st & ->). discriminate. }
  unfold mbind at 1, M_bind at 1. unfold gets at 1.
  destruct (ne_certid env <$> np_replaces p) as [[]|]; [done|..].
  all: repeat match goal with
       | |- context [if ?b then mret _ else _] => destruct b; [done|]
       end.
  all: destruct (np_dates p) as [[nb na]|]; [apply Hcreate|done].
Qed.

(* the orders the clients were told about *)
Definition acknowledged (r : request) (rep : reply) : list nat :=
  match r, rep with
  | NewOrder _ _ _, OrderReply o _ => [order_id o]
  | _, _ => []
  end.

(* the databases any sequence of requests leads to, whichever commits fail, with the orders
   acknowledged on the way *)
Inductive reachable : list nat -> nat -> db -> Prop :=
| reachable_start : reachable [] 0 empty_db
| reachable_step acks n d cfg now r outcomes rep d' n' :
    reachable acks n d -> exec cfg now r outcomes d n = (rep, d', n') ->
    reachable (acknowledged r rep ++ acks) n' d'.

Lemma exec_ok cfg now r outcomes d n rep d' n' :
  Inv n d -> exec cfg now r outcomes d n = (rep, d', n') -> PI n d n' d'.
Proof.
  intros Hi. unfold exec.
  pose proof (handle_ok n d Hi cfg now r
    {| committed := d; session := d; commits := outcomes; draws := n |} eq_refl eq_refl eq_refl) as HP.
  destruct (handle _ _ _ _) as [res w]. by intros [= _ <- <-].
Qed.

Lemma empty_inv : Inv 0 empty_db.
Proof.
  split; [split; simpl; try apply NoDup_nil_2; by intros ? ?%elem_of_nil|..];
    by intros ? ?%elem_of_nil.
Qed.

Lemma ev_order_kept R n0 d0 d o0 :
  Evolves R n0 d0 d -> o0 ∈ orders d0 -> exists o, o ∈ orders d /\ order_step R o0 o.
Proof.
  intros [(l & new & E & H1 & _) _ _] [i Hi]%list_elem_of_lookup.
  destruct (Forall2_lookup_l _ _ _ _ _ H1 Hi) as (o & Ho & Hs). exists o. split; [|done].
  rewrite E. apply elem_of_app. left. by eapply list_elem_of_lookup_2.
Qed.

Lemma reachable_ok acks n d :
  reachable acks n d ->
  Inv n d /\ forall oid, oid ∈ acks -> exists o, o ∈ orders d /\ order_id o = oid /\ covered d o.
Proof.
  induction 1 as [|acks n d cfg now r outcomes rep d' n' _ [Hi IH] Hex].
  { split; [apply empty_inv|]. by intros ? ?%elem_of_nil. }
  pose proof (exec_ok _ _ _ _ _ _ _ _ _ Hi Hex) as (Hi' & Hev & Hle). split; [done|].
  intros oid [Hin|Hin]%elem_of_app.
  - destruct r; simpl in Hin; try by apply elem_of_nil in Hin.
    destruct rep as [o l| | | |]; simpl in Hin; try by apply elem_of_nil in Hin.
    apply list_elem_of_singleton in Hin as ->.
    destruct (new_order_covered _ _ _ _ _ _ _ _ _ _ _ _ Hi Hex). by exists o.
  - destruct (IH oid Hin) as (o & Ho & Eid & Hc).
    destruct (ev_order_kept _ _ _ _ _ Hev Ho) as (o' & Ho' & Hs). exists o'.
    assert (order_id o < n)%nat by (by apply (sh_o _ _ (ix_shape _ _ _ _ Hi))).
    split_and!; [done| |by eapply covered_evolves]. destruct Hs. congruence.
Qed.

(* an identifier of the order has a valid authorization, with its challenge *)
Definition authorized_by (d : db) (o : AcmeOrder) (i : identifier) (a : AcmeAuthorization) : Prop :=
  exists c, a ∈ authzs d /\ a_order a = Some (order_id o) /\ stands_for (o_account o) i a
    /\ a_status a = AValid
    /\ c ∈ challs d /\ c_authz c = authorization_id a /\ c_status c = CValid.

Lemma ready_authorized n d o i :
  Inv n d -> o ∈ orders d -> covered d o -> o_status o = OReady -> i ∈ identifiers o ->
  exists a, authorized_by d o i a.
Proof.
  intros Hi Ho Hc Hr [k Hk]%list_elem_of_lookup.
  destruct (Forall2_lookup_l _ _ _ _ _ Hc Hk) as (a & Ha & Hst).
  apply list_elem_of_lookup_2, elem_of_order_authzs in Ha as [Ha Eo].
  assert (order_ok d o) as Hok by (apply Hi; [done|intros []]). unfold order_ok in Hok.
  rewrite Hr in Hok. specialize (Hok a Ha Eo).
  assert (authz_ok d a) as Hak by (apply Hi; [done|intros []]).
  destruct (Hak Hok) as (_ & c & Hcin & Ec & Hv). by exists a, c.
Qed.

Lemma find_order_in n d o : Shape n d -> o ∈ orders d -> find_order d (order_id o) = Some o.
Proof.
  intros Hsh Ho. destruct (find_order d (order_id o)) as [o'|] eqn:E.
  - apply find_order_some in E as [Ho' E]. f_equal. by apply (order_unique n d).
  - by destruct (find_order_none _ _ _ E Ho).
Qed.

Lemma find_authz_in n d a : Shape n d -> a ∈ authzs d -> find_authz d (authorization_id a) = Some a.
Proof.
  intros Hsh Ha. destruct (find_authz d (authorization_id a)) as [a'|] eqn:E.
  - apply find_authz_some in E as [Ha' E]. f_equal. by apply (authz_unique n d).
  - by destruct (find_authz_none _ _ _ E Ha).
Qed.

(* one request takes the server from one state to the next *)
Definition server_step (x y : nat * db) : Prop :=
  exists cfg now r outcomes rep, exec cfg now r outcomes x.2 x.1 = (rep, y.2, y.1).

Lemma order_move_reach s s' : order_move s s' -> order_reach s s'.
Proof. unfold order_move, order_reach. intuition congruence. Qed.

Lemma server_steps_ok x y :
  rtc server_step x y -> Inv x.1 x.2 ->
  Inv y.1 y.2 /\ Evolves order_reach x.1 x.2 y.2 /\ (x.1 <= y.1)%nat.
Proof.
  induction 1 as [x|x y z (cfg & now & r & outcomes & rep & Hex) _ IH]; intros Hi.
  { split_and!; [done|apply ev_refl; apply _|lia]. }
  destruct (exec_ok _ _ _ _ _ _ _ _ _ Hi Hex) as (Hi' & Hev & Hle).
  destruct (IH Hi') as (Hi2 & Hev2 & Hle2). split_and!; [done| |lia].
  apply (ev_trans _ x.1 y.1 x.2 y.2); [done| |done]. eapply ev_impl; [apply order_move_reach|done].
Qed.

Lemma ev_authz_kept R n0 d0 d a0 :
  Evolves R n0 d0 d -> a0 ∈ authzs d0 -> exists a, a ∈ authzs d /\ authz_step a0 a.
Proof.
  intros [_ (l & new & E & H1 & _) _] [i Hi]%list_elem_of_lookup.
  destruct (Forall2_lookup_l _ _ _ _ _ H1 Hi) as (a & Ha & Hs). exists a. split; [|done].
  rewrite E. apply elem_of_app. left. by eapply list_elem_of_lookup_2.
Qed.

(** * Properties *)

(* an acknowledged order that turns valid was ready, with a valid authorization for each name *)
Lemma issued_when_ready (acks : list nat) (n : nat) (d : db) cfg now r outcomes rep d' n'
    (oid : nat) (o o' : AcmeOrder) :
  reachable acks n d -> oid ∈ acks ->
  exec cfg now r outcomes d n = (rep, d', n') ->
  find_order d oid = Some o -> o_status o <> OValid ->
  find_order d' oid = Some o' -> o_status o' = OValid ->
  o_status o = OReady /\ forall i, i ∈ identifiers o -> exists a, authorized_by d o i a.
Proof.
  intros Hre Hack Hex [Ho Eid]%find_order_some Hnv [Ho' Eid']%find_order_some Hv.
  destruct (reachable_ok _ _ _ Hre) as [Hi Hcov].
  destruct (Hcov oid Hack) as (o1 & Ho1 & Eid1 & Hc).
  assert (o1 = o) as -> by (apply (order_unique n d); [apply Hi|done..|congruence]).
  destruct (exec_ok _ _ _ _ _ _ _ _ _ Hi Hex) as (Hi' & Hev & _).
  destruct (ev_order_old _ _ _ _ _ Hev Ho') as (o0 & Ho0 & Hs).
  { rewrite Eid', <- Eid. by apply (sh_o _ _ (ix_shape _ _ _ _ Hi)). }
  assert (o0 = o) as ->.
  { apply (order_unique n d); [apply Hi|done..|]. destruct Hs. congruence. }
  assert (o_status o = OReady) as Hr.
  { destruct Hs as (_ & _ & _ & _ & Hm). rewrite Hv in Hm. unfold order_move in Hm.
    destruct Hm as [E|[[_ [E|E]]|[E _]]]; congruence. }
  split; [done|]. intros i. by eapply ready_authorized.
Qed.

(** Final states are final. Whatever requests follow and whichever of their
    commits fail, an order that is valid or invalid and an authorization that is
    invalid or deactivated are still there with the same status and the same
    names; an authorization that is valid can only become deactivated. *)
Theorem final_states_final (acks : list nat) (n n' : nat) (d d' : db) :
  reachable acks n d -> rtc server_step (n, d) (n', d') ->
  (forall oid o, find_order d oid = Some o -> o_status o = OValid \/ o_status o = OInvalid ->
     exists o', find_order d' oid = Some o' /\ o_status o' = o_status o
                /\ identifiers o' = identifiers o)
  /\ (forall aid a, find_authz d aid = Some a -> a_status a <> APending ->
     exists a', find_authz d' aid = Some a' /\ a_identifier a' = a_identifier a
       /\ (a_status a' = a_status a \/ (a_status a = AValid /\ a_status a' = ADeactivated))).
Proof.
  intros Hre Hsteps. destruct (reachable_ok _ _ _ Hre) as [Hi _].
  destruct (server_steps_ok _ _ Hsteps Hi) as (Hi' & Hev & _); simpl in *. split.
  - intros oid o [Ho <-]%find_order_some Hst.
    destruct (ev_order_kept _ _ _ _ _ Hev Ho) as (o' & Ho' & Eid & _ & Eids & _ & Hm).
    exists o'. rewrite <- Eid. split_and!; [|unfold order_reach in Hm; intuition congruence|done].
    eapply find_order_in; [apply Hi'|done].
  - intros aid a [Ha <-]%find_authz_some Hst.
    destruct (ev_authz_kept _ _ _ _ _ Hev Ha) as (a' & Ha' & Eid & _ & _ & Ei & _ & _ & Hm).
    exists a'. rewrite <- Eid. split_and!; [|done|unfold authz_reach in Hm; intuition congruence].
    eapply find_authz_in; [apply Hi'|done].
Qed.

(** C31. The tables stay consistent. In every reachable state keys are unique, a
    ready order has only valid authorizations, a valid authorization holds a
    valid challenge and none left to answer, and an order that is processing,
    valid or invalid cannot be brought back to ready: none of its authorizations
    is pending, or one of them has failed. *)
Theorem tables_consistent (acks : list nat) (n : nat) (d : db) :
  reachable acks n d ->
  NoDup (order_id <$> orders d) /\ NoDup (authorization_id <$> authzs d)
  /\ NoDup (challenge_id <$> challs d)
  /\ (forall a, a ∈ authzs d -> a_status a = AValid ->
        List.filter live_challenge (authz_challs d (authorization_id a)) = []
        /\ exists c, c ∈ authz_challs d (authorization_id a) /\ c_status c = CValid)
  /\ (forall o, o ∈ orders d ->
        let authz_statuses := a_status <$> order_authzs d (order_id o) in
        match o_status o with
        | OPending => True
        | OReady => forall s, s ∈ authz_statuses -> s = AValid
        | OProcessing | OValid => APending ∉ authz_statuses
        | OInvalid => APending ∉ authz_statuses \/ AInvalid ∈ authz_statuses
                      \/ ADeactivated ∈ authz_statuses
        end).
Proof.
  intros Hre. destruct (reachable_ok _ _ _ Hre) as [Hi _].
  pose proof (ix_shape _ _ _ _ Hi) as [? ? ? _ _ _]. split_and!; [done..| |].
  - intros a Ha Hs. assert (authz_ok d a) as Hak by (apply Hi; [done|intros []]).
    destruct (Hak Hs) as (Hl & c & Hc & Ec & Hv). split.
    + destruct (List.filter _ _) as [|c' l] eqn:E; [done|].
      assert (c' ∈ List.filter live_challenge (authz_challs d (authorization_id a))) as Hin
        by (rewrite E; by left).
      apply elem_of_filter_list in Hin as [Hin Hlive]. apply elem_of_authz_challs in Hin as [Hin Ec'].
      rewrite Hl in Hlive; done.
    + exists c. split; [by apply elem_of_authz_challs|done].
  - intros o Ho. assert (order_ok d o) as Hok by (apply Hi; [done|intros []]). revert Hok.
    assert (forall s, s ∈ a_status <$> order_authzs d (order_id o) <->
              exists a, s = a_status a /\ a ∈ authzs d /\ a_order a = Some (order_id o)) as Hst.
    { intros s. rewrite list_elem_of_fmap. by setoid_rewrite elem_of_order_authzs. }
    unfold order_ok. simpl. destruct (o_status o); [done|..].
    1: intros Hv s (a & -> & Ha & Eo)%Hst; by apply Hv.
    1,2: intros Hn (a & Es & Ha & Eo)%Hst; by apply (Hn a Ha Eo).
    intros [Hn|(a & Ha & Eo & [Hf|Hf])].
    + left. intros (a & Es & Ha & Eo)%Hst. by apply (Hn a Ha Eo).
    + right. left. apply Hst. by exists a.
    + right. right. apply Hst. by exists a.
Qed.
End Traces.
