(* ===== verification/AcmeIssuance.v ===== *)
(** * AcmeIssuance: what an issued certificate rests on

    The history of an ACME server, with the tables each request found, and why an
    authorization of it is valid: the name was registered for automatic approval when the
    order was made, or an earlier response to one of its challenges showed the proof the
    challenge asks for, to the account that ordered. Copies of a valid authorization rest
    on what the authorization they are copied from rests on. *)

From Stdlib Require Import Ascii String.
From stdpp Require Import prelude strings.
From S2P Require Import Prelude Scalars DomainMatch AcmeModel AcmeOrders DnsPersist AcmeChallenges AcmeIdentifiers AcmeApi AcmeEvidence AcmeLogic AcmeProtocol.

(** ** Code that keeps every valid authorization grounded *)

Section Grounds.
(* why an authorization for this account, name and wildcard flag may be valid *)
Variable J : option string -> identifier -> bool -> Prop.

Definition holds_for (a : AcmeAuthorization) : Prop := J (a_account a) (a_identifier a) (a_wildcard a).
Definition grounded (d : db) : Prop := forall a, a ∈ authzs d -> a_status a = AValid -> holds_for a.
Definition G (_ : nat) (d : db) : Prop := grounded d.
Definition sound {A} (m : M A) : Prop := triple G G m (fun _ => G).

Lemma sound_ret {A} (a : A) : sound (mret a).
Proof. by apply triple_ret. Qed.
Lemma sound_bind {A B} (m : M A) (k : A -> M B) : sound m -> (forall a, sound (k a)) -> sound (m ≫= k).
Proof. intros Hm Hk. by eapply triple_bind. Qed.
Lemma sound_gets {A} (f : db -> A) : sound (gets f).
Proof. apply triple_look. Qed.
Lemma sound_modify f : (forall d, grounded d -> grounded (f d)) -> sound (modify f).
Proof. intros Hf. apply triple_modify. intros n d. apply Hf. Qed.
Lemma sound_commit : sound commit.
Proof. by apply triple_commit. Qed.
Lemma sound_rollback : sound rollback.
Proof. apply triple_rollback. Qed.
Lemma sound_raise {A} e : sound (raise (A := A) e).
Proof. by apply triple_raise. Qed.
Lemma sound_try {A} (m : M A) h : sound m -> (forall e, sound (h e)) -> sound (try_except m h).
Proof. intros Hm Hh. by apply triple_try. Qed.
Lemma sound_draw : sound draw.
Proof. by apply triple_draw. Qed.
Lemma sound_mapM {A} (f : A -> M unit) l : (forall x, sound (f x)) -> sound (mapM_ f l).
Proof. intros Hf. apply (triple_mapM G f (fun _ => G)). intros x _ _ _. apply Hf. Qed.

(* writes that leave the authorizations alone, or take their validity away *)
Lemma grounded_same d d' : authzs d' = authzs d -> grounded d -> grounded d'.
Proof. unfold grounded. by intros ->. Qed.
Lemma grounded_lower i s d : s <> AValid -> grounded d -> grounded (update_authz i (set_a_status s) d).
Proof.
  intros Hs Hg a (b & Hb & ->)%elem_of_update_where. destruct (is_authz i b); [by intros ?|by apply Hg].
Qed.
Lemma fail_order_authzs oo p d : authzs (fail_order oo p d) = authzs d.
Proof. unfold fail_order, _set_order_authorization_error. by repeat case_match. Qed.
Lemma grounded_fail oo p d : grounded d -> grounded (fail_order oo p d).
Proof. apply grounded_same, fail_order_authzs. Qed.
Lemma grounded_expire a b d : grounded d -> grounded (_expire_authorization a b d).
Proof.
  intros Hg. unfold _expire_authorization. assert (grounded (with_challs (update_where
    (fun c => Nat.eqb (c_authz c) (authorization_id a) && live_challenge c) (set_c_invalid (_problem_data "malformed" EXPIRED_AUTHORIZATION_DETAIL)))
    (update_authz (authorization_id a) (set_a_status AInvalid) d))) as H1 by (by apply (grounded_lower (authorization_id a) AInvalid d)).
  destruct b; [by apply grounded_fail|done].
Qed.
Lemma grounded_deactivate row d : grounded d -> grounded (deactivate_row row d).
Proof.
  intros Hg. unfold deactivate_row. assert (grounded (update_authz (authorization_id row) (set_a_status ADeactivated) d)) as H1
    by (by apply grounded_lower). by repeat case_match.
Qed.

Create HintDb ground.
#[local] Hint Resolve sound_ret sound_bind sound_gets sound_modify sound_commit sound_rollback sound_raise sound_try sound_draw
  sound_mapM grounded_expire grounded_deactivate grounded_fail : ground.
#[local] Hint Extern 5 (grounded (update_authz _ (set_a_status AInvalid) _)) => (apply grounded_lower; [discriminate|eassumption]) : ground.
#[local] Hint Extern 5 (grounded (update_order _ _ _)) => (eapply grounded_same; [reflexivity|eassumption]) : ground.
#[local] Hint Extern 5 (grounded (update_chall _ _ _)) => (eapply grounded_same; [reflexivity|eassumption]) : ground.
#[local] Hint Extern 5 (grounded (with_orders _ _)) => (eapply grounded_same; [reflexivity|eassumption]) : ground.
#[local] Hint Extern 5 (grounded (with_challs _ _)) => (eapply grounded_same; [reflexivity|eassumption]) : ground.
#[local] Hint Extern 5 (grounded (_set_order_authorization_error _ _ _)) => (eapply grounded_same; [reflexivity|eassumption]) : ground.

(* step through a computation, every branch *)
Ltac walk := repeat first
  [ progress auto with ground
  | match goal with
    | |- forall _, _ => intro
    | |- sound (mbind _ _) => apply sound_bind
    | |- sound (let '(_, _) := ?x in _) => destruct x
    | |- sound (match ?x with _ => _ end) => destruct x
    | |- sound (mapM_ _ _) => apply sound_mapM
    | |- sound (modify _) => apply sound_modify
    | |- sound (try_except _ _) => apply sound_try
    end ].

Lemma expire_order_sound now oid : sound (expire_order_if_needed now oid).
Proof. unfold expire_order_if_needed. walk. Qed.
Lemma expire_authorization_sound now aid : sound (expire_authorization_if_needed now aid).
Proof. unfold expire_authorization_if_needed. walk. Qed.
Lemma deactivate_sound aid : sound (deactivate_authorization aid).
Proof. unfold deactivate_authorization. walk. Qed.
Lemma begin_sound oid : sound (begin_order_processing oid).
Proof. unfold begin_order_processing. walk. Qed.
Lemma restore_sound oid : sound (restore_processing_order oid).
Proof. unfold restore_processing_order. walk. Qed.
Lemma invalidate_sound oid et dt : sound (invalidate_processing_order oid et dt).
Proof. unfold invalidate_processing_order. walk. Qed.
Lemma finalize_order_sound oid env : sound (finalize_order oid env).
Proof. unfold finalize_order. walk. Qed.
#[local] Hint Resolve expire_order_sound expire_authorization_sound deactivate_sound begin_sound restore_sound invalidate_sound
  finalize_order_sound : ground.
Lemma finalize_sound account oid env : sound (finalize account oid env).
Proof. unfold finalize. walk. Qed.
Lemma authorization_info_sound now account aid deactivate : sound (authorization_info now account aid deactivate).
Proof. unfold authorization_info. walk. Qed.
Lemma mark_invalid_sound c et dt : sound (mark_invalid c et dt).
Proof. unfold mark_invalid, _invalidate_challenge, require_row. walk. Qed.
#[local] Hint Resolve finalize_sound authorization_info_sound mark_invalid_sound : ground.

(** ** Making authorizations valid *)

Lemma add_authorization_sound oo acct i st wc e : (st = AValid -> J acct i wc) -> sound (add_authorization oo acct i st wc e).
Proof.
  intros Hj. unfold add_authorization. apply sound_bind; [apply sound_draw|]. intros aid. apply sound_bind; [|intros ?; apply sound_ret].
  apply sound_modify. intros d Hg a [Ha| ->%list_elem_of_singleton]%elem_of_app; [by apply Hg|]. exact Hj.
Qed.

Section Creating.
Context `{Randomness} (cfg : config) (now : Z).

Lemma new_challenge_sound aid ty st v : sound (new_challenge cfg aid ty st v).
Proof. unfold new_challenge, add_challenge. walk. Qed.
#[local] Hint Resolve new_challenge_sound : ground.
Lemma create_challenges_sound a st v : sound (_create_challenges cfg a st v).
Proof. unfold _create_challenges. walk. Qed.
Lemma copy_challenges_sound aid src : sound (_copy_validated_challenges cfg aid src).
Proof. unfold _copy_validated_challenges, add_challenge. walk. Qed.
#[local] Hint Resolve create_challenges_sound copy_challenges_sound : ground.

(* the authorization reused is one for the same account, name and flag *)
Lemma find_reusable_same account i wc d src : find_reusable now account i wc d = Some src ->
  src ∈ authzs d /\ a_status src = AValid /\ a_account src = account /\ a_identifier src = i /\ a_wildcard src = wc.
Proof.
  unfold find_reusable. intros Hf. destruct account as [[|ch acct]|]; [done| |done].
  apply latest_expiry_elem in Hf as [[Hin Hr]%elem_of_filter_list|?]; [|done]. unfold reusable in Hr.
  apply andb_true_iff in Hr as [[[[H1 H2]%andb_true_iff H3]%andb_true_iff H4]%andb_true_iff _].
  apply bool_decide_eq_true in H1, H2, H4. apply Bool.eqb_prop in H3. by split_and!.
Qed.

Variable acct : string.
Hypothesis Hauto : forall i, id_type i = "dns"%string -> _is_domain_auto_approved cfg (id_value i) = true ->
  let '(ai, wc) := _normalize_authorization_identifier i in J (Some acct) ai wc.

Lemma create_authorization_sound oid i : sound (_create_authorization cfg now oid i (Some acct)).
Proof.
  unfold _create_authorization. specialize (Hauto i). destruct (_normalize_authorization_identifier i) as [ai wc]. unfold sound. tgets src.
  destruct src as [src|].
  - eapply triple_pre with (Q' := fun n d => J (Some acct) ai wc /\ G n d).
    2: { intros n d [E Hg]. split; [|done]. apply eq_sym, find_reusable_same in E as (Hin & Hs & <- & <- & <-). by apply Hg. }
    apply triple_pure. intros Hj. apply (sound_bind (add_authorization _ _ _ _ _ _)); [by apply add_authorization_sound|walk].
  - eapply triple_pre with (Q' := G); [|by intros n d []]. destruct (_ && _) eqn:E.
    + apply andb_prop in E as [E1%String.eqb_eq E2].
      apply (sound_bind (add_authorization _ _ _ _ _ _)); [by apply add_authorization_sound; auto|walk].
    + apply (sound_bind (add_authorization _ _ _ _ _ _)); [by apply add_authorization_sound|walk].
Qed.

Lemma create_order_sound ids nb na rep prof : sound (create_order cfg now acct ids nb na rep prof).
Proof.
  unfold create_order. apply sound_bind; [apply sound_draw|]. intros oid. pose proof (create_authorization_sound oid). walk.
Qed.

Lemma create_pre_authorization_sound i : sound (create_pre_authorization cfg now acct i).
Proof.
  unfold create_pre_authorization. specialize (Hauto i). destruct (_normalize_authorization_identifier i) as [ai wc].
  apply sound_bind; [apply sound_gets|]. intros [a|]; [apply sound_ret|].
  apply sound_bind; [|walk]. apply add_authorization_sound. destruct (_ && _) eqn:E; [|done]. intros _.
  apply andb_prop in E as [[E1%String.eqb_eq _]%andb_prop E2]. auto.
Qed.
End Creating.

(* the challenge [c] of an authorization that may become valid *)
Definition may_turn (c : AcmeChallenge) (d : db) : Prop :=
  forall a, a ∈ authzs d -> authorization_id a = c_authz c -> holds_for a.

Lemma mark_valid_sound now c : triple G (fun n d => G n d /\ may_turn c d) (mark_valid now c) (fun _ => G).
Proof.
  unfold mark_valid, require_row. eapply triple_bind with (S := fun _ n d => G n d /\ may_turn c d).
  { tgets r. destruct r; [apply triple_ret; naive_solver|].
    eapply triple_bind; [apply triple_rollback|intros ?; by apply triple_raise]. }
  intros []. eapply triple_bind with (S := fun _ n d => G n d /\ may_turn c d); [by apply triple_modify|]. intros [].
  eapply triple_bind with (S := fun _ => G);
    [|intros []; apply (sound_bind commit); [apply sound_commit|intros ?; apply sound_ret]].
  unfold _update_authorization_status. tgets r. destruct r as [a|]; [|apply triple_ret; naive_solver].
  case_bool_decide; [apply triple_ret; naive_solver|]. tgets vs. destruct vs as [|v vs]; [apply triple_ret; naive_solver|].
  eapply triple_bind with (S := fun _ => G); [|intros []; match goal with |- triple _ _ ?m _ => change (sound m) end; walk].
  apply triple_modify. intros n d (_ & _ & Hg & Hm) b (b0 & Hb & ->)%elem_of_update_where.
  destruct (is_authz (c_authz c) b0) eqn:E; [|by apply Hg]. intros _. apply Nat.eqb_eq in E. exact (Hm b0 Hb E).
Qed.

Lemma judging_sound now c shown m (Q : nat -> db -> Prop) : judging now c shown m ->
  (forall n d, Q n d -> G n d) -> (shown -> forall n d, Q n d -> may_turn c d) -> triple G Q m (fun _ => G).
Proof.
  intros Hj HQ Hm. induction Hj as [Hs|et dt|e|body et _ IH].
  - eapply triple_pre; [apply mark_valid_sound|]. intros n d Hq. split; [by apply HQ|by eapply Hm].
  - eapply triple_pre; [apply mark_invalid_sound|done].
  - by apply triple_raise.
  - apply triple_try; [exact IH|intros e; apply mark_invalid_sound].
Qed.

(** ** A request *)

Variables (n0 : nat) (d0 : db).
Hypothesis Hshape : Shape n0 d0.
Context `{Randomness, KeyDigest} (cfg : config) (now : Z).

(* what the response to a challenge may rely on *)
Definition answered (account : string) (cid : nat) (net : network) (c : AcmeChallenge) (a : AcmeAuthorization) : Prop :=
  find_chall d0 cid = Some c /\ find_authz d0 (c_authz c) = Some a /\ proof_shown net c (Some a)
  /\ forall x, a_account a = Some x -> x <> ""%string -> account = x.

Definition G0 (_ : nat) (d : db) : Prop := d = d0 /\ grounded d.

Lemma respond_sound account cid net : (forall c a, answered account cid net c a -> holds_for a) ->
  triple G G0 (respond_to_challenge now account cid net) (fun _ => G).
Proof.
  intros Hj. unfold respond_to_challenge. tgets found.
  eapply triple_pre with (Q' := fun n d => found = (c ← find_chall d0 cid; let a := find_authz d0 (c_authz c) in
    Some (c, a, a ≫= challenge_owner d0)) /\ G0 n d); [|by intros n d [-> [-> Hg]]].
  apply triple_pure. intros ->. destruct (find_chall d0 cid) as [c|] eqn:Ec; cbn [mbind option_bind]; [|apply triple_ret; by intros ? ? []].
  assert (forall (b : bool) (r : reply) m, (b = false -> triple G G0 m (fun _ => G)) -> triple G G0 (if b then mret r else m) (fun _ => G)) as Hif.
  { intros [] r m Hm; [apply triple_ret; by intros ? ? []|auto]. }
  apply Hif. intros Howner. apply Hif. intros _.
  assert (forall a, find_authz d0 (c_authz c) = Some a -> (forall x, a_account a = Some x -> x <> ""%string -> account = x)) as Hown.
  { intros a Ea x Ex Hx. rewrite Ea in Howner. cbn in Howner. unfold challenge_owner, authz_account, truthy_account in Howner. rewrite Ex in Howner.
    destruct x as [|ch x]; [done|]. apply negb_false_iff, String.eqb_eq in Howner. by symmetry. }
  assert (forall oa, oa = find_authz d0 (c_authz c) -> triple G G0 (validate_challenge now c oa net ;;
    gets (fun d => ChallengeReply (default c (find_chall d cid)))) (fun _ => G)) as Hval.
  { intros oa ->. eapply triple_bind; [|intros ?; apply sound_gets]. eapply judging_sound; [apply validate_judging|by intros n d []|].
    intros Hs n d [-> _] a Ha Eid. destruct (find_authz d0 (c_authz c)) as [a'|] eqn:Ea.
    - destruct (find_authz_some _ _ _ Ea) as [Ha' Eid']. assert (a' = a) as -> by (eapply (authz_unique n0); [done..|congruence]).
      apply (Hj c a). split_and!; [done|done|done|by apply Hown].
    - by destruct (find_authz_none _ _ _ Ea Ha). }
  destruct (find_authz d0 (c_authz c)) as [a|] eqn:Ea; [apply Hif; intros _|]; by apply Hval.
Qed.

(* who sends a request *)
Definition requester (r : request) : string :=
  match r with
  | NewOrder account _ _ | NewAuthz account _ _ | ListOrders account | OrderInfo account _ | Finalize account _ _
  | AuthzInfo account _ _ | Respond account _ _ => account
  end.

Definition creates (r : request) : Prop :=
  match r with NewOrder _ _ _ | NewAuthz _ _ _ => True | _ => False end.

Lemma handle_sound r :
  (creates r -> forall i, id_type i = "dns"%string -> _is_domain_auto_approved cfg (id_value i) = true ->
     let '(ai, wc) := _normalize_authorization_identifier i in J (Some (requester r)) ai wc) ->
  (forall account cid net c a, r = Respond account cid net -> answered account cid net c a -> holds_for a) ->
  triple G G0 (handle cfg now r) (fun _ => G).
Proof.
  intros Hauto Hresp. assert (forall A (m : M A), sound m -> triple G G0 m (fun _ => G)) as Hany.
  { intros A m Hm. eapply triple_pre; [exact Hm|by intros n d []]. }
  destruct r as [acct env p|acct env raw|acct|acct oid|acct oid env|acct aid de|acct cid net]; cbn [handle requester] in *.
  - apply Hany. pose proof (fun ids nb na rep prof => create_order_sound cfg now acct (Hauto I) ids nb na rep prof). unfold new_order. walk.
  - apply Hany. pose proof (fun i => create_pre_authorization_sound cfg now acct (Hauto I) i). unfold new_authz. walk.
  - apply Hany, sound_gets.
  - apply Hany. unfold order_info. walk.
  - apply Hany, finalize_sound.
  - apply Hany, authorization_info_sound.
  - apply respond_sound. intros c a. by apply Hresp.
Qed.
End Grounds.

(** ** The history of the server *)

Section Histories.
Context `{Randomness, KeyDigest}.

(* a request, with the configuration and the tables it found *)
Record served := { s_cfg : config; s_request : request; s_tables : db }.

(* the requests served from an empty server on, whichever commits fail, the latest first, with the orders acknowledged *)
Inductive history : list served -> list nat -> nat -> db -> Prop :=
| history_start : history [] [] 0 empty_db
| history_step h acks n d cfg now r outcomes rep d' n' :
    history h acks n d -> exec cfg now r outcomes d n = (rep, d', n') ->
    history ({| s_cfg := cfg; s_request := r; s_tables := d |} :: h) (acknowledged r rep ++ acks) n' d'.

(** ** Why a name may be certified *)

(* a registered spelling covers the name: it names it or a zone above it, plain or with a wildcard label *)
Definition covers (entry name : string) : Prop :=
  let bare := normalize (Some name) in
  bare <> ""%string /\ exists zone, (zone = bare \/ exists labels, bare = (labels ++ "." ++ zone)%string)
                                    /\ (entry = zone \/ entry = ("*." ++ zone)%string).

(* one of the two registries approves the name by itself: of the entries that cover it, one
   that names the longest zone says so *)
Definition preapproved (cfg : config) (name : string) : Prop :=
  exists registry row entry, (registry = local_domains cfg \/ registry = acme_domains cfg)
    /\ row ∈ registry /\ row_domain row = Some entry /\ covers entry name /\ auto_approve row = true
    /\ forall row' entry', row' ∈ registry -> row_domain row' = Some entry' -> covers entry' name ->
         (zone_len entry' <= zone_len entry)%nat.

(* the name an authorization holds for an identifier, and whether it stands for a wildcard *)
Definition bare_form (i ai : identifier) (wildcard : bool) : Prop :=
  id_type ai = id_type i
  /\ if wildcard then id_type i = "dns"%string /\ id_value i = ("*." ++ id_value ai)%string
     else id_value ai = id_value i /\ (id_type i = "dns"%string -> forall rest, id_value i <> ("*." ++ rest)%string).

(* an order or a pre-authorization of the account met a configuration that approves the name *)
Definition approved_in (h : list served) (account : string) (i : identifier) : Prop :=
  id_type i = "dns"%string
  /\ exists e, e ∈ h /\ creates (s_request e) /\ requester (s_request e) = account /\ preapproved (s_cfg e) (id_value i).

(* the account answered a challenge of an authorization of its own for this name, and the proof was shown *)
Definition validated_in (h : list served) (account : string) (i : identifier) : Prop :=
  exists e who cid net c a, e ∈ h /\ s_request e = Respond who cid net
    /\ find_chall (s_tables e) cid = Some c /\ find_authz (s_tables e) (c_authz c) = Some a
    /\ a_account a = Some account /\ (account <> ""%string -> who = account)
    /\ bare_form i (a_identifier a) (a_wildcard a) /\ proof_shown net c (Some a).

Definition proven (h : list served) (account : string) (i : identifier) : Prop :=
  approved_in h account i \/ validated_in h account i.

(** ** Grounds along the history *)

Lemma normalize_bare i : let '(ai, wc) := _normalize_authorization_identifier i in bare_form i ai wc.
Proof.
  unfold _normalize_authorization_identifier, bare_form. cbn [id_type id_value]. destruct (String.eqb_spec (id_type i) "dns") as [Ed|Ed]; cbn [andb].
  2: { by split_and!. }
  destruct (startswith (id_value i) "*.") eqn:Es.
  - apply startswith_spec in Es as [t Et].
    assert (sdrop 2 ("*." ++ t) = t) as Hd by (unfold sdrop; rewrite chars_app; apply unchars_chars). by rewrite Et, Hd.
  - split; [done|]. split; [done|]. intros _ rest E. apply not_true_iff_false in Es. apply Es, startswith_spec. by exists rest.
Qed.

Lemma bare_form_inj i j ai wc : bare_form i ai wc -> bare_form j ai wc -> i = j.
Proof.
  destruct i, j. unfold bare_form. cbn. destruct wc; intros [E1 H1] [E2 H2]; f_equal; try congruence; naive_solver congruence.
Qed.

Lemma auto_approved_spec cfg name : _is_domain_auto_approved cfg name = true -> preapproved cfg name.
Proof.
  unfold _is_domain_auto_approved. destruct (nonempty name); [|done]. intros (registry & Hr & Hf)%existsb_exists.
  pose proof (find_most_specific registry (Some name)) as Hs. destruct (find registry (Some name)) as [row|]; [|done].
  destruct Hs as (Hin & entry & Ee & Hc & Hmax). exists registry, row, entry. apply candidates_cover in Hc.
  split_and!; [cbn in Hr; naive_solver|done..|]. intros row' entry' Hr' Ee' Hc'. eapply Hmax; [done..|]. by apply candidates_cover.
Qed.

(* what an authorization rests on *)
Definition rests (h : list served) (acct : option string) (ai : identifier) (wc : bool) : Prop :=
  forall account i, acct = Some account -> bare_form i ai wc -> proven h account i.
Lemma rests_more h e acct ai wc : rests h acct ai wc -> rests (e :: h) acct ai wc.
Proof.
  intros Hr account i Ha Hb. destruct (Hr account i Ha Hb) as [[Hd (x & Hx & ?)]|(x & who & cid & net & c & a & Hx & ?)].
  - left. split; [done|]. exists x. split; [by right|done].
  - right. exists x, who, cid, net, c, a. split; [by right|done].
Qed.

Lemma history_grounded h acks n d : history h acks n d -> reachable acks n d /\ grounded (rests h) d.
Proof.
  induction 1 as [|h acks n d cfg now r outcomes rep d' n' _ [Hre IH] Hex]; [split; [constructor|by intros a ?%elem_of_nil]|].
  split; [by econstructor|]. set (e := {| s_cfg := cfg; s_request := r; s_tables := d |}).
  destruct (reachable_ok _ _ _ Hre) as [Hi _]. unfold exec in Hex.
  pose proof (handle_sound (rests (e :: h)) n d (ix_shape _ _ _ _ Hi) cfg now r) as Hs.
  assert (grounded (rests (e :: h)) d) as Hg by (intros a Ha Hv; by apply rests_more, IH).
  assert (triple (G (rests (e :: h))) (G0 (rests (e :: h)) d) (handle cfg now r) (fun _ => G (rests (e :: h)))) as Ht.
  { apply Hs.
    - intros Hc i Ed Ha. pose proof (normalize_bare i) as Hb. destruct (_normalize_authorization_identifier i) as [ai wc].
      intros account j [= <-] Hj. rewrite (bare_form_inj j i ai wc Hj Hb). left. split; [done|]. exists e.
      split_and!; [by left|done|done|by apply auto_approved_spec].
    - intros account cid net c a -> (Hc & Ha & Hp & Ho) x i Ex Hb. right. exists e, account, cid, net, c, a.
      split_and!; try done; [by left|]. intros Hx. by apply Ho. }
  specialize (Ht {| committed := d; session := d; commits := outcomes; draws := n |} Hg (conj eq_refl Hg)).
  destruct (handle _ _ _ _) as [[x|x] w]; injection Hex as _ <- _; by destruct Ht as (_ & Ht & _).
Qed.

(** * Properties *)

(** C1. A certificate is issued only for names that were proved. Take any sequence of
    requests from an empty server, each with any of its commits failing, and an order whose
    creation was acknowledged to the client. When a further request turns this order valid,
    the order was ready, and for each of its identifiers: an authorization of this order,
    for that very name and its wildcard flag and for the account of the order, is valid and
    holds a valid challenge; and either the name was registered for automatic approval, by
    the most specific entry that covers it, when that account made an order or a
    pre-authorization, or
    an earlier response of that account to a challenge of an authorization it held for that
    name and flag had shown the proof the challenge asks for (the key authorization at the
    well-known URL of the name, its digest in the TXT record or in the acmeIdentifier
    extension under the SNI of the name, or an accepted persistent record). *)
Theorem issued_only_when_proven (h : list served) (acks : list nat) (n : nat) (d : db) cfg now r outcomes rep d' n'
    (oid : nat) (o o' : AcmeOrder) :
  history h acks n d -> oid ∈ acks ->
  exec cfg now r outcomes d n = (rep, d', n') ->
  find_order d oid = Some o -> o_status o <> OValid ->
  find_order d' oid = Some o' -> o_status o' = OValid ->
  o_status o = OReady
  /\ forall i, i ∈ identifiers o -> proven h (o_account o) i /\ exists a, authorized_by d o i a.
Proof.
  intros Hh Hack Hex Hf Hnv Hf' Hv. destruct (history_grounded _ _ _ _ Hh) as [Hre Hg].
  destruct (issued_when_ready acks n d cfg now r outcomes rep d' n' oid o o') as [Hr Ha]; [done..|]. split; [done|].
  intros i Hi. destruct (Ha i Hi) as [a Hby]. split; [|by exists a]. destruct Hby as (c & Hin & _ & [En Eac] & Hs & _).
  eapply (Hg a Hin Hs); [exact Eac|]. pose proof (normalize_bare i) as Hb. by rewrite <- En in Hb.
Qed.
End Histories.
