(* ===== verification/AcmeTraces.v ===== *)
(** * AcmeTraces: what a validation proves, and concrete runs of the server

    Soundness of the four validation methods and of the finalize hand-over, the
    concrete runs on which the theorems of [AcmeProtocol] apply, and the runs that
    fall outside of them: an order left half-created by a failed commit, requests
    that overlap, and error texts read as CAA refusals. *)

From Stdlib Require Import Ascii String.
From stdpp Require Import prelude strings.
From S2P Require Import Prelude Scalars DomainMatch AcmeModel AcmeOrders DnsPersist AcmeChallenges AcmeIdentifiers AcmeApi AcmeEvidence AcmeLogic AcmeProtocol AcmeIssuance.

Local Open Scope Z_scope.

(** * Properties *)

(** C30. A validation that answers True saw the proof the method asks for, of the name of
    the authorization and under the key of the account. HTTP-01: the target passed the
    address guards, and a GET of http://name/.well-known/acme-challenge/token, pinned to
    the addresses that were vetted and followed through redirects that are vetted and
    pinned in turn, ended in a response that is no error and whose text is the key
    authorization of this challenge and this account. DNS-01: a TXT record at the
    _acme-challenge name carries its digest. TLS-ALPN-01: one of the vetted addresses,
    asked for the name itself (the reverse name of an address) as SNI, negotiated
    acme-tls/1 and presented a critical acmeIdentifier extension with the digest.
    DNS-PERSIST-01: a record at the name, or at an ancestor, of one of our issuers was
    accepted, as an exact match only at the name itself. *)
Theorem validation_sound `{KeyDigest} (now : Z) (c : AcmeChallenge)
    (a : option AcmeAuthorization) (net : network) (w w' : world) :
  validate_challenge now c a net w = (Ok true, w') -> proof_shown net c a.
Proof. apply judging_true with (now := now) (c := c), validate_judging. Qed.

(** Only one finalize takes an order: once a request has turned the order to
    processing, any other request that tries on the committed tables is refused,
    and it changes nothing. *)
Theorem order_claimed_once (oid : nat) (w w1 w2 : world) :
  begin_order_processing oid w = (Ok true, w1) ->
  session w2 = committed w1 -> committed w2 = committed w1 ->
  exists w3, begin_order_processing oid w2 = (Ok false, w3)
             /\ committed w3 = committed w1 /\ session w3 = committed w1.
Proof.
  intros Hb Hs Hc.
  assert (List.filter (claimable oid) (orders (committed w1)) = []) as Hnone.
  { unfold begin_order_processing, mbind, M_bind, gets, modify, commit in Hb. simpl in Hb.
    destruct (Nat.eqb _ _); [|discriminate]. simpl in Hb.
    assert (committed w1 = with_orders (update_where (claimable oid) (set_o_status OProcessing)) (session w)) as ->.
    { destruct (commits w) as [|[] l]; inversion Hb; done. }
    simpl. generalize (orders (session w)) as os. induction os as [|o os IH]; [done|].
    simpl. destruct (claimable oid o) eqn:E; [|rewrite E; exact IH].
    unfold claimable at 1. simpl. rewrite andb_false_r. exact IH. }
  eexists. unfold begin_order_processing, mbind, M_bind, gets, modify. simpl.
  rewrite Hs, Hnone. simpl. split_and!; [reflexivity|by rewrite <- Hc..].
Qed.

(** * Concrete runs *)

#[local] Instance demo_random : Randomness := {| token_urlsafe n := py_str (Z.of_nat n) |}.
(* a digest that can be followed by eye: the key authorization itself *)
#[local] Instance demo_digest : KeyDigest :=
  {| txt_digest s := s; raw_digest s := (fun c => Z.of_N (code c)) <$> chars s |}.

Definition demo_cfg : config :=
  {| local_domains := [{| row_domain := Some "lab.lan"%string; auto_approve := true;
                          is_wildcard_allowed := None; issuing_ca_id := None |}];
     acme_domains := []; dns_persist_enabled := false; base_url := "https://ca" |}.

Definition demo_env : new_order_env :=
  {| ne_ip := fun _ => Raise "not an address"%string; ne_eab := None;
     ne_certid := fun _ => CertidMalformed; ne_profile_known := fun _ => false;
     ne_default_profile := None |}.

Definition dns (v : string) : option raw_identifier :=
  Some {| raw_type := VStr "dns"; raw_value := VStr v |}.

Definition demo_order (names : list string) : request :=
  NewOrder "alice" demo_env
    {| np_identifiers := Some (dns <$> names); np_replaces := None; np_profile := None;
       np_dates := Some (None, None) |}.

Definition demo_finalize (oid : nat) (names : list string) (s : signing) : request :=
  Finalize "alice" oid
    {| fe_csr := {| common_names := []; email_addresses := []; san := San (DNSName <$> names) |};
       fe_csr_pem := "csr"; fe_csr_error := None; fe_profile_known := fun _ => true;
       fe_template_refusal := None; fe_caa := fun _ => None; fe_sign := s |}.

(* a host web.corp that serves [text] at its challenge URLs, and nothing else *)
Definition demo_reach (text : string) : internet :=
  {| allow_private := true; validate_url_not_cloud_metadata := fun _ _ => Ok tt;
     validate_host_not_private := fun _ => Ok ["192.0.2.1"]%string;
     validated_addresses := fun _ _ => Ok ["192.0.2.1"]%string; ip_version := fun _ => None; reverse_pointer := fun _ => None;
     urljoin := fun _ l => l; urlparse := fun _ => {| u_scheme := ""; u_hostname := None; u_port := Ok None |};
     requests_get := fun url pin =>
       if startswith url "http://web.corp/.well-known/acme-challenge/"
       then Ok {| status_code := 200; status_reason := "OK"; response_url := url; location := None; response_text := text |}
       else Raise "no route"%string;
     create_connection := fun _ => ConnectFailed "refused"; handshake := fun _ _ => Raise "refused"%string |}.
Definition demo_net (text : string) : network :=
  {| net_thumbprint := "thumb"; net_account_uri := "https://ca/acme/acct/alice"; net_reach := demo_reach text;
     net_txt := fun _ => Raise "no such name"%string;
     net_issuers := []; net_now_ts := 0; net_persist := fun _ => None |}.

Definition state : Type := nat * db.

(* run a request from a state, with the outcomes of its commits *)
Definition go (now : Z) (r : request) (outcomes : list bool) (s : state) : state :=
  let '(_, d, n) := exec demo_cfg now r outcomes s.2 s.1 in (n, d).
Definition reply_of (now : Z) (r : request) (s : state) : reply :=
  (exec demo_cfg now r [] s.2 s.1).1.1.

Definition status_of (s : state) (oid : nat) : option order_status := o_status <$> find_order s.2 oid.

(** ** The normal course *)

Definition lab : list string := ["db.lab.lan"; "*.lab.lan"]%string.
Definition lab_1 : state := Eval vm_compute in go 0 (demo_order lab) [] (0%nat, empty_db).
Definition lab_2 : state := Eval vm_compute in go 0 (demo_finalize 0 lab (Signed 7)) [] lab_1.
Definition lab_order : AcmeOrder := Eval vm_compute in
  match orders lab_1.2 with [o] => o | _ => set_o_status OInvalid {| order_id := 0; o_account := "";
    o_status := OInvalid; identifiers := []; o_not_before := None; o_not_after := None;
    o_replaces := None; o_profile := None; o_error := None; o_csr := None;
    o_certificate_id := None; o_expires := 0 |} end.
Definition lab_issued : AcmeOrder := Eval vm_compute in set_o_issued "csr" 7 lab_order.

Lemma lab_reachable : reachable [0%nat] lab_1.1 lab_1.2.
Proof.
  eapply (reachable_step [] 0 empty_db demo_cfg 0 (demo_order lab) [] (reply_of 0 (demo_order lab) (0%nat, empty_db)));
    [apply reachable_start|vm_compute; reflexivity].
Qed.

Lemma final_states_final_witness :
  exists o', find_order lab_2.2 0 = Some o' /\ o_status o' = OValid.
Proof.
  destruct (final_states_final [0%nat] lab_2.1 lab_2.1 lab_2.2 lab_2.2) as [H _].
  - exact (reachable_step [0%nat] lab_1.1 lab_1.2 demo_cfg 0 (demo_finalize 0 lab (Signed 7)) []
      (reply_of 0 (demo_finalize 0 lab (Signed 7)) lab_1) lab_2.2 lab_2.1 lab_reachable
      ltac:(vm_compute; reflexivity)).
  - apply rtc_refl.
  - destruct (H 0%nat lab_issued) as (o' & ? & E & _); [vm_compute; reflexivity|by left|].
    exists o'. split; [done|]. rewrite E. reflexivity.
Defined.

Lemma tables_consistent_witness : NoDup (order_id <$> orders lab_1.2).
Proof. apply (tables_consistent [0%nat] lab_1.1 lab_1.2 lab_reachable). Defined.

(* a name to prove: the client answers the http-01 challenge *)
Definition web_1 : state := Eval vm_compute in go 0 (demo_order ["web.corp"]) [] (0%nat, empty_db).
Definition chall_of (s : state) (t : chall_type) : AcmeChallenge :=
  default {| challenge_id := 0; c_authz := 0; c_type := t; c_status := CInvalid; c_token := "";
             c_url := ""; c_validated := None; c_error := None |}
    (List.find (fun c => bool_decide (c_type c = t)) (challs s.2)).
Definition key_of (s : state) (t : chall_type) : string :=
  (c_token (chall_of s t) ++ ".thumb")%string.
Definition world_of (s : state) (outcomes : list bool) : world :=
  {| committed := s.2; session := s.2; commits := outcomes; draws := s.1 |}.

Lemma validation_sound_witness :
  http_proof (demo_reach (key_of web_1 http_01)) {| id_type := "dns"; id_value := "web.corp" |}
    (c_token (chall_of web_1 http_01)) (key_of web_1 http_01).
Proof.
  set (c := chall_of web_1 http_01). set (net := demo_net (key_of web_1 http_01)).
  exact (validation_sound 0 c (find_authz web_1.2 (c_authz c)) net (world_of web_1 [])
    (validate_challenge 0 c (find_authz web_1.2 (c_authz c)) net (world_of web_1 [])).2 ltac:(vm_compute; reflexivity)).
Defined.

(* the answer is accepted, and the order is finalized *)
Definition web_answer : request := Respond "alice" (challenge_id (chall_of web_1 http_01)) (demo_net (key_of web_1 http_01)).
Definition web_2 : state := Eval vm_compute in go 0 web_answer [] web_1.
Definition web_3 : state := Eval vm_compute in go 0 (demo_finalize 0 ["web.corp"] (Signed 7)) [] web_2.
Definition web_past : list served :=
  [{| s_cfg := demo_cfg; s_request := web_answer; s_tables := web_1.2 |};
   {| s_cfg := demo_cfg; s_request := demo_order ["web.corp"]; s_tables := empty_db |}].
Definition web_order (s : state) : AcmeOrder := match orders s.2 with o :: _ => o | [] => lab_order end.

Lemma web_history : history web_past [0%nat] web_2.1 web_2.2.
Proof.
  eapply (history_step _ [0%nat] web_1.1 web_1.2 demo_cfg 0 web_answer [] (reply_of 0 web_answer web_1));
    [|vm_compute; reflexivity].
  eapply (history_step [] [] 0 empty_db demo_cfg 0 (demo_order ["web.corp"]) [] (reply_of 0 (demo_order ["web.corp"]) (0%nat, empty_db)));
    [apply history_start|vm_compute; reflexivity].
Qed.

Lemma issued_only_when_proven_witness :
  o_status (web_order web_2) = OReady
  /\ proven web_past "alice" {| id_type := "dns"; id_value := "web.corp" |}.
Proof.
  destruct (issued_only_when_proven web_past [0%nat] web_2.1 web_2.2 demo_cfg 0 (demo_finalize 0 ["web.corp"] (Signed 7)) []
    (reply_of 0 (demo_finalize 0 ["web.corp"] (Signed 7)) web_2) web_3.2 web_3.1 0%nat (web_order web_2) (web_order web_3)) as [Hr Hp].
  - exact web_history.
  - left.
  - vm_compute. reflexivity.
  - vm_compute. reflexivity.
  - vm_compute. discriminate.
  - vm_compute. reflexivity.
  - vm_compute. reflexivity.
  - split; [exact Hr|]. apply (Hp {| id_type := "dns"; id_value := "web.corp" |}). vm_compute. left.
Defined.

Definition claimed_world : world := Eval vm_compute in
  (begin_order_processing 0 (world_of lab_1 [])).2.

Lemma order_claimed_once_witness :
  exists w3, begin_order_processing 0 claimed_world = (Ok false, w3)
             /\ committed w3 = committed claimed_world.
Proof.
  destruct (order_claimed_once 0 (world_of lab_1 []) claimed_world claimed_world) as (w3 & ? & ? & _);
    [vm_compute; reflexivity|reflexivity|reflexivity|].
  exists w3. done.
Defined.

(** ** Runs outside of the sequential protocol *)

(** An order half-created: the commit of the second identifier fails, the client
    is answered 500, and the order stays with its first authorization only. It is
    listed to the client, becomes ready once that authorization is proved, and is
    issued for both names although nothing stands for the second one. *)
Definition half_1 : state := go 0 (demo_order ["web.corp"; "bank.corp"]) [true; false] (0%nat, empty_db).
Definition half_2 : state :=
  go 0 (Respond "alice" (challenge_id (chall_of half_1 http_01)) (demo_net (key_of half_1 http_01))) [] half_1.
Definition half_3 : state := go 0 (demo_finalize 0 ["web.corp"; "bank.corp"] (Signed 7)) [] half_2.

Lemma half_created_order_issues :
  reply_of 0 (ListOrders "alice") half_1 = OrderList [0%nat]
  /\ status_of half_2 0 = Some OReady
  /\ status_of half_3 0 = Some OValid
  /\ (identifiers <$> find_order half_3.2 0)
     = Some [{| id_type := "dns"; id_value := "web.corp" |};
             {| id_type := "dns"; id_value := "bank.corp" |}]
  /\ (a_identifier <$> order_authzs half_3.2 0) = [{| id_type := "dns"; id_value := "web.corp" |}].
Proof. vm_compute. split_and!; reflexivity. Qed.

(** Two challenges of one authorization answered at once: both responses pass the
    guard while the authorization is pending; the first one fails and closes the
    order, the second one ends later and makes the invalid order ready. *)
Definition late_1 : state :=
  go 0 (Respond "alice" (challenge_id (chall_of web_1 http_01)) (demo_net "wrong")) [] web_1.
Definition dns_net (s : state) : network :=
  {| net_thumbprint := "thumb"; net_account_uri := ""; net_reach := demo_reach "";
     net_txt := fun _ => Ok [TxtStrings [key_of s dns_01]];
     net_issuers := []; net_now_ts := 0; net_persist := fun _ => None |}.
Definition late_2 : state :=
  let c := chall_of web_1 dns_01 in
  let w := (validate_challenge 0 c (find_authz web_1.2 (c_authz c)) (dns_net web_1) (world_of late_1 [])).2 in
  (draws w, committed w).

Lemma late_validation_revives_order :
  status_of web_1 0 = Some OPending /\ status_of late_1 0 = Some OInvalid
  /\ (a_status <$> order_authzs late_1.2 0) = [AInvalid]
  /\ status_of late_2 0 = Some OReady /\ (a_status <$> order_authzs late_2.2 0) = [AValid].
Proof. vm_compute. split_and!; reflexivity. Qed.

(** An authorization deactivated while its order is being finalized: the order
    is processing and left alone; when the finalize fails on the server side the
    order goes back to ready, with a deactivated authorization, and can be
    issued. *)
Definition back_1 : state :=
  let w := (begin_order_processing 0 (world_of lab_1 [])).2 in (draws w, committed w).
Definition back_2 : state :=
  go 0 (AuthzInfo "alice" (default 0%nat (authorization_id <$> head (order_authzs lab_1.2 0))) true) [] back_1.
Definition back_3 : state :=
  let w := (restore_processing_order 0 (world_of back_2 [])).2 in (draws w, committed w).
Definition back_4 : state := go 0 (demo_finalize 0 lab (Signed 7)) [] back_3.

Lemma restored_with_deactivated_authorization :
  status_of back_3 0 = Some OReady
  /\ (a_status <$> order_authzs back_3.2 0) = [ADeactivated; AValid]
  /\ status_of back_4 0 = Some OValid.
Proof. vm_compute. split_and!; reflexivity. Qed.

(** Expiry is applied when an order or an authorization is read, not when it is
    used: ten days after its creation, past its seven days, an order is still
    finalized and a challenge is still validated. *)
Definition late_now : Z := 10 * day_us.

Lemma expiry_not_checked_on_use :
  (forallb (fun o => o_expires o <? late_now) (orders lab_1.2)) = true
  /\ status_of (go late_now (demo_finalize 0 lab (Signed 7)) [] lab_1) 0 = Some OValid
  /\ status_of (go late_now (OrderInfo "alice" 0) [] lab_1) 0 = Some OInvalid
  /\ status_of (go late_now (Respond "alice" (challenge_id (chall_of web_1 http_01))
                               (demo_net (key_of web_1 http_01))) [] web_1) 0 = Some OReady.
Proof. vm_compute. split_and!; reflexivity. Qed.

(** The text of a refused CSR names domains: one that has "caa" as a word is read
    as a CAA refusal, and the order is closed for good instead of going back to
    ready. *)
Definition caa_1 : state := Eval vm_compute in go 0 (demo_order ["caa.lab.lan"]) [] (0%nat, empty_db).

Lemma caa_named_domain_closes_order :
  status_of caa_1 0 = Some OReady
  /\ status_of (go 0 (demo_finalize 0 ["web.lab.lan"] (Signed 7)) [] caa_1) 0 = Some OInvalid
  /\ status_of (go 0 (demo_finalize 0 ["web.lab.lan"] (Signed 7)) [] lab_1) 0 = Some OReady
  /\ _is_caa_failure "CSR domains ['web.lab.lan'] don't match order domains ['caa.lab.lan']" = true.
Proof. vm_compute. split_and!; reflexivity. Qed.
