(* ===== verification/AcmeNonces.v ===== *)
(** * AcmeNonces: anti-replay tokens

    Models [backend/services/acme/mixins/nonce.py] over the [AcmeNonce] table of
    [backend/models/acme_models.py]. Each operation ends in one commit, whose
    outcome is an argument: a failed commit rolls everything back and raises. The
    token column is unique, so an insert that repeats a token fails at the
    commit. *)

From Stdlib Require Import Ascii String.
From stdpp Require Import prelude strings.
From S2P Require Import Prelude Scalars.

Local Open Scope Z_scope.

Record AcmeNonce := { token : string; expires_at : Z; used : bool; used_at : option Z }.

Definition hour_us : Z := 3600 * 1000000.

(* commit_ok: whether the database accepts the commit *)
Definition commit_table (commit_ok : bool) (old new : list AcmeNonce) : bool * list AcmeNonce :=
  if commit_ok && bool_decide (NoDup (token <$> new)) then (true, new) else (false, old).

(* the token, None when the commit raised *)
Definition generate_nonce (nonce_token : string) (now : Z) (commit_ok : bool)
    (t : list AcmeNonce) : option string * list AcmeNonce :=
  let nonce := {| token := nonce_token; expires_at := now + hour_us; used := false;
                  used_at := None |} in
  let '(ok, t') := commit_table commit_ok t (t ++ [nonce]) in
  (if ok then Some nonce_token else None, t').

Definition usable (nonce_token : string) (now : Z) (r : AcmeNonce) : bool :=
  (token r =? nonce_token)%string && negb (used r) && (now <? expires_at r).

Definition mark_used (now : Z) (r : AcmeNonce) : AcmeNonce :=
  {| token := token r; expires_at := expires_at r; used := true; used_at := Some now |}.

(* result > 0, None when the commit raised *)
Definition validate_nonce (nonce_token : string) (now : Z) (commit_ok : bool)
    (t : list AcmeNonce) : option bool * list AcmeNonce :=
  let result := length (List.filter (usable nonce_token now) t) in
  let '(ok, t') := commit_table commit_ok t
                     ((fun r => if usable nonce_token now r then mark_used now r else r) <$> t) in
  (if ok then Some (0 <? result)%nat else None, t').

(* the number of rows deleted, None when the commit raised *)
Definition cleanup_expired_nonces (now : Z) (commit_ok : bool) (t : list AcmeNonce)
    : option nat * list AcmeNonce :=
  let expired := List.filter (fun r => expires_at r <? now) t in
  let '(ok, t') := commit_table commit_ok t
                     (List.filter (fun r => negb (expires_at r <? now)) t) in
  (if ok then Some (length expired) else None, t').

(** ** Histories *)

Inductive nonce_op :=
| Generate (nonce_token : string) (now : Z) (commit_ok : bool)
| Validate (nonce_token : string) (now : Z) (commit_ok : bool)
| Cleanup (now : Z) (commit_ok : bool).

Inductive nonce_event :=
| Issued (nonce_token : string) (at_ : Z)
| Accepted (nonce_token : string) (at_ : Z)
| Rejected.

Definition nonce_step (op : nonce_op) (t : list AcmeNonce) : nonce_event * list AcmeNonce :=
  match op with
  | Generate tok now ok =>
      let '(r, t') := generate_nonce tok now ok t in
      (match r with Some x => Issued x now | None => Rejected end, t')
  | Validate tok now ok =>
      let '(r, t') := validate_nonce tok now ok t in
      (match r with Some true => Accepted tok now | _ => Rejected end, t')
  | Cleanup now ok => let '(_, t') := cleanup_expired_nonces now ok t in (Rejected, t')
  end.

Fixpoint run_nonces (ops : list nonce_op) (t : list AcmeNonce) : list nonce_event * list AcmeNonce :=
  match ops with
  | [] => ([], t)
  | op :: rest =>
      let '(e, t1) := nonce_step op t in
      let '(es, t2) := run_nonces rest t1 in
      (e :: es, t2)
  end.

Definition accepts (tok : string) (e : nonce_event) : bool :=
  match e with Accepted x _ => (x =? tok)%string | _ => false end.
Definition issues (tok : string) (e : nonce_event) : bool :=
  match e with Issued x _ => (x =? tok)%string | _ => false end.
Definition times (p : nonce_event -> bool) (es : list nonce_event) : nat :=
  length (List.filter p es).

(** * Lemmas *)

(* unused rows of a token: what can still be accepted *)
Definition unused (tok : string) (t : list AcmeNonce) : nat :=
  length (List.filter (fun r => (token r =? tok)%string && negb (used r)) t).

Lemma count_incl {A} (p q : A -> bool) l :
  (forall x, p x = true -> q x = true) ->
  (length (List.filter p l) <= length (List.filter q l))%nat.
Proof.
  intros Hpq. induction l as [|x l IH]; [done|]. simpl.
  destruct (p x) eqn:Ep; [rewrite (Hpq x Ep); simpl; lia|destruct (q x); simpl; lia].
Qed.

Lemma filter_filter {A} (p q : A -> bool) l :
  List.filter p (List.filter q l) = List.filter (fun x => q x && p x) l.
Proof.
  induction l as [|x l IH]; [done|]. simpl. destruct (q x); simpl; rewrite IH; done.
Qed.

(** Using up a row takes it from the unused ones. *)
Lemma unused_validate tok now l :
  (unused tok ((fun r => if usable tok now r then mark_used now r else r) <$> l)
   + length (List.filter (usable tok now) l) = unused tok l)%nat.
Proof.
  unfold unused. induction l as [|r l IH]; [done|]. rewrite fmap_cons. cbn [List.filter].
  destruct (usable tok now r) eqn:Eu.
  - unfold usable in Eu. apply andb_true_iff in Eu as [Eu _]. rewrite Eu.
    cbn [mark_used token used negb]. rewrite andb_false_r. cbn [length]. lia.
  - destruct ((token r =? tok)%string && negb (used r)); cbn [length]; lia.
Qed.

Lemma unused_validate_other tok tok' now l :
  tok <> tok' ->
  unused tok ((fun r => if usable tok' now r then mark_used now r else r) <$> l) = unused tok l.
Proof.
  intros Hne. unfold unused. induction l as [|r l IH]; [done|].
  rewrite fmap_cons. cbn [List.filter].
  destruct (usable tok' now r) eqn:Eu; [|destruct ((token r =? tok)%string && negb (used r)); cbn [length]; lia].
  unfold usable in Eu. apply andb_true_iff in Eu as [[Eu%String.eqb_eq _]%andb_true_iff _].
  cbn [mark_used token]. destruct (String.eqb_spec (token r) tok) as [E|_]; [congruence|]. exact IH.
Qed.

(** Each step keeps: acceptances plus rows still usable never exceed issues. *)
Lemma nonce_step_balance tok op t e t' :
  nonce_step op t = (e, t') ->
  ((if accepts tok e then 1 else 0) + unused tok t' <= unused tok t + (if issues tok e then 1 else 0))%nat.
Proof.
  destruct op as [x now ok|x now ok|now ok]; simpl;
    unfold generate_nonce, validate_nonce, cleanup_expired_nonces, commit_table.
  - destruct (ok && _); intros [= <- <-]; simpl; [|lia].
    unfold unused. rewrite List.filter_app, length_app. simpl.
    destruct (String.eqb_spec x tok); simpl; lia.
  - destruct (ok && _); intros [= <- <-]; simpl; [|lia].
    destruct (Nat.ltb_spec 0 (length (List.filter (usable x now) t))) as [Hlt|Hge]; simpl.
    + destruct (String.eqb_spec x tok) as [->|Hne].
      * pose proof (unused_validate tok now t). lia.
      * rewrite unused_validate_other by done. lia.
    + destruct (String.eqb_spec x tok) as [->|Hne].
      * pose proof (unused_validate tok now t). lia.
      * rewrite unused_validate_other by done. lia.
  - destruct (ok && _); intros [= <- <-]; simpl; [|lia].
    unfold unused. rewrite filter_filter.
    assert (length (List.filter (fun r => negb (expires_at r <? now)%Z && ((token r =? tok)%string && negb (used r))) t)
            <= length (List.filter (fun r => (token r =? tok)%string && negb (used r)) t))%nat as Hle.
    { apply count_incl. by intros r [_ ?]%andb_true_iff. }
    lia.
Qed.

Lemma run_nonces_balance tok ops : forall t es t',
  run_nonces ops t = (es, t') ->
  (times (accepts tok) es + unused tok t' <= unused tok t + times (issues tok) es)%nat.
Proof.
  induction ops as [|op ops IH]; intros t es t'; simpl.
  { intros [= <- <-]. unfold times. simpl. lia. }
  destruct (nonce_step op t) as [e t1] eqn:E1. destruct (run_nonces ops t1) as [es2 t2] eqn:E2.
  intros [= <- <-]. apply (nonce_step_balance tok) in E1. apply IH in E2.
  unfold times in *. simpl. destruct (accepts tok e), (issues tok e); simpl in *; lia.
Qed.

(* every row was issued an hour before it expires *)
Definition dated (es : list nonce_event) (t : list AcmeNonce) : Prop :=
  forall r, r ∈ t -> Issued (token r) (expires_at r - hour_us) ∈ es.

Lemma nonce_step_dated op t e t' past :
  nonce_step op t = (e, t') -> dated past t ->
  dated (past ++ [e]) t'
  /\ forall tok now, e = Accepted tok now ->
       exists at_, Issued tok at_ ∈ past /\ now < at_ + hour_us.
Proof.
  assert (forall l, dated past l -> dated (past ++ [e]) l) as Hmono.
  { intros l Hl r Hr. apply elem_of_app. left. by apply Hl. }
  destruct op as [x now ok|x now ok|now ok]; simpl;
    unfold generate_nonce, validate_nonce, cleanup_expired_nonces, commit_table.
  - destruct (ok && _); intros [= He Ht] Hd; subst e t'; (split; [|done]); [|by apply Hmono].
    intros r [Hr| ->%list_elem_of_singleton]%elem_of_app; [by apply (Hmono t)|].
    apply elem_of_app. right. simpl. replace (now + hour_us - hour_us) with now by lia. by left.
  - destruct (ok && _); intros [= He Ht] Hd; subst t'.
    2: { split; [by apply Hmono|]. intros tok n ->. done. }
    split.
    + intros r (r0 & -> & Hr)%list_elem_of_fmap.
      destruct (usable x now r0); simpl; apply elem_of_app; left; by apply Hd.
    + destruct (List.filter (usable x now) t) as [|r l] eqn:Ef; simpl in He; subst e; [done|].
      intros tok n [= <- <-].
      assert (r ∈ List.filter (usable x now) t) as Hr by (rewrite Ef; by left).
      apply list_elem_of_In, filter_In in Hr as [Hr%list_elem_of_In Hu].
      unfold usable in Hu. bools. exists (expires_at r - hour_us).
      pose proof (Hd r Hr) as Hi. subst. split; [done|lia].
  - destruct (ok && _); intros [= He Ht] Hd; subst e t'; (split; [|done]); [|by apply Hmono].
    intros r Hr%list_elem_of_In. apply filter_In in Hr as [Hr%list_elem_of_In _]. by apply (Hmono t).
Qed.

Lemma run_nonces_dated ops : forall past t es t',
  run_nonces ops t = (es, t') -> dated past t ->
  forall i tok now, es !! i = Some (Accepted tok now) ->
    exists at_, Issued tok at_ ∈ past ++ take i es /\ now < at_ + hour_us.
Proof.
  induction ops as [|op ops IH]; intros past t es t'; simpl.
  { intros [= <- <-] _ i tok now Hi. by rewrite lookup_nil in Hi. }
  destruct (nonce_step op t) as [e t1] eqn:E1. destruct (run_nonces ops t1) as [es2 t2] eqn:E2.
  intros [= <- <-] Hd i tok now Hi.
  destruct (nonce_step_dated _ _ _ _ past E1 Hd) as [Hd1 Ha].
  destruct i as [|i]; simpl in *.
  - simplify_eq. rewrite app_nil_r. by apply Ha.
  - destruct (IH _ _ _ _ E2 Hd1 i tok now Hi) as (at_ & Hin & ?). exists at_. split; [|done].
    by rewrite <- app_assoc in Hin.
Qed.

(** * Properties *)

(** C35. A nonce works once, and only while it lives. Over any history of
    operations from an empty table, with commits failing at will, a token is
    accepted at most as many times as it was issued; every acceptance comes after
    an issue of the same token, less than an hour before. *)
Theorem nonce_single_use (ops : list nonce_op) (es : list nonce_event) (t : list AcmeNonce) :
  run_nonces ops [] = (es, t) ->
  forall tok,
  (times (accepts tok) es <= times (issues tok) es)%nat
  /\ forall i now, es !! i = Some (Accepted tok now) ->
       exists at_, Issued tok at_ ∈ take i es /\ now < at_ + hour_us.
Proof.
  intros Hr tok. split.
  - apply (run_nonces_balance tok) in Hr. unfold unused at 2 in Hr. simpl in Hr. lia.
  - intros i now Hi. apply (run_nonces_dated ops [] [] es t Hr); [|done].
    by intros r ?%elem_of_nil.
Qed.

Definition demo_ops : list nonce_op :=
  [Generate "abc" 0 true; Validate "abc" 10 false; Validate "abc" 20 true; Validate "abc" 30 true].

Lemma nonce_single_use_witness :
  (times (accepts "abc") (run_nonces demo_ops []).1 <= times (issues "abc") (run_nonces demo_ops []).1)%nat
  /\ (run_nonces demo_ops []).1 = [Issued "abc" 0; Rejected; Accepted "abc" 20; Rejected].
Proof.
  split; [|vm_compute; reflexivity].
  apply (nonce_single_use demo_ops (run_nonces demo_ops []).1 (run_nonces demo_ops []).2).
  vm_compute. reflexivity.
Defined.
