(* ===== verification/Caa.v ===== *)
(** * Caa: CAA records before issuance

    Models [backend/utils/caa_checker.py] (RFC 8659, with the RFC 8657
    parameters). The resolver is an argument: what it answers for a name is no
    record (NoAnswer or NXDOMAIN), an error of another kind, or an RRset. *)

From Stdlib Require Import Ascii String.
From stdpp Require Import prelude strings.
From S2P Require Import Prelude Scalars DomainMatch.

Local Open Scope Z_scope.

Definition _KNOWN_PROPERTY_TAGS : list string := ["issue"; "issuewild"; "iodef"]%string.
Definition _CRITICAL_FLAG : Z := 128.

Record caa_rdata := { flags : Z; tag : string; value : string }.

Inductive caa_answer :=
| NoCaa                        (* NoAnswer, NXDOMAIN *)
| DnsFailure (exc : string)    (* any other DNSException *)
| CaaRecords (l : list caa_rdata).

(* the parameters of a record, in the order of first occurrence of each name *)
Definition parameters : Type := list (string * list string).

Fixpoint add_parameter (name v : string) (p : parameters) : parameters :=
  match p with
  | [] => [(name, [v])]
  | (n, vs) :: p' => if (n =? name)%string then (n, vs ++ [v]) :: p'
                     else (n, vs) :: add_parameter name v p'
  end.

Fixpoint get_parameter (name : string) (p : parameters) : list string :=
  match p with
  | [] => []
  | (n, vs) :: p' => if (n =? name)%string then vs else get_parameter name p'
  end.

Definition quote_char : ascii := ascii_of_nat 34.
Definition strip_quote (s : string) : string :=
  unchars (rstrip_by (Ascii.eqb quote_char) (lstrip_by (Ascii.eqb quote_char) (chars s))).

Definition parse_segment (p : parameters) (segment : string) : parameters :=
  match partition "=" segment with
  | None => p
  | Some (name, v) =>
      let normalized_name := lower (strip name) in
      if nonempty normalized_name
      then add_parameter normalized_name (strip_quote (strip v)) p else p
  end.

Definition _parse_issuer_value (v : string) : string * parameters :=
  match split ";" (strip_quote (strip v)) with
  | [] => (""%string, [])
  | issuer :: segments => (strip issuer, fold_left parse_segment segments [])
  end.

Definition method_set (v : string) : list string :=
  omap (fun m => if nonempty (strip m) then Some (lower (strip m)) else None) (split "," v).

(* None: allowed; Some: the failure *)
Definition _parameters_allow (p : parameters) (account_url validation_method : option string)
    : option string :=
  let account_uris := get_parameter "accounturi" p in
  if match account_uris with
     | [] => false
     | _ => match account_url with
            | None => true
            | Some url => existsb (fun uri => negb (uri =? url)%string) account_uris
            end
     end
  then Some "accounturi does not match the requesting ACME account"%string
  else
    match get_parameter "validationmethods" p with
    | [] => None
    | method_parameters =>
        match validation_method with
        | None | Some "" => None
        | Some m =>
            if existsb (fun v => negb (str_in (lower m) (method_set v))) method_parameters
            then Some "validationmethods does not allow the validation method used"%string
            else None
        end
    end.

Definition caa_record : Type := string * parameters.

(* the loop over the RRset: the issue and issuewild records, or the unknown critical tag *)
Fixpoint collect (l : list caa_rdata) (issue issuewild : list caa_record)
    : result string (list caa_record * list caa_record) :=
  match l with
  | [] => Ok (issue, issuewild)
  | r :: l' =>
      let t := lower (tag r) in
      if negb (str_in t _KNOWN_PROPERTY_TAGS) && negb (Z.land (flags r) _CRITICAL_FLAG =? 0)
      then Raise t
      else if (t =? "issue")%string
      then collect l' (issue ++ [_parse_issuer_value (strip (value r))]) issuewild
      else if (t =? "issuewild")%string
      then collect l' issue (issuewild ++ [_parse_issuer_value (strip (value r))])
      else collect l' issue issuewild
  end.

Section Check.
Variables (account_url validation_method : option string).

(* the first record of a configured issuer that allows, or the failures met *)
Fixpoint try_records (configured : string) (l : list caa_record) (failures : list string)
    : bool * list string :=
  match l with
  | [] => (false, failures)
  | (record_issuer, p) :: l' =>
      if (lower record_issuer =? lower configured)%string then
        match _parameters_allow p account_url validation_method with
        | None => (true, failures)
        | Some f => try_records configured l' (failures ++ [f])
        end
      else try_records configured l' failures
  end.

Fixpoint try_issuers (issuers : list string) (l : list caa_record) (failures : list string)
    : option string * list string :=
  match issuers with
  | [] => (None, failures)
  | configured :: rest =>
      match try_records configured l failures with
      | (true, fs) => (Some configured, fs)
      | (false, fs) => try_issuers rest l fs
      end
  end.

(* the verdict of the RRset found at one name *)
Definition judge_rrset (issuers : list string) (is_wildcard : bool) (lookup_domain : string)
    (answers : list caa_rdata) : bool * string :=
  match collect answers [] [] with
  | Raise t => (false, "CAA at " ++ lookup_domain ++ " has unknown critical property " ++ t)%string
  | Ok (issue_records, issuewild_records) =>
      let records := match is_wildcard, issuewild_records with
                     | true, _ :: _ => issuewild_records
                     | _, _ => issue_records
                     end in
      match records with
      | [] => (true, "CAA record at " ++ lookup_domain ++ " has no issue tags")%string
      | _ =>
          if bool_decide (records.*1 = [""%string])
          then (false, "CAA record at " ++ lookup_domain ++ " denies all issuance (issue "
                       ++ String quote_char (String ";" (String quote_char ")")))%string
          else match try_issuers issuers records [] with
               | (Some configured, _) =>
                   (true, "CAA authorized: " ++ configured ++ " matches at " ++ lookup_domain)%string
               | (None, []) =>
                   (false, "CAA at " ++ lookup_domain ++ " allows " ++ py_list_repr records.*1
                           ++ ", not " ++ py_list_repr issuers)%string
               | (None, failures) =>
                   (false, "CAA at " ++ lookup_domain ++ " denies issuance: "
                           ++ join ", " (dedup String.eqb failures))%string
               end
      end
  end.

Variables (resolve : string -> caa_answer) (issuers : list string) (fail_hard : bool).

(* parts[i:] for i in range(len(parts)), stopping below two labels *)
Fixpoint climb (is_wildcard : bool) (parts : list string) : bool * string :=
  match parts with
  | [] => (true, "No CAA record found (issuance allowed by default)")%string
  | _ :: rest =>
      let lookup_domain := join "." parts in
      if negb (nonempty lookup_domain) || negb (contains "." lookup_domain)
      then (true, "No CAA record found (issuance allowed by default)")%string
      else match resolve lookup_domain with
           | NoCaa => climb is_wildcard rest
           | DnsFailure _ =>
               if fail_hard
               then (false, "CAA DNS lookup failed (DNS error) for " ++ lookup_domain)%string
               else climb is_wildcard rest
           | CaaRecords answers => judge_rrset issuers is_wildcard lookup_domain answers
           end
  end.

Definition check_caa (domain : string) : bool * string :=
  let is_wildcard := startswith domain "*." in
  climb is_wildcard (split "." (if is_wildcard then sdrop 2 domain else domain)).
End Check.

(* methods: the validation method per domain *)
Fixpoint check_caa_for_domains (domains issuers : list string) (account_url : option string)
    (methods : string -> option string) (fail_hard : bool) (resolve : string -> caa_answer)
    : bool * string :=
  match domains with
  | [] => (true, "All domains passed CAA check")%string
  | domain :: rest =>
      match check_caa account_url (methods domain) resolve issuers fail_hard domain with
      | (true, _) => check_caa_for_domains rest issuers account_url methods fail_hard resolve
      | (false, reason) => (false, "CAA check failed for " ++ domain ++ ": " ++ reason)%string
      end
  end.

(** * Specification

    Written on the text of the records and on the names above a domain, apart from the
    functions of the code. *)

(* the text of a property value, without the quotes around it *)
Definition bare_text (v : string) : string := strip_quote (strip v).
(* what comes before the first semicolon names the issuer *)
Definition names_issuer (v issuer : string) : Prop :=
  exists first rest, split ";" (bare_text v) = first :: rest /\ strip first = issuer.
(* the parameters are the segments after it, name=value *)
Definition has_parameter (v name x : string) : Prop :=
  exists first rest segment a b, split ";" (bare_text v) = first :: rest /\ segment ∈ rest
    /\ partition "=" segment = Some (a, b) /\ lower (strip a) = name /\ x = strip_quote (strip b).

(* RFC 8657: every accounturi is the account, every validationmethods lists the method; an
   unknown method is not held against the request *)
Definition parameters_permit (account_url method : option string) (v : string) : Prop :=
  (forall x, has_parameter v "accounturi" x -> account_url = Some x)
  /\ forall x m, has_parameter v "validationmethods" x -> method = Some m -> m <> ""%string ->
       exists y, y ∈ split "," x /\ lower (strip y) = lower m.

Definition of_tag (t : string) (r : caa_rdata) : Prop := lower (tag r) = t.
(* the records that decide: issuewild for a wildcard name when there is one, else issue *)
Definition decides (wild : bool) (l : list caa_rdata) (r : caa_rdata) : Prop :=
  r ∈ l /\ (if wild then of_tag "issuewild" r \/ of_tag "issue" r /\ (forall q, q ∈ l -> ~ of_tag "issuewild" q)
            else of_tag "issue" r).

(* an unknown property with the critical bit (bit 7 of the flags) *)
Definition unknown_critical (r : caa_rdata) : Prop :=
  (lower (tag r) ∉ ["issue"; "issuewild"; "iodef"]%string) /\ Z.testbit (flags r) 7 = true.

(* what an RRset must satisfy for one of our issuers to issue *)
Definition acceptable (issuers : list string) (account_url method : option string) (wild : bool) (l : list caa_rdata) : Prop :=
  (forall r, r ∈ l -> ~ unknown_critical r)
  /\ ((forall r, ~ decides wild l r)
      \/ exists issuer r name, issuer ∈ issuers /\ decides wild l r /\ names_issuer (value r) name
           /\ lower name = lower issuer /\ parameters_permit account_url method (value r)).

(* the i-th name above: i labels dropped, at least two left *)
Definition above (host : string) (i : nat) (name : string) : Prop :=
  (i + 2 <= length (split "." host))%nat /\ name = join "." (drop i (split "." host)).
(* a name at which the search goes on: no records, or a DNS failure when that is tolerated *)
Definition passed_by (resolve : string -> caa_answer) (fail_hard : bool) (name : string) : Prop :=
  resolve name = NoCaa \/ fail_hard = false /\ exists e, resolve name = DnsFailure e.
(* the closest name with an answer that ends the search *)
Definition closest (resolve : string -> caa_answer) (fail_hard : bool) (host name : string) : Prop :=
  exists i, above host i name /\ ~ passed_by resolve fail_hard name
    /\ forall j other, (j < i)%nat -> above host j other -> passed_by resolve fail_hard other.

(** * Lemmas *)

Definition tagged (t : string) (l : list caa_rdata) : list caa_record :=
  (fun r => _parse_issuer_value (strip (value r)))
  <$> List.filter (fun r => (lower (tag r) =? t)%string) l.
Definition critical_unknown (r : caa_rdata) : bool :=
  negb (str_in (lower (tag r)) _KNOWN_PROPERTY_TAGS) && negb (Z.land (flags r) _CRITICAL_FLAG =? 0).
Definition relevant (wild : bool) (l : list caa_rdata) : list caa_record :=
  match wild, tagged "issuewild" l with
  | true, _ :: _ => tagged "issuewild" l
  | _, _ => tagged "issue" l
  end.
Definition authorizes (issuers : list string) (account_url method : option string)
    (records : list caa_record) : Prop :=
  exists issuer r, issuer ∈ issuers /\ r ∈ records /\ lower r.1 = lower issuer
    /\ _parameters_allow r.2 account_url method = None.

(** ** The text of a record *)

Lemma add_parameter_get name v p n : get_parameter n (add_parameter name v p) =
  if (name =? n)%string then get_parameter n p ++ [v] else get_parameter n p.
Proof.
  induction p as [|[m vs] p IH]; cbn.
  - by destruct (name =? n)%string.
  - destruct (String.eqb_spec m name) as [->|Hm]; cbn; [by destruct (name =? n)%string|].
    destruct (String.eqb_spec m n) as [->|Hn]; [|done].
    by destruct (String.eqb_spec name n); [congruence|].
Qed.

Lemma parsed_parameters segments n : n <> ""%string -> forall p x,
  x ∈ get_parameter n (fold_left parse_segment segments p) <->
  x ∈ get_parameter n p \/ exists segment a b, segment ∈ segments /\ partition "=" segment = Some (a, b)
    /\ lower (strip a) = n /\ x = strip_quote (strip b).
Proof.
  intros Hn. induction segments as [|s segments IH]; intros p x; cbn [fold_left].
  { split; [by left|]. intros [?|(? & ? & ? & ?%elem_of_nil & _)]; done. }
  rewrite IH. setoid_rewrite elem_of_cons. unfold parse_segment. destruct (partition "=" s) as [[a b]|] eqn:E.
  2: { split; [naive_solver|]. intros [?|(s' & a & b & [->|?] & ? & ?)]; [by left|congruence|right; eauto 10]. }
  assert (x ∈ get_parameter n (if nonempty (lower (strip a)) then add_parameter (lower (strip a)) (strip_quote (strip b)) p else p)
    <-> x ∈ get_parameter n p \/ lower (strip a) = n /\ x = strip_quote (strip b)) as H.
  { destruct (nonempty (lower (strip a))) eqn:En.
    - rewrite add_parameter_get. destruct (String.eqb_spec (lower (strip a)) n) as [->|]; [|naive_solver].
      rewrite elem_of_app, list_elem_of_singleton. naive_solver.
    - destruct (lower (strip a)); [|done]. naive_solver. }
  rewrite H. split.
  - intros [[?|[? ?]]|(s' & a' & b' & ? & ?)]; [by left|right; exists s, a, b; auto|right; exists s', a', b'; auto].
  - intros [?|(s' & a' & b' & [->|?] & E' & ? & ?)]; [auto|rewrite E in E'; simplify_eq; auto|right; exists s', a', b'; auto].
Qed.

Lemma parse_issuer_spec v : exists issuer, names_issuer v issuer /\ (_parse_issuer_value (strip v)).1 = issuer
  /\ (forall name, names_issuer v name -> name = issuer)
  /\ forall n x, n <> ""%string -> x ∈ get_parameter n (_parse_issuer_value (strip v)).2 <-> has_parameter v n x.
Proof.
  unfold _parse_issuer_value, names_issuer, has_parameter, bare_text. rewrite strip_idemp.
  destruct (split ";" (strip_quote (strip v))) as [|f segments] eqn:E; [by apply split_nonempty in E|].
  exists (strip f). split; [eauto|]. split; [done|]. split; [by intros n (? & ? & [= <- <-] & <-)|]. cbn. intros n x Hn.
  rewrite parsed_parameters by done. cbn. split.
  - intros [?%elem_of_nil|(s & a & b & ?)]; [done|]. exists f, segments, s, a, b. naive_solver.
  - intros (f' & r & s & a & b & [= <- <-] & ?). right. exists s, a, b. naive_solver.
Qed.

Lemma method_set_spec v m : m <> ""%string ->
  lower m ∈ method_set v <-> exists y, y ∈ split "," v /\ lower (strip y) = lower m.
Proof.
  intros Hm. unfold method_set. rewrite list_elem_of_omap. split.
  - intros (y & Hy & E). exists y. destruct (nonempty (strip y)); simplify_eq. done.
  - intros (y & Hy & E). exists y. split; [done|]. destruct (strip y) as [|c t]; [|exact (f_equal Some E)].
    exfalso. destruct m; [done|]. unfold lower, smap in E. cbn in E. discriminate.
Qed.

Lemma parameters_allow_spec v account_url method :
  _parameters_allow (_parse_issuer_value (strip v)).2 account_url method = None <-> parameters_permit account_url method v.
Proof.
  destruct (parse_issuer_spec v) as (_ & _ & _ & _ & Hp). set (p := (_parse_issuer_value (strip v)).2) in *.
  unfold _parameters_allow, parameters_permit. setoid_rewrite <- Hp; [|done..].
  set (uris := get_parameter "accounturi" p). set (mps := get_parameter "validationmethods" p).
  assert ((match uris with [] => false | _ => match account_url with None => true
           | Some url => existsb (fun uri => negb (uri =? url)%string) uris end end) = false
          <-> forall x, x ∈ uris -> account_url = Some x) as H1.
  { destruct uris as [|u us]; [split; [by intros _ x ?%elem_of_nil|done]|]. destruct account_url as [url|].
    - rewrite <- not_true_iff_false, existsb_exists. split.
      + intros H x Hx. destruct (String.eqb_spec x url) as [->|Hne]; [done|]. destruct H. exists x.
        split; [by apply list_elem_of_In|]. apply negb_true_iff. by apply String.eqb_neq.
      + intros H (x & Hx%list_elem_of_In & Hn%negb_true_iff%String.eqb_neq). specialize (H x Hx). congruence.
    - split; [done|]. intros H. specialize (H u (list_elem_of_here u us)). done. }
  assert (match mps with [] => None | _ => match method with None | Some ""%string => None
            | Some m => if existsb (fun v => negb (str_in (lower m) (method_set v))) mps
                        then Some "validationmethods does not allow the validation method used"%string else None end end = None
          <-> forall x m, x ∈ mps -> method = Some m -> m <> ""%string -> exists y, y ∈ split "," x /\ lower (strip y) = lower m) as H2.
  { assert (forall m, m <> ""%string -> existsb (fun v => negb (str_in (lower m) (method_set v))) mps = false <->
      forall x, x ∈ mps -> exists y, y ∈ split "," x /\ lower (strip y) = lower m) as Hm.
    { intros m Hm. rewrite <- not_true_iff_false, existsb_exists. split.
      - intros H x Hx. apply method_set_spec; [done|]. destruct (str_in (lower m) (method_set x)) eqn:E; [by apply str_in_spec|].
        destruct H. exists x. split; [by apply list_elem_of_In|]. by rewrite E.
      - intros H (x & Hx%list_elem_of_In & Hn%negb_true_iff). apply str_in_false in Hn. apply Hn, method_set_spec; auto. }
    destruct mps as [|x0 xs]; [split; [by intros _ x m ?%elem_of_nil|done]|].
    destruct method as [[|c m]|]; [split; [by intros _ x m _ [= <-]|done]| |done].
    specialize (Hm (String c m) ltac:(done)). destruct (existsb _ _).
    - split; [done|]. intros H. enough (true = false) by done. apply Hm. intros x Hx. by eapply H.
    - split; [|done]. intros _ x m' Hx [= <-] _. by apply Hm. }
  rewrite <- H1, <- H2. clearbody uris mps. clear.
  match goal with |- (if ?b then _ else _) = _ <-> _ => destruct b end; [by split; [|intros [? _]]|].
  by destruct mps; split; [intros H|intros [_ H]| |intros [_ H]].
Qed.

(** ** The records of a set *)

Lemma tagged_cons t r l :
  tagged t (r :: l) = (if (lower (tag r) =? t)%string
                       then [_parse_issuer_value (strip (value r))] else []) ++ tagged t l.
Proof. unfold tagged. cbn [List.filter]. by destruct (lower (tag r) =? t)%string. Qed.
Lemma elem_tagged t l x : x ∈ tagged t l <-> exists r, r ∈ l /\ of_tag t r /\ x = _parse_issuer_value (strip (value r)).
Proof.
  unfold tagged, of_tag. rewrite list_elem_of_fmap. setoid_rewrite list_elem_of_In. setoid_rewrite filter_In.
  setoid_rewrite String.eqb_eq. naive_solver.
Qed.

Lemma elem_relevant wild l x : x ∈ relevant wild l <->
  exists r, decides wild l r /\ x = _parse_issuer_value (strip (value r)).
Proof.
  unfold relevant, decides. destruct wild; [|rewrite elem_tagged; naive_solver].
  destruct (tagged "issuewild" l) as [|w ws] eqn:E.
  - assert (forall q, q ∈ l -> ~ of_tag "issuewild" q) as Hno.
    { intros q Hq Ht. assert (_parse_issuer_value (strip (value q)) ∈ tagged "issuewild" l) as Hx by (apply elem_tagged; eauto).
      rewrite E in Hx. by apply elem_of_nil in Hx. }
    rewrite elem_tagged. naive_solver.
  - rewrite <- E, elem_tagged. assert (exists q, q ∈ l /\ of_tag "issuewild" q) as (q & ? & ?).
    { assert (w ∈ tagged "issuewild" l) as (q & ? & ? & _)%elem_tagged by (rewrite E; left). eauto. }
    split; [intros (r & ? & ? & ->); exists r; auto|]. intros (r & [? [?|[_ Hno]]] & ->); [exists r; auto|by destruct (Hno q)].
Qed.

Lemma critical_unknown_spec r : critical_unknown r = true <-> unknown_critical r.
Proof.
  unfold critical_unknown, unknown_critical, _CRITICAL_FLAG. rewrite andb_true_iff, !negb_true_iff, str_in_false.
  change _KNOWN_PROPERTY_TAGS with ["issue"; "issuewild"; "iodef"]%string. apply and_iff_compat_l.
  rewrite Z.eqb_neq. change 128 with (2 ^ 7). split.
  - intros H. destruct (Z.testbit (flags r) 7) eqn:E; [done|]. destruct H. apply Z.bits_inj'. intros n Hn.
    rewrite Z.land_spec, Z.bits_0, Z.pow2_bits_eqb by lia. destruct (Z.eqb_spec 7 n) as [<-|]; [by rewrite E|apply andb_false_r].
  - intros E H. apply (f_equal (fun z => Z.testbit z 7)) in H. by rewrite Z.land_spec, Z.bits_0, E in H.
Qed.

Lemma collect_spec l : forall issue wild,
  collect l issue wild =
  match List.find critical_unknown l with
  | Some r => Raise (lower (tag r))
  | None => Ok (issue ++ tagged "issue" l, wild ++ tagged "issuewild" l)
  end.
Proof.
  induction l as [|r l IH]; intros issue wild; cbn [collect List.find].
  { unfold tagged. simpl. by rewrite !app_nil_r. }
  fold (critical_unknown r). destruct (critical_unknown r); [done|]. rewrite !tagged_cons.
  destruct (String.eqb_spec (lower (tag r)) "issue") as [E|E].
  - rewrite E. change ("issue" =? "issuewild")%string with false.
    rewrite IH. destruct (List.find _ l); [done|]. by rewrite <- app_assoc.
  - destruct (lower (tag r) =? "issuewild")%string; rewrite IH;
      destruct (List.find _ l); [done| |done|done]. by rewrite <- app_assoc.
Qed.

Lemma try_records_spec au vm configured l : forall fs,
  (try_records au vm configured l fs).1 = true <->
  exists r, r ∈ l /\ lower r.1 = lower configured /\ _parameters_allow r.2 au vm = None.
Proof.
  induction l as [|[ri p] l IH]; intros fs; cbn [try_records].
  { split; [done|]. intros (r & Hr & _). by apply elem_of_nil in Hr. }
  setoid_rewrite elem_of_cons.
  destruct (String.eqb_spec (lower ri) (lower configured)) as [E|E].
  - destruct (_parameters_allow p au vm) eqn:Ep.
    + rewrite IH. split; [intros (r & ? & ?); exists r; auto|].
      intros (r & [->|?] & ? & ?); [simpl in *; congruence|eauto].
    + split; [intros _|done]. exists (ri, p). auto.
  - rewrite IH. split; [intros (r & ? & ?); exists r; auto|].
    intros (r & [->|?] & ? & ?); [simpl in *; congruence|eauto].
Qed.

Lemma try_issuers_spec au vm issuers l : forall fs,
  is_Some (try_issuers au vm issuers l fs).1 <-> authorizes issuers au vm l.
Proof.
  unfold authorizes. induction issuers as [|c issuers IH]; intros fs; cbn [try_issuers].
  { split; [by intros [? ?]|]. intros (i & r & Hi & _). by apply elem_of_nil in Hi. }
  pose proof (try_records_spec au vm c l fs) as Ht.
  destruct (try_records au vm c l fs) as [b fs'] eqn:E. simpl in Ht. destruct b.
  - destruct (proj1 Ht eq_refl) as (r & Hr & El & Hp). split; [intros _|by intros _; eexists].
    exists c, r. split_and!; [by left|done..].
  - rewrite IH. split.
    + intros (i & r & Hi & ?). exists i, r. split; [by right|done].
    + intros (i & r & [->|Hi]%elem_of_cons & Hr & El & Hp); [|by exists i, r].
      exfalso. enough (false = true) by done. apply Ht. eauto.
Qed.

Lemma authorizes_spec issuers account_url method wild l :
  authorizes issuers account_url method (relevant wild l) <->
  exists issuer r name, issuer ∈ issuers /\ decides wild l r /\ names_issuer (value r) name
    /\ lower name = lower issuer /\ parameters_permit account_url method (value r).
Proof.
  unfold authorizes. split.
  - intros (issuer & x & Hi & (r & Hr & ->)%elem_relevant & El & Hp). destruct (parse_issuer_spec (value r)) as (name & Hn & E & _ & _).
    exists issuer, r, name. split_and!; try done; [congruence|by apply parameters_allow_spec].
  - intros (issuer & r & name & Hi & Hr & Hn & El & Hp). exists issuer, (_parse_issuer_value (strip (value r))).
    destruct (parse_issuer_spec (value r)) as (name' & _ & E & Hu & _).
    split_and!; [done|apply elem_relevant; eauto|by rewrite E, <- (Hu _ Hn)|by apply parameters_allow_spec].
Qed.

(* the verdict on one set; our issuers have names *)
Lemma judge_acceptable account_url method issuers wild name l : (""%string ∉ lower <$> issuers) ->
  (judge_rrset account_url method issuers wild name l).1 = true <-> acceptable issuers account_url method wild l.
Proof.
  intros Hiss. unfold judge_rrset, acceptable. rewrite collect_spec. destruct (List.find critical_unknown l) as [q|] eqn:Ef.
  { split; [done|]. intros [H _]. apply List.find_some in Ef as [Hq%list_elem_of_In Hc%critical_unknown_spec]. by destruct (H q Hq). }
  assert (forall r, r ∈ l -> ~ unknown_critical r) as Hcrit.
  { intros r Hr%list_elem_of_In Hc%critical_unknown_spec. apply (find_none _ _ Ef) in Hr. congruence. }
  cbn [app]. change (match wild with true => match tagged "issuewild" l with
    | [] => tagged "issue" l | _ :: _ => tagged "issuewild" l end | false => tagged "issue" l end) with (relevant wild l).
  pose proof (authorizes_spec issuers account_url method wild l) as Ha.
  pose proof (fun x => elem_relevant wild l x) as Hrel. revert Ha Hrel. generalize (relevant wild l). intros records Ha Hrel.
  destruct records as [|x xs].
  { split; [|done]. intros _. split; [done|left]. intros r Hr.
    apply (not_elem_of_nil (_parse_issuer_value (strip (value r)))). apply Hrel. eauto. }
  assert (~ forall r, ~ decides wild l r) as Hsome by (intros H; destruct (proj1 (Hrel x) (list_elem_of_here _ _)) as (r & Hr & _); by eapply H).
  case_bool_decide as Hd.
  { split; [done|]. intros [_ [?|(issuer & y & Hi & Hy & El & _)%Ha]]; [done|]. exfalso. apply Hiss.
    assert (y.1 ∈ [""%string]) as Hy1 by (rewrite <- Hd; by apply list_elem_of_fmap_2).
    apply list_elem_of_singleton in Hy1. rewrite Hy1 in El. apply list_elem_of_fmap. exists issuer. by rewrite <- El. }
  pose proof (try_issuers_spec account_url method issuers (x :: xs) []) as Ht.
  destruct (try_issuers _ _ _ _ _) as [[c|] fs]; simpl in Ht.
  - split; [intros _|done]. split; [done|right]. apply Ha, Ht. by eexists.
  - assert (~ authorizes issuers account_url method (x :: xs)) as Hno by (intros H; apply Ht in H as [? ?]; done).
    destruct fs; (split; [done|]); intros [_ [?|H]]; try done; by destruct Hno; apply Ha.
Qed.

(** ** The names above *)

Lemma contains_dot_join l : Forall (fun w => "."%char ∉ chars w) l -> contains "." (join "." l) = (2 <=? length l)%nat.
Proof.
  intros Hl. unfold contains. apply eq_true_iff_eq. rewrite list_contains_spec, Nat.leb_le. destruct l as [|x [|y l]]; cbn.
  - split; [|lia]. intros (a & b & E). by destruct a.
  - split; [|lia]. intros (a & b & E). inversion Hl as [|? ? Hx _]; subst. destruct Hx. rewrite E. apply elem_of_app. right. left.
  - split; [lia|]. intros _. exists (chars x), (chars (join "." (y :: l))). rewrite chars_app. done.
Qed.

(* from a list of labels *)
Definition closest_from (resolve : string -> caa_answer) (fail_hard : bool) (parts : list string) (name : string) : Prop :=
  exists i, (i + 2 <= length parts)%nat /\ name = join "." (drop i parts) /\ ~ passed_by resolve fail_hard name
    /\ forall j, (j < i)%nat -> passed_by resolve fail_hard (join "." (drop j parts)).

Lemma closest_here resolve fail_hard p parts : (1 <= length parts)%nat -> ~ passed_by resolve fail_hard (join "." (p :: parts)) ->
  forall name, closest_from resolve fail_hard (p :: parts) name <-> name = join "." (p :: parts).
Proof.
  intros Hl Hn name. split.
  - intros ([|i] & _ & -> & _ & Hj); [done|]. destruct Hn. apply (Hj 0%nat). lia.
  - intros ->. exists 0%nat. cbn [length]. split_and!; [lia|done|done|lia].
Qed.
Lemma closest_next resolve fail_hard p parts : passed_by resolve fail_hard (join "." (p :: parts)) ->
  forall name, closest_from resolve fail_hard (p :: parts) name <-> closest_from resolve fail_hard parts name.
Proof.
  intros Hp name. split.
  - intros ([|i] & Hi & -> & Hn & Hj); [done|]. exists i. cbn in Hi. split_and!; [lia|done|done|].
    intros j Hlt. apply (Hj (S j)). lia.
  - intros (i & Hi & -> & Hn & Hj). exists (S i). cbn [length drop]. split_and!; [lia|done|done|].
    intros [|j] Hlt; [done|]. apply Hj. lia.
Qed.

Lemma climb_spec account_url method resolve issuers fail_hard wild parts : (""%string ∉ lower <$> issuers) ->
  Forall (fun w => "."%char ∉ chars w) parts ->
  (climb account_url method resolve issuers fail_hard wild parts).1 = true <->
  forall name, closest_from resolve fail_hard parts name ->
    exists l, resolve name = CaaRecords l /\ acceptable issuers account_url method wild l.
Proof.
  intros Hiss. induction parts as [|p parts IH]; intros Hdots; cbn [climb].
  { split; [|done]. intros _ name (i & Hi & _). cbn in Hi. lia. }
  rewrite contains_dot_join by done. destruct (2 <=? length (p :: parts))%nat eqn:Hlen; cbn [negb orb].
  2: { rewrite orb_true_r. apply Nat.leb_gt in Hlen. split; [|done]. intros _ name (i & Hi & _). lia. }
  apply Nat.leb_le in Hlen. cbn [length] in Hlen.
  assert (nonempty (join "." (p :: parts)) = true) as -> by (destruct parts; [cbn in Hlen; lia|cbn; by destruct p]).
  inversion Hdots as [|? ? _ Hdots']; subst. specialize (IH Hdots'). cbn [negb orb].
  destruct (resolve (join "." (p :: parts))) as [|e|l] eqn:Er.
  - rewrite IH. setoid_rewrite closest_next; [done|by left].
  - destruct fail_hard.
    + split; [done|]. intros H. destruct (H (join "." (p :: parts))) as (l & El & _); [|congruence].
      apply closest_here; [lia| |done]. intros [?|[? _]]; congruence.
    + rewrite IH. setoid_rewrite closest_next; [done|right; eauto].
  - rewrite judge_acceptable by done.
    assert (~ passed_by resolve fail_hard (join "." (p :: parts))) as Hn by (intros [?|(_ & ? & ?)]; congruence).
    setoid_rewrite closest_here; [|lia|done]. split; [intros H name ->; eauto|].
    intros H. destruct (H _ eq_refl) as (l' & El & ?). by rewrite Er in El; simplify_eq.
Qed.

(** * Properties *)

(** C39. What CAA decides. The names above the domain (without its wildcard label) are
    asked from the name itself up to its last two labels; the closest one that does not
    answer "no record" decides, a DNS failure counting as no record unless failures are
    fatal, in which case it refuses. Issuance is allowed exactly when no name decides, or
    the RRset found has no unknown property with the critical bit and either no record
    that applies (issue, or issuewild for a wildcard name when there is one) or one that
    names one of our issuers and whose RFC 8657 parameters permit the request: each
    accounturi equal to the account, each validationmethods listing the method when it is
    known. Our issuers have names. Unlike RFC 8659 the top-level domain is not asked and failures may be ignored. *)
Theorem check_caa_spec (account_url method : option string) (resolve : string -> caa_answer)
    (issuers : list string) (fail_hard : bool) (domain : string) (Hiss : ""%string ∉ lower <$> issuers) :
  let wild := startswith domain "*." in
  let host := if wild then sdrop 2 domain else domain in
  (check_caa account_url method resolve issuers fail_hard domain).1 = true <->
  forall name, closest resolve fail_hard host name ->
    exists l, resolve name = CaaRecords l /\ acceptable issuers account_url method wild l.
Proof.
  intros wild host. unfold check_caa. fold wild. fold host. rewrite climb_spec; [|done|].
  - assert (forall name, closest_from resolve fail_hard (split "." host) name <-> closest resolve fail_hard host name) as H.
    { intros name. unfold closest_from, closest, above. split.
      - intros (i & ? & -> & ? & Hj). exists i. split; [done|]. split; [done|]. intros j other Hlt [_ ->]. auto.
      - intros (i & [? ->] & ? & Hj). exists i. split_and!; try done. intros j Hlt. eapply Hj; [done|]. split; [lia|done]. }
    by setoid_rewrite H.
  - pose proof (split_no_dot host) as H. by rewrite Forall_fmap in H.
Qed.

(** A set of names passes the CAA check exactly when each of them does. *)
Theorem check_caa_for_domains_all (domains issuers : list string) (account_url : option string)
    (methods : string -> option string) (fail_hard : bool) (resolve : string -> caa_answer) :
  (check_caa_for_domains domains issuers account_url methods fail_hard resolve).1 = true <->
  forall domain, domain ∈ domains ->
    (check_caa account_url (methods domain) resolve issuers fail_hard domain).1 = true.
Proof.
  induction domains as [|x domains IH]; cbn [check_caa_for_domains].
  { split; [intros _ y ?%elem_of_nil|]; done. }
  setoid_rewrite elem_of_cons. destruct (check_caa _ _ _ _ _ x) as [[] reason] eqn:E.
  - rewrite IH. split; [intros H y [->|?]; [by rewrite E|auto]|auto].
  - split; [done|]. intros H. specialize (H x (or_introl eq_refl)). by rewrite E in H.
Qed.

Definition demo_caa (name : string) : caa_answer :=
  if (name =? "corp.example")%string
  then CaaRecords [{| flags := 0; tag := "Issue"; value := "ca.example; accounturi=https://ca/acct/1" |};
                   {| flags := 0; tag := "issuewild"; value := ";" |}]
  else NoCaa.

Lemma check_caa_spec_witness :
  exists l, demo_caa "corp.example" = CaaRecords l
    /\ acceptable ["CA.example"]%string (Some "https://ca/acct/1"%string) (Some "dns-01"%string) false l.
Proof.
  apply (check_caa_spec (Some "https://ca/acct/1"%string) (Some "dns-01"%string) demo_caa ["CA.example"]%string false "www.corp.example").
  - apply (bool_decide_unpack _). by vm_compute.
  - by vm_compute.
  - exists 1%nat. split; [split; [vm_compute; lia|by vm_compute]|]. split; [by intros [?|(_ & ? & ?)]|].
    intros [|j] other Hj [_ ->]; [left; by vm_compute|lia].
Defined.

Lemma check_caa_demo :
  (check_caa (Some "https://ca/acct/1"%string) None demo_caa ["CA.example"]%string false "www.corp.example").1 = true
  /\ (check_caa (Some "https://ca/acct/2"%string) None demo_caa ["CA.example"]%string false "www.corp.example").1 = false
  /\ (check_caa (Some "https://ca/acct/1"%string) None demo_caa ["CA.example"]%string false "*.corp.example").1 = false.
Proof. vm_compute. split_and!; reflexivity. Qed.
