(* ===== verification/RateLimiter.v ===== *)
(** * RateLimiter: per-endpoint rate limiting

    Models [backend/security/rate_limiter.py]: the limits of each path pattern,
    the whitelist, and the token bucket with its sliding window. The clock is an
    integer number of microseconds. A token count is kept in units of 1/60,000,000
    of a token, in which the refill [elapsed / 60 s * rpm] is an integer: the
    model computes exactly what the code computes in floating point. Reading an
    address as LAN is Python's [ipaddress] and a parameter. *)

From Stdlib Require Import Ascii String Sorted.
From stdpp Require Import prelude strings gmap.
From S2P Require Import Prelude Scalars.

Local Open Scope Z_scope.

(** ** Configuration *)

Record limit := { rpm : Z; burst : Z }.

Definition environ : Type := string -> option string.

Definition _get_env_int (env : environ) (key : string) (default : Z) : Z :=
  match env key with
  | Some s => match py_int 10 s with Some z => z | None => default end
  | None => default
  end.

Definition _get_env_bool (env : environ) (key : string) (default : bool) : bool :=
  let val := lower (match env key with
                    | Some s => s
                    | None => if default then "True" else "False"
                    end%string) in
  str_in val ["true"; "1"; "yes"; "on"].

Definition PROTOCOL_EXACT_PATHS : list string := ["/ocsp"; "/tsa"]%string.

Definition default_limits (env : environ) : list (string * limit) :=
  let auth_rpm := _get_env_int env "RATE_LIMIT_AUTH_RPM" 30 in
  let auth_burst := _get_env_int env "RATE_LIMIT_AUTH_BURST" 10 in
  let heavy_rpm := _get_env_int env "RATE_LIMIT_HEAVY_RPM" 60 in
  let heavy_burst := _get_env_int env "RATE_LIMIT_HEAVY_BURST" 15 in
  let standard_rpm := _get_env_int env "RATE_LIMIT_STANDARD_RPM" 600 in
  let standard_burst := _get_env_int env "RATE_LIMIT_STANDARD_BURST" 100 in
  let protocol_rpm := _get_env_int env "RATE_LIMIT_PROTOCOL_RPM" 500 in
  let protocol_burst := _get_env_int env "RATE_LIMIT_PROTOCOL_BURST" 100 in
  let lim r b := {| rpm := r; burst := b |} in
  [("/api/v2/auth/login", lim auth_rpm auth_burst);
   ("/api/v2/auth/register", lim (auth_rpm / 2) (auth_burst - 1));
   ("/api/v2/auth/reset-password", lim (auth_rpm / 2) (auth_burst - 1));
   ("/api/v2/auth/forgot-password", lim (auth_rpm / 2) (auth_burst - 1));
   ("/api/v2/sso/callback", lim auth_rpm auth_burst);
   ("/api/v2/sso/ldap/login", lim auth_rpm auth_burst);
   ("/api/v2/auth/email-configured", lim 1000 100);
   ("/api/v2/sso/available", lim 1000 100);
   ("/api/v2/certificates/issue", lim heavy_rpm heavy_burst);
   ("/api/v2/cas", lim heavy_rpm heavy_burst);
   ("/api/v2/csrs/sign", lim (heavy_rpm / 2) heavy_burst);
   ("/api/v2/import", lim (heavy_rpm / 3) 2);
   ("/api/v2/export", lim (heavy_rpm / 3) 2);
   ("/api/v2/backup", lim (heavy_rpm / 6) 2);
   ("/api/v2/ssh/cas/import", lim 10 3);
   ("/api/v2/ssh/certificates/import", lim 30 5);
   ("/api/v2/users", lim (standard_rpm / 2) (standard_burst / 2));
   ("/api/v2/certificates", lim standard_rpm standard_burst);
   ("/api/v2/audit", lim (standard_rpm / 2) (standard_burst / 2));
   ("/acme/", lim (protocol_rpm / 2) (protocol_burst / 2));
   ("/scep/", lim (protocol_rpm / 2) (protocol_burst / 2));
   ("/.well-known/est/", lim (protocol_rpm / 2) (protocol_burst / 2));
   ("/ocsp/", lim protocol_rpm protocol_burst);
   ("/ocsp", lim protocol_rpm protocol_burst);
   ("/cdp/", lim protocol_rpm protocol_burst);
   ("/ca/", lim standard_rpm standard_burst);
   ("/tsa/", lim standard_rpm standard_burst);
   ("/tsa", lim standard_rpm standard_burst);
   ("/ssh/setup/", lim standard_rpm standard_burst);
   ("/.well-known/acme-challenge/", lim standard_rpm standard_burst);
   ("/ADPolicyProvider_CEP_", lim standard_rpm standard_burst);
   ("/ADCertificateService_CES_", lim standard_rpm standard_burst);
   ("_default", lim standard_rpm standard_burst)]%string.

Definition env_whitelist (env : environ) : list string :=
  List.filter nonempty (strip <$> split ","
    (default "127.0.0.1,::1"%string (env "RATE_LIMIT_WHITELIST"%string))).

(* the class attributes of RateLimitConfig; the dictionaries keep insertion order *)
Record RateLimitConfig := {
  rl_env : environ;
  rl_enabled : option bool;
  rl_custom : list (string * limit);
  rl_whitelist : list string;
}.

Definition is_enabled (c : RateLimitConfig) : bool :=
  match rl_enabled c with Some b => b | None => _get_env_bool (rl_env c) "RATE_LIMIT_ENABLED" true end.

Definition has_key {V} (d : list (string * V)) (k : string) : bool := str_in k d.*1.

Definition prefix_pattern (path : string) (source : list (string * limit)) : option string :=
  List.find (fun p => negb (str_in p PROTOCOL_EXACT_PATHS) && negb (p =? "_default")%string
                      && startswith path p) source.*1.

Definition pattern_for (c : RateLimitConfig) (path : string) : string :=
  match List.find (fun p => (path =? p)%string
                            && (has_key (default_limits (rl_env c)) p || has_key (rl_custom c) p))
          PROTOCOL_EXACT_PATHS with
  | Some p => p
  | None =>
      match prefix_pattern path (rl_custom c) with
      | Some p => p
      | None => match prefix_pattern path (default_limits (rl_env c)) with
                | Some p => p
                | None => "_default"%string
                end
      end
  end.

Definition lookup_limit (d : list (string * limit)) (k : string) : option limit :=
  snd <$> List.find (fun kv => (kv.1 =? k)%string) d.

(* the limit of a pattern; the defaults always hold "_default" *)
Definition limit_of (c : RateLimitConfig) (pattern : string) : limit :=
  match lookup_limit (rl_custom c) pattern with
  | Some l => l
  | None => match lookup_limit (default_limits (rl_env c)) pattern with
            | Some l => l
            | None => default {| rpm := 0; burst := 0 |}
                        (lookup_limit (default_limits (rl_env c)) "_default")
            end
  end.

Definition get_limit (c : RateLimitConfig) (path : string) : limit := limit_of c (pattern_for c path).

(* d[path] = ... keeps the place of a key that is there *)
Fixpoint dict_set {V} (d : list (string * V)) (k : string) (v : V) : list (string * V) :=
  match d with
  | [] => [(k, v)]
  | (k', v') :: d' => if (k' =? k)%string then (k', v) :: d' else (k', v') :: dict_set d' k v
  end.

Definition with_custom (c : RateLimitConfig) (l : list (string * limit)) : RateLimitConfig :=
  {| rl_env := rl_env c; rl_enabled := rl_enabled c; rl_custom := l; rl_whitelist := rl_whitelist c |}.
Definition with_whitelist (c : RateLimitConfig) (l : list string) : RateLimitConfig :=
  {| rl_env := rl_env c; rl_enabled := rl_enabled c; rl_custom := rl_custom c; rl_whitelist := l |}.

Definition set_enabled (b : bool) (c : RateLimitConfig) : RateLimitConfig :=
  {| rl_env := rl_env c; rl_enabled := Some b; rl_custom := rl_custom c; rl_whitelist := rl_whitelist c |}.
Definition set_custom_limit (path : string) (r b : Z) (c : RateLimitConfig) : RateLimitConfig :=
  with_custom c (dict_set (rl_custom c) path {| rpm := r; burst := b |}).
Definition remove_custom_limit (path : string) (c : RateLimitConfig) : RateLimitConfig :=
  with_custom c (List.filter (fun kv => negb (kv.1 =? path)%string) (rl_custom c)).
Definition add_whitelist (ip : string) (c : RateLimitConfig) : RateLimitConfig :=
  with_whitelist c (append_new String.eqb (rl_whitelist c) ip).
Definition remove_whitelist (ip : string) (c : RateLimitConfig) : RateLimitConfig :=
  with_whitelist c (List.filter (fun x => negb (x =? ip)%string) (rl_whitelist c)).
(* reload: enabled and whitelist come from the environment again, custom limits stay *)
Definition reload (c : RateLimitConfig) : RateLimitConfig :=
  {| rl_env := rl_env c; rl_enabled := None; rl_custom := rl_custom c;
     rl_whitelist := env_whitelist (rl_env c) |}.

Section Lan.
Variable _is_lan_ip : string -> bool.

Definition is_whitelisted (c : RateLimitConfig) (ip : string) : bool :=
  str_in ip (rl_whitelist c)
  || (_get_env_bool (rl_env c) "RATE_LIMIT_TRUST_LAN" true && _is_lan_ip ip).

(** ** The limiter *)

Definition second : Z := 1000000.
Definition window : Z := 60 * second.

(* tokens in units of 1 / window, so that one token is [window] units *)
Record bucket := { tokens : Z; last_update : Z; requests : list Z }.

Record RateLimiter := {
  buckets : gmap string bucket;
  total_requests : nat;
  rate_limited : nat;
  by_endpoint : gmap string (nat * nat);
}.

Definition _get_key (c : RateLimitConfig) (ip path : string) : string :=
  (ip ++ ":" ++ pattern_for c path)%string.

Inductive info :=
| Disabled
| Whitelisted
| Allowed (remaining limit reset : Z)
| Blocked (limit retry_after : Z).

Definition fresh_bucket (b : Z) (now : Z) : bucket :=
  {| tokens := b * window; last_update := now; requests := [] |}.

(* the part of check_rate_limit that works on the bucket *)
Definition take_token (l : limit) (now : Z) (b : bucket) : bool * bucket :=
  let reqs := List.filter (fun t => now - t <? window) (requests b) in
  let elapsed := now - last_update b in
  let toks := Z.min (burst l * window) (tokens b + elapsed * rpm l) in
  if (window <=? toks) && (Z.of_nat (length reqs) <? rpm l)
  then (true, {| tokens := toks - window; last_update := now; requests := reqs ++ [now] |})
  else (false, {| tokens := toks; last_update := now; requests := reqs |}).

Definition describe (l : limit) (now : Z) (allowed : bool) (b : bucket) : info :=
  if allowed
  then Allowed (tokens b / window) (rpm l)
         ((now + window - match requests b with t :: _ => t | [] => now end) / second)
  else Blocked (rpm l)
         (match requests b with
          | oldest :: _ => (window - (now - oldest)) / second + 1
          | [] => window / second
          end).

Definition count_endpoint (path : string) (allowed : bool) (m : gmap string (nat * nat))
    : gmap string (nat * nat) :=
  let '(a, b) := default (0, 0)%nat (m !! path) in
  <[path := if allowed then (S a, b) else (a, S b)]> m.

Definition check_rate_limit (c : RateLimitConfig) (ip path : string) (now : Z) (s : RateLimiter)
    : bool * info * RateLimiter :=
  if negb (is_enabled c) then (true, Disabled, s)
  else if is_whitelisted c ip then (true, Whitelisted, s)
  else
    let l := get_limit c path in
    let key := _get_key c ip path in
    let b := default (fresh_bucket (burst l) now) (buckets s !! key) in
    let '(allowed, b') := take_token l now b in
    (allowed, describe l now allowed b',
     {| buckets := <[key := b']> (buckets s);
        total_requests := S (total_requests s);
        rate_limited := if allowed then rate_limited s else S (rate_limited s);
        by_endpoint := count_endpoint path allowed (by_endpoint s) |}).

Definition reset_stats (s : RateLimiter) : RateLimiter :=
  {| buckets := buckets s; total_requests := 0; rate_limited := 0; by_endpoint := ∅ |}.

Definition clear_bucket (ip : option string) (s : RateLimiter) : RateLimiter :=
  {| buckets := match ip with
                | None | Some "" => ∅
                | Some i => filter (fun kv => startswith kv.1 (i ++ ":") = false) (buckets s)
                end;
     total_requests := total_requests s; rate_limited := rate_limited s;
     by_endpoint := by_endpoint s |}.

Definition empty_limiter : RateLimiter :=
  {| buckets := ∅; total_requests := 0; rate_limited := 0; by_endpoint := ∅ |}.

(* the address the middleware limits: the first of a list *)
Definition client_ip (remote_addr : string) : string :=
  if contains "," remote_addr
  then strip (default ""%string (head (split "," remote_addr))) else remote_addr.

Definition skipped_path (path : string) : bool :=
  startswith path "/static" || str_in path ["/health"; "/api/health"; "/api/v2/health"].

(* None: the request goes on; Some: 429 with this Retry-After *)
Definition rate_limit_middleware (c : RateLimitConfig) (remote_addr path : string) (now : Z)
    (s : RateLimiter) : option Z * RateLimiter :=
  if skipped_path path then (None, s)
  else match check_rate_limit c (client_ip remote_addr) path now s with
       | (true, _, s') => (None, s')
       | (false, Blocked _ retry_after, s') => (Some retry_after, s')
       | (false, _, s') => (Some 60, s')
       end.
End Lan.

(** * Lemmas *)

(** ** What a run lets through *)

(* requests in the order they are served: the address the server sees, path, time *)
Definition call : Type := string * string * Z.

Section Runs.
Variable lan : string -> bool.
Variable c : RateLimitConfig.

(* the requests the middleware let through, for whatever reason *)
Fixpoint serve (calls : list call) (s : RateLimiter) : list call * RateLimiter :=
  match calls with
  | [] => ([], s)
  | (addr, path, now) :: rest =>
      let '(refusal, s1) := rate_limit_middleware lan c addr path now s in
      let '(passed, s2) := serve rest s1 in
      (match refusal with None => (addr, path, now) :: passed | Some _ => passed end, s2)
  end.

(* static files and the health checks are not limited *)
Definition monitored (path : string) : bool :=
  negb (startswith path "/static") && negb (str_in path ["/health"; "/api/health"; "/api/v2/health"]).

(* the setting of an environment variable that is on, off, or on unless set *)
Definition says_on (v : string) : Prop := lower v ∈ ["true"; "1"; "yes"; "on"]%string.

(* limiting is on, and neither the whitelist nor the trust in the LAN exempts the address *)
Record limits_apply (ip : string) : Prop := {
  la_enabled : rl_enabled c = Some true
    \/ rl_enabled c = None /\ forall v, rl_env c "RATE_LIMIT_ENABLED"%string = Some v -> says_on v;
  la_listed : ip ∉ rl_whitelist c;
  la_lan : lan ip = false \/ exists v, rl_env c "RATE_LIMIT_TRUST_LAN"%string = Some v /\ ~ says_on v;
}.

Lemma env_bool_default key : _get_env_bool (rl_env c) key true = true <->
  forall v, rl_env c key = Some v -> says_on v.
Proof.
  unfold _get_env_bool, says_on. destruct (rl_env c key) as [v|]; [|by split].
  rewrite str_in_spec. split; [by intros ? ? [= <-]|auto].
Qed.

Lemma limits_apply_enabled ip : limits_apply ip -> is_enabled c = true.
Proof.
  intros H. unfold is_enabled. destruct (la_enabled ip H) as [->|[-> E]]; [done|]. by apply env_bool_default.
Qed.
Lemma limits_apply_listed ip : limits_apply ip -> is_whitelisted lan c ip = false.
Proof.
  intros H. unfold is_whitelisted. apply orb_false_iff. split; [apply str_in_false, (la_listed ip H)|].
  apply andb_false_iff. destruct (la_lan ip H) as [?|(v & E & Hv)]; [by right|left].
  apply not_true_iff_false. intros E'. rewrite env_bool_default in E'. auto.
Qed.

Definition in_window (T t : Z) : bool := (T - t <? window) && (t <=? T).
Definition key_of (ip pattern : string) : string := (ip ++ ":" ++ pattern)%string.

Section Client.
Variables ip pattern : string.

(* the times at which the client was let through on the pattern *)
Definition hits (l : list call) : list Z :=
  omap (fun '(addr, path, t) =>
          if monitored path && (client_ip addr =? ip)%string && (pattern_for c path =? pattern)%string
          then Some t else None) l.

(* what the bucket remembers of the calls let through so far *)
Definition remembers (l : list call) (clock : Z) (s : RateLimiter) : Prop :=
  (forall addr path t, (addr, path, t) ∈ l -> t <= clock)
  /\ List.filter (fun t => clock - t <? window) (hits l)
       `sublist_of` default [] (requests <$> buckets s !! key_of ip pattern).

Definition bounded (l : list call) : Prop := forall T,
  Z.of_nat (length (List.filter (in_window T) (hits l))) <= Z.max 0 (rpm (limit_of c pattern)).
End Client.
End Runs.

Lemma filter_sublist {A} (p : A -> bool) l k :
  l `sublist_of` k -> List.filter p l `sublist_of` List.filter p k.
Proof.
  induction 1 as [|x l k H IH|x l k H IH]; simpl; [constructor| |].
  - destruct (p x); [by constructor|done].
  - destruct (p x); [by constructor|done].
Qed.

Lemma filter_narrow {A} (p q : A -> bool) l :
  (forall x, x ∈ l -> p x = true -> q x = true) ->
  List.filter p (List.filter q l) = List.filter p l.
Proof.
  induction l as [|x l IH]; intros H; [done|]. simpl.
  assert (List.filter p (List.filter q l) = List.filter p l) as IH'.
  { apply IH. intros y Hy. apply H. by right. }
  destruct (q x) eqn:Eq; simpl; [by rewrite IH'|].
  destruct (p x) eqn:Ep; [|done]. rewrite H in Eq; [done|by left|done].
Qed.

Lemma hits_snoc c ip pattern l addr path t :
  hits c ip pattern (l ++ [(addr, path, t)]) =
  hits c ip pattern l ++ (if monitored path && (client_ip addr =? ip)%string && (pattern_for c path =? pattern)%string
                          then [t] else []).
Proof. unfold hits. rewrite omap_app. simpl. by destruct (_ && _). Qed.

Lemma filter_idem_sublist {A} (p : A -> bool) l : List.filter p l `sublist_of` l.
Proof. induction l as [|x l IH]; simpl; [done|]. destruct (p x); by constructor. Qed.

(* time passes *)
Lemma remembers_later c ip pattern l clock now s :
  clock <= now -> remembers c ip pattern l clock s -> remembers c ip pattern l now s.
Proof.
  intros Hle [Hclock Hrem]. split; [intros a p t Hin; specialize (Hclock a p t Hin); lia|].
  etrans; [|exact Hrem].
  rewrite <- (filter_narrow (fun t => now - t <? window) (fun t => clock - t <? window)); [apply filter_idem_sublist|].
  intros t _ Ht%Z.ltb_lt. apply Z.ltb_lt. lia.
Qed.

(* a request that does not count for the client *)
Lemma uncounted_keeps c ip pattern l addr path now s :
  monitored path && (client_ip addr =? ip)%string && (pattern_for c path =? pattern)%string = false ->
  remembers c ip pattern l now s -> bounded c ip pattern l ->
  remembers c ip pattern (l ++ [(addr, path, now)]) now s /\ bounded c ip pattern (l ++ [(addr, path, now)]).
Proof.
  intros E [Hc Hr] Hb. split; [split|].
  - intros a p t [Hin|[= -> -> ->]%list_elem_of_singleton]%elem_of_app; [by eapply Hc|lia].
  - by rewrite hits_snoc, E, app_nil_r.
  - intros T. rewrite hits_snoc, E, app_nil_r. apply Hb.
Qed.

(* the request takes a place in a window that has one *)
Lemma counted_bounded c ip pattern l addr path now : 0 < rpm (limit_of c pattern) ->
  (forall a p t, (a, p, t) ∈ l -> t <= now) ->
  Z.of_nat (length (List.filter (fun t => now - t <? window) (hits c ip pattern l))) < rpm (limit_of c pattern) ->
  bounded c ip pattern l -> bounded c ip pattern (l ++ [(addr, path, now)]).
Proof.
  intros Hpos Hc Hlt Hb T. rewrite hits_snoc, List.filter_app, length_app.
  destruct (monitored path && _ && _); [|simpl; rewrite Nat.add_0_r; apply Hb]. simpl.
  destruct (in_window T now) eqn:Ein; simpl; [|rewrite Nat.add_0_r; apply Hb].
  unfold in_window in Ein. apply andb_true_iff in Ein as [E1%Z.ltb_lt E2%Z.leb_le].
  assert (List.filter (in_window T) (hits c ip pattern l)
          `sublist_of` List.filter (fun t => now - t <? window) (hits c ip pattern l)) as Hsub.
  { rewrite <- (filter_narrow (in_window T) (fun t => now - t <? window)); [apply filter_idem_sublist|].
    unfold in_window. intros t _ [Ht%Z.ltb_lt _]%andb_true_iff. apply Z.ltb_lt. lia. }
  apply sublist_length in Hsub. lia.
Qed.

(* a bucket after a request: it remembers what it remembered within the window *)
Lemma bucket_keeps c ip pattern l now s b lim ok b' :
  remembers c ip pattern l now s -> (b = default b (buckets s !! key_of ip pattern)) ->
  take_token lim now b = (ok, b') ->
  List.filter (fun t => now - t <? window) (hits c ip pattern l) `sublist_of`
    List.filter (fun t => now - t <? window) (requests b)
  /\ requests b' = List.filter (fun t => now - t <? window) (requests b) ++ (if ok then [now] else [])
  /\ (ok = true -> Z.of_nat (length (List.filter (fun t => now - t <? window) (requests b))) < rpm lim).
Proof.
  intros [_ Hr] Eb Et. split; [|split].
  - apply (filter_sublist (fun t => now - t <? window)) in Hr. rewrite filter_narrow in Hr by done.
    etrans; [exact Hr|]. rewrite Eb. destruct (buckets s !! key_of ip pattern); simpl; [done|apply sublist_nil_l].
  - unfold take_token in Et. destruct (_ && _); injection Et as <- <-; simpl; [done|by rewrite app_nil_r].
  - unfold take_token in Et. destruct (_ && _) eqn:E; injection Et as <- <-; [|done]. intros _.
    by apply andb_true_iff in E as [_ ?%Z.ltb_lt].
Qed.

(** One request keeps what the bucket of a limited client remembers, and the bound. *)
Lemma middleware_keeps lan c ip pattern l clock s addr path now r s' :
  limits_apply lan c ip -> clock <= now -> remembers c ip pattern l clock s -> bounded c ip pattern l ->
  rate_limit_middleware lan c addr path now s = (r, s') ->
  let l' := match r with None => l ++ [(addr, path, now)] | Some _ => l end in
  remembers c ip pattern l' now s' /\ bounded c ip pattern l'.
Proof.
  intros Hap Hle Hr Hb. apply (remembers_later _ _ _ _ _ _ _ Hle) in Hr. unfold rate_limit_middleware, skipped_path.
  destruct (startswith path "/static" || _) eqn:Esk.
  { intros [= <- <-]. apply uncounted_keeps; [|done..]. unfold monitored.
    apply orb_true_iff in Esk as [->| ->]; [done|by rewrite andb_false_r]. }
  unfold check_rate_limit. rewrite (limits_apply_enabled lan c ip Hap). cbn [negb].
  destruct (is_whitelisted lan c (client_ip addr)) eqn:Ew.
  { intros [= <- <-]. apply uncounted_keeps; [|done..].
    destruct (String.eqb_spec (client_ip addr) ip) as [E|]; [|by rewrite andb_false_r].
    rewrite E, (limits_apply_listed lan c ip Hap) in Ew. done. }
  set (pat := pattern_for c path). change (_get_key c (client_ip addr) path) with (key_of (client_ip addr) pat).
  set (b := default _ (buckets s !! key_of (client_ip addr) pat)).
  destruct (take_token (get_limit c path) now b) as [ok b'] eqn:Et.
  assert (remembers c ip pattern (if ok then l ++ [(addr, path, now)] else l) now
    {| buckets := <[key_of (client_ip addr) pat:=b']> (buckets s); total_requests := S (total_requests s);
       rate_limited := if ok then rate_limited s else S (rate_limited s);
       by_endpoint := count_endpoint path ok (by_endpoint s) |}
    /\ bounded c ip pattern (if ok then l ++ [(addr, path, now)] else l)) as Hgoal.
  2: { destruct ok; [intros [= <- <-]; exact Hgoal|]. unfold describe. intros [= <- <-]. exact Hgoal. }
  assert (forall a p t, (a, p, t) ∈ (if ok then l ++ [(addr, path, now)] else l) -> t <= now) as Hc'.
  { intros a p t. destruct ok; [|by apply Hr]. intros [Hin|[= -> -> ->]%list_elem_of_singleton]%elem_of_app; [by eapply Hr|lia]. }
  destruct (decide (key_of ip pattern = key_of (client_ip addr) pat)) as [E|E].
  - destruct (bucket_keeps c ip pattern l now s b (get_limit c path) ok b' Hr) as (H1 & H2 & H3); [|done|].
    { rewrite E. unfold b. by destruct (buckets s !! key_of (client_ip addr) pat). }
    split; [split; [exact Hc'|]|].
    + simpl. rewrite E, lookup_insert_eq. simpl. rewrite H2. destruct ok; [|by rewrite app_nil_r].
      rewrite hits_snoc, List.filter_app. apply sublist_app; [done|]. destruct (monitored path && _ && _); simpl; [|apply sublist_nil_l].
      replace (now - now <? window) with true by (symmetry; apply Z.ltb_lt; unfold window, second; lia). done.
    + destruct ok; [|done]. specialize (H3 eq_refl). apply sublist_length in H1.
      destruct (monitored path && (client_ip addr =? ip)%string && (pat =? pattern)%string) eqn:Em.
      * apply andb_true_iff in Em as [_ Em%String.eqb_eq]. unfold get_limit in H3. fold pat in H3. rewrite Em in H3.
        apply counted_bounded; [lia|apply Hr|lia|done].
      * intros T. rewrite hits_snoc. fold pat. rewrite Em, app_nil_r. apply Hb.
  - assert (monitored path && (client_ip addr =? ip)%string && (pat =? pattern)%string = false) as Em.
    { apply not_true_iff_false. intros [[_ <-%String.eqb_eq]%andb_true_iff <-%String.eqb_eq]%andb_true_iff. done. }
    split; [split; [exact Hc'|]|].
    + simpl. rewrite lookup_insert_ne by done. destruct ok; [|by apply Hr].
      rewrite hits_snoc. fold pat. rewrite Em, app_nil_r. apply Hr.
    + destruct ok; [|done]. intros T. rewrite hits_snoc. fold pat. rewrite Em, app_nil_r. apply Hb.
Qed.

Lemma serve_bounded lan c ip pattern calls : limits_apply lan c ip -> forall l clock s passed s',
  remembers c ip pattern l clock s -> bounded c ip pattern l ->
  Forall (fun '(_, _, t) => clock <= t) calls ->
  StronglySorted Z.le (snd <$> calls) ->
  serve lan c calls s = (passed, s') -> bounded c ip pattern (l ++ passed).
Proof.
  intros Hap. induction calls as [|[[addr path] now] calls IH]; intros l clock s passed s' Hr Hb Hge Hs; simpl.
  { intros [= <- <-]. by rewrite app_nil_r. }
  destruct (rate_limit_middleware lan c addr path now s) as [r s1] eqn:E1.
  destruct (serve lan c calls s1) as [p2 s2] eqn:E2. intros [= <- <-].
  inversion Hge as [|? ? Hnow Hge']; subst. inversion Hs as [|? ? Hs' Hall]; subst.
  destruct (middleware_keeps _ _ _ _ _ _ _ _ _ _ _ _ Hap Hnow Hr Hb E1) as [Hr' Hb'].
  assert (Forall (fun '(_, _, t) => now <= t) calls) as Hge2.
  { clear -Hall. rewrite Forall_fmap in Hall. eapply Forall_impl; [exact Hall|]. by intros [[? ?] ?]. }
  specialize (IH _ _ _ _ _ Hr' Hb' Hge2 Hs' E2). destruct r; [done|]. by rewrite <- app_assoc in IH.
Qed.

(** * Properties *)

(** C28. Sliding window. With the limiter on, a client that neither the whitelist nor the
    trust in the LAN exempts is let through by the middleware on one pattern (static files
    and health checks apart) at most the requests per minute of the pattern within any
    window of sixty seconds, whatever mix of clients and paths is served, on a clock that
    does not go back. Exempted clients are not limited. *)
Theorem window_bound (lan : string -> bool) (c : RateLimitConfig) (calls : list call)
    (passed : list call) (s : RateLimiter) (ip pattern : string) (T : Z) :
  limits_apply lan c ip ->
  StronglySorted Z.le (snd <$> calls) ->
  serve lan c calls empty_limiter = (passed, s) ->
  Z.of_nat (length (List.filter (in_window T) (hits c ip pattern passed)))
  <= Z.max 0 (rpm (limit_of c pattern)).
Proof.
  intros Hap Hs Hrun. destruct calls as [|[[i p] t0] calls].
  { simpl in Hrun. simplify_eq. simpl. lia. }
  apply (serve_bounded lan c ip pattern ((i, p, t0) :: calls) Hap [] t0 empty_limiter passed s); [| |  |done|done].
  - split; [by intros ? ? ? ?%elem_of_nil|]. simpl. apply sublist_nil_l.
  - intros ?. simpl. lia.
  - inversion Hs as [|? ? _ Hall]; subst. constructor; [lia|].
    rewrite Forall_fmap in Hall. eapply Forall_impl; [exact Hall|]. by intros [[? ?] ?].
Qed.

Definition demo_config : RateLimitConfig :=
  {| rl_env := fun _ => None; rl_enabled := None;
     rl_custom := [("/login", {| rpm := 2; burst := 5 |})]%string; rl_whitelist := ["198.51.100.1"]%string |}.
Definition demo_lan (ip : string) : bool := startswith ip "10." || startswith ip "192.168." || startswith ip "127.".

Definition demo_calls : list call :=
  [("203.0.113.7", "/login", 0); ("203.0.113.7", "/login/x", 10); ("203.0.113.7", "/login", 20);
   ("10.9.8.7", "/login", 21); ("10.9.8.7", "/login", 22); ("10.9.8.7", "/login", 23); ("198.51.100.1", "/login", 24);
   ("203.0.113.7", "/health", 25); ("203.0.113.7, 10.9.8.7", "/login", 26); ("203.0.113.7", "/login", window + 5)]%string.

Lemma window_bound_witness :
  (serve demo_lan demo_config demo_calls empty_limiter).1
  = [("203.0.113.7", "/login", 0); ("203.0.113.7", "/login/x", 10); ("10.9.8.7", "/login", 21); ("10.9.8.7", "/login", 22);
     ("10.9.8.7", "/login", 23); ("198.51.100.1", "/login", 24); ("203.0.113.7", "/health", 25);
     ("203.0.113.7", "/login", window + 5)]%string
  /\ Z.of_nat (length (List.filter (in_window 30)
       (hits demo_config "203.0.113.7" "/login"
          (serve demo_lan demo_config demo_calls empty_limiter).1))) <= 2.
Proof.
  split; [vm_compute; reflexivity|].
  apply (window_bound demo_lan demo_config demo_calls _
           (serve demo_lan demo_config demo_calls empty_limiter).2 "203.0.113.7" "/login" 30).
  - split; [right; by split|apply (bool_decide_unpack _); by vm_compute|left; by vm_compute].
  - unfold demo_calls, window, second. simpl.
    repeat (constructor; [|repeat (constructor; [lia|]); constructor]). constructor.
  - vm_compute. reflexivity.
Defined.

(* how many of the calls at these times one bucket lets through *)
Fixpoint takes (l : limit) (times : list Z) (b : bucket) : Z * bucket :=
  match times with
  | [] => (0, b)
  | t :: rest =>
      let '(ok, b1) := take_token l t b in
      let '(k, b2) := takes l rest b1 in
      ((if ok then 1 else 0) + k, b2)
  end.

Lemma takes_balance l times : forall b k b',
  0 <= rpm l -> 0 <= burst l -> 0 <= tokens b ->
  Forall (Z.le (last_update b)) times -> StronglySorted Z.le times ->
  takes l times b = (k, b') ->
  0 <= tokens b'
  /\ last_update b' = default (last_update b) (last times)
  /\ k * window + tokens b' <= tokens b + (last_update b' - last_update b) * rpm l.
Proof.
  assert (0 < window) as Hw by (unfold window, second; lia).
  induction times as [|t times IH]; intros b k b' Hr Hb Ht Hge Hs; simpl.
  { intros [= <- <-]. simpl. split_and!; [done|done|lia]. }
  destruct (take_token l t b) as [ok b1] eqn:E1. destruct (takes l times b1) as [k2 b2] eqn:E2.
  intros [= <- <-]. inversion Hge as [|? ? Hlt Hge']; subst. inversion Hs as [|? ? Hs' Hall]; subst.
  assert (last_update b1 = t /\ 0 <= tokens b1
          /\ (if ok then 1 else 0) * window + tokens b1 <= tokens b + (t - last_update b) * rpm l)
    as (Hl1 & Ht1 & Hb1).
  { unfold take_token in E1. destruct (_ && _) eqn:Eok; injection E1 as <- <-; simpl.
    - apply andb_true_iff in Eok as [Eok%Z.leb_le _]. split_and!; [done|lia|lia].
    - split_and!; [done| |lia]. apply Z.min_glb; [nia|]. nia. }
  destruct (IH b1 k2 b2) as (H1 & H2 & H3); [done..|by rewrite Hl1|done|done|].
  split_and!; [done| |].
  - rewrite H2, Hl1. destruct times as [|t' times]; [done|]. rewrite last_cons_cons.
    destruct (last (t' :: times)) eqn:El; [done|]. by apply last_None in El.
  - destruct ok; nia.
Qed.

(** Token bucket. On a clock that does not go back, a new bucket lets through
    at most its burst plus what the elapsed time refills at the configured rate. *)
Theorem burst_bound (l : limit) (t0 : Z) (times : list Z) :
  0 <= rpm l -> 0 <= burst l -> StronglySorted Z.le (t0 :: times) ->
  (takes l (t0 :: times) (fresh_bucket (burst l) t0)).1 * window
  <= burst l * window + (default t0 (last times) - t0) * rpm l.
Proof.
  intros Hr Hb Hs. assert (0 < window) as Hw by (unfold window, second; lia).
  destruct (takes l (t0 :: times) (fresh_bucket (burst l) t0)) as [k b'] eqn:E.
  apply takes_balance in E as (H1 & H2 & H3); [|done|done|simpl; nia| |done].
  - rewrite H2 in H3. simpl in *.
    assert (default t0 (last (t0 :: times)) = default t0 (last times)) as E'
      by (destruct times; [done|by rewrite last_cons_cons]).
    unfold fresh_bucket in *. simpl in *. rewrite E' in H3. lia.
  - inversion Hs as [|? ? _ Hall]; subst. constructor; [simpl; lia|exact Hall].
Qed.

Lemma burst_bound_witness :
  (takes {| rpm := 60; burst := 2 |} [0; 0; 0; second; second]
     (fresh_bucket 2 0)).1 = 3
  /\ (takes {| rpm := 60; burst := 2 |} [0; 0; 0; second; second]
        (fresh_bucket 2 0)).1 * window <= 2 * window + second * 60.
Proof.
  split; [vm_compute; reflexivity|].
  apply (burst_bound {| rpm := 60; burst := 2 |} 0 [0; 0; second; second]); [simpl; lia|simpl; lia|].
  repeat (constructor; [|repeat (constructor; [unfold second; lia|]); constructor]). constructor.
Defined.

(** ** The pattern of a path *)

Lemma prefixes_nest (p q l : list ascii) :
  list_prefix p l = true -> list_prefix q l = true -> (length p <= length q)%nat ->
  list_prefix p q = true.
Proof.
  revert q l. induction p as [|a p IH]; intros q l Hp Hq Hle; [done|].
  destruct q as [|b q]; [simpl in Hle; lia|]. destruct l as [|x l]; [done|]. simpl in *.
  apply andb_true_iff in Hp as [Ha Hp]. apply andb_true_iff in Hq as [Hb Hq].
  apply Ascii.eqb_eq in Ha as ->. apply Ascii.eqb_eq in Hb as ->.
  rewrite Ascii.eqb_refl. simpl. eapply IH; [done..|lia].
Qed.

(* no pattern hides a longer one that comes after it *)
Fixpoint no_shadow (l : list string) : bool :=
  match l with
  | [] => true
  | p :: rest => forallb (fun q => negb (startswith q p)) rest && no_shadow rest
  end.

Lemma find_longest path (ok : string -> bool) l p :
  no_shadow (List.filter ok l) = true ->
  List.find (fun p => ok p && startswith path p) l = Some p ->
  forall q, q ∈ l -> ok q = true -> startswith path q = true -> (slen q <= slen p)%nat.
Proof.
  induction l as [|x l IH]; simpl; [done|]. intros Hn Hf q Hq Hok Hs.
  destruct (ok x) eqn:Ex; simpl in *.
  - apply andb_true_iff in Hn as [Hx Hn]. destruct (startswith path x) eqn:Esx; simpl in *.
    + injection Hf as <-. apply elem_of_cons in Hq as [->|Hq]; [lia|].
      destruct (Nat.le_gt_cases (slen q) (slen x)) as [|Hgt]; [done|]. exfalso.
      rewrite forallb_forall in Hx. specialize (Hx q).
      rewrite negb_true_iff in Hx. enough (startswith q x = true) by (rewrite Hx in *; [done|];
        apply filter_In; split; [by apply list_elem_of_In|done]).
      unfold startswith in *. eapply prefixes_nest; [done..|]. unfold slen in Hgt. lia.
    + apply elem_of_cons in Hq as [->|Hq]; [congruence|]. by eapply IH.
  - apply elem_of_cons in Hq as [->|Hq]; [congruence|]. by eapply IH.
Qed.

(** Without custom limits a path answers to the most specific pattern: the
    exact protocol path when it is one, else the longest configured prefix of the
    path, and the default when none matches. *)
Theorem pattern_for_most_specific (c : RateLimitConfig) (path : string) :
  rl_custom c = [] ->
  let patterns := List.filter (fun p => negb (str_in p PROTOCOL_EXACT_PATHS)
                                        && negb (p =? "_default")%string)
                    (default_limits (rl_env c)).*1 in
  let p := pattern_for c path in
  if str_in path PROTOCOL_EXACT_PATHS then p = path
  else if existsb (startswith path) patterns
  then p ∈ patterns /\ startswith path p = true
       /\ forall q, q ∈ patterns -> startswith path q = true -> (slen q <= slen p)%nat
  else p = "_default"%string.
Proof.
  intros Hc patterns p. unfold p, pattern_for. rewrite Hc.
  assert (forall q, q ∈ PROTOCOL_EXACT_PATHS -> has_key (default_limits (rl_env c)) q = true) as Hk.
  { intros q [->|[->|[]%elem_of_nil]%elem_of_cons]%elem_of_cons; vm_compute; reflexivity. }
  set (ok := fun p => negb (str_in p PROTOCOL_EXACT_PATHS) && negb (p =? "_default")%string).
  assert (no_shadow (List.filter ok (default_limits (rl_env c)).*1) = true) as Hns
    by (vm_compute; reflexivity).
  destruct (str_in path PROTOCOL_EXACT_PATHS) eqn:Ep.
  { apply str_in_spec in Ep. pose proof (Hk path Ep) as Hkp.
    apply elem_of_cons in Ep as [->|[->|[]%elem_of_nil]%elem_of_cons]; cbn [List.find PROTOCOL_EXACT_PATHS];
      rewrite Hkp; reflexivity. }
  assert (List.find (fun q => (path =? q)%string
            && (has_key (default_limits (rl_env c)) q || has_key [] q)) PROTOCOL_EXACT_PATHS = None) as ->.
  { apply str_in_false in Ep. destruct (List.find _ _) as [q|] eqn:Ef; [|done].
    apply List.find_some in Ef as [Hq%list_elem_of_In [E%String.eqb_eq _]%andb_true_iff].
    rewrite <- E in Hq. by destruct Ep. }
  simpl prefix_pattern at 1. unfold prefix_pattern.
  change (fun p0 : string => negb (str_in p0 PROTOCOL_EXACT_PATHS) && negb (p0 =? "_default")%string
            && startswith path p0) with (fun p0 => ok p0 && startswith path p0).
  pose proof (fun q => find_longest path ok (default_limits (rl_env c)).*1 q Hns) as Hlong.
  destruct (List.find (fun p0 => ok p0 && startswith path p0) _) as [q|] eqn:Ef.
  - pose proof Ef as Ef'. apply List.find_some in Ef' as [Hin [Hok Hs]%andb_true_iff].
    assert (q ∈ patterns) as Hq by (apply list_elem_of_In, filter_In; done).
    assert (existsb (startswith path) patterns = true) as ->.
    { apply existsb_exists. exists q. split; [by apply list_elem_of_In|done]. }
    split_and!; [done|done|]. intros q' Hq' Hs'.
    apply list_elem_of_In, filter_In in Hq' as [Hq'%list_elem_of_In Hok']. by eapply Hlong.
  - assert (existsb (startswith path) patterns = false) as ->; [|done].
    apply not_true_iff_false. intros (q & [Hq Hok]%filter_In & Hs)%existsb_exists.
    eapply List.find_none in Ef; [|exact Hq]. fold (ok q) in Hok. rewrite Hok, Hs in Ef. done.
Qed.

Lemma pattern_for_most_specific_witness :
  let c := {| rl_env := fun _ => None; rl_enabled := None; rl_custom := []; rl_whitelist := [] |} in
  pattern_for c "/api/v2/certificates/issue/7" = "/api/v2/certificates/issue"%string
  /\ pattern_for c "/tsa" = "/tsa"%string /\ pattern_for c "/tsa-config" = "_default"%string.
Proof.
  set (c := {| rl_env := fun _ => None; rl_enabled := None; rl_custom := []; rl_whitelist := [] |}).
  split_and!; [reflexivity| |reflexivity].
  exact (pattern_for_most_specific c "/tsa" eq_refl).
Defined.

(** ** Observations *)

(** The reset time told to an allowed client is the window plus the age of its
    oldest request, not what is left of the window: it grows while the window
    closes. *)
Lemma reset_grows_with_age :
  describe {| rpm := 10; burst := 10 |} (50 * second) true
    {| tokens := 0; last_update := 50 * second; requests := [0; 50 * second] |}
  = Allowed 0 10 110
  /\ describe {| rpm := 10; burst := 10 |} (50 * second) false
       {| tokens := 0; last_update := 50 * second; requests := [0; 50 * second] |}
     = Blocked 10 11.
Proof. vm_compute. split; reflexivity. Qed.

(** Clearing the buckets of an IPv6 address clears those of every longer address
    that extends it. *)
Lemma clear_bucket_takes_neighbours :
  let b := fresh_bucket 1 0 in
  let s := {| buckets := {[ "2001:db8::1:5:_default"%string := b ]}; total_requests := 0;
              rate_limited := 0; by_endpoint := ∅ |} in
  buckets (clear_bucket (Some "2001:db8::1"%string) s) !! "2001:db8::1:5:_default"%string = None.
Proof. vm_compute. reflexivity. Qed.
