(* ===== verification/PasswordPolicy.v ===== *)
(** * PasswordPolicy: password rules and strength

    Models [backend/security/password_policy.py]: the policy read from the
    settings, the rules a password has to pass with the error each one adds, and
    the strength score. The ratio of distinct characters is compared with 0.7 and
    0.5 as an exact fraction; the lengths at hand are far below the point where
    the floating-point quotient could differ. *)

From Stdlib Require Import Ascii String.
From stdpp Require Import prelude strings.
From S2P Require Import Prelude Scalars.

Local Open Scope Z_scope.

Record PasswordPolicy := {
  min_length : Z;
  max_length : Z;
  require_uppercase : bool;
  require_lowercase : bool;
  require_digit : bool;
  require_special : bool;
  special_chars : string;
  blacklist : list string;
}.

Definition default_blacklist : list string :=
  ["password"; "password1"; "password123"; "12345678"; "123456789"; "1234567890"; "qwerty";
   "qwerty123"; "letmein"; "admin"; "admin123"; "administrator"; "changeme"; "changeme123";
   "welcome"; "abc123"; "monkey"; "dragon"; "master"; "password!"; "P@ssword1"; "P@ssw0rd"]%string.

Definition default_special : string := "!@#$%^&*()_+-=[]{}|;:,.<>?".

Definition _DEFAULT_POLICY : PasswordPolicy :=
  {| min_length := 8; max_length := 128; require_uppercase := true; require_lowercase := true;
     require_digit := true; require_special := true; special_chars := default_special;
     blacklist := default_blacklist |}.

(* the value of a setting, None without a row *)
Definition settings : Type := string -> option string.

Definition get_cfg_bool (cfg : settings) (key : string) (default : bool) : bool :=
  match cfg key with
  | None => default
  | Some v => str_in (lower v) ["true"; "1"; "yes"]
  end.

Definition get_cfg_int (cfg : settings) (key : string) (default : Z) : Z :=
  match cfg key with
  | None => default
  | Some v => match py_int 10 (lower v) with Some z => z | None => default end
  end.

Definition load_policy_from_config (cfg : settings) : PasswordPolicy :=
  {| min_length := get_cfg_int cfg "min_password_length" (min_length _DEFAULT_POLICY);
     max_length := get_cfg_int cfg "max_password_length" (max_length _DEFAULT_POLICY);
     require_uppercase := get_cfg_bool cfg "password_require_uppercase"
                            (require_uppercase _DEFAULT_POLICY);
     require_lowercase := get_cfg_bool cfg "password_require_lowercase"
                            (require_lowercase _DEFAULT_POLICY);
     require_digit := get_cfg_bool cfg "password_require_numbers" (require_digit _DEFAULT_POLICY);
     require_special := get_cfg_bool cfg "password_require_special"
                          (require_special _DEFAULT_POLICY);
     special_chars := default_special;
     blacklist := default_blacklist |}.

Inductive policy_error :=
| Required | MinLength | MaxLength | Uppercase | Lowercase | Digit | Special | Common
| Username | Similar | Sequential | Repeated.

(* the substrings of length k *)
Definition slices {A} (k : nat) (l : list A) : list (list A) :=
  (fun i => take k (drop i l)) <$> seq 0 (length l + 1 - k).

Definition sequences : list string :=
  ["abcdefghijklmnopqrstuvwxyz"; "ABCDEFGHIJKLMNOPQRSTUVWXYZ"; "0123456789"; "qwertyuiop";
   "asdfghjkl"; "zxcvbnm"]%string.

Definition _has_sequential_chars (password : string) (min_seq : nat) : bool :=
  existsb (fun sq =>
    existsb (fun part => list_contains part (chars password)
                         || list_contains (rev part) (chars password))
      (slices min_seq (chars sq))) sequences.

(* len(set(l)) *)
Definition distinct (l : list ascii) : nat := length (remove_dups l).

Definition _has_repeated_chars (password : string) (min_repeat : nat) : bool :=
  existsb (fun part => Nat.eqb (distinct part) 1) (slices min_repeat (chars password)).

Definition special_char (specials : string) (c : ascii) : bool :=
  existsb (Ascii.eqb c) (chars specials).

Definition add_if (b : bool) (e : policy_error) (l : list policy_error) : list policy_error :=
  if b then l ++ [e] else l.

Definition username_errors (username : option string) (password : string) (l : list policy_error)
    : list policy_error :=
  match username with
  | None | Some "" => l
  | Some u =>
      let l := add_if (contains (lower u) (lower password)) Username l in
      add_if (contains (lower password) (lower u) && (slen password <? slen u)%nat) Similar l
  end.

Definition validate_password (password : string) (p : PasswordPolicy) (username : option string)
    : bool * list policy_error :=
  if negb (nonempty password) then (false, [Required])
  else
    let l := add_if (Z.of_nat (slen password) <? min_length p) MinLength [] in
    let l := add_if (max_length p <? Z.of_nat (slen password)) MaxLength l in
    let l := add_if (require_uppercase p && negb (any_char is_upper password)) Uppercase l in
    let l := add_if (require_lowercase p && negb (any_char is_lower password)) Lowercase l in
    let l := add_if (require_digit p && negb (any_char is_digit password)) Digit l in
    let l := add_if (require_special p
                     && negb (any_char (special_char (special_chars p)) password)) Special l in
    let l := add_if (str_in (lower password) (lower <$> blacklist p)) Common l in
    let l := username_errors username password l in
    let l := add_if (_has_sequential_chars password 4) Sequential l in
    let l := add_if (_has_repeated_chars password 4) Repeated l in
    (match l with [] => true | _ => false end, l).

Inductive level := Weak | Fair | Good | Strong.

Definition points (b : bool) (n : Z) : Z := if b then n else 0.

(* score, level, feedback *)
Definition get_password_strength (password : string) : Z * level * list string :=
  if negb (nonempty password) then (0, Weak, ["Password is empty"]%string)
  else
    let length_ := Z.of_nat (slen password) in
    let feedback := if length_ <? 8 then ["Use at least 8 characters"]%string else [] in
    let has_upper := any_char is_upper password in
    let has_lower := any_char is_lower password in
    let has_digit := any_char is_digit password in
    let has_special := any_char (special_char default_special) password in
    let score := points (8 <=? length_) 10 + points (12 <=? length_) 10
                 + points (16 <=? length_) 10 + points has_upper 10 + points has_lower 10
                 + points has_digit 10 + points has_special 10 in
    let feedback := feedback
      ++ (if has_upper then [] else ["Add uppercase letters"]%string)
      ++ (if has_lower then [] else ["Add lowercase letters"]%string)
      ++ (if has_digit then [] else ["Add numbers"]%string)
      ++ (if has_special then [] else ["Add special characters"]%string) in
    let unique_chars := Z.of_nat (distinct (chars password)) in
    let '(score, feedback) :=
      if 7 * length_ <? 10 * unique_chars then (score + 20, feedback)
      else if length_ <? 2 * unique_chars then (score + 10, feedback)
      else (score, feedback ++ ["Use more varied characters"]%string) in
    let '(score, feedback) :=
      if str_in (lower password) (blacklist _DEFAULT_POLICY)
      then (Z.min score 10, ["This password is too common"]%string) else (score, feedback) in
    let '(score, feedback) :=
      if _has_sequential_chars password 4
      then (score - 10, feedback ++ ["Avoid sequential characters"]%string) else (score, feedback) in
    let '(score, feedback) :=
      if _has_repeated_chars password 3
      then (score - 10, feedback ++ ["Avoid repeated characters"]%string) else (score, feedback) in
    let score := Z.max 0 (Z.min 100 score) in
    (score,
     if 80 <=? score then Strong else if 60 <=? score then Good
     else if 40 <=? score then Fair else Weak,
     match feedback with [] => ["Password looks good!"]%string | _ => feedback end).

Inductive rule := RuleMinLength (n : Z) | RuleUppercase | RuleLowercase | RuleDigit
| RuleSpecial (chars : string).

Definition get_policy_requirements (p : PasswordPolicy) : Z * Z * list rule :=
  (min_length p, max_length p,
   [RuleMinLength (min_length p)]
   ++ (if require_uppercase p then [RuleUppercase] else [])
   ++ (if require_lowercase p then [RuleLowercase] else [])
   ++ (if require_digit p then [RuleDigit] else [])
   ++ (if require_special p then [RuleSpecial (special_chars p)] else [])).

(** * Specification *)

(* a run of four equal characters *)
Definition four_in_a_row (s : string) : Prop :=
  exists a c b, chars s = a ++ [c; c; c; c] ++ b.

(* four characters in the order of the alphabet, the digits or a keyboard row, either way *)
Definition four_in_sequence (s : string) : Prop :=
  exists sq part, sq ∈ sequences /\ length part = 4%nat
    /\ (exists a b, chars sq = a ++ part ++ b)
    /\ ((exists a b, chars s = a ++ part ++ b) \/ (exists a b, chars s = a ++ rev part ++ b)).

Definition substring (p s : string) : Prop := exists a b, s = (a ++ p ++ b)%string.

(** * Lemmas *)

Lemma elem_of_slices {A} k (l part : list A) :
  (0 < k)%nat -> part ∈ slices k l <-> length part = k /\ exists a b, l = a ++ part ++ b.
Proof.
  intros Hk. unfold slices. rewrite list_elem_of_fmap. setoid_rewrite elem_of_seq. split.
  - intros (i & -> & Hi). split; [rewrite length_take, length_drop; lia|].
    exists (take i l), (drop k (drop i l)). by rewrite !take_drop.
  - intros (Hl & a & b & ->). exists (length a). split.
    + rewrite drop_app_length, <- Hl, take_app_length. done.
    + rewrite !length_app. lia.
Qed.

Lemma contains_spec p s : contains p s = true <-> substring p s.
Proof.
  unfold contains, substring. rewrite list_contains_spec. split.
  - intros (a & b & E). exists (unchars a), (unchars b). apply chars_inj.
    by rewrite !chars_app, !chars_unchars.
  - intros (a & b & ->). exists (chars a), (chars b). by rewrite !chars_app.
Qed.

Lemma sequential_spec s : _has_sequential_chars s 4 = true <-> four_in_sequence s.
Proof.
  unfold _has_sequential_chars, four_in_sequence. rewrite existsb_exists.
  setoid_rewrite existsb_exists. setoid_rewrite orb_true_iff.
  setoid_rewrite list_contains_spec. setoid_rewrite <- list_elem_of_In.
  split.
  - intros (sq & Hsq & part & Hp & H). apply elem_of_slices in Hp as [Hl Hp]; [|lia].
    exists sq, part. done.
  - intros (sq & part & Hsq & Hl & Hp & H). exists sq. split; [done|]. exists part.
    split; [|done]. apply elem_of_slices; [lia|done].
Qed.

Lemma distinct_one (a b c d : ascii) :
  distinct [a; b; c; d] = 1%nat <-> a = d /\ b = d /\ c = d.
Proof.
  unfold distinct. split.
  - intros H. assert (forall x y, x ∈ [a; b; c; d] -> y ∈ [a; b; c; d] -> x = y) as Hall.
    { intros x y Hx Hy. apply elem_of_remove_dups in Hx, Hy.
      destruct (remove_dups [a; b; c; d]) as [|z [|? ?]]; simpl in H; [lia| |lia].
      apply list_elem_of_singleton in Hx, Hy. congruence. }
    split_and!; apply Hall; set_solver.
  - intros (-> & -> & ->). pose proof (NoDup_remove_dups [d; d; d; d]) as Hn.
    assert (forall x, x ∈ remove_dups [d; d; d; d] <-> x = d) as Hd.
    { intros x. rewrite elem_of_remove_dups. set_solver. }
    destruct (remove_dups [d; d; d; d]) as [|x [|y l]]; [|done|].
    + exfalso. apply (not_elem_of_nil d). by apply Hd.
    + apply NoDup_cons in Hn as [Hn _]. destruct Hn.
      rewrite (proj1 (Hd x)), (proj1 (Hd y)); set_solver.
Qed.

Lemma repeated_spec s : _has_repeated_chars s 4 = true <-> four_in_a_row s.
Proof.
  unfold _has_repeated_chars, four_in_a_row. rewrite existsb_exists. split.
  - intros (part & Hp%list_elem_of_In & Hd%Nat.eqb_eq).
    apply elem_of_slices in Hp as (Hl & l & r & E); [|lia].
    destruct part as [|a [|b [|c [|d [|? ?]]]]]; simpl in Hl; try lia.
    apply distinct_one in Hd as (-> & -> & ->). by exists l, d, r.
  - intros (l & c & r & E). exists [c; c; c; c]. split.
    + apply list_elem_of_In, elem_of_slices; [lia|]. split; [done|]. eauto.
    + apply Nat.eqb_eq, distinct_one. done.
Qed.

Lemma any_char_spec p s : any_char p s = true <-> exists c, c ∈ chars s /\ p c = true.
Proof. unfold any_char. rewrite existsb_exists. by setoid_rewrite <- list_elem_of_In. Qed.

Lemma add_if_nil b e l : add_if b e l = [] <-> b = false /\ l = [].
Proof. destruct b; simpl; [|naive_solver]. split; [|by intros []]. by destruct l. Qed.

Lemma blacklist_spec s l : str_in (lower s) (lower <$> l) = true <-> exists x, x ∈ l /\ lower s = lower x.
Proof. rewrite str_in_spec, list_elem_of_fmap. naive_solver. Qed.

(** A required class of characters. *)
Lemma class_spec (req : bool) f s :
  req && negb (any_char f s) = false <-> (req = true -> exists c, c ∈ chars s /\ f c = true).
Proof. rewrite <- any_char_spec. destruct req, (any_char f s); naive_solver. Qed.

Lemma false_iff (b : bool) P : (b = true <-> P) -> (b = false <-> ~ P).
Proof. intros <-. by rewrite not_true_iff_false. Qed.

Lemma special_spec t c : special_char t c = true <-> c ∈ chars t.
Proof.
  unfold special_char. rewrite existsb_exists. setoid_rewrite <- list_elem_of_In.
  setoid_rewrite Ascii.eqb_eq. naive_solver.
Qed.

Lemma username_errors_nil username s l :
  username_errors username s l = [] <->
  (forall u, username = Some u -> u <> ""%string ->
     ~ substring (lower u) (lower s)
     /\ ~ (substring (lower s) (lower u) /\ (slen s < slen u)%nat)) /\ l = [].
Proof.
  unfold username_errors. destruct username as [[|c u]|]; [naive_solver| |naive_solver].
  rewrite !add_if_nil, (false_iff _ _ (contains_spec _ _)).
  rewrite (false_iff _ (substring (lower s) (lower (String c u)) /\ (slen s < slen (String c u))%nat)).
  - split.
    + intros (H2 & H1 & ->). split; [|done]. by intros u' [= <-] _.
    + intros [H ->]. by destruct (H (String c u) eq_refl ltac:(done)).
  - by rewrite andb_true_iff, contains_spec, Nat.ltb_lt.
Qed.

(** * Properties *)

(** A password is accepted exactly when it obeys every rule of the policy: it
    is not empty, its length is within the bounds, each required class of
    characters is present, it is no blacklisted word whatever its case, it does
    not contain the user name nor is a shorter piece of it, and it holds neither
    four equal characters in a row nor four in sequence. *)
Theorem validate_password_iff (password : string) (p : PasswordPolicy) (username : option string) :
  (validate_password password p username).1 = true <->
  password <> ""%string
  /\ min_length p <= Z.of_nat (slen password) <= max_length p
  /\ (require_uppercase p = true -> exists c, c ∈ chars password /\ is_upper c = true)
  /\ (require_lowercase p = true -> exists c, c ∈ chars password /\ is_lower c = true)
  /\ (require_digit p = true -> exists c, c ∈ chars password /\ is_digit c = true)
  /\ (require_special p = true -> exists c, c ∈ chars password /\ c ∈ chars (special_chars p))
  /\ (forall x, x ∈ blacklist p -> lower password <> lower x)
  /\ (forall u, username = Some u -> u <> ""%string ->
        ~ substring (lower u) (lower password)
        /\ ~ (substring (lower password) (lower u) /\ (slen password < slen u)%nat))
  /\ ~ four_in_sequence password /\ ~ four_in_a_row password.
Proof.
  unfold validate_password. destruct password as [|ch rest]; [naive_solver|].
  set (s := String ch rest). assert (s <> ""%string) as Hne by done. clearbody s.
  destruct (nonempty s) eqn:Es; [|by destruct s]. cbn [negb].
  assert (forall l : list policy_error, match l with [] => true | _ => false end = true <-> l = []) as Hnil
    by (intros []; naive_solver).
  cbn [fst]. rewrite Hnil, !add_if_nil.
  rewrite username_errors_nil, !add_if_nil, !class_spec, !Z.ltb_ge.
  rewrite (false_iff _ _ (sequential_spec s)), (false_iff _ _ (repeated_spec s)),
    (false_iff _ _ (blacklist_spec s _)).
  setoid_rewrite special_spec. naive_solver.
Qed.

Lemma strength_demo :
  validate_password "Tr0ub4dor&3" _DEFAULT_POLICY (Some "alice"%string) = (true, [])
  /\ validate_password "Alice-2345" _DEFAULT_POLICY (Some "alice"%string) = (false, [Username; Sequential]).
Proof. vm_compute. split; reflexivity. Qed.

Lemma points_bound b n : 0 <= n -> 0 <= points b n <= n.
Proof. destruct b; simpl; lia. Qed.

(** The strength score lies between 0 and 90 (no password reaches the 100 of
    its scale), the level names the band of the score, there is always some
    feedback, and a password whose lower-case form is on the blacklist is weak. *)
Theorem strength_bounds (password : string) :
  let '(score, lvl, feedback) := get_password_strength password in
  0 <= score <= 90 /\ feedback <> []
  /\ (lvl = Strong <-> 80 <= score) /\ (lvl = Good <-> 60 <= score < 80)
  /\ (lvl = Fair <-> 40 <= score < 60) /\ (lvl = Weak <-> score < 40)
  /\ (lower password ∈ blacklist _DEFAULT_POLICY -> lvl = Weak).
Proof.
  unfold get_password_strength. destruct (nonempty password); cbn [negb].
  2: { split_and!; [lia|lia|done|..]; try (split; [done|lia]); done. }
  set (base := points _ _ + _ + _ + _ + _ + _ + _).
  assert (0 <= base <= 70) as Hb.
  { unfold base. repeat match goal with |- context [points ?b 10] =>
      pose proof (points_bound b 10 ltac:(lia)); generalize dependent (points b 10); intros end. lia. }
  clearbody base. set (fb := (if _ <? 8 then _ else _) ++ _). clearbody fb.
  destruct (if 7 * _ <? _ then _ else _) as [s1 f1] eqn:E1.
  assert (0 <= s1 <= 90) as H1 by (repeat case_match; simplify_eq; lia). clear E1.
  destruct (if str_in (lower password) _ then _ else _) as [s2 f2] eqn:E2.
  assert (s2 <= 90 /\ (lower password ∈ blacklist _DEFAULT_POLICY -> s2 <= 10)) as [H2 H2'].
  { destruct (str_in (lower password) (blacklist _DEFAULT_POLICY)) eqn:Eb; simplify_eq; [lia|].
    apply str_in_false in Eb. split; [lia|done]. }
  clear E2. destruct (if _has_sequential_chars password 4 then _ else _) as [s3 f3] eqn:E3.
  assert (s3 <= s2) as H3 by (case_match; simplify_eq; lia). clear E3.
  destruct (if _has_repeated_chars password 3 then _ else _) as [s4 f4] eqn:E4.
  assert (s4 <= s3) as H4 by (case_match; simplify_eq; lia). clear E4.
  set (score := Z.max 0 (Z.min 100 s4)).
  assert (0 <= score <= 90 /\ (lower password ∈ blacklist _DEFAULT_POLICY -> score <= 10)) as [Hs Hs'].
  { unfold score. split; [lia|]. intros ?%H2'. lia. }
  clearbody score.
  destruct (Z.leb_spec 80 score); [|destruct (Z.leb_spec 60 score); [|destruct (Z.leb_spec 40 score)]].
  all: split_and!; [lia|lia|by destruct f4|..]; try (split; [done || (intros _; lia)|done || lia]).
  all: try done; intros ?%Hs'; lia.
Qed.

(** Two entries of the blacklist are not in lower case and the strength meter
    compares them with the lower-case password: it does not see them, while the
    validation does. *)
Lemma strength_misses_mixed_case_blacklist :
  (validate_password "P@ssw0rd" _DEFAULT_POLICY None).2 = [Common]
  /\ get_password_strength "P@ssw0rd" = (70, Good, ["Password looks good!"]%string).
Proof. vm_compute. split; reflexivity. Qed.
