(* ===== verification/AuditChain.v ===== *)
(** * AuditChain: the sealed audit ledger

    Models [backend/services/audit/chain.py] (appending a sealed entry, the key
    history, the verification walk) over the rows of
    [backend/models/audit_log.py]. The two seals are parameters: SHA-256 of the
    joined text, recomputable by anyone, and HMAC-SHA256 of the JSON message under
    the chain key. A ledger is the list of its rows by ascending id; the key
    history is the file kept beside the master key. *)

From Stdlib Require Import Ascii String.
From stdpp Require Import prelude strings.
From S2P Require Import Prelude Scalars.

Local Open Scope Z_scope.

Definition SHA256_CHAIN : Z := 1.
Definition KEYED_CHAIN : Z := 2.
Definition _ERROR_LIST_CAP : nat := 1000.

(* what an entry says *)
Record body := {
  timestamp : option Z; username : option string; action : option string;
  resource_type : option string; resource_id : option string; resource_name : option string;
  details : option string; ip_address : option string; user_agent : option string;
  success : option bool;
}.

(* the JSON of retired_keys *)
Record rotation := { attested : bool; keys : list (string * Z) }.

Section Ledger.
Context {digest : Type} `{EqDecision digest} (GENESIS : digest).

Record AuditLog := {
  id : Z;
  log_body : body;
  prev_hash : option digest;
  entry_hash : option digest;
  hash_version : option Z;
  hash_key_id : option string;
  chain_start : option Z;
  retired_keys : option rotation;
}.

(* the list that is serialized and sealed under the key *)
Record message := {
  m_key_id : option string; m_id : Z; m_chain_start : option Z; m_retired : option rotation;
  m_body : body; m_prev : option digest;
}.

(* any function of the body: the SHA-256 line leaves resource_name, ip_address and user_agent out, so
   bodies that differ in these have one seal, and nothing below assumes otherwise *)
Variable sha256_seal : Z -> body -> option digest -> digest.
Variable hmac_seal : string -> message -> digest.

Definition message_of (r : AuditLog) (prev : option digest) : message :=
  {| m_key_id := hash_key_id r; m_id := id r; m_chain_start := chain_start r;
     m_retired := retired_keys r; m_body := log_body r; m_prev := prev |}.

Definition compute_hash (r : AuditLog) (prev : option digest) (key : option string) : digest :=
  match key with
  | None => sha256_seal (id r) (log_body r) prev
  | Some k => hmac_seal k (message_of r prev)
  end.

(** ** Appending *)

(* the key history: current key id, ids so far *)
Record keyring := { current : option string; history : list string }.

Definition _reconcile_keyring (ring : option keyring) (key_id : string) : option keyring :=
  match ring with
  | Some r => if bool_decide (current r = Some key_id) then None
              else
                let h := match current r with
                         | Some c => if nonempty c && negb (str_in c (history r))
                                     then history r ++ [c] else history r
                         | None => history r
                         end in
                Some {| current := Some key_id;
                        history := List.filter (fun k => negb (k =? key_id)%string) h ++ [key_id] |}
  | None => Some {| current := Some key_id; history := [key_id] |}
  end.

(* {key id: last entry id} of the other keys *)
Fixpoint set_last (k : string) (i : Z) (l : list (string * Z)) : list (string * Z) :=
  match l with
  | [] => [(k, i)]
  | (k', j) :: l' => if (k' =? k)%string then (k', Z.max j i) :: l' else (k', j) :: set_last k i l'
  end.

Definition in_ledger (key_id : string) (before : list AuditLog) : list (string * Z) :=
  fold_left (fun acc r =>
    match hash_key_id r with
    | Some k => if bool_decide (hash_version r = Some KEYED_CHAIN) && negb (k =? key_id)%string
                then set_last k (id r) acc else acc
    | None => acc
    end) before [].

Definition _rotation (before : list AuditLog) (key_id : string) (ring : option keyring)
    : option rotation :=
  let others := in_ledger key_id before in
  match ring with
  | None => match others with [] => None | _ => Some {| attested := false; keys := others |} end
  | Some r =>
      if bool_decide (current r = Some key_id) then None
      else match List.filter (fun kv => str_in kv.1 (history r)) others with
           | [] => None
           | known => Some {| attested := true; keys := known |}
           end
  end.

Definition min_id (l : list AuditLog) : option Z :=
  match l with
  | [] => None
  | r :: l' => Some (fold_left (fun m r => Z.min m (id r)) l' (id r))
  end.

Definition opt_digest_or (o : option digest) : digest := default GENESIS o.

(* the new row, with the key history to write once it is committed *)
Definition append_entry (ledger : list AuditLog) (new_id : Z) (b : body)
    (purge_from : option Z) (key : option (string * string)) (ring : option keyring)
    : AuditLog * option keyring :=
  let previous := last ledger in
  let prev := opt_digest_or (r ← previous; entry_hash r) in
  let row start version kid retired seal :=
    {| id := new_id; log_body := b; prev_hash := Some prev; entry_hash := seal;
       hash_version := Some version; hash_key_id := kid; chain_start := start;
       retired_keys := retired |} in
  let start := match purge_from with
               | Some p => Some (default new_id (min_id (List.filter (fun r => p <=? id r)
                             (ledger ++ [row None 0 None None None]))))
               | None => None
               end in
  match key with
  | None =>
      let e := row start SHA256_CHAIN None None None in
      (row start SHA256_CHAIN None None (Some (compute_hash e (Some prev) None)), None)
  | Some (key_bytes, key_id) =>
      let continues := match previous with
                       | Some p => bool_decide (hash_version p = Some KEYED_CHAIN)
                                   && bool_decide (hash_key_id p = Some key_id)
                       | None => false
                       end in
      let '(start, retired) :=
        if continues then (start, None)
        else (match start with
              | Some s => Some s
              | None => min_id (ledger ++ [row None 0 None None None])
              end, _rotation ledger key_id ring) in
      let e := row start KEYED_CHAIN (Some key_id) retired None in
      (row start KEYED_CHAIN (Some key_id) retired (Some (compute_hash e (Some prev) (Some key_bytes))),
       _reconcile_keyring ring key_id)
  end.

(** ** The verification walk *)

Inductive code := NotSealedByKey | Link | Tampered | UnknownVersion | UnattestedKey | Truncated
| BeforeStart.

Record walk := {
  w_key : option (string * string);
  errors : list (Z * code);
  error_count : nat;
  first_error : option (Z * code);
  unsealed : list Z;
  checked : nat;
  first : option (Z * option Z * digest);
  w_prev : digest;
  first_keyed : option Z;
  w_rotation : list (string * Z);
  rotation_attested : bool;
  errors_at_first_keyed : nat;
  run_start : option Z;
  run_index : nat;
  protected_from : option Z;
  not_attested : nat;
  retired : list (option string * (Z * Z));
  retired_count : nat;
  keyed_start : option Z;
  keyed_min_start : option Z;
  any_start : option Z;
}.

Definition new_walk (key : option (string * string)) : walk :=
  {| w_key := key; errors := []; error_count := 0; first_error := None; unsealed := [];
     checked := 0; first := None; w_prev := GENESIS; first_keyed := None; w_rotation := [];
     rotation_attested := false; errors_at_first_keyed := 0; run_start := None; run_index := 0;
     protected_from := None; not_attested := 0; retired := []; retired_count := 0;
     keyed_start := None; keyed_min_start := None; any_start := None |}.

Definition key_id_of (w : walk) : option string := snd <$> w_key w.

Definition error (i : Z) (c : code) (w : walk) : walk :=
  {| w_key := w_key w;
     errors := if (length (errors w) <? _ERROR_LIST_CAP)%nat then errors w ++ [(i, c)] else errors w;
     error_count := S (error_count w);
     first_error := match first_error w with
                    | None => Some (i, c)
                    | Some (j, c') => if i <? j then Some (i, c) else Some (j, c')
                    end;
     unsealed := unsealed w; checked := checked w; first := first w; w_prev := w_prev w;
     first_keyed := first_keyed w; w_rotation := w_rotation w;
     rotation_attested := rotation_attested w; errors_at_first_keyed := errors_at_first_keyed w;
     run_start := run_start w; run_index := run_index w; protected_from := protected_from w;
     not_attested := not_attested w; retired := retired w; retired_count := retired_count w;
     keyed_start := keyed_start w; keyed_min_start := keyed_min_start w; any_start := any_start w |}.

Definition error_if (b : bool) (i : Z) (c : code) (w : walk) : walk := if b then error i c w else w.

(* the writes of feed, by group *)
Definition set_position (w : walk) (n : nat) (f : option (Z * option Z * digest)) (p : digest) : walk :=
  {| w_key := w_key w; errors := errors w; error_count := error_count w; first_error := first_error w;
     unsealed := unsealed w; checked := n; first := f; w_prev := p; first_keyed := first_keyed w;
     w_rotation := w_rotation w; rotation_attested := rotation_attested w;
     errors_at_first_keyed := errors_at_first_keyed w; run_start := run_start w;
     run_index := run_index w; protected_from := protected_from w; not_attested := not_attested w;
     retired := retired w; retired_count := retired_count w; keyed_start := keyed_start w;
     keyed_min_start := keyed_min_start w; any_start := any_start w |}.
Definition set_run (w : walk) (s : option Z) (i : nat) : walk :=
  {| w_key := w_key w; errors := errors w; error_count := error_count w; first_error := first_error w;
     unsealed := unsealed w; checked := checked w; first := first w; w_prev := w_prev w;
     first_keyed := first_keyed w; w_rotation := w_rotation w;
     rotation_attested := rotation_attested w; errors_at_first_keyed := errors_at_first_keyed w;
     run_start := s; run_index := i; protected_from := protected_from w;
     not_attested := not_attested w; retired := retired w; retired_count := retired_count w;
     keyed_start := keyed_start w; keyed_min_start := keyed_min_start w; any_start := any_start w |}.
Definition set_unsealed (w : walk) (l : list Z) : walk :=
  {| w_key := w_key w; errors := errors w; error_count := error_count w; first_error := first_error w;
     unsealed := l; checked := checked w; first := first w; w_prev := w_prev w;
     first_keyed := first_keyed w; w_rotation := w_rotation w;
     rotation_attested := rotation_attested w; errors_at_first_keyed := errors_at_first_keyed w;
     run_start := run_start w; run_index := run_index w; protected_from := protected_from w;
     not_attested := not_attested w; retired := retired w; retired_count := retired_count w;
     keyed_start := keyed_start w; keyed_min_start := keyed_min_start w; any_start := any_start w |}.
Definition set_retired (w : walk) (l : list (option string * (Z * Z))) (n : nat) : walk :=
  {| w_key := w_key w; errors := errors w; error_count := error_count w; first_error := first_error w;
     unsealed := unsealed w; checked := checked w; first := first w; w_prev := w_prev w;
     first_keyed := first_keyed w; w_rotation := w_rotation w;
     rotation_attested := rotation_attested w; errors_at_first_keyed := errors_at_first_keyed w;
     run_start := run_start w; run_index := run_index w; protected_from := protected_from w;
     not_attested := not_attested w; retired := l; retired_count := n;
     keyed_start := keyed_start w; keyed_min_start := keyed_min_start w; any_start := any_start w |}.
Definition set_starts (w : walk) (a k m : option Z) : walk :=
  {| w_key := w_key w; errors := errors w; error_count := error_count w; first_error := first_error w;
     unsealed := unsealed w; checked := checked w; first := first w; w_prev := w_prev w;
     first_keyed := first_keyed w; w_rotation := w_rotation w;
     rotation_attested := rotation_attested w; errors_at_first_keyed := errors_at_first_keyed w;
     run_start := run_start w; run_index := run_index w; protected_from := protected_from w;
     not_attested := not_attested w; retired := retired w; retired_count := retired_count w;
     keyed_start := k; keyed_min_start := m; any_start := a |}.
Definition set_first_keyed (w : walk) (i : Z) (rot : option rotation) : walk :=
  {| w_key := w_key w; errors := errors w; error_count := error_count w; first_error := first_error w;
     unsealed := unsealed w; checked := checked w; first := first w; w_prev := w_prev w;
     first_keyed := Some i; w_rotation := match rot with Some r => keys r | None => [] end;
     rotation_attested := match rot with Some r => attested r | None => false end;
     errors_at_first_keyed := error_count w; run_start := run_start w; run_index := run_index w;
     protected_from := run_start w; not_attested := run_index w; retired := retired w;
     retired_count := retired_count w; keyed_start := keyed_start w;
     keyed_min_start := keyed_min_start w; any_start := any_start w |}.

(* op(x or s, s): an id of 0 reads as missing *)
Definition bound_start (op : Z -> Z -> Z) (x : option Z) (s : Z) : option Z :=
  Some (op (match x with Some a => if a =? 0 then s else a | None => s end) s).

Definition version_of (log : AuditLog) : Z :=
  match hash_version log with None | Some 0 => SHA256_CHAIN | Some v => v end.

Fixpoint extend_span (k : option string) (i : Z) (l : list (option string * (Z * Z))) : list (option string * (Z * Z)) :=
  match l with
  | [] => [(k, (i, i))]
  | (k', (a, b)) :: l' =>
      if bool_decide (k' = k) then (k', (a, i)) :: l' else (k', (a, b)) :: extend_span k i l'
  end.

(* the seal of one entry: the walk with its errors, keyed_ok, recomputable *)
Definition check_seal (w : walk) (log : AuditLog) (sealed : digest) (after_key : bool)
    : walk * bool * bool :=
  let v := version_of log in
  if v =? SHA256_CHAIN then
    if bool_decide (compute_hash log (prev_hash log) None = sealed) then (w, false, true)
    else (error (id log) Tampered w, false, false)
  else if v =? KEYED_CHAIN then
    match w_key w with
    | Some (key_bytes, key_id) =>
        if bool_decide (hash_key_id log = Some key_id) then
          if bool_decide (compute_hash log (prev_hash log) (Some key_bytes) = sealed)
          then (w, true, false) else (error (id log) Tampered w, false, false)
        else (set_retired w (if after_key then retired w
                             else extend_span (hash_key_id log) (id log) (retired w))
                (S (retired_count w)), false, false)
    | None => (set_retired w (retired w) (S (retired_count w)), false, false)
    end
  else (error (id log) UnknownVersion w, false, false).

Definition feed (w : walk) (log : AuditLog) : walk :=
  let index := checked w in
  let first_prev := opt_digest_or (prev_hash log) in
  let w := set_position w (S index)
             (match first w with None => Some (id log, hash_version log, first_prev) | f => f end)
             (match first w with None => first_prev | Some _ => w_prev w end) in
  let after_key := match first_keyed w with Some _ => true | None => false end in
  match entry_hash log with
  | None =>
      let w := set_position (set_unsealed w (unsealed w ++ [id log])) (checked w) (first w) GENESIS in
      set_run (error_if after_key (id log) NotSealedByKey w) None (run_index w)
  | Some sealed =>
      let errors_before := error_count w in
      let w := error_if (match prev_hash log with
                         | Some p => negb (bool_decide (p = w_prev w))
                         | None => false
                         end) (id log) Link w in
      let '(w, keyed_ok, recomputable) := check_seal w log sealed after_key in
      let w := set_position w (checked w) (first w) sealed in
      let w := match chain_start log with
               | Some s =>
                   if Nat.eqb (error_count w) errors_before
                   then set_starts w (bound_start Z.max (any_start w) s)
                          (if keyed_ok then bound_start Z.max (keyed_start w) s else keyed_start w)
                          (if keyed_ok then bound_start Z.min (keyed_min_start w) s
                           else keyed_min_start w)
                   else w
               | None => w
               end in
      if after_key
      then error_if (negb keyed_ok && Nat.eqb (error_count w) errors_before) (id log) NotSealedByKey w
      else if keyed_ok then
        let w := match run_start w with
                 | None => set_run w (Some (id log)) index
                 | Some _ => w
                 end in
        set_first_keyed w (id log) (retired_keys log)
      else if recomputable then
        match run_start w with None => set_run w (Some (id log)) index | Some _ => w end
      else set_run w None (run_index w)
  end.

Fixpoint check_retired (table : list AuditLog) (upper_id : Z) (l : list (option string * (Z * Z))) (w : walk)
    : walk :=
  match l with
  | [] => w
  | (key_id, (first_id, last_id)) :: rest =>
      let limit := k ← key_id; snd <$> List.find (fun kv => (kv.1 =? k)%string) (w_rotation w) in
      let w := match limit with
               | None => error first_id UnattestedKey w
               | Some lim =>
                   if last_id <=? lim then w
                   else error (default first_id (min_id (List.filter (fun r =>
                          bool_decide (hash_key_id r = key_id) && (lim <? id r)
                          && (id r <=? upper_id)) table))) UnattestedKey w
               end in
      check_retired table upper_id rest w
  end.

Definition _check_chain_start (w : walk) : walk :=
  match first w with
  | None => w
  | Some (first_id, first_version, first_prev) =>
      match first_keyed w with
      | Some fk =>
          match keyed_start w with
          | None => error_if (Nat.eqb (error_count w) 0) first_id Truncated w
          | Some ks =>
              if ks <? first_id then error first_id Truncated w
              else error_if ((first_id <? default 0 (keyed_min_start w)) && negb (first_id =? fk))
                     first_id BeforeStart w
          end
      | None =>
          match any_start w with
          | Some s => error_if (s <? first_id) first_id Truncated w
          | None => error_if (bool_decide (first_version = Some KEYED_CHAIN)
                              && negb (bool_decide (first_prev = GENESIS))) first_id Truncated w
          end
      end
  end.

Inductive status := Broken | Unprotected | Intact.

Record report := {
  rp_valid : bool; rp_status : status; rp_first_error : option (Z * code); rp_checked : nat;
  rp_attested : nat; rp_unsealed : list Z; rp_error_count : nat; rp_errors : list (Z * code);
  rp_key_available : bool; rp_protected : nat; rp_protected_from : option Z;
  rp_not_attested : nat; rp_retired_key : nat; rp_key_rotation_id : option Z;
  rp_rotation_attested : option bool;
}.

(* errors.sort(key=id), which keeps the order of equal ids *)
Fixpoint insert_error (e : Z * code) (l : list (Z * code)) : list (Z * code) :=
  match l with
  | [] => [e]
  | x :: l' => if e.1 <? x.1 then e :: l else x :: insert_error e l'
  end.
Definition sort_errors (l : list (Z * code)) : list (Z * code) :=
  fold_left (fun acc e => insert_error e acc) l [].

Definition finish (w : walk) (table : list AuditLog) (whole_table : bool) (upper_id : Z) : report :=
  let w := match w_key w, first_keyed w, errors_at_first_keyed w with
           | Some _, Some _, 0%nat => check_retired table upper_id (retired w) w
           | _, _, _ => w
           end in
  let w := if whole_table then _check_chain_start w else w in
  let st := if (0 <? error_count w)%nat then Broken
            else match w_key w, first_keyed w, checked w with
                 | None, _, _ => Unprotected
                 | Some _, None, S _ => Unprotected
                 | _, _, _ => match retired w with
                              | _ :: _ => if rotation_attested w then Intact else Unprotected
                              | [] => Intact
                              end
                 end in
  let intact_from := match first_keyed w with Some _ => protected_from w | None => None end in
  let na := match intact_from with Some _ => not_attested w | None => checked w end in
  let rotated := match w_rotation w with [] => false | _ => true end in
  {| rp_valid := Nat.eqb (error_count w) 0; rp_status := st; rp_first_error := first_error w;
     rp_checked := checked w; rp_attested := (checked w - length (unsealed w))%nat;
     rp_unsealed := unsealed w; rp_error_count := error_count w; rp_errors := sort_errors (errors w);
     rp_key_available := bool_decide (is_Some (w_key w)); rp_protected := (checked w - na)%nat;
     rp_protected_from := intact_from; rp_not_attested := na; rp_retired_key := retired_count w;
     rp_key_rotation_id := if rotated then first_keyed w else None;
     rp_rotation_attested := if rotated then Some (rotation_attested w) else None |}.

(* [table] is what the database holds, [logs] the rows of it to walk *)
Definition verify_chain (key : option (string * string)) (table logs : list AuditLog)
    (whole_table : bool) : report :=
  finish (fold_left feed logs (new_walk key)) table whole_table (default 0 (id <$> last logs)).

(** ** Purging, [retention_service.py] *)

Definition _purge_boundary (table : list AuditLog) (cutoff : Z) : Z :=
  match min_id (List.filter (fun r => match timestamp (log_body r) with
                                      | Some t => cutoff <=? t | None => false end) table) with
  | Some i => i
  | None => (match table with
             | [] => 0
             | r :: l => fold_left (fun m r => Z.max m (id r)) l (id r)
             end) + 1
  end.

Definition CLEANUP_BATCH_SIZE : nat := 1000.

(* the batches that are committed: [fuel] of them, or all when it suffices *)
Fixpoint purge_batches (size : nat) (fuel : nat) (boundary : Z) (table : list AuditLog)
    : list AuditLog :=
  match fuel with
  | O => table
  | S fuel =>
      let ids := take size (id <$> List.filter (fun r => id r <? boundary) table) in
      match ids with
      | [] => table
      | _ =>
          let table := List.filter (fun r => negb (bool_decide (id r ∈ ids))) table in
          if (length ids <? size)%nat then table else purge_batches size fuel boundary table
      end
  end.

(* [b] is the body of the purge record *)
Definition _purge (size fuel : nat) (table : list AuditLog) (cutoff : Z) (new_id : Z) (b : body)
    (key : option (string * string)) (ring : option keyring) : list AuditLog :=
  let boundary := _purge_boundary table cutoff in
  match List.filter (fun r => id r <? boundary) table with
  | [] => table
  | _ => purge_batches size fuel boundary
           (table ++ [(append_entry table new_id b (Some boundary) key ring).1])
  end.
End Ledger.

(** ** Batches

    Once enough batches are committed, the rows below the boundary are gone and the
    others are as they were. *)

Section Batches.
Context {digest : Type}.
Implicit Types table : list (@AuditLog digest).

Lemma filter_of_filter {A} (P Q : A -> bool) (l : list A) :
  (forall x, x ∈ l -> P x = true -> Q x = true) ->
  List.filter P (List.filter Q l) = List.filter P l.
Proof.
  induction l as [|x l IH]; intros H; simpl; [done|].
  rewrite <- IH by (intros; apply H; [by right|done]).
  specialize (H x ltac:(left)).
  destruct (Q x); simpl; destruct (P x); try done. by specialize (H eq_refl).
Qed.

Lemma filter_all {A} (P : A -> bool) (l : list A) :
  (forall x, x ∈ l -> P x = true) -> List.filter P l = l.
Proof.
  induction l as [|x l IH]; intros H; simpl; [done|].
  rewrite (H x ltac:(left)), IH; [done|]. intros; apply H; by right.
Qed.

Lemma filter_length_lt {A} (P Q : A -> bool) (l : list A) x :
  x ∈ l -> P x = true -> Q x = false ->
  (length (List.filter P (List.filter Q l)) < length (List.filter P l))%nat.
Proof.
  assert (forall l, (length (List.filter P (List.filter Q l)) <= length (List.filter P l))%nat) as Hle.
  { clear. induction l as [|y l IH]; simpl; [lia|].
    destruct (Q y); simpl; destruct (P y); simpl; lia. }
  intros Hin HP HQ. induction l as [|y l IH]; [by apply elem_of_nil in Hin|].
  specialize (Hle l). apply elem_of_cons in Hin as [<-|Hin]; simpl.
  - rewrite HQ, HP. simpl. lia.
  - specialize (IH Hin). destruct (Q y); simpl; destruct (P y); simpl; lia.
Qed.

Lemma purge_batches_all size fuel boundary table :
  (0 < size)%nat -> (length (List.filter (fun r => (id r <? boundary)%Z) table) < fuel)%nat ->
  purge_batches size fuel boundary table = List.filter (fun r => boundary <=? id r) table.
Proof.
  intros Hs. revert table. induction fuel as [|fuel IH]; intros table Hf; [lia|]. simpl.
  set (below := List.filter (fun r => id r <? boundary) table) in *.
  remember (take size (id <$> below)) as ids eqn:Hids.
  assert (forall r, r ∈ table -> id r ∈ ids -> (id r <? boundary) = true) as Hlow.
  { intros r Hr Hi. rewrite Hids in Hi.
    apply elem_of_take in Hi as (n & Hi & _). apply list_lookup_fmap_Some in Hi as (r' & -> & Hr').
    apply list_elem_of_lookup_2, list_elem_of_In, filter_In in Hr' as [_ Hb]. done. }
  destruct ids as [|i ids'].
  - symmetry. apply filter_all. intros r Hr. apply Z.leb_le, Z.nlt_ge. intros E.
    assert (r ∈ below) as Hin.
    { apply list_elem_of_In, filter_In. split; [by apply list_elem_of_In|]. lia. }
    destruct below as [|r0 below0]; [by apply elem_of_nil in Hin|].
    destruct size; [lia|discriminate Hids].
  - assert (forall r, r ∈ table -> (boundary <=? id r) = true ->
              negb (bool_decide (id r ∈ i :: ids')) = true) as Hkeep.
    { intros r Hr Hb. apply negb_true_iff, bool_decide_eq_false. intros Hi.
      apply Hlow in Hi; [lia|done]. }
    rewrite <- (filter_of_filter _ _ _ Hkeep).
    destruct (length (i :: ids') <? size)%nat eqn:El.
    + apply Nat.ltb_lt in El. symmetry. apply filter_all. intros r Hr. apply list_elem_of_In, filter_In in Hr as [Hr Hn].
      destruct (boundary <=? id r) eqn:E; [done|]. exfalso.
      apply negb_true_iff, bool_decide_eq_false in Hn. apply Hn. rewrite Hids.
      rewrite take_ge.
      * apply list_elem_of_fmap. exists r. split; [done|]. apply list_elem_of_In, filter_In.
        split; [done|lia].
      * rewrite Hids, length_take in El. lia.
    + apply IH.
      assert (exists r, r ∈ table /\ id r = i) as (r & Hr & Hri).
      { assert (i ∈ i :: ids') as Hi by left. rewrite Hids in Hi.
        apply elem_of_take in Hi as (n & Hi & _).
        apply list_lookup_fmap_Some in Hi as (r & -> & Hr).
        apply list_elem_of_lookup_2, list_elem_of_In, filter_In in Hr as [Hr _].
        exists r. split; [by apply list_elem_of_In|done]. }
      eapply Nat.lt_le_trans; [apply (filter_length_lt _ _ _ r)|]; [done|..|fold below; lia].
      * apply Hlow; [done|]. rewrite Hri. left.
      * apply negb_false_iff, bool_decide_eq_true. rewrite Hri. left.
Qed.
End Batches.

(** * Ledgers written under one key

    The rows that the code writes when the key, once there is one, does not change:
    entries sealed by hash before the key is there, entries sealed under it after,
    and purges of the oldest entries at any moment. *)

Section Honest.
Context {digest : Type} `{EqDecision digest} (GENESIS : digest).
(* any function of the body: the SHA-256 line leaves resource_name, ip_address and user_agent out, so
   bodies that differ in these have one seal, and nothing below assumes otherwise *)
Variable sha256_seal : Z -> body -> option digest -> digest.
Variable hmac_seal : string -> @message digest -> digest.
Variables (key_bytes key_id : string).

Abbreviation row := (@AuditLog digest).
Abbreviation key := (Some (key_bytes, key_id)).
Abbreviation append := (append_entry GENESIS sha256_seal hmac_seal).
Abbreviation verify := (verify_chain GENESIS sha256_seal hmac_seal).
Abbreviation step := (feed GENESIS sha256_seal hmac_seal).

Definition keyed (r : row) : bool := bool_decide (hash_version r = Some KEYED_CHAIN).

(* [ledger all now]: every row ever written, and those not purged *)
Inductive ledger : list row -> list row -> Prop :=
| ledger_empty : ledger [] []
| ledger_append all now i b k ring :
    ledger all now -> 0 < i -> (forall r, r ∈ all -> id r < i) ->
    k = key \/ k = None /\ existsb keyed all = false ->
    ledger (all ++ [(append now i b None k ring).1]) (now ++ [(append now i b None k ring).1])
| ledger_purge all now cutoff i b k ring size fuel :
    ledger all now -> 0 < i -> (forall r, r ∈ all -> id r < i) ->
    k = key \/ k = None /\ existsb keyed all = false ->
    let boundary := _purge_boundary now cutoff in
    List.filter (fun r => id r <? boundary) now <> [] ->
    (0 < size)%nat -> (length now < fuel)%nat ->
    ledger (all ++ [(append now i b (Some boundary) k ring).1])
      (_purge GENESIS sha256_seal hmac_seal size fuel now cutoff i b k ring).

(* the seal is the one the code computes *)
Definition sealed (r : row) : Prop :=
  hash_version r = Some SHA256_CHAIN /\ hash_key_id r = None /\
    entry_hash r = Some (sha256_seal (id r) (log_body r) (prev_hash r))
  \/ hash_version r = Some KEYED_CHAIN /\ hash_key_id r = Some key_id /\
    entry_hash r = Some (hmac_seal key_bytes (message_of r (prev_hash r))).

(* each row names the seal of the one before *)
Fixpoint linked (p : digest) (l : list row) : Prop :=
  match l with
  | [] => True
  | r :: l' => prev_hash r = Some p /\ exists h, entry_hash r = Some h /\ linked h l'
  end.

Fixpoint end_seal (p : digest) (l : list row) : digest :=
  match l with
  | [] => p
  | r :: l' => end_seal (default p (entry_hash r)) l'
  end.

(* no entry sealed by hash follows an entry sealed under the key *)
Fixpoint key_stays (l : list row) : Prop :=
  match l with
  | [] => True
  | r :: l' => (keyed r = true -> forallb keyed l' = true) /\ key_stays l'
  end.

Lemma linked_app p l k : linked p (l ++ k) <-> linked p l /\ linked (end_seal p l) k.
Proof.
  revert p. induction l as [|r l IH]; intros p; simpl; [naive_solver|]. split.
  - intros (-> & h & Hh & Hl). rewrite Hh. simpl. apply IH in Hl as [??]. naive_solver.
  - intros ((-> & h & Hh & Hl) & Hk). rewrite Hh in Hk. simpl in Hk.
    split; [done|]. exists h. split; [done|]. by apply IH.
Qed.

Lemma end_seal_snoc p l r h : entry_hash r = Some h -> end_seal p (l ++ [r]) = h.
Proof. intros Hr. revert p. induction l as [|x l IH]; intros p; simpl; [by rewrite Hr|done]. Qed.

Lemma key_stays_app l k :
  key_stays (l ++ k) <->
  key_stays l /\ key_stays k /\ (existsb keyed l = true -> forallb keyed k = true).
Proof.
  induction l as [|r l IH]; simpl; [naive_solver|]. rewrite IH, forallb_app, andb_true_iff.
  destruct (keyed r), (existsb keyed l); simpl; naive_solver.
Qed.

(** ** Walking such rows *)

Definition bump (op : Z -> Z -> Z) (o : option Z) (r : row) : option Z :=
  match chain_start r with Some s => bound_start op o s | None => o end.

Definition starts (op : Z -> Z -> Z) (l : list row) : option Z := fold_left (bump op) l None.

Record walked (w : @walk digest) (l : list row) : Prop := {
  wk_key : w_key w = key;
  wk_count : error_count w = 0%nat;
  wk_error : first_error w = None;
  wk_checked : checked w = length l;
  wk_first : first w = (fun r => (id r, hash_version r, opt_digest_or GENESIS (prev_hash r))) <$> head l;
  wk_prev : l <> [] -> forall p, end_seal p l = w_prev w;
  wk_retired : retired w = [];
  wk_keyed : first_keyed w = id <$> head (List.filter keyed l);
  wk_run : run_start w = id <$> head l;
  wk_index : run_index w = 0%nat;
  wk_from : existsb keyed l = true -> protected_from w = id <$> head l /\ not_attested w = 0%nat;
  wk_any : any_start w = starts Z.max l;
  wk_max : keyed_start w = starts Z.max (List.filter keyed l);
  wk_min : keyed_min_start w = starts Z.min (List.filter keyed l);
}.

Lemma walked_new : walked (new_walk GENESIS key) [].
Proof. by constructor. Qed.

Lemma head_snoc {A} (l : list A) x : head (l ++ [x]) = Some (default x (head l)).
Proof. by destruct l. Qed.

Lemma existsb_filter_nil (l : list row) : existsb keyed l = false <-> List.filter keyed l = [].
Proof. induction l as [|r l IH]; simpl; [done|]. destruct (keyed r); simpl; [done|exact IH]. Qed.

Lemma starts_snoc op l r : starts op (l ++ [r]) = bump op (starts op l) r.
Proof. unfold starts. by rewrite fold_left_app. Qed.

Lemma sealed_cases r : sealed r ->
  (keyed r = false /\ version_of r = SHA256_CHAIN
   /\ entry_hash r = Some (compute_hash sha256_seal hmac_seal r (prev_hash r) None))
  \/ (keyed r = true /\ version_of r = KEYED_CHAIN /\ hash_key_id r = Some key_id
   /\ entry_hash r = Some (compute_hash sha256_seal hmac_seal r (prev_hash r) (Some key_bytes))).
Proof.
  unfold sealed, keyed, version_of, compute_hash. intros [(-> & _ & ->)|(-> & -> & ->)]; [left|right].
  - by rewrite bool_decide_eq_false_2.
  - by rewrite bool_decide_eq_true_2.
Qed.

Lemma check_seal_sealed w r h after :
  w_key w = key -> sealed r -> entry_hash r = Some h ->
  check_seal sha256_seal hmac_seal w r h after = (w, keyed r, negb (keyed r)).
Proof.
  intros Hk Hs Hh. unfold check_seal. rewrite Hk.
  destruct (sealed_cases r Hs) as [(-> & -> & Hc)|(-> & -> & -> & Hc)]; rewrite Hh in Hc;
    injection Hc as ->; simpl; repeat rewrite bool_decide_eq_true_2 by done; done.
Qed.

Lemma after_key_spec l : existsb keyed l =
  match id <$> head (List.filter keyed l) with Some _ => true | None => false end.
Proof.
  destruct (existsb keyed l) eqn:E.
  - destruct (List.filter keyed l) eqn:F; [|done]. apply existsb_filter_nil in F. congruence.
  - apply existsb_filter_nil in E. by rewrite E.
Qed.

(* one more row: no error *)
Lemma walked_step w l r p :
  walked w l -> sealed r -> linked p (l ++ [r]) -> key_stays (l ++ [r]) -> walked (step w r) (l ++ [r]).
Proof.
  intros Hw Hs Hl Hk. apply linked_app in Hl as [_ Hl]. simpl in Hl.
  destruct Hl as (Hp & h & Hh & _).
  apply key_stays_app in Hk as (_ & _ & Hk). simpl in Hk. rewrite andb_true_r in Hk.
  destruct Hw as [K1 K2 K3 K4 K5 K6 K7 K8 K9 K10 K11 K12 K13 K14].
  set (w1 := set_position w (S (checked w))
             (match first w with None => Some (id r, hash_version r, end_seal p l) | f => f end)
             (match first w with None => end_seal p l | Some _ => w_prev w end)).
  assert (negb (bool_decide (end_seal p l = w_prev w1)) = false) as Hlink.
  { apply negb_false_iff, bool_decide_eq_true. simpl. rewrite K5. destruct l; [done|]. simpl.
    by rewrite <- (K6 ltac:(done) p). }
  unfold feed. rewrite Hp, Hh. simpl opt_digest_or. fold w1. rewrite Hlink. simpl error_if.
  rewrite (check_seal_sealed w1 r h) by done.
  replace (match first_keyed w1 with Some _ => true | None => false end)
    with (existsb keyed l) by (simpl; by rewrite K8, after_key_spec).
  destruct w; simpl in *. subst.
  assert (forall q, end_seal q (l ++ [r]) = h) as Hend by (intros; by apply end_seal_snoc).
  assert (List.filter keyed (l ++ [r]) = List.filter keyed l ++ (if keyed r then [r] else []))
    as Hfilter by (rewrite List.filter_app; simpl; by destruct (keyed r)).
  assert (head (List.filter keyed l) = None <-> existsb keyed l = false) as Hnone.
  { rewrite existsb_filter_nil. by destruct (List.filter keyed l). }
  assert (head l = None -> existsb keyed l = false) as Hnil by (by destruct l).
  destruct (existsb keyed l) eqn:El, (keyed r) eqn:Er; try (by specialize (Hk eq_refl));
    destruct (chain_start r) as [s|] eqn:Ec; destruct (head l) as [r0|] eqn:Eh;
    try (by specialize (Hnil eq_refl)); (constructor; [try done..]).
  all: rewrite ?length_app, ?head_snoc, ?Hfilter, ?app_nil_r, ?starts_snoc, ?Eh;
    unfold bump; rewrite ?Ec; try done; try (simpl; lia).
  all: try (rewrite existsb_app; simpl; rewrite ?El, ?Er; simpl; intuition congruence).
  all: rewrite ?head_snoc; simpl; destruct (head (List.filter keyed l)); try done.
  all: try (by destruct Hnone as [Hn _]; specialize (Hn eq_refl)).
  all: try (by destruct Hnone as [_ Hn]; specialize (Hn eq_refl)).
  all: try (rewrite Hp; done).
  all: by destruct l.
Qed.

Lemma walked_all l p :
  Forall sealed l -> linked p l -> key_stays l ->
  walked (fold_left step l (new_walk GENESIS key)) l.
Proof.
  induction l as [|r l IH] using rev_ind; intros Hs Hl Hk; [apply walked_new|].
  rewrite fold_left_app. simpl. apply Forall_app in Hs as [Hs Hr]. inversion Hr; subst.
  eapply walked_step; [|done..]. apply linked_app in Hl as [Hl _].
  apply key_stays_app in Hk as [Hk _]. auto.
Qed.

(* the bound of the recorded starts is one of them and bounds them all *)
Definition positive_starts (l : list row) : Prop :=
  forall r s, r ∈ l -> chain_start r = Some s -> 0 < s.

Lemma starts_spec (op : Z -> Z -> Z) (R : Z -> Z -> Prop) l :
  Reflexive R -> Transitive R -> (forall a b, R a (op a b) /\ R b (op a b)) ->
  (forall a b, op a b = a \/ op a b = b) -> positive_starts l ->
  match starts op l with
  | Some m => (exists r, r ∈ l /\ chain_start r = Some m)
              /\ forall r s, r ∈ l -> chain_start r = Some s -> R s m
  | None => forall r, r ∈ l -> chain_start r = None
  end.
Proof.
  intros HR HT Hop Hsel. induction l as [|x l IH] using rev_ind; intros Hpos.
  { intros ? []%elem_of_nil. }
  assert (positive_starts l) as Hpos' by (intros r s Hr; apply Hpos; set_solver).
  specialize (IH Hpos'). rewrite starts_snoc. unfold bump.
  destruct (chain_start x) as [s|] eqn:Ex.
  - unfold bound_start. destruct (starts op l) as [m|] eqn:Em.
    + destruct IH as [(r & Hr & Hm) Hb].
      assert (m <> 0) as H0 by (specialize (Hpos' _ _ Hr Hm); lia).
      apply Z.eqb_neq in H0. rewrite H0. split.
      * destruct (Hsel m s) as [->| ->]; [exists r|exists x]; split; set_solver.
      * intros r' s' [Hr'| ->%list_elem_of_singleton]%elem_of_app Hs'.
        { etransitivity; [by eapply Hb|apply Hop]. }
        rewrite Ex in Hs'. injection Hs' as ->. apply Hop.
    + assert (op s s = s) as -> by (destruct (Hsel s s); done). split; [exists x; set_solver|].
      intros r' s' [Hr'| ->%list_elem_of_singleton]%elem_of_app Hs'; [|rewrite Ex in Hs'; by injection Hs' as ->].
      by rewrite (IH r') in Hs'.
  - destruct (starts op l) as [m|].
    + destruct IH as [(r & Hr & Hm) Hb]. split; [exists r; set_solver|].
      intros r' s' [Hr'| ->%list_elem_of_singleton]%elem_of_app Hs'; [by eapply Hb|congruence].
    + intros r' [Hr'| ->%list_elem_of_singleton]%elem_of_app; auto.
Qed.

Lemma starts_max_spec l : positive_starts l ->
  match starts Z.max l with
  | Some m => (exists r, r ∈ l /\ chain_start r = Some m)
              /\ forall r s, r ∈ l -> chain_start r = Some s -> s <= m
  | None => forall r, r ∈ l -> chain_start r = None
  end.
Proof. apply (starts_spec Z.max Z.le); try typeclasses eauto; lia. Qed.

Lemma starts_min_spec l : positive_starts l ->
  match starts Z.min l with
  | Some m => (exists r, r ∈ l /\ chain_start r = Some m)
              /\ forall r s, r ∈ l -> chain_start r = Some s -> m <= s
  | None => forall r, r ∈ l -> chain_start r = None
  end.
Proof. apply (starts_spec Z.min (fun a b => b <= a)); try (intros ?; lia); lia. Qed.

(** ** What is reported of them *)

(* the first row left is recorded as the start, by a row under the key when there is one *)
Definition start_recorded (l : list row) : Prop :=
  forall r0, head l = Some r0 ->
  if existsb keyed l
  then exists r, r ∈ l /\ keyed r = true /\ chain_start r = Some (id r0)
  else (forall r, r ∈ l -> chain_start r = None) \/ exists r, r ∈ l /\ chain_start r = Some (id r0).

Lemma keyed_elem (l : list row) r : r ∈ List.filter keyed l <-> r ∈ l /\ keyed r = true.
Proof. by rewrite !list_elem_of_In, filter_In. Qed.

Lemma positive_keyed l : positive_starts l -> positive_starts (List.filter keyed l).
Proof. intros H r s [Hr _]%keyed_elem. by apply H. Qed.

Lemma check_start_ok w l :
  walked w l -> positive_starts l -> start_recorded l -> _check_chain_start GENESIS w = w.
Proof.
  intros Hw Hp Hs. unfold _check_chain_start. rewrite (wk_first _ _ Hw).
  destruct (head l) as [r0|] eqn:E0; [|done]. specialize (Hs r0 E0). simpl.
  rewrite (wk_keyed _ _ Hw), (wk_any _ _ Hw), (wk_max _ _ Hw), (wk_min _ _ Hw).
  destruct (existsb keyed l) eqn:El.
  - destruct Hs as (r & Hr & Hk & Hc).
    assert (r ∈ List.filter keyed l) as Hin by (by apply keyed_elem).
    pose proof (starts_max_spec _ (positive_keyed _ Hp)) as Hmax.
    pose proof (starts_min_spec _ (positive_keyed _ Hp)) as Hmin.
    destruct (List.filter keyed l) as [|f k]; [by apply elem_of_nil in Hin|]. simpl.
    destruct (starts Z.max (f :: k)) as [m|]; [|by rewrite (Hmax r Hin) in Hc].
    destruct (starts Z.min (f :: k)) as [n|]; [|by rewrite (Hmin r Hin) in Hc].
    destruct Hmax as [_ Hmax], Hmin as [_ Hmin]. specialize (Hmax _ _ Hin Hc). specialize (Hmin _ _ Hin Hc).
    destruct (m <? id r0) eqn:E; [lia|]. simpl. by replace (id r0 <? n) with false by lia.
  - pose proof (existsb_filter_nil l) as [Hnil _]. rewrite (Hnil El). simpl.
    pose proof (starts_max_spec _ Hp) as Hmax. destruct (starts Z.max l) as [m|].
    + destruct Hs as [Hs|(r & Hr & Hc)].
      * destruct Hmax as [(r & Hr & Hc) _]. by rewrite (Hs r Hr) in Hc.
      * destruct Hmax as [_ Hmax]. specialize (Hmax _ _ Hr Hc).
        by replace (m <? id r0) with false by lia.
    + rewrite bool_decide_eq_false_2; [done|]. intros Hv.
      assert (keyed r0 = true) by (by apply bool_decide_eq_true).
      destruct l as [|? l]; [done|]. injection E0 as ->. simpl in El.
      by replace (keyed r0) with true in El.
Qed.

Lemma check_start_truncated w l r0 :
  walked w l -> positive_starts l -> head l = Some r0 -> existsb keyed l = true ->
  (forall r s, r ∈ l -> chain_start r = Some s -> s < id r0) ->
  _check_chain_start GENESIS w = error (id r0) Truncated w.
Proof.
  intros Hw Hp E0 El Hs. unfold _check_chain_start. rewrite (wk_first _ _ Hw), E0. simpl.
  rewrite (wk_keyed _ _ Hw), (wk_max _ _ Hw), (wk_count _ _ Hw).
  rewrite after_key_spec in El. destruct (head (List.filter keyed l)) as [f|] eqn:Ef; [|done]. simpl.
  pose proof (starts_max_spec _ (positive_keyed _ Hp)) as Hmax.
  destruct (starts Z.max (List.filter keyed l)) as [m|]; [|done].
  destruct Hmax as [(r & Hr & Hc) _]. apply keyed_elem in Hr as [Hr _].
  by replace (m <? id r0) with true by (specialize (Hs _ _ Hr Hc); lia).
Qed.

(* nothing is under another key, so the report depends on the walk and its start *)
Lemma finish_walked w l table (whole : bool) upper :
  walked w l ->
  let w' : @walk digest := if whole then _check_chain_start GENESIS w else w in
  let rp := finish GENESIS w table whole upper in
  rp_valid rp = Nat.eqb (error_count w') 0 /\ rp_first_error rp = first_error w'
  /\ (w' = w -> existsb keyed l = true ->
       rp_status rp = Intact /\ rp_protected rp = length l /\ rp_protected_from rp = id <$> head l).
Proof.
  intros Hw. unfold finish. rewrite (wk_retired _ _ Hw).
  replace (match w_key w, first_keyed w, errors_at_first_keyed w with
           | Some _, Some _, 0%nat => check_retired table upper [] w | _, _, _ => w end) with w
    by (by destruct (w_key w), (first_keyed w), (errors_at_first_keyed w)).
  simpl. split; [done|]. split; [done|]. intros -> El.
  pose proof (wk_from _ _ Hw El) as [-> ->].
  rewrite (wk_count _ _ Hw), (wk_key _ _ Hw), (wk_keyed _ _ Hw), (wk_retired _ _ Hw), (wk_checked _ _ Hw).
  rewrite after_key_spec in El. destruct (head (List.filter keyed l)) eqn:Ef; [|done]. simpl.
  destruct l; simpl; [done|]. by rewrite ?Nat.sub_0_r.
Qed.

(** ** The rows the code writes are such rows *)

Fixpoint ascending (l : list row) : Prop :=
  match l with
  | [] => True
  | r :: l' => (forall x, x ∈ l' -> id r < id x) /\ ascending l'
  end.

Lemma ascending_app l k :
  ascending (l ++ k) <-> ascending l /\ ascending k /\ forall x y, x ∈ l -> y ∈ k -> id x < id y.
Proof.
  induction l as [|r l IH]; simpl.
  - split; [intros; repeat split; [done|]; intros ?? []%elem_of_nil|tauto].
  - rewrite IH. setoid_rewrite elem_of_app. setoid_rewrite elem_of_cons. naive_solver.
Qed.

Lemma ascending_filter P l : ascending l -> ascending (List.filter P l).
Proof.
  induction l as [|r l IH]; simpl; [done|]. intros [H1 H2]. destruct (P r); [|auto].
  split; [|auto]. intros x Hx%list_elem_of_In. apply filter_In in Hx as [Hx _]. apply H1.
  by apply list_elem_of_In.
Qed.

Lemma ascending_suffix b l : ascending l ->
  exists gone, l = gone ++ List.filter (fun r => b <=? id r) l.
Proof.
  induction l as [|r l IH]; simpl; [by exists []|]. intros [H1 H2].
  destruct (b <=? id r) eqn:E.
  - exists []. simpl. f_equal. symmetry. apply filter_all. intros x Hx. specialize (H1 x Hx). lia.
  - destruct (IH H2) as [g Hg]. exists (r :: g). simpl. by f_equal.
Qed.

Lemma min_id_ascending (l : list row) : ascending l -> min_id l = id <$> head l.
Proof.
  destruct l as [|r l]; [done|]. simpl. intros [H _]. f_equal.
  assert (forall m, (forall x, x ∈ l -> m < id x) -> fold_left (fun m r => Z.min m (id r)) l m = m) as Hf;
    [|by apply Hf].
  clear. induction l as [|x l IH]; intros m Hm; simpl; [done|].
  rewrite Z.min_l by (specialize (Hm x ltac:(left)); lia). apply IH. intros; apply Hm; by right.
Qed.

(* the start that a row of id [i] would record *)
Lemma first_kept p now x i :
  ascending now -> (forall r, r ∈ now -> id r < i) -> id x = i -> p <= i ->
  min_id (List.filter (fun r => p <=? id r) (now ++ [x]))
    = Some (default i (id <$> head (List.filter (fun r => p <=? id r) now))).
Proof.
  intros Ha Hi Hx Hp. rewrite min_id_ascending.
  - rewrite List.filter_app. simpl. replace (p <=? id x) with true by lia. rewrite head_snoc. simpl.
    by destruct (head _); simpl; congruence.
  - apply ascending_filter, ascending_app. split; [done|]. split; [simpl; split; [intros ? []%elem_of_nil|done]|].
    intros y ? Hy ->%list_elem_of_singleton. rewrite Hx. auto.
Qed.

Lemma boundary_bound (now : list row) cutoff i :
  0 < i -> (forall r, r ∈ now -> id r < i) -> _purge_boundary now cutoff <= i.
Proof.
  intros H0 Hi. unfold _purge_boundary.
  destruct (List.filter _ now) as [|r l] eqn:E; simpl.
  - destruct now as [|r now]; [lia|].
    assert (forall m, m < i -> fold_left (fun m r => Z.max m (id r)) now m < i) as Hf.
    { clear E. assert (forall x, x ∈ now -> id x < i) as Hn by (intros; apply Hi; by right). clear Hi.
      induction now as [|x now IH]; intros m Hm; simpl; [done|]. apply IH; [intros; apply Hn; by right|].
      specialize (Hn x ltac:(left)). lia. }
    specialize (Hf (id r) (Hi r ltac:(left))). lia.
  - assert (forall m k, m < i -> fold_left (fun m (r : row) => Z.min m (id r)) k m < i) as Hf.
    { intros m k. revert m. induction k as [|x k IH]; intros m Hm; simpl; [done|]. apply IH. lia. }
    apply Z.lt_le_incl, Hf, Hi. apply list_elem_of_In.
    assert (In r (List.filter (fun r => match timestamp (log_body r) with
      | Some t => cutoff <=? t | None => false end) now)) as Hr by (rewrite E; by left).
    by apply filter_In in Hr as [Hr _].
Qed.

Lemma append_sealed now i b pf k ring :
  k = key \/ k = None -> sealed (append now i b pf k ring).1.
Proof.
  intros [-> | ->]; unfold append_entry; [right|left]; simpl; [|done].
  by destruct (last now) as [pr|]; [destruct (_ && _)|].
Qed.

Lemma append_id now i b pf k ring : id (append now i b pf k ring).1 = i.
Proof.
  unfold append_entry. destruct k as [[kb ki]|]; [|done].
  by destruct (last now) as [pr|]; [destruct (_ && _)|].
Qed.

Lemma append_prev now i b pf k ring :
  prev_hash (append now i b pf k ring).1 = Some (opt_digest_or GENESIS (r ← last now; entry_hash r)).
Proof.
  unfold append_entry. destruct k as [[kb ki]|]; [|done].
  by destruct (last now) as [pr|]; [destruct (_ && _)|].
Qed.

Lemma append_keyed now i b pf k ring :
  keyed (append now i b pf k ring).1 = bool_decide (is_Some k).
Proof.
  unfold append_entry, keyed. destruct k as [[kb ki]|]; [|done].
  by destruct (last now) as [pr|]; [destruct (_ && _)|].
Qed.

Lemma ascending_snoc now x i :
  ascending now -> (forall r, r ∈ now -> id r < i) -> id x = i -> ascending (now ++ [x]).
Proof.
  intros Ha Hi Hx. apply ascending_app. split; [done|].
  split; [simpl; split; [intros ? []%elem_of_nil|done]|].
  intros y ? Hy ->%list_elem_of_singleton. rewrite Hx. auto.
Qed.

Lemma append_start now i b k ring :
  ascending now -> (forall r, r ∈ now -> id r < i) ->
  let start := Some (default i (id <$> head now)) in
  (chain_start (append now i b None k ring).1 = None
   \/ chain_start (append now i b None k ring).1 = start)
  /\ (k = key -> existsb keyed now = false -> chain_start (append now i b None k ring).1 = start)
  /\ (k = None -> chain_start (append now i b None k ring).1 = None).
Proof.
  intros Ha Hi start.
  assert (forall x, id x = i -> min_id (now ++ [x]) = start) as Hmin.
  { intros x Hx. rewrite min_id_ascending by (by eapply ascending_snoc).
    rewrite head_snoc. unfold start. destruct (head now); simpl; congruence. }
  unfold append_entry. destruct k as [[kb ki]|]; [|split; [by left|split; done]].
  destruct (last now) as [pr|] eqn:El; simpl; [destruct (_ && _) eqn:Ec; simpl|].
  - split; [by left|]. split; [|done]. intros _ Hn. exfalso.
    apply andb_true_iff in Ec as [Ec _]. apply last_Some in El as [l' ->].
    rewrite existsb_app in Hn. simpl in Hn. unfold keyed in Hn at 2. rewrite Ec in Hn.
    by rewrite orb_true_r in Hn.
  - rewrite Hmin by done. split; [by right|done].
  - rewrite Hmin by done. split; [by right|done].
Qed.

Lemma append_start_purge now i b p k ring :
  ascending now -> (forall r, r ∈ now -> id r < i) -> p <= i ->
  chain_start (append now i b (Some p) k ring).1
    = Some (default i (id <$> head (List.filter (fun r => p <=? id r) now))).
Proof.
  intros Ha Hi Hp. unfold append_entry. destruct k as [[kb ki]|]; simpl.
  - destruct (last now) as [pr|]; simpl; [destruct (_ && _); simpl|]; by rewrite (first_kept p now _ i).
  - by rewrite (first_kept p now _ i).
Qed.

Record well_kept (all now : list row) : Prop := {
  wl_ascending : ascending all;
  wl_positive : forall r, r ∈ all -> 0 < id r;
  wl_suffix : exists gone, all = gone ++ now;
  wl_nil : now = [] -> all = [];
  wl_sealed : Forall sealed all;
  wl_linked : linked GENESIS all;
  wl_stays : key_stays all;
  wl_starts : forall r s, r ∈ all -> chain_start r = Some s ->
    0 < s /\ forall r0, head now = Some r0 -> s <= id r0;
  wl_recorded : start_recorded now;
}.

(* everything but the recorded starts *)
Lemma well_kept_row all now i b pf k ring (r := (append now i b pf k ring).1) :
  well_kept all now -> 0 < i -> (forall r, r ∈ all -> id r < i) ->
  k = key \/ k = None /\ existsb keyed all = false ->
  ascending (all ++ [r]) /\ (forall x, x ∈ all ++ [r] -> 0 < id x) /\ Forall sealed (all ++ [r])
  /\ linked GENESIS (all ++ [r]) /\ key_stays (all ++ [r]).
Proof.
  intros [K1 K2 K3 K4 K5 K6 K7 K8 K9] H0 Hi Hk.
  assert (id r = i) as Hr by apply append_id.
  assert (sealed r) as Hs by (apply append_sealed; tauto).
  split; [by eapply ascending_snoc|]. split.
  { intros x [Hx| ->%list_elem_of_singleton]%elem_of_app; [auto|congruence]. }
  split; [apply Forall_app; auto|]. split.
  - apply linked_app. split; [done|]. simpl. split.
    + unfold r. rewrite append_prev. f_equal. destruct K3 as [gone ->].
      destruct (last now) as [x|] eqn:El; simpl.
      * apply last_Some in El as [l' ->]. rewrite app_assoc.
        assert (sealed x) as [(_ & _ & Hx)|(_ & _ & Hx)].
        { rewrite Forall_forall in K5. apply K5. set_solver. }
        all: by erewrite end_seal_snoc, Hx by done.
      * apply last_None in El. by rewrite K4.
    + destruct Hs as [(_ & _ & ->)|(_ & _ & ->)]; eauto.
  - apply key_stays_app. split; [done|]. simpl. split; [done|]. intros Hk'.
    unfold r. rewrite append_keyed. destruct Hk as [->|[_ Hk]]; [done|congruence].
Qed.

Lemma well_kept_append all now i b k ring (r := (append now i b None k ring).1) :
  well_kept all now -> 0 < i -> (forall r, r ∈ all -> id r < i) ->
  k = key \/ k = None /\ existsb keyed all = false -> well_kept (all ++ [r]) (now ++ [r]).
Proof.
  intros W H0 Hi Hk. pose proof (well_kept_row _ _ i b None k ring W H0 Hi Hk) as (R1 & R2 & R3 & R4 & R5).
  fold r in R1, R2, R3, R4, R5. destruct W as [K1 K2 [gone ->] K4 K5 K6 K7 K8 K9].
  apply ascending_app in K1 as (_ & Ka & _).
  assert (forall x, x ∈ now -> id x < i) as Hin by (intros; apply Hi; set_solver).
  pose proof (append_start now i b k ring Ka Hin) as (S1 & S2 & S3). fold r in S1, S2, S3.
  assert (id r = i) as Hr by apply append_id.
  constructor; [done|done|by exists gone; rewrite app_assoc|by destruct now|done..| |].
  - intros x s [Hx| ->%list_elem_of_singleton]%elem_of_app Hs.
    + destruct (K8 x s Hx Hs) as [Hs0 Hle]. split; [done|]. intros r0 [= <-]%(eq_trans (eq_sym (head_snoc _ _))).
      destruct now as [|r1 now]; simpl; [|by apply Hle].
      specialize (K4 eq_refl). rewrite K4 in Hx. by apply elem_of_nil in Hx.
    + destruct S1 as [S1|S1]; rewrite S1 in Hs; [done|]. injection Hs as <-.
      split; [destruct now; simpl; [done|apply R2; set_solver]|].
      rewrite head_snoc. intros r0 [= <-]. destruct now; simpl; [by rewrite Hr|done].
  - intros r0. rewrite head_snoc. intros [= <-]. rewrite existsb_app. simpl. rewrite orb_false_r.
    assert (forall r0, head now = Some r0 -> default r (head now) = r0) as Hd by (by intros ? ->).
    assert (keyed r = bool_decide (is_Some k)) as Hkr by apply append_keyed.
    destruct (existsb keyed now) eqn:En; simpl.
    + destruct (head now) as [r1|] eqn:E1; [|by destruct now]. specialize (K9 r1 E1).
      rewrite En in K9. destruct K9 as (x & ? & ? & ?). exists x. set_solver.
    + destruct Hk as [->|[-> Hno]]; simpl in Hkr; rewrite Hkr; simpl.
      * exists r. split; [set_solver|]. split; [done|]. rewrite S2 by done. f_equal.
        destruct (head now); simpl; congruence.
      * destruct (head now) as [r1|] eqn:E1.
        -- specialize (K9 r1 E1). rewrite En in K9.
           destruct K9 as [K9|(x & ? & ?)]; [left|right; exists x; set_solver].
           intros x [Hx| ->%list_elem_of_singleton]%elem_of_app; auto.
        -- left. destruct now; [|done]. intros x ->%list_elem_of_singleton. auto.
Qed.

Lemma well_kept_purge all now cutoff i b k ring size fuel :
  well_kept all now -> 0 < i -> (forall r, r ∈ all -> id r < i) ->
  k = key \/ k = None /\ existsb keyed all = false ->
  List.filter (fun r => id r <? _purge_boundary now cutoff) now <> [] ->
  (0 < size)%nat -> (length now < fuel)%nat ->
  well_kept (all ++ [(append now i b (Some (_purge_boundary now cutoff)) k ring).1])
    (_purge GENESIS sha256_seal hmac_seal size fuel now cutoff i b k ring).
Proof.
  intros W H0 Hi Hk Hp Hsz Hf. unfold _purge. set (p := _purge_boundary now cutoff) in *.
  set (r := (append now i b (Some p) k ring).1).
  pose proof (well_kept_row _ _ i b (Some p) k ring W H0 Hi Hk) as (R1 & R2 & R3 & R4 & R5).
  fold r in R1, R2, R3, R4, R5. destruct W as [K1 K2 [gone ->] K4 K5 K6 K7 K8 K9].
  apply ascending_app in K1 as (_ & Ka & _).
  assert (forall x, x ∈ now -> id x < i) as Hin by (intros; apply Hi; set_solver).
  assert (id r = i) as Hr by apply append_id.
  assert (p <= i) as Hpi by (by apply boundary_bound).
  assert (chain_start r = Some (default i (id <$> head (List.filter (fun r => p <=? id r) now))))
    as Hst by (by apply append_start_purge).
  destruct (List.filter (fun r => id r <? p) now) as [|x0 below] eqn:Eb; [done|].
  rewrite purge_batches_all.
  2: done.
  2: { pose proof (List.filter_length_le (fun r => id r <? p) now) as Hlen. fold r.
       rewrite List.filter_app, length_app. simpl. replace (id r <? p) with false by lia. simpl. lia. }
  assert (List.filter (fun r => p <=? id r) (now ++ [r]) = List.filter (fun r => p <=? id r) now ++ [r]) as Hfl.
  { rewrite List.filter_app. simpl. by replace (p <=? id r) with true by lia. }
  assert (forall r0, head (List.filter (fun r => p <=? id r) (now ++ [r])) = Some r0 -> chain_start r = Some (id r0))
    as Hhead.
  { intros r0. rewrite Hfl, head_snoc, Hst. intros [= <-].
    destruct (head (List.filter (fun r => p <=? id r) now)); simpl; [done|by rewrite Hr]. }
  constructor; [done|done| | |done..| |].
  - destruct (ascending_suffix p (now ++ [r])) as [g Hg]; [by eapply ascending_snoc|].
    exists (gone ++ g). by rewrite <- !app_assoc, <- Hg, app_assoc.
  - rewrite Hfl. intros [_ Hnil]%app_eq_nil. done.
  - assert (0 < default i (id <$> head (List.filter (fun r => p <=? id r) now))) as Hpos.
    { destruct (head (List.filter (fun r => p <=? id r) now)) as [x|] eqn:Ex; simpl; [|done]. apply K2, elem_of_app. right.
      apply list_elem_of_In. eapply proj1, filter_In. apply list_elem_of_In, head_Some_elem_of, Ex. }
    intros x s [Hx| ->%list_elem_of_singleton]%elem_of_app Hs.
    + destruct (K8 x s Hx Hs) as [Hs0 Hle]. split; [done|]. intros r0 Hr0.
      apply head_Some_elem_of, list_elem_of_In, filter_In in Hr0 as [Hr0 _].
      destruct now as [|r1 now]; [done|]. specialize (Hle r1 eq_refl).
      apply list_elem_of_In, elem_of_app in Hr0 as [[->|Hr0]%elem_of_cons| ->%list_elem_of_singleton]; [done| |].
      * destruct Ka as [Ka _]. specialize (Ka _ Hr0). lia.
      * specialize (Hin r1 ltac:(left)). lia.
    + rewrite Hst in Hs. injection Hs as <-. split; [done|]. intros r0 Hr0%Hhead.
      rewrite Hst in Hr0. injection Hr0 as ->. done.
  - intros r0 Hr0%Hhead. rewrite Hfl.
    assert (r ∈ List.filter (fun r => p <=? id r) now ++ [r]) as Hinr
      by (apply elem_of_app; right; left).
    assert (keyed r = bool_decide (is_Some k)) as Hkr by apply append_keyed.
    destruct Hk as [->|[-> Hno]]; simpl in Hkr.
    + rewrite existsb_app. simpl. rewrite Hkr, orb_true_r. by exists r.
    + destruct (existsb keyed (List.filter (fun r => p <=? id r) now ++ [r])) eqn:Ee.
      * apply existsb_exists in Ee as (x & Hx & Hkx). exfalso.
        apply list_elem_of_In, elem_of_app in Hx as [Hx| ->%list_elem_of_singleton].
        -- apply list_elem_of_In, filter_In in Hx as [Hx _].
           assert (existsb keyed (gone ++ now) = true); [|congruence].
           apply existsb_exists. exists x. split; [apply in_app_iff; by right|done].
        -- rewrite Hkr in Hkx. done.
      * right. by exists r.
Qed.

Lemma ledger_well_kept all now : ledger all now -> well_kept all now.
Proof.
  induction 1 as [|all now i b k ring _ IH H0 Hi Hk|all now cutoff i b k ring size fuel _ IH H0 Hi Hk p Hp Hs Hf].
  - constructor; try done; try (intros ? []%elem_of_nil); try (by exists []); try (by constructor).
    intros ?? []%elem_of_nil.
  - by apply well_kept_append.
  - by apply well_kept_purge.
Qed.

(* what holds of the rows left, and of the last of them *)
Lemma well_kept_tail all now gone l : well_kept all now -> now = gone ++ l ->
  (exists p, Forall sealed l /\ linked p l /\ key_stays l) /\ positive_starts l.
Proof.
  intros [K1 K2 [g ->] K4 K5 K6 K7 K8 K9] ->. rewrite app_assoc in *. split.
  - exists (end_seal GENESIS (g ++ gone)). apply Forall_app in K5 as [_ K5]. apply linked_app in K6 as [_ K6].
    apply key_stays_app in K7 as (_ & K7 & _). done.
  - intros r s Hr Hs. apply (K8 r s); [|done]. apply elem_of_app. by right.
Qed.

(** C34. A ledger that the code wrote verifies: whatever mix of appends and purges
    produced it, and from whatever moment the key was there, no row of it is reported;
    once a row is sealed under the key the ledger is reported intact, every row left in
    it protected. *)
Theorem honest_ledger_verifies all now :
  ledger all now ->
  let rp := verify key now now true in
  rp_valid rp = true /\ rp_first_error rp = None
  /\ (existsb keyed now = true ->
       rp_status rp = Intact /\ rp_protected rp = length now /\ rp_protected_from rp = id <$> head now).
Proof.
  intros W%ledger_well_kept. cbv zeta.
  destruct (well_kept_tail _ _ [] now W eq_refl) as [(p & Hs & Hl & Hk) Hp].
  pose proof (walked_all now p Hs Hl Hk) as Hw.
  pose proof (check_start_ok _ _ Hw Hp (wl_recorded _ _ W)) as Hq.
  destruct (finish_walked _ _ now true (default 0 (id <$> last now)) Hw) as (F1 & F2 & F3).
  rewrite Hq in F1, F2, F3. unfold verify_chain. rewrite F1, F2, (wk_count _ _ Hw), (wk_error _ _ Hw). auto.
Qed.

(** Deleting the oldest rows by hand is reported: whatever rows are removed from
    the front of a ledger the code wrote, if a row under the key is left then the
    verification of the whole table fails at the first row left, as truncated. *)
Theorem prefix_removal_detected all now removed r0 kept table :
  ledger all now -> now = removed ++ r0 :: kept -> removed <> [] ->
  existsb keyed (r0 :: kept) = true ->
  let rp := verify key table (r0 :: kept) true in
  rp_valid rp = false /\ rp_first_error rp = Some (id r0, Truncated).
Proof.
  intros W%ledger_well_kept Hnow Hrem Hkeyed. cbv zeta.
  destruct (well_kept_tail _ _ removed (r0 :: kept) W Hnow) as [(p & Hs & Hl & Hk) Hp].
  pose proof (walked_all (r0 :: kept) p Hs Hl Hk) as Hw.
  assert (_check_chain_start GENESIS (fold_left step (r0 :: kept) (new_walk GENESIS key))
          = error (id r0) Truncated (fold_left step (r0 :: kept) (new_walk GENESIS key))) as Hq.
  { apply (check_start_truncated _ _ _ Hw Hp); [done..|]. intros r s Hr Hc.
    destruct W as [K1 K2 [g ->] K4 K5 K6 K7 K8 K9], removed as [|x removed]; [done|]. subst now.
    assert (s <= id x) as Hle by (apply (K8 r s); [set_solver|done|done]).
    apply ascending_app in K1 as (_ & [K1 _] & _). specialize (K1 r0 ltac:(set_solver)). lia. }
  destruct (finish_walked _ _ table true (default 0 (id <$> last (r0 :: kept))) Hw) as (F1 & F2 & _).
  rewrite Hq in F1, F2. unfold verify_chain. rewrite F1, F2.
  cbn [error error_count first_error]. by rewrite (wk_error _ _ Hw).
Qed.

(** ** Any rows at all

    Now the rows are whatever someone left in the database. *)

Definition under_key (r : row) : bool :=
  (version_of r =? KEYED_CHAIN) && bool_decide (hash_key_id r = Some key_id)
  && bool_decide (entry_hash r = Some (hmac_seal key_bytes (message_of r (prev_hash r)))).

Lemma error_if_count b i c w :
  error_count (@error_if digest b i c w) = ((if b then 1 else 0) + error_count w)%nat.
Proof. by destruct b. Qed.

(* the seal check: an error, or the row is what it claims to be *)
Lemma check_seal_cases w r h after w' ko rc :
  w_key w = key -> entry_hash r = Some h ->
  check_seal sha256_seal hmac_seal w r h after = (w', ko, rc) ->
  (error_count w <= error_count w')%nat /\ w_key w' = key /\ first_keyed w' = first_keyed w
  /\ first w' = first w /\ ko = under_key r.
Proof.
  intros Hk Hh. unfold check_seal, under_key. rewrite Hk, Hh.
  destruct (version_of r =? SHA256_CHAIN) eqn:E1; simpl.
  { assert ((version_of r =? KEYED_CHAIN) = false) as -> by (unfold SHA256_CHAIN, KEYED_CHAIN in *; lia).
    destruct (bool_decide _); intros [= <- <- <-]; simpl; repeat split; (done || lia). }
  destruct (version_of r =? KEYED_CHAIN) eqn:E2; simpl.
  2: intros [= <- <- <-]; simpl; repeat split; (done || lia).
  destruct (bool_decide (hash_key_id r = Some key_id)) eqn:E3; simpl.
  2: intros [= <- <- <-]; simpl; repeat split; (done || lia).
  rewrite (bool_decide_ext (Some h = _) (hmac_seal key_bytes (message_of r (prev_hash r)) = h))
    by (split; congruence).
  destruct (bool_decide (_ = h)); intros [= <- <- <-]; simpl; repeat split; (done || lia).
Qed.

(* a row that is fed without error *)
Lemma feed_quiet w r :
  w_key w = key -> (first w = None -> first_keyed w = None) -> error_count (step w r) = 0%nat ->
  error_count w = 0%nat /\ w_key (step w r) = key /\ is_Some (first (step w r))
  /\ (forall h, entry_hash r = Some h -> w_prev (step w r) = h)
  /\ match first_keyed w with
     | None => first_keyed (step w r) = (if under_key r then Some (id r) else None)
     | Some f => first_keyed (step w r) = Some f /\ under_key r = true
                 /\ (prev_hash r = None \/ prev_hash r = Some (w_prev w))
     end.
Proof.
  intros Hk Hf. unfold feed. destruct (entry_hash r) as [h|] eqn:Eh.
  2: { assert (under_key r = false) as ->.
       { unfold under_key. rewrite Eh. by rewrite andb_false_r. }
       simpl. rewrite error_if_count. destruct (first_keyed w) eqn:Ef; simpl; [lia|]. intros Hc.
       repeat split; try done. by destruct (first w). }
  match goal with |- context [check_seal _ _ (error_if ?b ?i ?c ?w1) r h ?a] =>
    set (bad := b); set (w0 := error_if bad i c w1); destruct (check_seal sha256_seal hmac_seal w0 r h a)
      as [[w' ko] rc] eqn:Es end.
  apply check_seal_cases in Es as (S1 & S2 & S3 & S4 & S5); [|by unfold w0; destruct bad|done].
  assert (error_count w0 = ((if bad then 1 else 0) + error_count w)%nat) as Hw0 by (unfold w0; by rewrite error_if_count).
  assert (first_keyed w' = first_keyed w) as Hfk by (rewrite S3; unfold w0; by destruct bad).
  assert (is_Some (first w')) as Hfirst.
  { rewrite S4. unfold w0. destruct bad; simpl; by destruct (first w). }
  match goal with |- context [if match first_keyed (set_position _ _ _ _) with Some _ => true | None => false end
      then error_if _ _ _ ?w2 else _] => set (w2' := w2) end.
  assert (error_count w2' = error_count w' /\ w_key w2' = key /\ first_keyed w2' = first_keyed w
          /\ first w2' = first w' /\ w_prev w2' = h) as (T1 & T2 & T3 & T4 & T5).
  { unfold w2'. destruct (chain_start r); [destruct (Nat.eqb _ _)|]; done. }
  clearbody w2'. simpl. destruct (first_keyed w) as [f|] eqn:Ef.
  - rewrite error_if_count, T1. rewrite <- S5 in *.
    destruct ko; simpl; [|destruct (Nat.eqb (error_count w') (error_count w)) eqn:En; [lia|];
      apply Nat.eqb_neq in En; lia].
    intros Hc. assert (bad = false) as Hbad by (destruct bad; [lia|done]). rewrite T4.
    repeat split; try done; [lia|by intros ? [= <-]|].
    unfold bad in Hbad. destruct (prev_hash r) as [q|]; [right|by left]. simpl in Hbad.
    apply negb_false_iff, bool_decide_eq_true in Hbad. rewrite Hbad. f_equal.
    destruct (first w); [done|]. by specialize (Hf eq_refl).
  - rewrite <- S5. intros Hc.
    assert (error_count w2' = 0%nat) as Hz.
    { destruct ko; [|destruct rc]; destruct (run_start w2'); done. }
    assert (error_count w = 0%nat) by lia.
    destruct ko; [|destruct rc]; destruct (run_start w2'); simpl; rewrite ?T4, ?T5;
      repeat split; try done; by intros ? [= <-].
Qed.

Lemma ascending_unique a x b a' y b' :
  ascending (a ++ x :: b) -> a ++ x :: b = a' ++ y :: b' -> id x = id y -> a = a' /\ x = y /\ b = b'.
Proof.
  revert a'. induction a as [|z a IH]; intros [|z' a']; simpl.
  - naive_solver.
  - intros [H _] [= -> ->] Hid. specialize (H y ltac:(set_solver)). lia.
  - intros [H _] [= -> <-] Hid. specialize (H x ltac:(set_solver)). lia.
  - intros [_ H] [= -> He] Hid. destruct (IH a' H He Hid) as (-> & -> & ->). done.
Qed.

(* the seal names what it seals *)
Hypothesis hmac_injective : forall m m', hmac_seal key_bytes m = hmac_seal key_bytes m' -> m = m'.
Hypothesis hmac_not_genesis : forall m, hmac_seal key_bytes m <> GENESIS.
Hypothesis hmac_not_sha : forall m i b p, hmac_seal key_bytes m <> sha256_seal i b p.

Lemma under_key_spec r : under_key r = true <->
  hash_version r = Some KEYED_CHAIN /\ hash_key_id r = Some key_id
  /\ entry_hash r = Some (hmac_seal key_bytes (message_of r (prev_hash r))).
Proof.
  unfold under_key. rewrite !andb_true_iff, !bool_decide_eq_true, Z.eqb_eq. unfold version_of.
  destruct (hash_version r) as [[| |]|]; unfold SHA256_CHAIN, KEYED_CHAIN; naive_solver.
Qed.

Lemma sealed_under_key r : sealed r -> keyed r = under_key r.
Proof.
  intros Hs. apply eq_true_iff_eq. rewrite under_key_spec. unfold keyed. rewrite bool_decide_eq_true.
  unfold sealed in Hs. unfold SHA256_CHAIN, KEYED_CHAIN in *. naive_solver.
Qed.

(* a row under the key is determined by what its seal names *)
Lemma under_key_eq r r' : under_key r = true -> under_key r' = true ->
  message_of r (prev_hash r) = message_of r' (prev_hash r') -> r = r'.
Proof.
  rewrite !under_key_spec. intros (H1 & H2 & H3) (H1' & H2' & H3') Hm. rewrite Hm in H3.
  destruct r, r'; unfold message_of in Hm; simpl in *. congruence.
Qed.

(* of the rows written, the one that names the seal of [x] is the one after it *)
Lemma successor all now a x b r :
  well_kept all now -> all = a ++ x :: b -> under_key x = true -> r ∈ all ->
  prev_hash r = entry_hash x -> exists b', b = r :: b'.
Proof.
  intros W Hall Hx Hr Hp. apply under_key_spec in Hx as (_ & _ & Hx). rewrite Hx in Hp.
  apply list_elem_of_split in Hr as (c & d & Hcd).
  pose proof (wl_linked _ _ W) as Hl. rewrite Hcd in Hl. apply linked_app in Hl as [_ [Hq _]].
  rewrite Hq in Hp. injection Hp as Hp.
  destruct c as [|y c _] using rev_ind; [by destruct (hmac_not_genesis _ (eq_sym Hp))|].
  assert (sealed y) as Hy.
  { pose proof (wl_sealed _ _ W) as Hs. rewrite Forall_forall in Hs. apply Hs. rewrite Hcd. set_solver. }
  destruct Hy as [(_ & _ & Hy)|(_ & _ & Hy)]; rewrite (end_seal_snoc _ _ _ _ Hy) in Hp.
  { by destruct (hmac_not_sha _ _ _ _ (eq_sym Hp)). }
  apply hmac_injective in Hp. pose proof (f_equal m_id Hp) as Hid. simpl in Hid.
  rewrite <- app_assoc in Hcd. simpl in Hcd.
  pose proof (wl_ascending _ _ W) as Ha. rewrite Hcd in Ha. rewrite Hall in Hcd.
  destruct (ascending_unique c y (r :: d) a x b Ha (eq_sym Hcd) Hid) as (_ & _ & Hb).
  by exists d.
Qed.

(* what has been walked: rows that are not under the key, then a stretch of the rows written *)
Definition stretch (all : list row) (w : @walk digest) (l : list row) : Prop :=
  w_key w = key /\ (first w = None -> first_keyed w = None) /\
  exists pre seg before after, l = pre ++ seg /\ all = before ++ seg ++ after
  /\ (forall r, r ∈ pre -> under_key r = false) /\ (forall r, r ∈ seg -> under_key r = true)
  /\ match first_keyed w with
     | None => seg = []
     | Some _ => exists x, last seg = Some x /\ entry_hash x = Some (w_prev w)
     end.

(* no seal under the key but those of the rows written *)
Definition unforged (all logs : list row) : Prop :=
  forall r, r ∈ logs -> under_key r = true ->
  exists h, h ∈ all /\ under_key h = true /\ message_of h (prev_hash h) = message_of r (prev_hash r).

Lemma stretch_step all now w l r :
  well_kept all now -> unforged all [r] -> stretch all w l -> error_count (step w r) = 0%nat ->
  stretch all (step w r) (l ++ [r]).
Proof.
  intros W Hu (Hk & Hf & pre & seg & before & after & -> & Hall & Hpre & Hseg & Hlast) Hc.
  destruct (feed_quiet w r Hk Hf Hc) as (_ & Q2 & [f0 Q3] & Q4 & Q5).
  assert (under_key r = true -> r ∈ all) as Hin.
  { intros Hr. destruct (Hu r ltac:(left) Hr) as (h & Hh & Hk' & Hm).
    by rewrite <- (under_key_eq h r Hk' Hr Hm). }
  assert (under_key r = true -> entry_hash r = Some (w_prev (step w r))) as Hprev.
  { intros Hr. apply under_key_spec in Hr as (_ & _ & Hr). by rewrite Hr, (Q4 _ Hr). }
  split; [done|]. split; [by rewrite Q3|]. destruct (first_keyed w) as [f|].
  - destruct Q5 as (-> & Hr & Hp). destruct Hlast as (x & Hx & Hw).
    apply last_Some in Hx as [seg' ->].
    exists pre, ((seg' ++ [x]) ++ [r]), before.
    assert (prev_hash r = entry_hash x) as Hpx.
    { destruct Hp as [Hp|Hp]; [|congruence]. exfalso. apply Hin, list_elem_of_split in Hr as (c & d & Hcd).
      pose proof (wl_linked _ _ W) as Hl. rewrite Hcd in Hl. apply linked_app in Hl as [_ [Hq _]]. congruence. }
    destruct (successor all now (before ++ seg') x after r W) as [after' ->]; [|apply Hseg; set_solver|auto|done|].
    { rewrite Hall. by rewrite <- !app_assoc. }
    exists after'. rewrite <- !app_assoc in *. split; [done|]. split; [done|]. split; [done|]. split.
    { intros y Hy. rewrite !elem_of_app, !list_elem_of_singleton in Hy.
      destruct Hy as [Hy|[->| ->]]; [apply Hseg; set_solver|apply Hseg; set_solver|done]. }
    exists r. rewrite last_app. simpl. auto.
  - subst seg. rewrite Q5. destruct (under_key r) eqn:Er.
    + destruct (list_elem_of_split _ _ (Hin eq_refl)) as (c & d & Hcd).
      exists pre, [r], c, d. rewrite app_nil_r. split; [done|]. split; [done|]. split; [done|].
      split; [by intros y ->%list_elem_of_singleton|]. exists r. auto.
    + exists (pre ++ [r]), [], before, after. rewrite !app_nil_r. split; [done|]. split; [done|].
      split; [|split; [intros ? []%elem_of_nil|done]].
      intros y [Hy| ->%list_elem_of_singleton]%elem_of_app; auto.
Qed.

Lemma feed_steady w r : w_key w = key -> w_key (step w r) = key /\ is_Some (first (step w r)).
Proof.
  intros Hk. unfold feed. destruct (entry_hash r) as [h|] eqn:Eh.
  2: { simpl. by destruct (first_keyed w), (first w). }
  match goal with |- context [check_seal _ _ ?w0 r h ?a] =>
    destruct (check_seal sha256_seal hmac_seal w0 r h a) as [[w' ko] rc] eqn:Es end.
  apply check_seal_cases in Es as (_ & S2 & _ & S4 & _); [|by match goal with |- w_key (error_if ?b _ _ _) = _ => destruct b end|done].
  assert (is_Some (first w')) as Hfirst.
  { rewrite S4. match goal with |- is_Some (first (error_if ?b _ _ _)) => destruct b end;
      simpl; by destruct (first w). }
  simpl. destruct (first_keyed w); [destruct (negb ko && _)|destruct ko; [|destruct rc]];
    (destruct (chain_start r); [destruct (Nat.eqb (error_count _) (error_count _))|]);
    simpl; try destruct (run_start w'); done.
Qed.

Lemma steady_all logs (w := fold_left step logs (new_walk GENESIS key)) :
  w_key w = key /\ (first w = None -> first_keyed w = None).
Proof.
  subst w. induction logs as [|r l [IH1 IH2]] using rev_ind; [done|]. rewrite fold_left_app. simpl.
  destruct (feed_steady _ r IH1) as [? [? Hf]]. split; [done|]. by rewrite Hf.
Qed.

Lemma stretch_all all now logs :
  well_kept all now -> unforged all logs ->
  error_count (fold_left step logs (new_walk GENESIS key)) = 0%nat ->
  stretch all (fold_left step logs (new_walk GENESIS key)) logs.
Proof.
  intros W. induction logs as [|r l IH] using rev_ind; intros Hu Hc.
  - split; [done|]. split; [done|]. exists [], [], [], all. simpl.
    repeat split; try done; intros ? []%elem_of_nil.
  - rewrite fold_left_app in *. simpl in *.
    assert (unforged all l /\ unforged all [r]) as [Hl Hr] by (split; intros x Hx; apply Hu; set_solver).
    destruct (steady_all l) as [S1 S2]. destruct (feed_quiet _ r S1 S2 Hc) as [Hq _].
    eapply stretch_step; eauto.
Qed.

Lemma check_retired_mono table upper l w : (error_count w <= error_count (@check_retired digest table upper l w))%nat.
Proof.
  revert w. induction l as [|[k [a b]] l IH]; intros w; simpl; [lia|].
  etransitivity; [|apply IH]. destruct (k ≫= _) as [lim|]; simpl; [|lia]. destruct (b <=? lim); simpl; lia.
Qed.

Lemma check_start_mono w : (error_count w <= error_count (_check_chain_start GENESIS w))%nat.
Proof.
  unfold _check_chain_start. destruct (first w) as [[[? ?] ?]|]; [|lia].
  destruct (first_keyed w); [destruct (keyed_start w)|destruct (any_start w)];
    try destruct (_ <? _); rewrite ?error_if_count; simpl; lia.
Qed.

Lemma finish_mono w table whole upper :
  rp_valid (finish GENESIS w table whole upper) = true -> error_count w = 0%nat.
Proof.
  unfold finish. simpl. rewrite Nat.eqb_eq.
  pose proof (check_retired_mono table upper (retired w) w) as Hr.
  pose proof (check_start_mono w). pose proof (check_start_mono (check_retired table upper (retired w) w)).
  destruct (w_key w), (first_keyed w), (errors_at_first_keyed w), whole; lia.
Qed.

(** C2. The ledger is tamper evident: take every row the code ever wrote under the key,
    and any rows at all in the database, none carrying a seal under the key that the
    code did not make. If they verify, then from the first row sealed under the key on
    they are an uninterrupted stretch of the rows written, in that order: none of
    these is altered, left out, inserted or moved. *)
Theorem ledger_tamper_evident all now table logs whole :
  ledger all now -> unforged all logs -> rp_valid (verify key table logs whole) = true ->
  exists pre seg before after,
    logs = pre ++ seg /\ all = before ++ seg ++ after /\ forall r, r ∈ pre -> under_key r = false.
Proof.
  intros W%ledger_well_kept Hu Hv%finish_mono.
  destruct (stretch_all _ _ _ W Hu Hv) as (_ & _ & pre & seg & before & after & ? & ? & ? & _).
  by exists pre, seg, before, after.
Qed.
End Honest.

(** * A ledger, concretely

    Seals that name what they seal, and a ledger of four entries of which the first
    is purged. *)

Module Sample.

Inductive seal :=
| Genesis
| Plain (i : Z) (b : body) (p : seal)
| PlainNone (i : Z) (b : body)
| Mac (key : string) (k : option string) (i : Z) (s : option Z) (r : option rotation) (b : body) (p : seal)
| MacNone (key : string) (k : option string) (i : Z) (s : option Z) (r : option rotation) (b : body).

#[export] Instance body_eq_dec : EqDecision body.
Proof. solve_decision. Defined.
#[export] Instance rotation_eq_dec : EqDecision rotation.
Proof. solve_decision. Defined.
#[export] Instance seal_eq_dec : EqDecision seal.
Proof. solve_decision. Defined.

Definition sha256_seal (i : Z) (b : body) (p : option seal) : seal :=
  match p with Some p => Plain i b p | None => PlainNone i b end.
Definition hmac_seal (key : string) (m : @message seal) : seal :=
  match m_prev m with
  | Some p => Mac key (m_key_id m) (m_id m) (m_chain_start m) (m_retired m) (m_body m) p
  | None => MacNone key (m_key_id m) (m_id m) (m_chain_start m) (m_retired m) (m_body m)
  end.

Definition entry (t : Z) (a : string) : body :=
  {| timestamp := Some t; username := Some "admin"%string; action := Some a; resource_type := None;
     resource_id := None; resource_name := None; details := None; ip_address := None;
     user_agent := None; success := Some true |}.

Definition write (l : list (@AuditLog seal)) (i : Z) (b : body) (k : option (string * string)) :=
  (append_entry Genesis sha256_seal hmac_seal l i b None k None).1.

Definition the_key : option (string * string) := Some ("secret", "k1")%string.
Definition r1 := write [] 1 (entry 10 "login") None.
Definition r2 := write [r1] 2 (entry 20 "issue") the_key.
Definition r3 := write [r1; r2] 3 (entry 30 "revoke") the_key.
Definition r4 := (append_entry Genesis sha256_seal hmac_seal [r1; r2; r3] 4 (entry 40 "audit_cleanup")
                    (Some 2) the_key None).1.

Lemma seal_injective key m m' : hmac_seal key m = hmac_seal key m' -> m = m'.
Proof. destruct m as [? ? ? ? ? []], m' as [? ? ? ? ? []]; unfold hmac_seal; simpl; congruence. Qed.
Lemma seal_not_genesis key m : hmac_seal key m <> Genesis.
Proof. unfold hmac_seal. by destruct (m_prev m). Qed.
Lemma seal_not_sha key m i b p : hmac_seal key m <> sha256_seal i b p.
Proof. unfold hmac_seal, sha256_seal. by destruct (m_prev m), p. Qed.

Lemma written : ledger Genesis sha256_seal hmac_seal "secret" "k1" [r1; r2; r3] [r1; r2; r3].
Proof.
  assert (forall l i b k, ledger Genesis sha256_seal hmac_seal "secret" "k1" l l -> 0 < i ->
    forallb (fun r => id r <? i) l = true ->
    k = the_key \/ k = None /\ existsb keyed l = false ->
    ledger Genesis sha256_seal hmac_seal "secret" "k1" (l ++ [write l i b k]) (l ++ [write l i b k])) as Hw.
  { intros l i b k Hl Hi Hlt Hk. apply ledger_append; [done|done| |done].
    intros r Hr%list_elem_of_In. rewrite forallb_forall in Hlt. apply Z.ltb_lt, Hlt, Hr. }
  apply (Hw [r1; r2] 3 (entry 30 "revoke") the_key); [|done|done|by left].
  apply (Hw [r1] 2 (entry 20 "issue") the_key); [|done|done|by left].
  apply (Hw [] 1 (entry 10 "login") None); [constructor|done|done|by right].
Qed.

Lemma purged : ledger Genesis sha256_seal hmac_seal "secret" "k1" [r1; r2; r3; r4] [r2; r3; r4].
Proof.
  apply (ledger_purge Genesis sha256_seal hmac_seal "secret" "k1" [r1; r2; r3] [r1; r2; r3] 15 4
           (entry 40 "audit_cleanup") the_key None 1 10); [exact written|done| |by left|done|lia|simpl; lia].
  intros r Hr. apply list_elem_of_In in Hr. simpl in Hr. naive_solver.
Qed.

Lemma honest_ledger_verifies_witness :
  let rp := verify_chain Genesis sha256_seal hmac_seal the_key [r2; r3; r4] [r2; r3; r4] true in
  rp_valid rp = true /\ rp_status rp = Intact /\ rp_protected rp = 3%nat.
Proof.
  destruct (honest_ledger_verifies Genesis sha256_seal hmac_seal "secret" "k1" _ _ purged) as (Hv & _ & Hk).
  destruct (Hk eq_refl) as (Hs & Hp & _). split; [exact Hv|]. split; [exact Hs|exact Hp].
Defined.

Lemma prefix_removal_detected_witness :
  let rp := verify_chain Genesis sha256_seal hmac_seal the_key [r4] [r4] true in
  rp_valid rp = false.
Proof.
  assert ([r2; r3] <> []) as Hne by discriminate.
  exact (proj1 (prefix_removal_detected Genesis sha256_seal hmac_seal "secret" "k1" _ _ [r2; r3] r4 []
    [r4] purged eq_refl Hne eq_refl)).
Defined.

Lemma ledger_tamper_evident_witness :
  exists pre seg before after, [r1; r2; r3] = pre ++ seg /\ [r1; r2; r3; r4] = before ++ seg ++ after
  /\ forall r, r ∈ pre -> under_key hmac_seal "secret" "k1" r = false.
Proof.
  apply (ledger_tamper_evident Genesis sha256_seal hmac_seal "secret" "k1" (seal_injective "secret")
    (seal_not_genesis "secret") (seal_not_sha "secret") _ _ [r1; r2; r3] [r1; r2; r3] true purged).
  - intros r Hr Hk. exists r. split; [|done]. revert Hr. rewrite !elem_of_cons. tauto.
  - vm_compute. reflexivity.
Defined.

(** A purge interrupted between two batches, when its record is the first entry under
    the key: the record names the first id to keep as the start of the ledger, so the
    rows that were due and are still there are reported as added since. *)
Definition p2 := write [r1] 2 (entry 20 "issue") None.
Definition p3 := write [r1; p2] 3 (entry 30 "revoke") None.

Lemma interrupted_first_purge_reported :
  let left := _purge Genesis sha256_seal hmac_seal 1 1 [r1; p2; p3] 25 4 (entry 40 "audit_cleanup")
                the_key None in
  id <$> left = [2; 3; 4]
  /\ rp_first_error (verify_chain Genesis sha256_seal hmac_seal the_key left left true)
     = Some (2, BeforeStart).
Proof. vm_compute. done. Qed.
End Sample.
