(* ===== verification/Session.v ===== *)
(** * Session: code that writes to the database

    A computation over a session: what the database holds, what the session sees, and
    the outcomes of the commits to come. A failed commit drops the writes of the
    session. [maintains P] says that a computation keeps [P] in the database and in the
    session, whichever of its commits fail; it composes along the code. *)

From stdpp Require Import prelude.
From S2P Require Import Prelude.

Record session (D : Type) := Session {
  committed : D;
  working : D;
  commits : list bool;    (* past the end, commits succeed *)
}.
Arguments Session {D} _ _ _.
Arguments committed {D} _.
Arguments working {D} _.
Arguments commits {D} _.

Definition M (D E A : Type) : Type := session D -> result E A * session D.
#[export] Instance M_ret {D E} : MRet (M D E) := fun A a w => (Ok a, w).
#[export] Instance M_bind {D E} : MBind (M D E) := fun A B k c w =>
  match c w with
  | (Ok a, w') => k a w'
  | (Raise e, w') => (Raise e, w')
  end.

Section Operations.
Context {D E : Type}.

Definition gets {A} (f : D -> A) : M D E A := fun w => (Ok (f (working w)), w).
Definition modify (f : D -> D) : M D E unit := fun w =>
  (Ok tt, Session (committed w) (f (working w)) (commits w)).
Definition rollback : M D E unit := fun w =>
  (Ok tt, Session (committed w) (committed w) (commits w)).
(* commit, and the rollback of its handler: whether it went through *)
Definition commit : M D E bool := fun w =>
  match commits w with
  | false :: l => (Ok false, Session (committed w) (committed w) l)
  | l => (Ok true, Session (working w) (working w) (tail l))
  end.
Definition raise {A} (e : E) : M D E A := fun w => (Raise e, w).
(* try: body; except Exception: handler *)
Definition try_ {A} (body : M D E A) (handler : E -> M D E A) : M D E A := fun w =>
  match body w with
  | (Ok a, w') => (Ok a, w')
  | (Raise e, w') => handler e w'
  end.

(* a call that works on some of the tables, made while the others have no unsaved write *)
Definition zoom {D' E' A} (get : D -> D') (put : D' -> D -> D) (err : E' -> E) (c : session D' -> result E' A * session D')
    : M D E A := fun w =>
  let '(r, w') := c (Session (get (committed w)) (get (working w)) (commits w)) in
  (match r with Ok a => Ok a | Raise e => Raise (err e) end,
   Session (put (committed w') (committed w)) (put (working w') (working w)) (commits w')).

(* a call on a new session *)
Definition run {A} (c : M D E A) (outcomes : list bool) (d : D) : result E A * D :=
  let '(r, w) := c (Session d d outcomes) in (r, committed w).
End Operations.

(** ** Reasoning *)

Lemma bind_gets {D E A B} (f : D -> A) (k : A -> M D E B) w : mbind k (gets f) w = k (f (working w)) w.
Proof. done. Qed.
Lemma bind_eq {D E A B} (c : M D E A) (k : A -> M D E B) w a w' : c w = (Ok a, w') -> mbind k c w = k a w'.
Proof. unfold mbind, M_bind. by intros ->. Qed.
Lemma bind_raise {D E A B} (c : M D E A) (k : A -> M D E B) w e w' : c w = (Raise e, w') -> mbind k c w = (Raise e, w').
Proof. unfold mbind, M_bind. by intros ->. Qed.

Section Maintains.
Context {D E : Type} (P : D -> Prop).

Definition held (w : session D) : Prop := P (committed w) /\ P (working w).
Definition maintains {A} (c : M D E A) : Prop := forall w, held w -> held (c w).2.

Lemma maintains_ret {A} (a : A) : maintains (mret a).
Proof. by intros w H. Qed.
Lemma maintains_raise {A} (e : E) : maintains (raise (A := A) e).
Proof. by intros w H. Qed.
Lemma maintains_gets {A} (f : D -> A) : maintains (gets f).
Proof. by intros w H. Qed.
Lemma maintains_modify f : (forall d, P d -> P (f d)) -> maintains (modify f).
Proof. intros Hf w [H1 H2]. split; [done|by apply Hf]. Qed.
Lemma maintains_rollback : maintains rollback.
Proof. intros w [H1 H2]. by split. Qed.
Lemma maintains_commit : maintains commit.
Proof. intros w [H1 H2]. unfold commit. by destruct (commits w) as [|[] l]. Qed.
Lemma maintains_bind {A B} (c : M D E A) (k : A -> M D E B) :
  maintains c -> (forall a, maintains (k a)) -> maintains (mbind k c).
Proof.
  intros Hc Hk w H. unfold mbind, M_bind. specialize (Hc w H).
  destruct (c w) as [[a|e] w']; cbn in *; [|done]. by apply Hk.
Qed.
Lemma maintains_try {A} (c : M D E A) (h : E -> M D E A) :
  maintains c -> (forall e, maintains (h e)) -> maintains (try_ c h).
Proof.
  intros Hc Hh w H. unfold try_. specialize (Hc w H).
  destruct (c w) as [[a|e] w']; cbn in *; [done|]. by apply Hh.
Qed.
(* a step that depends on what the session sees *)
Lemma maintains_bind_gets {A B} (f : D -> A) (k : A -> M D E B) :
  (forall d, P d -> maintains (k (f d))) -> maintains (mbind k (gets f)).
Proof. intros Hk w H. rewrite bind_gets. apply Hk; [apply H|done]. Qed.

Lemma maintains_run {A} (c : M D E A) outcomes d : maintains c -> P d -> P (run c outcomes d).2.
Proof.
  intros Hc H. destruct (Hc (Session d d outcomes)) as [H1 _]; [by split|]. unfold run. cbn in H1.
  by destruct (c (Session d d outcomes)).
Qed.
End Maintains.

(** ** From what held before to what holds after *)

Section Leads.
Context {D E : Type} (Q P : D -> Prop).

Definition leads {A} (c : M D E A) : Prop := forall w, held Q w -> held P (c w).2.
(* what is known of the value a computation returns *)
Definition ensures {A} (c : M D E A) (R : A -> Prop) : Prop := forall w a, held Q w -> (c w).1 = Ok a -> R a.

Hypothesis HQP : forall d, Q d -> P d.
Lemma held_weaken w : held Q w -> held P w.
Proof. intros [H1 H2]. split; by apply HQP. Qed.
Lemma leads_maintains {A} (c : M D E A) : maintains P c -> leads c.
Proof. intros H w Hw. by apply H, held_weaken. Qed.
Lemma leads_bind_gets {A B} (f : D -> A) (k : A -> M D E B) :
  (forall d, Q d -> leads (k (f d))) -> leads (mbind k (gets f)).
Proof. intros Hk w H. rewrite bind_gets. apply Hk; [apply H|done]. Qed.
Lemma leads_try {A} (c : M D E A) (h : E -> M D E A) :
  leads c -> (forall e, maintains P (h e)) -> leads (try_ c h).
Proof. intros Hc Hh w H. unfold try_. specialize (Hc w H). destruct (c w) as [[a|e] w']; cbn in *; [done|by apply Hh]. Qed.
Lemma leads_run {A} (c : M D E A) outcomes d : leads c -> Q d -> P (run c outcomes d).2.
Proof.
  intros Hc H. destruct (Hc (Session d d outcomes)) as [H1 _]; [by split|]. unfold run. cbn in H1.
  by destruct (c (Session d d outcomes)).
Qed.
End Leads.

Lemma leads_bind {D E A B} (Q Q1 P : D -> Prop) (c : M D E A) (k : A -> M D E B) (R : A -> Prop) :
  (forall d, Q1 d -> P d) -> leads Q Q1 c -> ensures Q c R -> (forall a, R a -> leads Q1 P (k a)) -> leads Q P (mbind k c).
Proof.
  intros HP Hc HR Hk w Hw. unfold mbind, M_bind. specialize (Hc w Hw). specialize (HR w).
  destruct (c w) as [[a|e] w']; cbn in *; [apply Hk; [by apply HR|done]|by eapply held_weaken].
Qed.

Create HintDb session.
#[export] Hint Resolve maintains_ret maintains_raise maintains_gets maintains_rollback maintains_commit : session.

(* walks down the code to its writes *)
Ltac session_walk :=
  repeat first
    [ progress auto with session
    | lazymatch goal with
      | |- maintains _ (mbind _ (gets _)) => apply maintains_bind_gets; intros ? ?
      | |- maintains _ (mbind _ _) => apply maintains_bind; [|intros ?]
      | |- maintains _ (try_ _ _) => apply maintains_try; [|intros ?]
      | |- maintains _ (modify _) => apply maintains_modify; intros ? ?
      end
    | case_match; try discriminate ].

(** ** Calls that cannot raise, and sessions whose commits all go through *)

Section Total.
Context {D E : Type}.

Definition completes {A} (c : M D E A) : Prop := forall w, exists a, (c w).1 = Ok a.
Definition settled (w : session D) : Prop := commits w = [].
Definition settles {A} (c : M D E A) : Prop := forall w, settled w -> settled (c w).2.

Lemma completes_ret {A} (a : A) : completes (mret a).
Proof. by exists a. Qed.
Lemma completes_modify f : completes (modify f).
Proof. by exists tt. Qed.
Lemma completes_commit : completes commit.
Proof. intros w. unfold commit. destruct (commits w) as [|[] l]; by eexists. Qed.
Lemma completes_bind {A B} (c : M D E A) (k : A -> M D E B) :
  completes c -> (forall a, completes (k a)) -> completes (mbind k c).
Proof.
  intros Hc Hk w. unfold mbind, M_bind. destruct (Hc w) as [a Ha]. destruct (c w) as [r w']. cbn in Ha. subst r. apply Hk.
Qed.
Lemma completes_bind_gets {A B} (f : D -> A) (k : A -> M D E B) :
  (forall a, completes (k a)) -> completes (mbind k (gets f)).
Proof. intros Hk w. rewrite bind_gets. apply Hk. Qed.
Lemma completes_try {A} (c : M D E A) (h : E -> M D E A) : (forall e, completes (h e)) -> completes (try_ c h).
Proof. intros Hh w. unfold try_. destruct (c w) as [[a|e] w']; [by exists a|apply Hh]. Qed.

(* always the same answer *)
Definition yields {A} (c : M D E A) (a : A) : Prop := forall w, (c w).1 = Ok a.
Lemma yields_ret {A} (a : A) : yields (mret a) a.
Proof. done. Qed.
Lemma yields_bind {A B} (c : M D E A) (k : A -> M D E B) b :
  completes c -> (forall a, yields (k a) b) -> yields (mbind k c) b.
Proof.
  intros Hc Hk w. unfold mbind, M_bind. destruct (Hc w) as [a Ha]. destruct (c w) as [r w']. cbn in Ha. subst r. apply Hk.
Qed.
Lemma yields_bind_gets {A B} (f : D -> A) (k : A -> M D E B) b :
  (forall a, yields (k a) b) -> yields (mbind k (gets f)) b.
Proof. intros Hk w. rewrite bind_gets. apply Hk. Qed.

Lemma settles_ret {A} (a : A) : settles (mret a).
Proof. by intros w H. Qed.
Lemma settles_raise {A} (e : E) : settles (raise (A := A) e).
Proof. by intros w H. Qed.
Lemma settles_gets {A} (f : D -> A) : settles (gets f).
Proof. by intros w H. Qed.
Lemma settles_modify f : settles (modify f).
Proof. by intros w H. Qed.
Lemma settles_rollback : settles rollback.
Proof. by intros w H. Qed.
Lemma settles_commit : settles commit.
Proof. intros w H. unfold commit. by rewrite H. Qed.
Lemma settles_bind {A B} (c : M D E A) (k : A -> M D E B) :
  settles c -> (forall a, settles (k a)) -> settles (mbind k c).
Proof.
  intros Hc Hk w H. unfold mbind, M_bind. specialize (Hc w H). destruct (c w) as [[a|e] w']; [by apply Hk|done].
Qed.
Lemma settles_try {A} (c : M D E A) (h : E -> M D E A) :
  settles c -> (forall e, settles (h e)) -> settles (try_ c h).
Proof. intros Hc Hh w H. unfold try_. specialize (Hc w H). destruct (c w) as [[a|e] w']; [done|by apply Hh]. Qed.

Lemma settled_commit w : settled w -> commit (E := E) w = (Ok true, Session (working w) (working w) []).
Proof. unfold settled, commit. by intros ->. Qed.
End Total.

#[export] Hint Resolve completes_ret completes_modify completes_commit yields_ret : session.
#[export] Hint Resolve settles_ret settles_raise settles_gets settles_modify settles_rollback settles_commit : session.

Ltac completes_walk :=
  repeat first
    [ progress auto with session
    | lazymatch goal with
      | |- completes (mbind _ (gets _)) => apply completes_bind_gets; intros ?
      | |- completes (mbind _ _) => apply completes_bind; [|intros ?]
      | |- completes (try_ _ _) => apply completes_try; intros ?
      | |- yields (mbind _ (gets _)) _ => apply yields_bind_gets; intros ?
      | |- yields (mbind _ _) _ => apply yields_bind; [|intros ?]
      | |- settles (mbind _ _) => apply settles_bind; [|intros ?]
      | |- settles (try_ _ _) => apply settles_try; [|intros ?]
      end
    | case_match ].

(** ** Calls that leave no write unsaved *)

Section Tidy.
Context {D E : Type}.

Definition saved (w : session D) : Prop := working w = committed w.
Definition tidy {A} (c : M D E A) : Prop := forall w, saved w -> saved (c w).2.
Definition cleans {A} (c : M D E A) : Prop := forall w, saved (c w).2.     (* whatever it starts from *)

Lemma tidy_ret {A} (a : A) : tidy (mret a).
Proof. by intros w H. Qed.
Lemma tidy_raise {A} (e : E) : tidy (raise (A := A) e).
Proof. by intros w H. Qed.
Lemma tidy_gets {A} (f : D -> A) : tidy (gets f).
Proof. by intros w H. Qed.
Lemma cleans_rollback : cleans rollback.
Proof. done. Qed.
Lemma cleans_commit : cleans commit.
Proof. intros w. unfold commit. by destruct (commits w) as [|[] l]. Qed.
Lemma cleans_tidy {A} (c : M D E A) : cleans c -> tidy c.
Proof. by intros H w _. Qed.
Lemma tidy_bind {A B} (c : M D E A) (k : A -> M D E B) : tidy c -> (forall a, tidy (k a)) -> tidy (mbind k c).
Proof. intros Hc Hk w H. unfold mbind, M_bind. specialize (Hc w H). destruct (c w) as [[a|e] w']; [by apply Hk|done]. Qed.
Lemma cleans_bind {A B} (c : M D E A) (k : A -> M D E B) : cleans c -> (forall a, tidy (k a)) -> cleans (mbind k c).
Proof. intros Hc Hk w. unfold mbind, M_bind. specialize (Hc w). destruct (c w) as [[a|e] w']; [by apply Hk|done]. Qed.
Lemma cleans_bind_gets {A B} (f : D -> A) (k : A -> M D E B) : (forall a, cleans (k a)) -> cleans (mbind k (gets f)).
Proof. intros Hk w. rewrite bind_gets. apply Hk. Qed.
Lemma cleans_bind_modify {B} f (k : unit -> M D E B) : cleans (k tt) -> cleans (mbind k (modify f)).
Proof. intros Hk w. apply Hk. Qed.
(* a first part that writes and does not save, unless it raises *)
Lemma tidy_bind_cleans {A B} (c : M D E A) (k : A -> M D E B) :
  (forall w e w', saved w -> c w = (Raise e, w') -> saved w') -> (forall a, cleans (k a)) -> tidy (mbind k c).
Proof. intros Hc Hk w H. unfold mbind, M_bind. destruct (c w) as [[a|e] w'] eqn:Ec; [apply Hk|by eapply Hc]. Qed.
Lemma tidy_try {A} (c : M D E A) (h : E -> M D E A) : tidy c -> (forall e, tidy (h e)) -> tidy (try_ c h).
Proof. intros Hc Hh w H. unfold try_. specialize (Hc w H). destruct (c w) as [[a|e] w']; [done|by apply Hh]. Qed.
End Tidy.

#[export] Hint Resolve tidy_ret tidy_raise tidy_gets cleans_rollback cleans_commit cleans_tidy : session.

Ltac tidy_walk :=
  repeat first
    [ progress auto with session
    | lazymatch goal with
      | |- cleans (mbind _ (gets _)) => apply cleans_bind_gets; intros ?
      | |- cleans (mbind _ (modify _)) => apply cleans_bind_modify
      | |- cleans (mbind _ _) => apply cleans_bind; [|intros ?]
      | |- tidy (mbind _ (modify _)) => apply cleans_tidy, cleans_bind_modify
      | |- tidy (mbind _ _) => apply tidy_bind; [|intros ?]
      | |- tidy (try_ _ _) => apply tidy_try; [|intros ?]
      end
    | case_match ].

(** ** A commit that ends a call: what is committed afterwards *)

Lemma last_commit {D E A} (k : bool -> M D E A) (w : session D) : (forall b w', (k b w').2 = w') ->
  committed (mbind k commit w).2 = committed w \/ committed (mbind k commit w).2 = working w.
Proof. intros Hk. unfold mbind, M_bind, commit. destruct (commits w) as [|[] l]; rewrite Hk; auto. Qed.
Ltac at_last_commit :=
  match goal with |- context [mbind ?k commit ?w] =>
    let H := fresh in destruct (last_commit k w ltac:(done)) as [H|H]; rewrite H; cbn [committed working]; clear H end.

(** ** Rows changed in place: the row a lookup finds *)

Fixpoint update_first {A} (p : A -> bool) (f : A -> A) (l : list A) : list A :=
  match l with
  | [] => []
  | x :: l' => if p x then f x :: l' else x :: update_first p f l'
  end.

Section UpdateFirst.
Context {A : Type} (p : A -> bool) (f : A -> A).

Lemma elem_update_first l x : x ∈ update_first p f l -> x ∈ l \/ exists y, List.find p l = Some y /\ x = f y.
Proof.
  induction l as [|y l IH]; cbn; [by left|]. destruct (p y).
  - rewrite !elem_of_cons. intros [->|?]; [right; by exists y|by left; right].
  - rewrite !elem_of_cons. intros [->|H]; [by left; left|]. destruct (IH H) as [?|?]; [by left; right|by right].
Qed.
Lemma update_first_other l x : x ∈ l -> p x = false -> x ∈ update_first p f l.
Proof.
  induction l as [|y l IH]; [done|]. cbn. rewrite elem_of_cons. intros [->|H] Hp.
  - rewrite Hp. left.
  - destruct (p y); [by right|right; by apply IH].
Qed.
Lemma find_update_first q l : (forall x, q (f x) = q x) ->
  List.find q (update_first p f l) = List.find q l
  \/ exists y, List.find p l = Some y /\ List.find q l = Some y /\ List.find q (update_first p f l) = Some (f y).
Proof.
  intros Hq. induction l as [|y l IH]; cbn; [by left|]. destruct (p y); cbn; [|destruct (q y); [by left|exact IH]].
  rewrite Hq. destruct (q y); [right; eauto|by left].
Qed.
End UpdateFirst.
Lemma update_first_skip {A} (p : A -> bool) f l l' : (forall x, x ∈ l -> p x = false) ->
  update_first p f (l ++ l')%list = (l ++ update_first p f l')%list.
Proof. induction l as [|x l IH]; intros H; cbn; [done|]. rewrite H by left. rewrite IH; [done|]. intros y Hy. apply H. by right. Qed.
Lemma fmap_update_first {A K} (k : A -> K) p f (l : list A) : (forall x, k (f x) = k x) -> k <$> update_first p f l = k <$> l.
Proof. intros Hk. induction l as [|x l IH]; cbn; [done|]. destruct (p x); cbn; by rewrite ?Hk, ?IH. Qed.
Lemma update_first_hit {A} p (f : A -> A) l y : List.find p l = Some y -> f y ∈ update_first p f l.
Proof. induction l as [|x l IH]; cbn; [done|]. destruct (p x); [intros [= ->]; left|]. intros H. right. by apply IH. Qed.
Lemma NoDup_fmap_inj {A K} (k : A -> K) l x y : NoDup (k <$> l) -> x ∈ l -> y ∈ l -> k x = k y -> x = y.
Proof.
  induction l as [|z l IH]; [by intros _ ?%elem_of_nil|]. rewrite fmap_cons. intros [Hz Hnd]%NoDup_cons.
  rewrite !elem_of_cons. intros [->|Hx] [->|Hy] E; [done| | |by apply IH].
  - destruct Hz. rewrite E. by apply list_elem_of_fmap_2.
  - destruct Hz. rewrite <- E. by apply list_elem_of_fmap_2.
Qed.
(* the largest id of a table *)
Lemma fold_max_bound l : forall m : Z, (m <= fold_left Z.max l m)%Z /\ forall i, i ∈ l -> (i <= fold_left Z.max l m)%Z.
Proof.
  induction l as [|x l IH]; intros m; cbn; [split; [lia|by intros i ?%elem_of_nil]|].
  destruct (IH (Z.max m x)) as [H1 H2]. split; [lia|]. intros i [->|Hi]%elem_of_cons; [lia|by apply H2].
Qed.
Lemma elem_lfilter {A} (f : A -> bool) x l : x ∈ List.filter f l <-> x ∈ l /\ f x = true.
Proof. by rewrite !list_elem_of_In, List.filter_In. Qed.
Lemma find_of_elem {A} (f : A -> bool) l x : x ∈ l -> f x = true -> exists y, List.find f l = Some y.
Proof.
  intros Hx Hf. destruct (List.find f l) as [y|] eqn:E; [eauto|].
  pose proof (List.find_none _ _ E x ltac:(by apply list_elem_of_In)). congruence.
Qed.
