(* ===== verification/AcmeJws.v ===== *)
(** * AcmeJws: who signed an ACME request

    Models the request authentication of [backend/api/acme/acme_api.py] ([verify_jws],
    [_verify_jws_signature], [_account_id_from_jws]), the account table of
    [backend/models/acme_models.py], the thumbprint of
    [backend/services/acme/jwk_thumbprint.py] and the validation of an external account
    binding ([backend/services/acme/mixins/eab.py]). The texts of a JWS are decoded by the
    standard library and its signatures checked by josepy and cryptography: the class
    [Jose]. Refusals are named, not spelled. *)

From Stdlib Require Import Ascii String.
From stdpp Require Import prelude strings.
From S2P Require Import Prelude Scalars Json Session AcmeNonces.

Local Open Scope string_scope.
Local Open Scope Z_scope.

(* base64url, UTF-8, then json.loads *)
Inductive decoded := NotText | EmptyText | NotJson | Value (v : json).

Class Jose := {
  decode : string -> decoded;
  jwk_loads : obj -> bool;                                 (* josepy reads the key *)
  signature_valid : string -> obj -> string -> string -> bool;  (* algorithm, key, input, signature *)
  canonical_digest : obj -> string;                        (* SHA-256 of the members, base64url *)
  hmac_signature : string -> string -> string -> option string; (* algorithm, key, input *)
}.

(** ** Tables *)

Record AcmeAccount := {
  account_id : string;
  jwk : json;
  jwk_thumbprint_col : string;
  contact : option (list json);
  status : string;
  terms_of_service_agreed : bool;
}.

Record AcmeEabCredential := {
  kid : string;
  hmac_key_b64 : option string;
  eab_expires_at : option Z;
  eab_status : string;
  eab_used_at : option Z;
  used_by_account_id : option string;
}.

Record db := {
  accounts : list AcmeAccount;
  credentials : list AcmeEabCredential;
  nonces : list AcmeNonce;
  order_certs : list (string * Z);     (* account and certificate of the orders that have one *)
}.

Definition with_accounts (f : list AcmeAccount -> list AcmeAccount) (d : db) : db :=
  {| accounts := f (accounts d); credentials := credentials d; nonces := nonces d; order_certs := order_certs d |}.
Definition with_credentials (f : list AcmeEabCredential -> list AcmeEabCredential) (d : db) : db :=
  {| accounts := accounts d; credentials := f (credentials d); nonces := nonces d; order_certs := order_certs d |}.
Definition with_nonces (t : list AcmeNonce) (d : db) : db :=
  {| accounts := accounts d; credentials := credentials d; nonces := t; order_certs := order_certs d |}.

Definition find_account (d : db) (i : string) : option AcmeAccount :=
  List.find (fun a => (account_id a =? i)%string) (accounts d).
Definition account_of_key (d : db) (thumbprint : string) : option AcmeAccount :=
  List.find (fun a => (jwk_thumbprint_col a =? thumbprint)%string) (accounts d).
Definition find_credential (d : db) (k : string) : option AcmeEabCredential :=
  List.find (fun c => (kid c =? k)%string) (credentials d).

(** ** Keys *)

Definition _REQUIRED_MEMBERS : list (string * list string) :=
  [("RSA", ["e"; "kty"; "n"]); ("EC", ["crv"; "kty"; "x"; "y"]); ("OKP", ["crv"; "kty"; "x"])].

Inductive acme_exc := CommitFailed | Fault.
Abbreviation Act := (M db acme_exc).

Section Jws.
Context `{!Jose}.

(* None: ValueError *)
Definition jwk_thumbprint (v : json) : option string :=
  match v with
  | JObj key =>
      match member key "kty" with
      | Some (JStr kty) =>
          members ← dict_get _REQUIRED_MEMBERS kty;
          required ← mapM (fun m => (fun x => (m, x)) <$> member key m) members;
          Some (canonical_digest required)
      | _ => None
      end
  | _ => None
  end.

(** ** JWS *)

Definition ALLOWED_JWS_ALGS : list string := ["RS256"; "RS384"; "RS512"; "ES256"; "ES384"; "ES512"].

Inductive jws_error :=
| MissingProtected | UrlMismatch | MissingNonce | BadNonce | NoKeyNamed | TwoKeysNamed | BadAlgorithm
| MissingPayload | UnknownAccount | NoKey | NotADict | UnsupportedKeyType | InvalidJwk | BadSignature
| ClosedAccount | SignatureError | InvalidJson | JwsError.

Definition has_algorithm (protected : obj) : option string :=
  match dget protected "alg" with
  | Some (JStr alg) => if str_in alg ALLOWED_JWS_ALGS then Some alg else None
  | _ => None
  end.

Definition url_in (protected : obj) (urls : list string) : bool :=
  match dget protected "url" with Some (JStr u) => str_in u urls | _ => false end.

(* an error, or None when the layer is good *)
Definition _verify_jws_signature (protected : obj) (signing_input : string) (signature : option json)
    (key_to_verify : json) (expected_urls : list string) : option jws_error :=
  if negb (url_in protected expected_urls) then Some UrlMismatch
  else match has_algorithm protected with
  | None => Some BadAlgorithm
  | Some alg =>
      match key_to_verify with
      | JObj key =>
          match dget key "kty" with
          | Some (JStr kty) =>
              if negb ((kty =? "RSA") || (kty =? "EC"))%string then Some UnsupportedKeyType
              else if negb (jwk_loads key) then Some InvalidJwk
              else match signature with
                   | Some (JStr sig) => if signature_valid alg key signing_input sig then None else Some BadSignature
                   | _ => Some BadSignature
                   end
          | _ => Some UnsupportedKeyType
          end
      | _ => Some NotADict
      end
  end.

(* kid.rstrip('/').split('/')[-1] *)
Definition last_segment (s : string) : string :=
  List.last (split "/" (rstrip_char "/" s)) "".

Definition _account_id_from_jws (jws : obj) : option string :=
  match member jws "protected" with
  | Some (JStr text) =>
      match decode text with
      | Value (JObj protected) =>
          match truth_of (dget protected "kid") with
          | Some (JStr k) => match last_segment k with "" => None | i => Some i end
          | _ => None
          end
      | _ => None
      end
  | _ => None
  end.

Definition text_member (jws : obj) (k : string) : string :=
  match member jws k with Some (JStr s) => s | _ => "" end.

(* the payload, {} when there is none *)
Definition decode_payload (v : json) : result jws_error json :=
  match v with
  | JStr "" => Ok (JObj [])
  | JStr text =>
      match decode text with
      | Value p => Ok p
      | EmptyText => Ok (JObj [])
      | NotJson => Raise InvalidJson
      | NotText => Raise JwsError
      end
  | v => if truth v then Raise JwsError else Ok (JObj [])
  end.

(* the key the layer is signed with, and the account it is the key of *)
Definition resolve_key (d : db) (jwk_member kid_member : option json)
    : result jws_error (json * option AcmeAccount) :=
  match jwk_member, kid_member with
  | Some key, _ => Ok (key, None)
  | None, Some (JStr k) =>
      match find_account d (last_segment k) with
      | None => Raise UnknownAccount
      | Some a => if truth (jwk a) then Ok (jwk a, Some a) else Raise NoKey
      end
  | None, _ => Raise SignatureError
  end.

(* the header names one key and an allowed algorithm *)
Definition header_error (protected : obj) : option jws_error :=
  match truth_of (dget protected "jwk"), truth_of (dget protected "kid") with
  | None, None => Some NoKeyNamed
  | Some _, Some _ => Some TwoKeysNamed
  | _, _ =>
      match dget protected "alg" with
      | Some (JList _) | Some (JObj _) => Some JwsError
      | _ => match has_algorithm protected with None => Some BadAlgorithm | Some _ => None end
      end
  end.

(* the key is found, the layer is signed with it, and its account is current *)
Definition check_signed (d : db) (jws protected : obj) (expected_urls : list string) (payload_member : json)
    : result jws_error (option json * option AcmeAccount) :=
  match resolve_key d (truth_of (dget protected "jwk")) (truth_of (dget protected "kid")) with
  | Raise e => Raise e
  | Ok (key, account) =>
      match payload_member with
      | JStr payload_text =>
          match _verify_jws_signature protected (text_member jws "protected" ++ "." ++ payload_text)
                  (Some (default (JStr "") (member jws "signature"))) key expected_urls with
          | Some e => Raise e
          | None =>
              match account with
              | Some a => if (status a =? "valid")%string then Ok (truth_of (dget protected "jwk"), account)
                          else Raise ClosedAccount
              | None => Ok (truth_of (dget protected "jwk"), account)
              end
          end
      | _ => Raise SignatureError
      end
  end.

(* the checks after the nonce: the payload, the embedded key, the account *)
Definition check_layer (d : db) (jws protected : obj) (expected_urls : list string)
    : result jws_error (json * option json * option AcmeAccount) :=
  match header_error protected with
  | Some e => Raise e
  | None =>
      match member jws "payload" with
      | None => Raise MissingPayload
      | Some payload_member =>
          match decode_payload payload_member with
          | Raise e => Raise e
          | Ok payload =>
              match check_signed d jws protected expected_urls payload_member with
              | Raise e => Raise e
              | Ok (embedded, account) => Ok (payload, embedded, account)
              end
          end
      end
  end.

(* what a request meets *)
Record env := {
  now : Z;
  expected_urls : list string;      (* get_acme_expected_urls: the canonical URL first *)
  fresh_id : string;                (* the account_id drawn for a new account *)
  fresh_nonce : string;             (* the nonce drawn for the response *)
  eab_setting : option (option string);   (* the acme_eab_required row *)
}.

(* validate_nonce: a commit that fails raises *)
Definition use_nonce (t : Z) (token : string) : Act bool :=
  r ← gets (fun d => AcmeNonces.validate_nonce token t true (nonces d));
  match r with
  | (Some b, table) =>
      _ ← modify (with_nonces table);
      ok ← commit;
      if ok : bool then mret b else raise CommitFailed
  | (None, _) => raise CommitFailed
  end.

Definition verify_jws (ev : env) (body : json) : Act (result jws_error (json * option json * option AcmeAccount)) :=
  match body with
  | JObj jws =>
      match member jws "protected" with
      | None => mret (Raise MissingProtected)
      | Some (JStr text) =>
          match decode text with
          | NotText => mret (Raise JwsError)
          | EmptyText | NotJson => mret (Raise InvalidJson)
          | Value (JObj protected) =>
              if negb (url_in protected (expected_urls ev)) then mret (Raise UrlMismatch)
              else match truth_of (dget protected "nonce") with
              | None => mret (Raise MissingNonce)
              | Some (JStr token) =>
                  fresh ← try_ (b ← use_nonce (now ev) token; mret (Some b)) (fun _ => mret None);
                  match fresh with
                  | None => mret (Raise JwsError)
                  | Some false => mret (Raise BadNonce)
                  | Some true => gets (fun d => check_layer d jws protected (expected_urls ev))
                  end
              | Some _ => mret (Raise JwsError)
              end
          | Value _ => mret (Raise JwsError)
          end
      | Some _ => mret (Raise JwsError)
      end
  | JList l => mret (Raise (if existsb (fun v => json_equal v (JStr "protected")) l then JwsError else MissingProtected))
  | JStr s => mret (Raise (if contains "protected" s then JwsError else MissingProtected))
  | _ => mret (Raise JwsError)
  end.

(** ** External account bindings *)

Definition is_usable (t : Z) (c : AcmeEabCredential) : bool :=
  (eab_status c =? "active")%string && match eab_expires_at c with Some e => negb (e <? t) | None => true end.

Definition _EAB_ALGS : list string := ["HS256"; "HS384"; "HS512"].

Inductive eab_error :=
| EabMissingFields | EabUrl | EabAlgorithm | EabNoKid | EabUnknown | EabNotUsable | EabPayload | EabOtherKey
| EabSignature | EabFault.

Definition eab_protected (eab : obj) : option obj :=
  match member eab "protected" with
  | Some (JStr text) => match decode text with Value (JObj p) => Some p | _ => None end
  | _ => None
  end.

(* an error, or the credential the binding is signed with *)
Definition validate_eab (d : db) (t : Z) (eab_data : json) (account_jwk : json) (new_account_url : option json)
    : result eab_error AcmeEabCredential :=
  match eab_data with
  | JObj eab =>
      match member eab "protected", member eab "payload", member eab "signature" with
      | Some _, Some payload_member, Some signature =>
          match eab_protected eab with
          | None => Raise EabFault
          | Some protected =>
              if match new_account_url with
                 | Some u => negb (match dget protected "url" with Some v => json_equal v u | None => false end)
                 | None => false
                 end then Raise EabUrl
              else match dget protected "alg" with
              | Some (JStr alg) =>
                  if negb (str_in alg _EAB_ALGS) then Raise EabAlgorithm
                  else match truth_of (dget protected "kid") with
                  | None => Raise EabNoKid
                  | Some (JStr k) =>
                      match find_credential d k with
                      | None => Raise EabUnknown
                      | Some c =>
                          if negb (is_usable t c) then Raise EabNotUsable
                          else match hmac_key_b64 c with
                          | None | Some "" => Raise EabUnknown
                          | Some key =>
                              match payload_member with
                              | JStr payload_text =>
                                  match decode payload_text with
                                  | Value payload_jwk =>
                                      match jwk_thumbprint payload_jwk, jwk_thumbprint account_jwk with
                                      | Some p, Some a =>
                                          if negb (p =? a)%string then Raise EabOtherKey
                                          else match signature with
                                          | JStr sig =>
                                              match hmac_signature alg key
                                                      (text_member eab "protected" ++ "." ++ payload_text) with
                                              | Some mac => if (mac =? sig)%string then Ok c else Raise EabSignature
                                              | None => Raise EabFault
                                              end
                                          | _ => Raise EabFault
                                          end
                                      | _, _ => Raise EabPayload
                                      end
                                  | NotText => Raise EabFault
                                  | _ => Raise EabPayload
                                  end
                              | _ => Raise EabFault
                              end
                          end
                      end
                  | Some _ => Raise EabUnknown
                  end
              | _ => Raise EabAlgorithm
              end
          end
      | _, _, _ => Raise EabMissingFields
      end
  | _ => Raise EabFault
  end.

(* the UPDATE and its commit; whether the credential is bound to the account *)
Definition consumable (t : Z) (k : string) (c : AcmeEabCredential) : bool :=
  (kid c =? k)%string && (eab_status c =? "active")%string && bool_decide (used_by_account_id c = None)
  && match eab_expires_at c with Some e => t <? e | None => true end.

Definition consumed (t : Z) (account : string) (c : AcmeEabCredential) : AcmeEabCredential :=
  {| kid := kid c; hmac_key_b64 := hmac_key_b64 c; eab_expires_at := eab_expires_at c; eab_status := "used";
     eab_used_at := Some t; used_by_account_id := Some account |}.

Definition mark_eab_used (t : Z) (k account : string) : Act bool :=
  taken ← gets (fun d => existsb (consumable t k) (credentials d));
  if negb taken then
    _ ← rollback;
    gets (fun d => match find_credential d k with
                   | Some c => (eab_status c =? "used")%string && bool_decide (used_by_account_id c = Some account)
                   | None => false
                   end)
  else
    _ ← modify (with_credentials (fmap (fun c => if consumable t k c then consumed t account c else c)));
    commit.
End Jws.
