(* ===== verification/AcmeAccounts.v ===== *)
(** * AcmeAccounts: registration, update and key change of ACME accounts

    Models [new_account], [account_info] and [key_change] of [backend/api/acme/acme_api.py],
    the rules of [backend/services/acme/account_requests.py] and [create_account] of
    [backend/services/acme/mixins/account.py]. Each response carries a nonce that is stored
    first; the account columns [account_id] and [jwk_thumbprint] are unique, so a commit
    that would repeat one fails. *)

From Stdlib Require Import Ascii String.
From stdpp Require Import prelude strings.
From S2P Require Import Prelude Scalars Json Session AcmeNonces AcmeJws.

Local Open Scope string_scope.
Local Open Scope Z_scope.

Inductive reply :=
| AccountReply (a : AcmeAccount) (created : bool)
| JwsRefused (e : jws_error)
| EabRefused (e : eab_error)
| Refused (type : string) (status : Z).

(** ** services/acme/account_requests.py *)

Definition account_error : Type := string * Z.
Definition malformed : account_error := ("malformed", 400).

Definition count_char (c : ascii) (s : string) : nat := length (List.filter (Ascii.eqb c) (chars s)).

(* None: accepted *)
Definition contact_uri_error (v : json) : option account_error :=
  match v with
  | JStr uri =>
      match partition ":" uri with
      | Some (scheme, target) =>
          if negb (lower scheme =? "mailto")%string then Some ("unsupportedContact", 400)
          else
            let address := match partition "?" target with Some (a, _) => a | None => target end in
            match partition "@" address with
            | Some (local_part, domain) =>
                if negb (count_char "@" address =? 1)%nat || any_char is_space address
                   || negb (nonempty local_part) || negb (nonempty domain) || startswith domain "."
                   || endswith domain "." || contains ".." domain
                then Some ("invalidContact", 400) else None
            | None => Some ("invalidContact", 400)
            end
      | None => Some ("unsupportedContact", 400)
      end
  | _ => Some ("invalidContact", 400)
  end.

Fixpoint first_error {A} (f : A -> option account_error) (l : list A) : option account_error :=
  match l with
  | [] => None
  | x :: l' => match f x with Some e => Some e | None => first_error f l' end
  end.

Definition validate_contact_uris (v : json) : option account_error :=
  match v with
  | JList l => first_error contact_uri_error l
  | _ => Some ("invalidContact", 400)
  end.

Definition _contact (payload : obj) : result account_error (list json) :=
  match dget payload "contact" with
  | None => Ok []
  | Some v =>
      match validate_contact_uris v, v with
      | None, JList l => Ok l
      | Some e, _ => Raise e
      | None, _ => Raise malformed
      end
  end.

Definition _boolean (payload : obj) (field : string) : result account_error bool :=
  match dget payload field with
  | None => Ok false
  | Some (JBool b) => Ok b
  | Some _ => Raise malformed
  end.

Record new_account_fields := {
  f_contact : list json; f_terms : bool; f_only_existing : bool; f_eab : option json;
}.

Definition parse_new_account (payload : json) : result account_error new_account_fields :=
  match payload with
  | JObj o =>
      match _contact o, _boolean o "termsOfServiceAgreed", _boolean o "onlyReturnExisting" with
      | Ok c, Ok t, Ok only => Ok {| f_contact := c; f_terms := t; f_only_existing := only;
                                     f_eab := dget o "externalAccountBinding" |}
      | Raise e, _, _ => Raise e
      | _, Raise e, _ => Raise e
      | _, _, Raise e => Raise e
      end
  | _ => Raise malformed
  end.

Definition set_status (s : string) (a : AcmeAccount) : AcmeAccount :=
  {| account_id := account_id a; jwk := jwk a; jwk_thumbprint_col := jwk_thumbprint_col a; contact := contact a;
     status := s; terms_of_service_agreed := terms_of_service_agreed a |}.
Definition set_contact (l : list json) (a : AcmeAccount) : AcmeAccount :=
  {| account_id := account_id a; jwk := jwk a; jwk_thumbprint_col := jwk_thumbprint_col a; contact := Some l;
     status := status a; terms_of_service_agreed := terms_of_service_agreed a |}.
Definition set_key (v : json) (thumbprint : string) (a : AcmeAccount) : AcmeAccount :=
  {| account_id := account_id a; jwk := v; jwk_thumbprint_col := thumbprint; contact := contact a;
     status := status a; terms_of_service_agreed := terms_of_service_agreed a |}.

Definition contact_change (payload : obj) : result account_error (option (list json)) :=
  match member payload "contact" with
  | None => Ok None
  | Some _ => match _contact payload with Ok l => Ok (Some l) | Raise e => Raise e end
  end.

(* the account as changed, None when the payload asks for nothing *)
Definition apply_account_update (payload : json) (a : AcmeAccount) : result account_error (option AcmeAccount) :=
  match payload with
  | JNull | JObj [] => Ok None
  | JObj o =>
      match contact_change o with
      | Raise e => Raise e
      | Ok contact =>
          let deactivate := match dget o "status" with Some (JStr s) => (s =? "deactivated")%string | _ => false end in
          let a1 := if deactivate then set_status "deactivated" a else a in
          let a2 := match contact with Some l => set_contact l a1 | None => a1 end in
          Ok (if deactivate || bool_decide (is_Some contact) then Some a2 else None)
      end
  | _ => Raise malformed
  end.

(** ** Requests *)

Section Accounts.
Context `{!Jose}.

(* the nonce of the response; a commit that fails raises *)
Definition respond {A} (ev : env) (r : A) : Act A :=
  g ← gets (fun d => AcmeNonces.generate_nonce (fresh_nonce ev) (now ev) true (nonces d));
  match g with
  | (Some _, table) =>
      _ ← modify (with_nonces table);
      ok ← commit;
      if ok : bool then mret r else raise CommitFailed
  | (None, _) => raise CommitFailed
  end.

Definition guarded (ev : env) (body : Act reply) : Act reply :=
  try_ body (fun _ => respond ev (Refused "serverInternal" 500)).

(* commit under the unique columns of the account table *)
Definition unique_accounts (d : db) : bool :=
  bool_decide (NoDup (account_id <$> accounts d)) && bool_decide (NoDup (jwk_thumbprint_col <$> accounts d)).
Definition save : Act bool :=
  ok ← gets unique_accounts;
  if ok : bool then commit else _ ← rollback; mret false.

Definition create_account (ev : env) (key : json) (thumbprint : string) (c : list json) (terms : bool)
    : Act (AcmeAccount * bool) :=
  existing ← gets (fun d => account_of_key d thumbprint);
  match existing with
  | Some a => mret (a, false)
  | None =>
      let a := {| account_id := fresh_id ev; jwk := key; jwk_thumbprint_col := thumbprint;
                  contact := match c with [] => None | _ => Some c end; status := "valid";
                  terms_of_service_agreed := terms |} in
      _ ← modify (with_accounts (fun l => l ++ [a])%list);
      ok ← save;
      if ok : bool then mret (a, true) else raise CommitFailed
  end.

(* None: the credential is bound to the account *)
Definition consume_eab (ev : env) (eab : json) (a : AcmeAccount) : Act (option reply) :=
  let k := match eab with
           | JObj o => match eab_protected o with
                       | Some p => match truth_of (dget p "kid") with Some (JStr k) => k | _ => "" end
                       | None => ""
                       end
           | _ => ""
           end in
  bound ← (if nonempty k then mark_eab_used (now ev) k (account_id a) else mret false);
  if bound : bool then mret None
  else
    _ ← modify (with_accounts (List.filter (fun b => negb (account_id b =? account_id a)%string)));
    ok ← commit;
    mret (Some (if ok : bool then Refused "malformed" 400 else Refused "serverInternal" 500)).

Definition outer_url (body : json) : option json :=
  match body with
  | JObj jws => match member jws "protected" with
                | Some (JStr t) => match decode t with Value (JObj p) => dget p "url" | _ => None end
                | _ => None
                end
  | _ => None
  end.

(* the setting: None when the row holds no text *)
Definition eab_required (ev : env) : option bool :=
  match eab_setting ev with
  | None => Some false
  | Some None => None
  | Some (Some v) => Some (lower v =? "true")%string
  end.

Definition register (ev : env) (body key : json) (thumbprint : string) (f : new_account_fields) : Act reply :=
  match eab_required ev with
  | None => raise Fault
  | Some required =>
      let eab := truth_of (f_eab f) in
      if required && negb (bool_decide (is_Some eab)) then respond ev (Refused "externalAccountRequired" 400)
      else
        checked ← gets (fun d => match eab with
                                 | None => None
                                 | Some e => match validate_eab d (now ev) e key (outer_url body) with
                                             | Ok _ => None | Raise err => Some err end
                                 end);
        match checked with
        | Some err => respond ev (EabRefused err)
        | None =>
            created ← create_account ev key thumbprint (f_contact f) (f_terms f);
            let '(a, is_new) := created in
            if negb is_new && negb (status a =? "valid")%string then respond ev (Refused "unauthorized" 401)
            else
              refused ← match eab with
                        | Some e => if is_new : bool then consume_eab ev e a else mret None
                        | None => mret None
                        end;
              match refused with
              | Some r => respond ev r
              | None => respond ev (AccountReply a is_new)
              end
        end
  end.

Definition new_account (ev : env) (body : json) : Act reply := guarded ev (
  if negb (truth body) then respond ev (Refused "malformed" 400)
  else
    verified ← verify_jws ev body;
    match verified with
    | Raise e => respond ev (JwsRefused e)
    | Ok (_, None, _) => respond ev (Refused "malformed" 400)
    | Ok (payload, Some key, _) =>
        match parse_new_account payload with
        | Raise (t, st) => respond ev (Refused t st)
        | Ok f =>
            match jwk_thumbprint key with
            | None => raise Fault
            | Some thumbprint =>
                existing ← gets (fun d => account_of_key d thumbprint);
                match existing with
                | Some a => respond ev (if (status a =? "valid")%string then AccountReply a false
                                        else Refused "unauthorized" 401)
                | None => if f_only_existing f then respond ev (Refused "accountDoesNotExist" 400)
                          else register ev body key thumbprint f
                end
            end
        end
    end).

Definition update_account (i : string) (f : AcmeAccount -> AcmeAccount) : db -> db :=
  with_accounts (update_first (fun a => (account_id a =? i)%string) f).

Definition account_info (ev : env) (i : string) (body : json) : Act reply :=
  found ← gets (fun d => find_account d i);
  match found with
  | None => respond ev (Refused "accountDoesNotExist" 404)
  | Some a =>
      if negb (truth body) then respond ev (Refused "malformed" 400)
      else
        verified ← verify_jws ev body;
        match verified, body with
        | Raise e, _ => respond ev (JwsRefused e)
        | Ok (payload, _, _), JObj jws =>
            if negb (bool_decide (_account_id_from_jws jws = Some i)) then respond ev (Refused "unauthorized" 403)
            else match apply_account_update payload a with
                 | Raise (t, st) => _ ← rollback; respond ev (Refused t st)
                 | Ok None => respond ev (AccountReply a false)
                 | Ok (Some a') =>
                     _ ← modify (update_account i (fun _ => a'));
                     ok ← save;
                     if ok : bool then respond ev (AccountReply a' false)
                     else respond ev (Refused "serverInternal" 500)
                 end
        | Ok _, _ => respond ev (Refused "unauthorized" 403)
        end
  end.

(* what the inner JWS of a key change asks for *)
Record key_change_request := { k_account : string; k_old : json; k_new : json }.

Definition key_change_of (jws outer_payload : obj) : result account_error key_change_request :=
  match member outer_payload "protected", member outer_payload "payload", member outer_payload "signature" with
  | Some inner_text, Some payload_member, Some signature =>
      match match member jws "protected" with Some (JStr t) => decode t | _ => NotText end,
            match inner_text with JStr t => decode t | _ => NotText end with
      | Value (JObj outer), Value (JObj inner) =>
          match truth_of (dget inner "jwk") with
          | None => Raise malformed
          | Some new_jwk =>
              match dget inner "url", dget outer "url" with
              | Some (JStr iu), Some (JStr ou) =>
                  if negb (iu =? ou)%string then Raise malformed
                  else match payload_member, inner_text with
                  | JStr payload_text, JStr inner_b64 =>
                      match _verify_jws_signature inner (inner_b64 ++ "." ++ payload_text) (Some signature) new_jwk [ou] with
                      | Some _ => Raise malformed
                      | None =>
                          match decode payload_text with
                          | Value (JObj p) =>
                              match truth_of (dget p "account") with
                              | Some (JStr u) =>
                                  match last_segment u with
                                  | "" => Raise malformed
                                  | i =>
                                      if negb (bool_decide (_account_id_from_jws jws = Some i)) then Raise ("unauthorized", 401)
                                      else Ok {| k_account := i; k_old := default (JObj []) (dget p "oldKey"); k_new := new_jwk |}
                                  end
                              | None => Raise malformed
                              | Some _ => Raise ("serverInternal", 500)
                              end
                          | Value _ => Raise ("serverInternal", 500)
                          | _ => Raise malformed
                          end
                      end
                  | _, _ => Raise malformed
                  end
              | _, _ => Raise malformed
              end
          end
      | Value (JObj _), Value _ => Raise ("serverInternal", 500)
      | _, _ => Raise malformed
      end
  | _, _, _ => Raise malformed
  end.

Definition change_key (ev : env) (r : key_change_request) : Act reply :=
  found ← gets (fun d => find_account d (k_account r));
  match found with
  | None => respond ev (Refused "accountDoesNotExist" 404)
  | Some a =>
      if negb (truth (k_old r)) || negb (json_equal (k_old r) (jwk a)) then respond ev (Refused "malformed" 400)
      else if json_equal (k_new r) (jwk a) then respond ev (Refused "malformed" 400)
      else match jwk_thumbprint (k_new r) with
      | None => raise Fault
      | Some thumbprint =>
          conflict ← gets (fun d => existsb (fun b => (jwk_thumbprint_col b =? thumbprint)%string
                                      && negb (account_id b =? account_id a)%string) (accounts d));
          if conflict : bool then respond ev (Refused "malformed" 409)
          else
            _ ← modify (update_account (account_id a) (set_key (k_new r) thumbprint));
            ok ← save;
            if ok : bool then respond ev (AccountReply (set_key (k_new r) thumbprint a) false)
            else respond ev (Refused "serverInternal" 500)
      end
  end.

Definition key_change (ev : env) (body : json) : Act reply := guarded ev (
  if negb (truth body) then respond ev (Refused "malformed" 400)
  else
    verified ← verify_jws ev body;
    match verified, body with
    | Raise e, _ => respond ev (JwsRefused e)
    | Ok (JObj (p :: l), _, _), JObj jws =>
        match key_change_of jws (p :: l) with
        | Raise (t, st) => respond ev (Refused t st)
        | Ok r => change_key ev r
        end
    | Ok _, _ => respond ev (Refused "malformed" 400)
    end).
End Accounts.
