(* ===== verification/AcmeAccountSafety.v ===== *)
(** * AcmeAccountSafety: only the holder of its key acts for an account

    A request is accepted exactly when it is signed as RFC 8555 asks; accounts change only
    by requests their key signed; keys and identifiers stay unique; an external account
    binding is used once. *)

From Stdlib Require Import Ascii String.
From stdpp Require Import prelude strings.
From S2P Require Import Prelude Scalars Json Session AcmeNonces AcmeJws AcmeAccounts.

Local Open Scope string_scope.
Local Open Scope Z_scope.

Section Safety.
Context {J : Jose}.

(** ** What an accepted request carries *)

(* a layer signed by a key: the header, the algorithm, the text and the signature *)
Record layer (protected : obj) (input : string) (signature : option json) (key : json) (urls : list string) : Prop := {
  ly_url : exists u, dget protected "url" = Some (JStr u) /\ u ∈ urls;
  ly_alg : exists alg o sig, dget protected "alg" = Some (JStr alg) /\ alg ∈ ALLOWED_JWS_ALGS
    /\ key = JObj o /\ (dget o "kty" = Some (JStr "RSA") \/ dget o "kty" = Some (JStr "EC"))
    /\ jwk_loads o = true /\ signature = Some (JStr sig) /\ signature_valid alg o input sig = true;
}.

Lemma url_in_spec protected urls : url_in protected urls = true <->
  exists u, dget protected "url" = Some (JStr u) /\ u ∈ urls.
Proof.
  unfold url_in. destruct (dget protected "url") as [[]|]; try naive_solver.
  rewrite str_in_spec. naive_solver.
Qed.

Lemma has_algorithm_spec protected alg : has_algorithm protected = Some alg <->
  dget protected "alg" = Some (JStr alg) /\ alg ∈ ALLOWED_JWS_ALGS.
Proof.
  unfold has_algorithm. destruct (dget protected "alg") as [[| | | |s| |]|]; try naive_solver.
  destruct (str_in s _) eqn:E; [apply str_in_spec in E|apply str_in_false in E]; naive_solver.
Qed.

Lemma verify_layer protected input signature key urls :
  _verify_jws_signature protected input signature key urls = None <-> layer protected input signature key urls.
Proof.
  unfold _verify_jws_signature. split.
  - destruct (url_in protected urls) eqn:Eu; [|done]. cbn [negb]. destruct (has_algorithm protected) as [alg|] eqn:Ea; [|done].
    destruct key as [| | | | | |o]; try done. destruct (dget o "kty") as [[| | | |kty| |]|] eqn:Ek; try done.
    destruct (_ || _) eqn:Et; [|done]. cbn [negb]. destruct (jwk_loads o) eqn:El; [|done]. cbn [negb].
    destruct signature as [[| | | |sig| |]|]; try done. destruct (signature_valid alg o input sig) eqn:Es; [|done]. intros _.
    apply url_in_spec in Eu. apply has_algorithm_spec in Ea as [Ea Hin].
    split; [done|]. exists alg, o, sig. split_and!; try done. rewrite Ek.
    apply orb_true_iff in Et as [->%String.eqb_eq| ->%String.eqb_eq]; naive_solver.
  - intros [(u & Hu) (alg & o & sig & Ha & Hin & -> & Hk & Hl & -> & Hs)].
    rewrite (proj2 (url_in_spec protected urls) (ex_intro _ u Hu)), (proj2 (has_algorithm_spec protected alg) (conj Ha Hin)).
    destruct Hk as [-> | ->]; cbn; by rewrite Hl, Hs.
Qed.

(* an account as the header names it: none, or a current one and its own key *)
Definition names_key (d : db) (protected : obj) (embedded : option json) (key : json) (account : option AcmeAccount) : Prop :=
  match embedded with
  | Some k => truth_of (dget protected "jwk") = Some k /\ truth_of (dget protected "kid") = None
              /\ key = k /\ account = None
  | None => truth_of (dget protected "jwk") = None
            /\ exists k a, truth_of (dget protected "kid") = Some (JStr k) /\ find_account d (last_segment k) = Some a
               /\ status a = "valid" /\ key = jwk a /\ account = Some a
  end.

(* a request signed as it must be *)
Record authentic (d : db) (ev : env) (body payload : json) (embedded : option json) (account : option AcmeAccount)
    (key : json) : Prop := {
  au_jws : exists jws text protected payload_text token,
    body = JObj jws /\ member jws "protected" = Some (JStr text) /\ decode text = Value (JObj protected)
    /\ truth_of (dget protected "nonce") = Some (JStr token) /\ existsb (usable token (now ev)) (nonces d) = true
    /\ member jws "payload" = Some (JStr payload_text) /\ decode_payload (JStr payload_text) = Ok payload
    /\ names_key d protected embedded key account
    /\ layer protected (text ++ "." ++ payload_text) (Some (default (JStr "") (member jws "signature"))) key (expected_urls ev);
}.

Lemma resolve_key_names d protected key account :
  let j := truth_of (dget protected "jwk") in
  (j = None \/ truth_of (dget protected "kid") = None) -> truth key = true ->
  resolve_key d j (truth_of (dget protected "kid")) = Ok (key, account)
  /\ (forall a, account = Some a -> status a = "valid") <-> names_key d protected j key account.
Proof.
  cbv zeta. unfold resolve_key, names_key. destruct (truth_of (dget protected "jwk")) as [k|] eqn:Ej.
  - intros [?|Hk] _; [done|]. split.
    + intros [[= <- <-] _]. split_and!; done.
    + intros (_ & _ & -> & ->). split; [done|]. by intros a [=].
  - intros _ Ht. destruct (truth_of (dget protected "kid")) as [[| | | |k| |]|]; try (split; [by intros [[=] _]|]; by intros (_ & ? & ? & [=] & _)).
    destruct (find_account d (last_segment k)) as [a|] eqn:Ea.
    + split.
      * destruct (truth (jwk a)); [|by intros [[=] _]]. intros [[= <- <-] Hs]. split; [done|]. exists k, a. split_and!; try done. by apply Hs.
      * intros (_ & k' & a' & [= <-] & Hf & Hs & -> & ->). simplify_eq. rewrite Ht. split; [done|]. by intros ? [= <-].
    + split; [by intros [[=] _]|]. intros (_ & ? & ? & [= <-] & ? & _). congruence.
Qed.

Lemma layer_truth protected input signature key urls : layer protected input signature key urls -> truth key = true.
Proof. intros [_ (alg & o & sig & _ & _ & -> & Hk & _)]. destruct o; [by destruct Hk|done]. Qed.

Definition one_key (protected : obj) : Prop :=
  truth_of (dget protected "jwk") = None \/ truth_of (dget protected "kid") = None.

Lemma header_error_none protected : header_error protected = None <->
  one_key protected /\ (is_Some (truth_of (dget protected "jwk")) \/ is_Some (truth_of (dget protected "kid")))
  /\ is_Some (has_algorithm protected).
Proof.
  unfold header_error, one_key, has_algorithm.
  destruct (truth_of (dget protected "jwk")), (truth_of (dget protected "kid")), (dget protected "alg") as [[| | | |s| |]|];
    try destruct (str_in s ALLOWED_JWS_ALGS); unfold is_Some; naive_solver.
Qed.

Lemma names_key_one d protected embedded key account : names_key d protected embedded key account -> one_key protected.
Proof. unfold names_key, one_key. destruct embedded; naive_solver. Qed.
Lemma names_key_some d protected embedded key account : names_key d protected embedded key account ->
  is_Some (truth_of (dget protected "jwk")) \/ is_Some (truth_of (dget protected "kid")).
Proof. unfold names_key. destruct embedded; naive_solver. Qed.
Lemma names_key_embedded d protected embedded key account : names_key d protected embedded key account ->
  embedded = truth_of (dget protected "jwk").
Proof. unfold names_key. destruct embedded; naive_solver. Qed.

Lemma check_signed_spec d jws protected urls text pm embedded account :
  member jws "protected" = Some (JStr text) -> one_key protected ->
  check_signed d jws protected urls pm = Ok (embedded, account) <->
  exists payload_text key, pm = JStr payload_text /\ names_key d protected embedded key account
    /\ layer protected (text ++ "." ++ payload_text) (Some (default (JStr "") (member jws "signature"))) key urls.
Proof.
  intros Ht Hone. unfold check_signed, text_member. rewrite Ht. split.
  - destruct (resolve_key d _ _) as [[key a]|] eqn:Er; [|done]. destruct pm as [| | | |payload_text| |]; try done.
    destruct (_verify_jws_signature _ _ _ _ _) eqn:Ev; [done|]. apply verify_layer in Ev. intros H.
    assert (embedded = truth_of (dget protected "jwk") /\ account = a /\ forall b, a = Some b -> status b = "valid") as (-> & -> & Hs).
    { destruct a as [b|]; [destruct (status b =? "valid")%string eqn:Es; [|done]; apply String.eqb_eq in Es|]; naive_solver. }
    exists payload_text, key. split; [done|]. split; [|done].
    apply (resolve_key_names d protected key a Hone (layer_truth _ _ _ _ _ Ev)). by split.
  - intros (payload_text & key & -> & Hn & Hl). pose proof (names_key_embedded _ _ _ _ _ Hn) as ->.
    apply (resolve_key_names d protected key account Hone (layer_truth _ _ _ _ _ Hl)) in Hn as [-> Hs].
    rewrite (proj2 (verify_layer _ _ _ _ _) Hl). destruct account as [b|]; [|done]. by rewrite (Hs b eq_refl).
Qed.

Lemma check_layer_spec d jws protected urls text payload embedded account :
  member jws "protected" = Some (JStr text) ->
  check_layer d jws protected urls = Ok (payload, embedded, account) <->
  exists payload_text key, member jws "payload" = Some (JStr payload_text) /\ decode_payload (JStr payload_text) = Ok payload
    /\ names_key d protected embedded key account
    /\ layer protected (text ++ "." ++ payload_text) (Some (default (JStr "") (member jws "signature"))) key urls.
Proof.
  intros Ht. unfold check_layer. split.
  - destruct (header_error protected) eqn:Eh; [done|]. apply header_error_none in Eh as [Eh _].
    destruct (member jws "payload") as [pm|]; [|done]. destruct (decode_payload pm) as [p|] eqn:Ep; [|done].
    destruct (check_signed d jws protected urls pm) as [[e a]|] eqn:Es; [|done]. intros [= <- <- <-].
    apply (check_signed_spec d jws protected urls text) in Es as (payload_text & key & -> & ? & ?); [|done|done]. eauto 6.
  - intros (payload_text & key & Hp & Hd & Hn & Hl). assert (check_signed d jws protected urls (JStr payload_text) = Ok (embedded, account)) as Hc
      by (apply (check_signed_spec d jws protected urls text); [done|by eapply names_key_one|eauto 6]).
    assert (header_error protected = None) as ->; [|by rewrite Hp, Hd, Hc].
    apply header_error_none. split; [by eapply names_key_one|]. split; [by eapply names_key_some|].
    destruct Hl as [_ (alg & _ & _ & Ha & Hin & _)]. exists alg. by apply has_algorithm_spec.
Qed.

(** ** The nonce of a request *)

Definition marked_nonces (t : Z) (token : string) (l : list AcmeNonce) : list AcmeNonce :=
  (fun r => if usable token t r then mark_used t r else r) <$> l.

Lemma marked_tokens t token0 l : token <$> marked_nonces t token0 l = token <$> l.
Proof. unfold marked_nonces. rewrite <- list_fmap_compose. apply list_fmap_ext. intros i x _. cbn. by destruct (usable token0 t x). Qed.

Lemma filter_length_pos {A} (p : A -> bool) l : (0 <? length (List.filter p l))%nat = existsb p l.
Proof. induction l as [|x l IH]; cbn; [done|]. by destruct (p x). Qed.

Lemma validate_nonce_eq token0 t l : AcmeNonces.validate_nonce token0 t true l =
  if bool_decide (NoDup (token <$> l)) then (Some (existsb (usable token0 t) l), marked_nonces t token0 l) else (None, l).
Proof.
  unfold AcmeNonces.validate_nonce, commit_table. fold (marked_nonces t token0 l). rewrite marked_tokens.
  cbn [andb]. case_bool_decide; [by rewrite filter_length_pos|done].
Qed.

Lemma marked_unusable t t' token0 l : t <= t' -> existsb (usable token0 t') (marked_nonces t token0 l) = false.
Proof.
  intros Ht. apply not_true_iff_false. rewrite existsb_exists. intros (r & Hr%list_elem_of_In & Hu).
  apply list_elem_of_fmap in Hr as (x & -> & Hx). destruct (usable token0 t x) eqn:E.
  - unfold usable, mark_used in Hu. cbn in Hu. by rewrite andb_false_r in Hu.
  - unfold usable in *. destruct (token x =? token0)%string, (used x); try done. cbn in *. lia.
Qed.

(* what the check of the nonce leaves *)
Lemma use_nonce_ok t token0 w b w' : use_nonce t token0 w = (Ok b, w') ->
  b = existsb (usable token0 t) (nonces (working w))
  /\ committed w' = with_nonces (marked_nonces t token0 (nonces (working w))) (working w) /\ working w' = committed w'.
Proof.
  unfold use_nonce. rewrite bind_gets, validate_nonce_eq. case_bool_decide; [|done].
  unfold mbind, M_bind, modify, commit. cbn. destruct (commits w) as [|[] l]; by intros [= <- <-].
Qed.

Lemma use_nonce_settled t token0 d : NoDup (token <$> nonces d) ->
  use_nonce t token0 (Session d d []) = (Ok (existsb (usable token0 t) (nonces d)),
    let d' := with_nonces (marked_nonces t token0 (nonces d)) d in Session d' d' []).
Proof. intros H. unfold use_nonce. rewrite bind_gets, validate_nonce_eq. cbn [working]. by rewrite bool_decide_true. Qed.

(** ** Requests accepted *)

(* the steps an accepted request went through *)
Lemma verify_jws_inv ev body w r w' : verify_jws ev body w = (Ok (Ok r), w') ->
  exists jws text protected token0, body = JObj jws /\ member jws "protected" = Some (JStr text)
    /\ decode text = Value (JObj protected) /\ url_in protected (expected_urls ev) = true
    /\ truth_of (dget protected "nonce") = Some (JStr token0)
    /\ use_nonce (now ev) token0 w = (Ok true, w') /\ check_layer (working w') jws protected (expected_urls ev) = Ok r.
Proof.
  unfold verify_jws. destruct body as [| | | | | |jws]; try done.
  destruct (member jws "protected") as [[| | | |text| |]|] eqn:Et; try done.
  destruct (decode text) as [| | |[| | | | | |protected]] eqn:Ed; try done.
  destruct (url_in _ _) eqn:Eu; [|done]. cbn [negb]. destruct (truth_of _) as [[| | | |token0| |]|] eqn:En; try done.
  unfold mbind at 1, M_bind at 1, try_, mbind at 1, M_bind at 1.
  destruct (use_nonce (now ev) token0 w) as [[[]|e] w1] eqn:E; cbn; try done.
  intros [= Hr <-]. exists jws, text, protected, token0. split_and!; done.
Qed.

Lemma verify_jws_authentic ev body w payload embedded account w' :
  verify_jws ev body w = (Ok (Ok (payload, embedded, account)), w') ->
  exists key, authentic (working w) ev body payload embedded account key.
Proof.
  intros (jws & text & protected & token0 & -> & Ht & Hd & Hu & Hn & Hw & Hc)%verify_jws_inv.
  apply use_nonce_ok in Hw as (Hb & H1 & H2). rewrite H2, H1 in Hc.
  apply (check_layer_spec _ _ _ _ text) in Hc as (payload_text & key & Hp & Hdp & Hk & Hl); [|done].
  exists key. split. exists jws, text, protected, payload_text, token0. by rewrite <- Hb.
Qed.

(** C22. A request is accepted exactly when it is signed as it must be: its header names one
    of our URLs, an allowed algorithm, a nonce that is current, and either its own key or
    the key of a current account, and the signature verifies under that key over the header
    and the payload. *)
Theorem verify_jws_exact (d : db) (ev : env) (body payload : json) (embedded : option json) (account : option AcmeAccount)
  (Hnd : NoDup (token <$> nonces d)) :
  (run (verify_jws ev body) [] d).1 = Ok (Ok (payload, embedded, account))
  <-> exists key, authentic d ev body payload embedded account key.
Proof.
  unfold run. split.
  - destruct (verify_jws ev body _) as [r w'] eqn:E. cbn. intros ->. by apply verify_jws_authentic in E.
  - intros (key & [(jws & text & protected & payload_text & token0 & -> & Ht & Hd & Hn & Hu & Hp & Hdp & Hk & Hl)]).
    unfold verify_jws. rewrite Ht, Hd, (proj2 (url_in_spec _ _) (ly_url _ _ _ _ _ Hl)), Hn. cbn [negb].
    unfold mbind at 1, M_bind at 1, try_, mbind at 1, M_bind at 1. rewrite (use_nonce_settled _ _ _ Hnd), Hu. cbn.
    rewrite (proj2 (check_layer_spec _ jws protected (expected_urls ev) text payload embedded account Ht)); [done|].
    exists payload_text, key. by split_and!.
Qed.

(** A request is accepted once: sent again, at any later time and by whatever path, it
    is refused. *)
Theorem request_accepted_once (ev ev' : env) (body : json) (outcomes outcomes' : list bool) (d d' : db)
    (r : json * option json * option AcmeAccount)
  (Hrun : run (verify_jws ev body) outcomes d = (Ok (Ok r), d')) (Hnow : now ev <= now ev') :
  forall r', (run (verify_jws ev' body) outcomes' d').1 <> Ok (Ok r').
Proof.
  intros r'. unfold run in *. destruct (verify_jws ev body _) as [q w] eqn:E. injection Hrun as -> <-.
  destruct (verify_jws ev' body _) as [q' w'] eqn:E'. cbn. intros ->.
  apply verify_jws_inv in E as (jws & text & protected & token0 & -> & Ht & Hd & _ & Hn & Hw & _).
  apply verify_jws_inv in E' as (jws' & text' & protected' & token' & [= <-] & Ht' & Hd' & _ & Hn' & Hw' & _).
  assert (text' = text) as -> by congruence. assert (protected' = protected) as -> by congruence.
  assert (token' = token0) as -> by congruence. apply use_nonce_ok in Hw as (_ & Hc & _). apply use_nonce_ok in Hw' as (Hb & _ & _).
  cbn [working] in Hb. rewrite Hc in Hb. cbn [nonces with_nonces] in Hb. by rewrite marked_unusable in Hb.
Qed.

(** ** Who may change an account *)

Inductive request :=
| NewAccount (ev : env) (body : json)
| AccountInfo (ev : env) (i : string) (body : json)
| KeyChange (ev : env) (body : json).

Definition serve (q : request) : Act reply :=
  match q with
  | NewAccount ev body => new_account ev body
  | AccountInfo ev i body => account_info ev i body
  | KeyChange ev body => key_change ev body
  end.

(* the inner JWS of a key change: for the same URL, naming the account, signed with the new key *)
Definition agreed (body payload : json) (i : string) (new_key : json) : Prop :=
  exists outer_payload inner text payload_text url p u, payload = JObj outer_payload
    /\ member outer_payload "protected" = Some (JStr text) /\ decode text = Value (JObj inner)
    /\ member outer_payload "payload" = Some (JStr payload_text) /\ truth_of (dget inner "jwk") = Some new_key
    /\ outer_url body = Some (JStr url)
    /\ layer inner (text ++ "." ++ payload_text) (member outer_payload "signature") new_key [url]
    /\ decode payload_text = Value (JObj p) /\ truth_of (dget p "account") = Some (JStr u) /\ last_segment u = i.

(* why an account is as it is after a request on [d] *)
Inductive justified (d : db) (q : request) (a' : AcmeAccount) : Prop :=
| unchanged : a' ∈ accounts d -> justified d q a'
| registered ev body payload key : q = NewAccount ev body -> authentic d ev body payload (Some key) None key ->
    jwk a' = key -> jwk_thumbprint key = Some (jwk_thumbprint_col a') -> account_id a' = fresh_id ev -> status a' = "valid" ->
    justified d q a'
| updated ev body payload a : q = AccountInfo ev (account_id a) body -> a ∈ accounts d ->
    authentic d ev body payload None (Some a) (jwk a) ->
    account_id a' = account_id a -> jwk a' = jwk a -> jwk_thumbprint_col a' = jwk_thumbprint_col a ->
    (status a' = status a \/ status a' = "deactivated") -> justified d q a'
| rekeyed ev body payload a : q = KeyChange ev body -> a ∈ accounts d ->
    authentic d ev body payload None (Some a) (jwk a) -> agreed body payload (account_id a) (jwk a') ->
    account_id a' = account_id a -> jwk_thumbprint (jwk a') = Some (jwk_thumbprint_col a') -> status a' = status a ->
    justified d q a'.

Section Changes.
Variables (d0 : db) (q : request).
Definition all_justified (d : db) : Prop := forall a, a ∈ accounts d -> justified d0 q a.
Definition start (d : db) : Prop := d = d0.
Definition same_accounts (d : db) : Prop := accounts d = accounts d0.

Lemma start_same d : start d -> same_accounts d.
Proof. by intros ->. Qed.
Lemma same_justified d : same_accounts d -> all_justified d.
Proof. intros E a Ha. apply unchanged. by rewrite <- E. Qed.
Lemma start_justified d : start d -> all_justified d.
Proof. intros H. by apply same_justified, start_same. Qed.

Lemma all_justified_same d d' : accounts d' = accounts d -> all_justified d -> all_justified d'.
Proof. intros E H a. rewrite E. apply H. Qed.

Lemma maintains_respond {A} P ev (r : A) : (forall t d, P d -> P (with_nonces t d)) -> maintains P (respond ev r).
Proof. intros H. unfold respond. session_walk. Qed.
Lemma maintains_verify P ev body : (forall t d, P d -> P (with_nonces t d)) -> maintains P (verify_jws ev body).
Proof. intros H. unfold verify_jws, use_nonce. session_walk. Qed.
Lemma nonces_justified t d : all_justified d -> all_justified (with_nonces t d).
Proof. by apply all_justified_same. Qed.
Lemma nonces_same t d : same_accounts d -> same_accounts (with_nonces t d).
Proof. done. Qed.
#[local] Hint Resolve maintains_respond maintains_verify nonces_justified nonces_same : session.

Lemma justified_respond {A} Q ev (r : A) : (forall d, Q d -> all_justified d) -> leads Q all_justified (respond ev r).
Proof. intros H. apply leads_maintains; auto with session. Qed.

(* after the request is verified *)
Lemma verify_phase ev body (k : result jws_error (json * option json * option AcmeAccount) -> Act reply) :
  (forall e, leads same_accounts all_justified (k (Raise e))) ->
  (forall payload embedded account key, authentic d0 ev body payload embedded account key ->
     leads same_accounts all_justified (k (Ok (payload, embedded, account)))) ->
  leads start all_justified (mbind k (verify_jws ev body)).
Proof.
  intros He Hk. eapply (leads_bind start same_accounts all_justified _ _
    (fun r => forall payload e a, r = Ok (payload, e, a) -> exists key, authentic d0 ev body payload e a key)).
  - apply same_justified.
  - apply (leads_maintains start same_accounts start_same). apply maintains_verify, nonces_same.
  - intros w r [_ Hw] Hr payload e a ->. rewrite <- Hw. destruct (verify_jws ev body w) as [x w'] eqn:E. cbn in Hr. subst x.
    by eapply verify_jws_authentic.
  - intros [[[payload e] a]|e] H; [|apply He]. destruct (H _ _ _ eq_refl) as [key Hkey]. by eapply Hk.
Qed.

(* the account a header names is the one whose key signed *)
Lemma named_account d ev jws payload embedded account key i :
  authentic d ev (JObj jws) payload embedded account key -> _account_id_from_jws jws = Some i ->
  embedded = None /\ exists a, account = Some a /\ key = jwk a /\ find_account d i = Some a /\ status a = "valid".
Proof.
  intros [(jws' & text & protected & pt & tk & [= <-] & Ht & Hd & _ & _ & _ & _ & Hk & _)]. unfold _account_id_from_jws.
  rewrite Ht, Hd. unfold names_key in Hk. destruct embedded as [e|].
  - destruct Hk as (_ & -> & _). done.
  - destruct Hk as (_ & k & a & -> & Ha & Hs & -> & ->). intros E. split; [done|]. exists a. split_and!; try done.
    destruct (last_segment k); [done|]. by injection E as <-.
Qed.

Lemma find_account_elem d i a : find_account d i = Some a -> a ∈ accounts d /\ account_id a = i.
Proof. intros [H1%list_elem_of_In H2%String.eqb_eq]%List.find_some. done. Qed.

Lemma maintains_save P : maintains P save.
Proof. unfold save. session_walk. Qed.
#[local] Hint Resolve maintains_save : session.

Lemma justified_add a d : justified d0 q a -> all_justified d -> all_justified (with_accounts (fun l => l ++ [a])%list d).
Proof. intros Ha H b [?|E%list_elem_of_singleton]%elem_of_app; [by apply H|by subst]. Qed.
Lemma justified_filter f d : all_justified d -> all_justified (with_accounts (List.filter f) d).
Proof. intros H b [Hb _]%list_elem_of_In%filter_In. by apply H, list_elem_of_In. Qed.
Lemma justified_credentials f d : all_justified d -> all_justified (with_credentials f d).
Proof. done. Qed.
#[local] Hint Resolve justified_filter justified_credentials : session.

Lemma justified_register ev body key thumbprint f payload : q = NewAccount ev body ->
  authentic d0 ev body payload (Some key) None key -> jwk_thumbprint key = Some thumbprint ->
  maintains all_justified (register ev body key thumbprint f).
Proof.
  intros Hq Ha Ht. unfold register, create_account, consume_eab, mark_eab_used. session_walk.
  all: apply justified_add; [by eapply registered|done].
Qed.

Lemma new_account_justified ev body : q = NewAccount ev body -> leads start all_justified (new_account ev body).
Proof.
  intros Hq. unfold new_account, guarded. apply leads_try; [|auto with session].
  destruct (truth body); cbn [negb]; [|apply justified_respond, start_justified].
  apply verify_phase; [intros e; apply justified_respond, same_justified|]. intros payload embedded account key Ha.
  apply leads_maintains; [apply same_justified|]. destruct embedded as [key0|]; [|auto with session].
  assert (key = key0 /\ account = None) as [-> ->].
  { destruct Ha as [(? & ? & ? & ? & ? & _ & _ & _ & _ & _ & _ & _ & Hk & _)]. by destruct Hk as (_ & _ & ? & ?). }
  pose proof (fun t f => justified_register ev body key0 t f payload Hq Ha) as Hreg. session_walk.
Qed.

Lemma update_justified i f d : (forall a, find_account d i = Some a -> justified d0 q (f a)) ->
  all_justified d -> all_justified (update_account i f d).
Proof. intros Hf H b [Hb|(a & Ha & ->)]%elem_update_first; [by apply H|by apply Hf]. Qed.

Lemma applied_update payload a a' : apply_account_update payload a = Ok (Some a') ->
  account_id a' = account_id a /\ jwk a' = jwk a /\ jwk_thumbprint_col a' = jwk_thumbprint_col a
  /\ (status a' = status a \/ status a' = "deactivated").
Proof.
  unfold apply_account_update. destruct payload as [| | | | | |[|p o]]; try done.
  destruct (contact_change (p :: o)) as [c|]; [|done]. cbv zeta.
  destruct (match dget (p :: o) "status" with Some (JStr s) => _ | _ => _ end), c; cbn; intros [= <-]; cbn; auto.
Qed.

Lemma account_info_justified ev i body : q = AccountInfo ev i body -> leads start all_justified (account_info ev i body).
Proof.
  intros Hq. unfold account_info. apply leads_bind_gets. intros d ->.
  destruct (find_account d0 i) as [a|] eqn:Hf; [|apply justified_respond, start_justified].
  destruct (truth body); cbn [negb]; [|apply justified_respond, start_justified].
  apply verify_phase; [intros e; apply justified_respond, same_justified|]. intros payload embedded account key Ha.
  apply leads_maintains; [apply same_justified|]. destruct body as [| | | | | |jws]; auto with session.
  case_bool_decide as Hi; cbn [negb]; [|auto with session].
  destruct (named_account _ _ _ _ _ _ _ _ Ha Hi) as (-> & a0 & -> & -> & Hf0 & _). assert (a0 = a) as -> by congruence.
  destruct (find_account_elem _ _ _ Hf) as [Hin <-].
  destruct (apply_account_update payload a) as [[a'|]|[t st]] eqn:Eu; [|auto with session|session_walk].
  apply applied_update in Eu as (E1 & E2 & E3 & E4). session_walk.
  apply update_justified; [|done]. intros b _. by eapply updated.
Qed.

Lemma key_change_of_agreed jws o r : key_change_of jws o = Ok r ->
  agreed (JObj jws) (JObj o) (k_account r) (k_new r) /\ _account_id_from_jws jws = Some (k_account r).
Proof.
  unfold key_change_of. destruct (member o "protected") as [it|] eqn:E1; [|done].
  destruct (member o "payload") as [pm|] eqn:E2; [|done]. destruct (member o "signature") as [sig|] eqn:E3; [|done].
  destruct (match member jws "protected" with Some (JStr t) => decode t | _ => NotText end) as [| | |[| | | | | |outer]] eqn:Eo; try done.
  destruct it as [| | | |text| |]; try done. destruct (decode text) as [| | |[| | | | | |inner]] eqn:Ed; try done.
  destruct (truth_of (dget inner "jwk")) as [nk|] eqn:Ek; [|done].
  destruct (dget inner "url") as [[| | | |iu| |]|]; try done. destruct (dget outer "url") as [[| | | |ou| |]|] eqn:Eu; try done.
  destruct (negb _); [done|]. destruct pm as [| | | |pt| |]; try done.
  destruct (_verify_jws_signature _ _ _ _ _) eqn:Ev; [done|]. apply verify_layer in Ev.
  destruct (decode pt) as [| | |[| | | | | |p]] eqn:Ep; try done. destruct (truth_of (dget p "account")) as [[| | | |u| |]|] eqn:Ea; try done.
  destruct (last_segment u) as [|c0 i] eqn:El; [done|]. case_bool_decide as Hi; [|done]. cbn [negb]. intros [= <-]. cbn.
  split; [|done]. exists o, inner, text, pt, ou, p, u. rewrite E3. split_and!; try done.
  unfold outer_url. destruct (member jws "protected") as [[| | | |t| |]|]; try done. by rewrite Eo.
Qed.

Lemma key_change_justified ev body : q = KeyChange ev body -> leads start all_justified (key_change ev body).
Proof.
  intros Hq. unfold key_change, guarded. apply leads_try; [|auto with session].
  destruct (truth body); cbn [negb]; [|apply justified_respond, start_justified].
  apply verify_phase; [intros e; apply justified_respond, same_justified|]. intros payload embedded account key Ha.
  destruct payload as [| | | | | |[|p o]]; try apply justified_respond, same_justified.
  destruct body as [| | | | | |jws]; try apply justified_respond, same_justified.
  destruct (key_change_of jws (p :: o)) as [r|[t st]] eqn:Er; [|apply justified_respond, same_justified].
  apply key_change_of_agreed in Er as [Hag Hi]. destruct (named_account _ _ _ _ _ _ _ _ Ha Hi) as (-> & a & -> & -> & Hf & _).
  destruct (find_account_elem _ _ _ Hf) as [Hin Hid]. rewrite <- Hid in Hag.
  unfold change_key. apply leads_bind_gets. intros d Hd.
  assert (find_account d (k_account r) = Some a) as -> by (unfold find_account in *; by rewrite Hd).
  destruct (_ || _); [apply justified_respond, same_justified|]. destruct (json_equal _ _); [apply justified_respond, same_justified|].
  destruct (jwk_thumbprint (k_new r)) as [thumbprint|] eqn:Et; [|by apply leads_maintains; auto using same_justified with session].
  apply leads_bind_gets. intros d1 Hd1. destruct (existsb _ _); [apply justified_respond, same_justified|].
  intros w Hw. assert (held all_justified (modify (E := acme_exc) (update_account (account_id a) (set_key (k_new r) thumbprint)) w).2) as H1.
  { split; [apply same_justified, Hw|]. apply update_justified; [|apply same_justified, Hw]. intros b Hb.
    assert (b = a) as -> by (unfold find_account in *; rewrite (proj2 Hw), Hid, Hf in Hb; congruence). by eapply rekeyed. }
  unfold mbind at 1, M_bind at 1. cbn [modify] in *. apply (maintains_bind all_justified); [auto with session| |done].
  intros ok. session_walk.
Qed.

(** C21. Only the holder of its key acts for an account: whatever request is served and
    whichever commits fail, every account in the database afterwards is unchanged, or was
    registered by a request its own key signed, or had its contact or status changed by a
    request its key signed, or took a new key by a request that both keys signed, the new key for
    this account and the same URL. *)
Theorem account_changes_signed (outcomes : list bool) :
  all_justified (run (serve q) outcomes d0).2.
Proof.
  apply (leads_run start all_justified); [|done].
  destruct q as [ev body|ev i body|ev body] eqn:E;
    [by apply new_account_justified|by apply account_info_justified|by apply key_change_justified].
Qed.
End Changes.

(** ** The tables stay well formed *)

Record well_formed (d : db) : Prop := {
  wf_ids : NoDup (account_id <$> accounts d);
  wf_keys : NoDup (jwk_thumbprint_col <$> accounts d);
  wf_thumbprints : forall a, a ∈ accounts d -> jwk_thumbprint (jwk a) = Some (jwk_thumbprint_col a);
  wf_used : forall c, c ∈ credentials d -> used_by_account_id c <> None -> eab_status c = "used";
}.

(* and the credentials that were used stay as they are *)
Section Tables.
Variable used : list AcmeEabCredential.
Definition sound (d : db) : Prop :=
  well_formed d /\ forall c, c ∈ used -> used_by_account_id c <> None -> c ∈ credentials d.

Lemma sound_nonces t d : sound d -> sound (with_nonces t d).
Proof. intros [[H1 H2 H3 H4] H5]. by split; [split|]. Qed.

Lemma sound_accounts f d : sound d -> unique_accounts (with_accounts f d) = true ->
  (forall a, a ∈ f (accounts d) -> jwk_thumbprint (jwk a) = Some (jwk_thumbprint_col a)) -> sound (with_accounts f d).
Proof.
  intros [[H1 H2 H3 H4] H5] [Hu1%bool_decide_eq_true Hu2%bool_decide_eq_true]%andb_true_iff Ha. by split; [split|].
Qed.

Lemma sublist_filter {A} (f : A -> bool) l : sublist (List.filter f l) l.
Proof. induction l as [|x l IH]; cbn; [constructor|]. destruct (f x); by constructor. Qed.

Lemma sound_filter f d : sound d -> sound (with_accounts (List.filter f) d).
Proof.
  intros H. apply sound_accounts; [done| |].
  - destruct H as [[H1 H2 _ _] _]. unfold unique_accounts. rewrite andb_true_iff, !bool_decide_eq_true. cbn.
    split; (eapply sublist_NoDup; [|apply fmap_sublist, sublist_filter]); done.
  - intros a [Ha _]%list_elem_of_In%filter_In. by apply H, list_elem_of_In.
Qed.

Lemma sound_consume t k i d : sound d ->
  sound (with_credentials (fmap (fun c => if consumable t k c then consumed t i c else c)) d).
Proof.
  intros [[H1 H2 H3 H4] H5]. split; [split; [done..|]|].
  - cbn. intros c (x & -> & Hx)%list_elem_of_fmap. destruct (consumable t k x); [done|by apply H4].
  - cbn. intros c Hc Hu. apply list_elem_of_fmap. exists c. split; [|by apply H5].
    unfold consumable. by rewrite (bool_decide_false (used_by_account_id c = None)), !andb_false_r.
Qed.

(* a write and the commit under the unique columns *)
Lemma maintains_saved {A} f (k : bool -> Act A) :
  (forall d, sound d -> unique_accounts (f d) = true -> sound (f d)) -> (forall ok, maintains sound (k ok)) ->
  maintains sound (mbind (fun _ => mbind k save) (modify f)).
Proof.
  intros Hf Hk w [H1 H2]. set (w1 := Session (committed w) (f (working w)) (commits w)).
  change (held sound ((mbind k save) w1).2).
  assert (exists ok w2, save w1 = (Ok ok, w2) /\ held sound w2) as (ok & w2 & E & H); [|rewrite (bind_eq _ _ _ _ _ E); by apply Hk].
  unfold save. rewrite bind_gets. cbn [working w1]. destruct (unique_accounts (f (working w))) eqn:Eu.
  - unfold commit. cbn. specialize (Hf _ H2 Eu). destruct (commits w) as [|[] l]; (do 2 eexists; split; [reflexivity|by split]).
  - do 2 eexists. split; [reflexivity|]. by split.
Qed.

#[local] Hint Resolve maintains_respond maintains_verify sound_nonces sound_filter sound_consume : session.

Lemma sound_create ev key thumbprint c terms : jwk_thumbprint key = Some thumbprint ->
  maintains sound (create_account ev key thumbprint c terms).
Proof.
  intros Ht. unfold create_account. apply maintains_bind_gets. intros d Hd. destruct (account_of_key d thumbprint); [auto with session|].
  apply maintains_saved; [|intros ok; session_walk]. intros d1 H1 Hu. apply sound_accounts; [done..|].
  intros a [Ha|E%list_elem_of_singleton]%elem_of_app; [by apply H1|by subst].
Qed.
#[local] Hint Resolve sound_create : session.

Lemma sound_new_account ev body : maintains sound (new_account ev body).
Proof. unfold new_account, guarded, register, consume_eab, mark_eab_used. session_walk. Qed.

Lemma sound_account_info ev i body : maintains sound (account_info ev i body).
Proof.
  unfold account_info. apply maintains_bind_gets. intros d Hd. destruct (find_account d i) as [a|] eqn:Hf; [|auto with session].
  destruct (find_account_elem _ _ _ Hf) as [Hin _]. assert (jwk_thumbprint (jwk a) = Some (jwk_thumbprint_col a)) as Ht by by apply Hd.
  destruct (negb _); [auto with session|]. apply maintains_bind; [auto with session|]. intros [[[payload e] x]|e]; [|auto with session].
  destruct body as [| | | | | |jws]; auto with session. destruct (negb _); [auto with session|].
  destruct (apply_account_update payload a) as [[a'|]|[t st]] eqn:Eu; [|auto with session|session_walk].
  apply applied_update in Eu as (E1 & E2 & E3 & _). apply maintains_saved; [|intros ok; session_walk].
  intros d1 H1 Hu. apply sound_accounts; [done..|]. intros b [Hb|(y & _ & ->)]%elem_update_first; [by apply H1|congruence].
Qed.

Lemma sound_key_change ev body : maintains sound (key_change ev body).
Proof.
  unfold key_change, guarded. apply maintains_try; [|auto with session]. destruct (negb _); [auto with session|].
  apply maintains_bind; [auto with session|]. intros [[[payload e] x]|e]; [|auto with session].
  destruct payload as [| | | | | |[|p o]]; auto with session. destruct body as [| | | | | |jws]; auto with session.
  destruct (key_change_of jws (p :: o)) as [r|[t st]]; [|auto with session]. unfold change_key.
  apply maintains_bind_gets. intros d Hd. destruct (find_account d (k_account r)) as [a|]; [|auto with session].
  destruct (_ || _); [auto with session|]. destruct (json_equal _ _); [auto with session|].
  destruct (jwk_thumbprint (k_new r)) as [thumbprint|] eqn:Et; [|auto with session].
  apply maintains_bind_gets. intros d1 Hd1. destruct (existsb _ _); [auto with session|].
  apply maintains_saved; [|intros ok; session_walk].
  intros d2 H2 Hu. apply sound_accounts; [done..|]. intros b [Hb|(y & _ & ->)]%elem_update_first; [by apply H2|done].
Qed.
End Tables.

Fixpoint serve_all (l : list (request * list bool)) (d : db) : db :=
  match l with
  | [] => d
  | (q, outcomes) :: l' => serve_all l' (run (serve q) outcomes d).2
  end.

(** Whatever account requests are served and whichever commits fail, no two accounts
    share an identifier or a key, each is found by the thumbprint of its own key, and a
    binding credential that was used stays bound to the account it was used for. *)
Theorem accounts_well_formed (d : db) (l : list (request * list bool)) (Hd : well_formed d) :
  well_formed (serve_all l d)
  /\ forall c, c ∈ credentials d -> used_by_account_id c <> None -> c ∈ credentials (serve_all l d).
Proof.
  assert (sound (credentials d) d) as H by by split. revert H. generalize (credentials d). clear Hd. intros used.
  revert d. induction l as [|[q outcomes] l IH]; intros d H; [done|]. cbn. apply IH.
  apply maintains_run; [|done]. destruct q; [apply sound_new_account|apply sound_account_info|apply sound_key_change].
Qed.

(** ** Registration under an external account *)

Definition bound (k i : string) (c : AcmeEabCredential) : Prop :=
  kid c = k /\ eab_status c = "used" /\ used_by_account_id c = Some i.

Lemma account_respond_ok {A} ev (r : A) w r' w' : respond ev r w = (Ok r', w') ->
  r' = r /\ credentials (committed w') = credentials (working w).
Proof.
  unfold respond. rewrite bind_gets. destruct (AcmeNonces.generate_nonce _ _ _ _) as [[x|] t]; [|done].
  unfold mbind, M_bind, modify, commit. cbn. destruct (commits w) as [|[] l]; by intros [= <- <-].
Qed.

Lemma mark_eab_used_bound t k i w w' : mark_eab_used t k i w = (Ok true, w') ->
  exists c, c ∈ credentials (working w') /\ bound k i c.
Proof.
  unfold mark_eab_used. rewrite bind_gets. destruct (existsb _ _) eqn:E; cbn [negb].
  - apply existsb_exists in E as (c & Hin%list_elem_of_In & Hc). unfold mbind, M_bind, modify, commit. cbn.
    assert (exists c', c' ∈ ((fun c => if consumable t k c then consumed t i c else c) <$> credentials (working w)) /\ bound k i c') as H.
    { exists (consumed t i c). split; [|unfold consumable in Hc; rewrite !andb_true_iff, String.eqb_eq in Hc; split; [apply Hc|done]].
      apply list_elem_of_fmap. exists c. by rewrite Hc. }
    destruct (commits w) as [|[] l]; intros [= <-]; exact H.
  - unfold mbind, M_bind, rollback, gets. cbn. intros [= Hf <-]. cbn.
    destruct (find_credential (committed w) k) as [c|] eqn:Ec; [|done]. exists c. unfold find_credential in Ec.
    apply List.find_some in Ec as [Hin%list_elem_of_In Hk%String.eqb_eq]. split; [done|].
    apply andb_true_iff in Hf as [Hs%String.eqb_eq Hu%bool_decide_eq_true]. done.
Qed.

(* the identifier of the credential a binding names *)
Definition eab_kid (e : json) : string :=
  match e with
  | JObj o => match eab_protected o with
              | Some p => match truth_of (dget p "kid") with Some (JStr k) => k | _ => "" end
              | None => ""
              end
  | _ => ""
  end.

Lemma validate_eab_kid d t e key url c : validate_eab d t e key url = Ok c -> kid c = eab_kid e.
Proof.
  unfold validate_eab, eab_kid. destruct e as [| | | | | |o]; try done.
  destruct (member o "protected"), (member o "payload"), (member o "signature"); try done.
  destruct (eab_protected o) as [p|]; [|done]. destruct (match url with Some _ => _ | None => _ end); [done|].
  destruct (dget p "alg") as [[| | | |alg| |]|]; try done. destruct (negb _); [done|].
  destruct (truth_of (dget p "kid")) as [[| | | |k| |]|]; try done. destruct (find_credential d k) as [c0|] eqn:Ec; [|done].
  intros H. assert (c0 = c) as ->. { repeat (case_match; try done); simplify_eq; done. }
  by apply List.find_some in Ec as [_ ?%String.eqb_eq].
Qed.

Lemma consume_eab_bound ev e a w w' : consume_eab ev e a w = (Ok None, w') ->
  exists c, c ∈ credentials (working w') /\ bound (eab_kid e) (account_id a) c.
Proof.
  unfold consume_eab. fold (eab_kid e). intros H. destruct (nonempty (eab_kid e)).
  - unfold mbind at 1, M_bind at 1 in H. destruct (mark_eab_used _ _ _ w) as [[[]|x] w1] eqn:E; cbn in H; try done.
    + injection H as <-. by eapply mark_eab_used_bound.
    + revert H. unfold mbind, M_bind, modify, commit. cbn. by destruct (commits w1) as [|[] l].
  - revert H. unfold mbind, M_bind, modify, commit, mret, M_ret. cbn. by destruct (commits w) as [|[] l].
Qed.

Lemma create_account_new ev key thumbprint c terms w a w' : create_account ev key thumbprint c terms w = (Ok (a, true), w') ->
  jwk a = key.
Proof.
  unfold create_account. rewrite bind_gets. destruct (account_of_key (working w) thumbprint); [done|].
  unfold mbind, M_bind, modify, save, mbind, M_bind, gets, rollback. cbn. destruct (unique_accounts _); unfold commit; cbn; [|done].
  destruct (commits w) as [|[] l]; by intros [= <- <-].
Qed.

Lemma consume_eab_refuses ev e a w r w' : consume_eab ev e a w = (Ok (Some r), w') ->
  forall b new, r <> AccountReply b new.
Proof.
  unfold consume_eab. unfold mbind at 1, M_bind at 1.
  match goal with |- context [match ?c w with _ => _ end] => destruct (c w) as [[[]|x] w1] end; [done| |done].
  unfold mbind, M_bind.
  unfold modify, commit, mret, M_ret. cbn. by destruct (commits w1) as [|[] l]; intros [= <-].
Qed.

(* a credential that may be used at [t] *)
Definition current_credential (d : db) (t : Z) (c : AcmeEabCredential) : Prop :=
  c ∈ credentials d /\ eab_status c = "active" /\ forall e, eab_expires_at c = Some e -> t <= e.

(* the binding [eab] is made with the credential, for the key [account_key] and the URL [u]:
   its header names the credential and the URL, its payload is the key, and its signature is
   the MAC of both under the secret of the credential *)
Definition made_with (eab : obj) (account_key : json) (u : json) (c : AcmeEabCredential) : Prop :=
  exists header protected text payload_key alg secret signature thumbprint,
    member eab "protected" = Some (JStr header) /\ decode header = Value (JObj protected)
    /\ dget protected "url" = Some u /\ dget protected "kid" = Some (JStr (kid c))
    /\ dget protected "alg" = Some (JStr alg) /\ alg ∈ ["HS256"; "HS384"; "HS512"]
    /\ member eab "payload" = Some (JStr text) /\ decode text = Value payload_key
    /\ jwk_thumbprint payload_key = Some thumbprint /\ jwk_thumbprint account_key = Some thumbprint
    /\ hmac_key_b64 c = Some secret /\ secret <> ""
    /\ member eab "signature" = Some (JStr signature)
    /\ hmac_signature alg secret (header ++ "." ++ text) = Some signature.

(* the account [a] was registered by the request [body] under a credential, which is spent *)
Definition registered_with (ev : env) (body : json) (d d' : db) (a : AcmeAccount) : Prop :=
  exists jws header outer u text fields eab c c',
    body = JObj jws /\ member jws "protected" = Some (JStr header) /\ decode header = Value (JObj outer)
    /\ dget outer "url" = Some (JStr u) /\ u ∈ expected_urls ev
    /\ member jws "payload" = Some (JStr text) /\ decode text = Value (JObj fields)
    /\ dget fields "externalAccountBinding" = Some (JObj eab)
    /\ current_credential d (now ev) c /\ made_with eab (jwk a) (JStr u) c
    /\ c' ∈ credentials d' /\ kid c' = kid c /\ eab_status c' = "used" /\ used_by_account_id c' = Some (account_id a).

Lemma json_equal_text v u : json_equal v (JStr u) = true -> v = JStr u.
Proof.
  unfold json_equal. destruct v as [| | | |t| |]; cbn; try done; intros E; by apply String.eqb_eq in E as ->.
Qed.

Lemma validate_eab_made d t e key u c : validate_eab d t e key (Some (JStr u)) = Ok c ->
  exists eab, e = JObj eab /\ current_credential d t c /\ made_with eab key (JStr u) c.
Proof.
  unfold validate_eab. destruct e as [| | | | | |o]; try done.
  destruct (member o "protected") as [pm|] eqn:Ep, (member o "payload") as [lm|] eqn:El, (member o "signature") as [sm|] eqn:Es; try done.
  unfold eab_protected, text_member. rewrite Ep. destruct pm as [| | | |header| |]; try done.
  destruct (decode header) as [| | |[| | | | | |p]] eqn:Ed; try done.
  destruct (dget p "url") as [v|] eqn:Eu; [|done]. destruct (json_equal v (JStr u)) eqn:Ev; [|done]. cbn [negb].
  apply json_equal_text in Ev as ->.
  destruct (dget p "alg") as [[| | | |alg| |]|] eqn:Ea; try done. destruct (str_in alg _EAB_ALGS) eqn:Ei; [|done]. cbn [negb].
  destruct (truth_of (dget p "kid")) as [[| | | |k| |]|] eqn:Ek; try done.
  destruct (find_credential d k) as [c0|] eqn:Ec; [|done].
  destruct (is_usable t c0) eqn:Eus; [|done]. cbn [negb]. destruct (hmac_key_b64 c0) as [[|x secret]|] eqn:Eh; try done.
  destruct lm as [| | | |text| |]; try done. destruct (decode text) as [| | |pk] eqn:Et; try done.
  destruct (jwk_thumbprint pk) as [th|] eqn:E1, (jwk_thumbprint key) as [th'|] eqn:E2; try done.
  destruct (String.eqb_spec th th') as [<-|]; [|done]. cbn [negb]. destruct sm as [| | | |sig| |]; try done.
  destruct (hmac_signature _ _ _) as [mac|] eqn:Em; [|done]. destruct (String.eqb_spec mac sig) as [<-|]; [|done].
  intros [= ->]. unfold find_credential in Ec. apply List.find_some in Ec as [Hin%list_elem_of_In Hk%String.eqb_eq].
  exists o. split; [done|]. split.
  - unfold is_usable in Eus. apply andb_true_iff in Eus as [Hs%String.eqb_eq He]. split_and!; try done.
    intros z Hz. rewrite Hz in He. apply negb_true_iff, Z.ltb_ge in He. done.
  - exists header, p, text, pk, alg, (String x secret), mac, th. split_and!; try done.
    + unfold truth_of in Ek. destruct (dget p "kid") as [w|]; [|done]. destruct (truth w); [|done]. congruence.
    + by apply str_in_spec in Ei.
Qed.

Lemma register_bound ev body key thumbprint f w a w' : eab_required ev = Some true ->
  register ev body key thumbprint f w = (Ok (AccountReply a true), w') ->
  exists e c c', truth_of (f_eab f) = Some e /\ validate_eab (working w) (now ev) e (jwk a) (outer_url body) = Ok c
    /\ c' ∈ credentials (committed w') /\ bound (kid c) (account_id a) c'.
Proof.
  intros Hreq. unfold register. rewrite Hreq. destruct (truth_of (f_eab f)) as [e|]; cbn [andb].
  2: { rewrite bool_decide_false by by intros []. by intros [? _]%account_respond_ok. }
  rewrite bool_decide_true by done. cbn [negb]. rewrite bind_gets.
  destruct (validate_eab _ _ _ _ _) as [c|err] eqn:Ev; [|by intros [? _]%account_respond_ok].
  unfold mbind at 1, M_bind at 1. destruct (create_account _ _ _ _ _ _) as [[[a0 is_new]|x] w1] eqn:Ec; [|done].
  destruct (negb is_new && _); [by intros [? _]%account_respond_ok|]. unfold mbind at 1, M_bind at 1. destruct is_new.
  - destruct (consume_eab _ _ _ _) as [[[r|]|x] w2] eqn:Eb; [| |done].
    + intros [<- _]%account_respond_ok. by destruct (consume_eab_refuses _ _ _ _ _ _ Eb a true).
    + intros [[= ->] Hc]%account_respond_ok. apply consume_eab_bound in Eb as (c' & Hin & Hb). apply create_account_new in Ec as Hk.
      exists e, c, c'. rewrite Hk, Hc, (validate_eab_kid _ _ _ _ _ _ Ev). done.
  - by intros [? _]%account_respond_ok.
Qed.

Lemma validate_eab_credentials d d' t e key url : credentials d = credentials d' ->
  validate_eab d t e key url = validate_eab d' t e key url.
Proof. intros H. unfold validate_eab, find_credential. by rewrite H. Qed.

Lemma guarded_ok ev c w a new w' : guarded ev c w = (Ok (AccountReply a new), w') -> c w = (Ok (AccountReply a new), w').
Proof. unfold guarded, try_. destruct (c w) as [[r|x] w1]; [done|]. by intros [? _]%account_respond_ok. Qed.

(** C23. When the setting requires a binding, an account is announced as created only when
    the signed request carried a binding made with a credential of the table that was active
    and not past its expiry: the header of the binding names the credential, an HMAC
    algorithm and the URL of the request, its payload is the key of the account (the same
    thumbprint), and its signature is the MAC of both under the secret of the credential;
    and that credential is then stored as used, for this account. *)
Theorem eab_registration_bound (ev : env) (body : json) (outcomes : list bool) (d d' : db) (a : AcmeAccount) (setting : string)
    (Hset : eab_setting ev = Some (Some setting)) (Hreq : lower setting = "true")
    (Hok : run (new_account ev body) outcomes d = (Ok (AccountReply a true), d')) :
  registered_with ev body d d' a.
Proof.
  assert (eab_required ev = Some true) as Hr by (unfold eab_required; by rewrite Hset, Hreq).
  unfold run in Hok. destruct (new_account ev body _) as [r w'] eqn:E. injection Hok as -> <-.
  apply guarded_ok in E. destruct (negb (truth body)); [by apply account_respond_ok in E as [? _]|].
  pose proof (maintains_verify (fun x => credentials x = credentials d) ev body ltac:(done) (Session d d outcomes) ltac:(done)) as [_ Hc].
  unfold mbind at 1, M_bind at 1 in E. destruct (verify_jws ev body _) as [[[[[payload [key|]] x]|e]|x] w1] eqn:Ev; cbn in Hc;
    try done; try by apply account_respond_ok in E as [? _].
  apply verify_jws_authentic in Ev as (k & [(jws & header & outer & text & token0 & -> & Hp & Hd & _ & _ & Hpm & Hdp & _ & Hl)]).
  destruct (ly_url _ _ _ _ _ Hl) as (u & Hu & Hin).
  destruct (parse_new_account payload) as [f|[t st]] eqn:Ef; [|by apply account_respond_ok in E as [? _]].
  destruct (jwk_thumbprint key) as [thumbprint|]; [|done]. rewrite bind_gets in E.
  destruct (account_of_key (working w1) thumbprint) as [b|]; [by destruct (String.eqb _ _); apply account_respond_ok in E as [? _]|].
  destruct (f_only_existing f); [by apply account_respond_ok in E as [? _]|].
  apply register_bound in E as (e & c & c' & He & Hv & Hc' & Hk & Hs & Hb); [|done].
  rewrite (validate_eab_credentials _ d) in Hv by done. unfold outer_url in Hv. rewrite Hp, Hd, Hu in Hv.
  apply validate_eab_made in Hv as (eab & -> & Hcur & Hmade).
  destruct payload as [| | | | | |fields]; try done. assert (f_eab f = dget fields "externalAccountBinding") as Eeab.
  { unfold parse_new_account in Ef. repeat case_match; simplify_eq; done. }
  assert (dget fields "externalAccountBinding" = Some (JObj eab)) as Hfe.
  { rewrite <- Eeab. unfold truth_of in He. destruct (f_eab f) as [v|]; [|done]. destruct (truth v); congruence. }
  exists jws, header, outer, u, text, fields, eab, c, c'. split_and!; try done.
  unfold decode_payload in Hdp. destruct text as [|x0 text]; [injection Hdp as <-; done|].
  destruct (decode (String x0 text)); simplify_eq; done.
Qed.
End Safety.
