(* ===== verification/AcmeAccountExamples.v ===== *)
(** * AcmeAccountExamples: ACME accounts on concrete requests

    A small instance of the signature library, a database with a binding credential, and
    requests on it: the hypotheses of the theorems of [AcmeAccountSafety] hold there. Two
    lemmas show requests the rules do not refuse. *)

From Stdlib Require Import Ascii String.
From stdpp Require Import prelude strings.
From S2P Require Import Prelude Scalars Json Session AcmeNonces AcmeJws AcmeAccounts AcmeAccountSafety.

Local Open Scope string_scope.
Local Open Scope Z_scope.

Module Sample.

Definition text_of (v : json) : string := match v with JStr s => s | _ => "" end.
Definition key (n : string) : obj := [("kty", JStr "RSA"); ("n", JStr n); ("e", JStr "AQAB")].
(* the same key, with an optional member *)
Definition key_with_use (n : string) : obj := (key n ++ [("use", JStr "sig")])%list.

Definition url_new : string := "https://ca/acme/new-account".
Definition url_change : string := "https://ca/acme/key-change".
Definition header (url nonce : string) (k : string * json) : json :=
  JObj [("alg", JStr "RS256"); ("url", JStr url); ("nonce", JStr nonce); k].
Definition binding : json :=
  JObj [("protected", JStr "eab-header"); ("payload", JStr "key-one"); ("signature", JStr "mac:secret")].

Definition texts : list (string * json) :=
  [("new-header", header url_new "n1" ("jwk", JObj (key "one")));
   ("again-header", header url_new "n2" ("jwk", JObj (key "one")));
   ("new-payload", JObj [("termsOfServiceAgreed", JBool true); ("externalAccountBinding", binding)]);
   ("eab-header", JObj [("alg", JStr "HS256"); ("kid", JStr "k1"); ("url", JStr url_new)]);
   ("key-one", JObj (key "one"));
   ("change-header", header url_change "n1" ("kid", JStr "https://ca/acme/acct/a1"));
   ("change-payload", JObj [("protected", JStr "inner-header"); ("payload", JStr "inner-payload"); ("signature", JStr "sig:one")]);
   ("inner-header", JObj [("alg", JStr "RS256"); ("url", JStr url_change); ("jwk", JObj (key_with_use "one"))]);
   ("inner-payload", JObj [("account", JStr "https://ca/acme/acct/a1"); ("oldKey", JObj (key "one"))])].

Definition n_of (o : obj) : string := match member o "n" with Some v => text_of v | None => "" end.
#[export] Instance sample_jose : Jose := {|
  decode := fun t => if (t =? "")%string then EmptyText else match dict_get texts t with Some v => Value v | None => NotText end;
  jwk_loads := fun o => nonempty (n_of o);
  signature_valid := fun _ o _ sig => (sig =? "sig:" ++ n_of o)%string;
  canonical_digest := fun o => String.concat "," ((fun p => p.1 ++ ":" ++ text_of p.2) <$> o);
  hmac_signature := fun _ k _ => Some ("mac:" ++ k);
|}.

Definition credential : AcmeEabCredential :=
  {| kid := "k1"; hmac_key_b64 := Some "secret"; eab_expires_at := None; eab_status := "active"; eab_used_at := None;
     used_by_account_id := None |}.
Definition nonce (t : string) : AcmeNonce := {| token := t; expires_at := hour_us; used := false; used_at := None |}.
Definition account_of (i n : string) : AcmeAccount :=
  {| account_id := i; jwk := JObj (key n); jwk_thumbprint_col := "e:AQAB,kty:RSA,n:" ++ n; contact := None; status := "valid";
     terms_of_service_agreed := true |}.

(* no account yet, and one whose key is known *)
Definition empty : db := {| accounts := []; credentials := [credential]; nonces := [nonce "n1"; nonce "n2"]; order_certs := [] |}.
Definition one : db := {| accounts := [account_of "a1" "one"]; credentials := []; nonces := [nonce "n1"]; order_certs := [] |}.

Definition ev (urls : list string) (i fresh : string) (setting : option (option string)) : env :=
  {| now := 1; expected_urls := urls; fresh_id := i; fresh_nonce := fresh; eab_setting := setting |}.
Definition registering : env := ev [url_new] "a1" "r1" (Some (Some "true")).
Definition jws (h p s : string) : json := JObj [("protected", JStr h); ("payload", JStr p); ("signature", JStr s)].
Definition registration : json := jws "new-header" "new-payload" "sig:one".

Lemma empty_well_formed : well_formed empty.
Proof. split; cbn; [constructor..| |]; intros x; [by intros ?%elem_of_nil|]. by intros ->%list_elem_of_singleton. Qed.

Definition terms : json := JObj [("termsOfServiceAgreed", JBool true); ("externalAccountBinding", binding)].

Lemma verify_jws_exact_witness :
  (exists key, authentic empty registering registration terms (Some (JObj (Sample.key "one"))) None key).
Proof. apply verify_jws_exact; [apply (bool_decide_unpack _); vm_compute; reflexivity|]. vm_compute. reflexivity. Defined.

Definition accepted : json * option json * option AcmeAccount := (terms, Some (JObj (key "one")), None).
Definition served_once : db := (run (verify_jws registering registration) [] empty).2.
Lemma request_accepted_once_witness :
  run (verify_jws registering registration) [] empty = (Ok (Ok accepted), served_once)
  /\ (run (verify_jws registering registration) [] served_once).1 <> Ok (Ok accepted).
Proof.
  assert (run (verify_jws registering registration) [] empty = (Ok (Ok accepted), served_once)) as H by (vm_compute; reflexivity).
  split; [exact H|]. exact (request_accepted_once registering registering registration [] [] empty _ accepted H (Z.le_refl _) accepted).
Defined.

Definition requests : list (request * list bool) :=
  [(NewAccount registering registration, []); (NewAccount (ev [url_new] "a2" "r2" None) (jws "again-header" "new-payload" "sig:one"), [])].

Lemma accounts_well_formed_witness : well_formed empty /\ well_formed (serve_all requests empty)
  /\ (account_id <$> accounts (serve_all requests empty)) = ["a1"].
Proof.
  split; [exact empty_well_formed|]. split; [|vm_compute; reflexivity].
  exact (proj1 (accounts_well_formed empty requests empty_well_formed)).
Defined.

Lemma eab_registration_bound_witness :
  registered_with registering registration empty (run (new_account registering registration) [] empty).2 (account_of "a1" "one").
Proof.
  apply (eab_registration_bound registering registration [] empty _ _ "true"); vm_compute; reflexivity.
Defined.

(** ** Requests the rules let through *)

(* the new key is compared as a JSON value: with one more member it is the same key *)
Lemma key_change_to_same_key :
  exists d', run (key_change (ev [url_change] "a9" "r1" None) (jws "change-header" "change-payload" "sig:one")) [] one
             = (Ok (AccountReply (set_key (JObj (key_with_use "one")) "e:AQAB,kty:RSA,n:one" (account_of "a1" "one")) false), d')
    /\ jwk_thumbprint (JObj (key_with_use "one")) = jwk_thumbprint (JObj (key "one")).
Proof. eexists. split; vm_compute; reflexivity. Qed.

(* verification, creation, consumption and removal: the last two commits fail *)
Definition race : list bool := [true; true; false; false].
(* the account no credential was consumed for stays, and the next request is served it *)
Lemma unbound_account_stays :
  let '(r1, d1) := run (new_account registering registration) race empty in
  let again := ev [url_new] "a2" "r2" (Some (Some "true")) in
  let '(r2, d2) := run (new_account again (jws "again-header" "new-payload" "sig:one")) [] d1 in
  r1 = Ok (Refused "serverInternal" 500) /\ credentials d2 = credentials empty
  /\ r2 = Ok (AccountReply (account_of "a1" "one") false).
Proof. vm_compute. auto. Qed.
End Sample.
