(* ===== verification/DnsUpdateModel.v ===== *)
(** * DnsUpdateModel: data and caches of the DNS UPDATE listener

    The listener of [backend/services/acme/dns_update] answers RFC 2136 updates for the
    ACME proxy. This file holds the tables it reads ([models/acme_dns_update.py]), its
    three caches over them ([keys.py], [zones.py], [records.py]) and the tables it keeps
    itself: the replay cache of [handler.py] and the time watermark of [tsig.py]. Names
    and messages are those of dnspython, which parses and renders them: the class
    [DnsLibrary]. A packet is the list of its bytes. Wall-clock instants are microseconds,
    and a request is served at one instant. *)

From Stdlib Require Import Ascii String.
From stdpp Require Import prelude strings gmap.
From S2P Require Import Prelude DomainMatch.

Local Open Scope string_scope.
Local Open Scope Z_scope.

(** ** Names and messages *)

(* the labels of an absolute name, without the root *)
Definition name : Type := list string.
Definition canonicalize (n : name) : name := lower <$> n.
Definition same_name (a b : name) : bool := bool_decide (canonicalize a = canonicalize b).
Definition parent (n : name) : name := tail n.
(* a name and those above it, down to the last label *)
Fixpoint name_chain (n : name) : list name :=
  match n with
  | [] => []
  | l :: n' => n :: name_chain n'
  end.
Definition is_subdomain (n zone : name) : bool := existsb (fun p => same_name p zone) (name_chain n ++ [[]]).

Definition wire : Type := list Z.

Record question := { q_name : name; q_type : Z; q_class : Z }.
(* deleting: the class of a deletion; the strings of each TXT value *)
Record rrset := { rr_name : name; rr_type : Z; deleting : option Z; rdatas : list (list string) }.
Record tsig_rr := {
  t_algorithm : name; time_signed : Z; fudge : Z; mac : wire; original_id : Z; t_error : Z; t_other : wire;
}.
(* edns: -1 without an OPT record. An update has its zone in the questions; of the other
   sections only that they are the same matters *)
Record message := {
  m_id : Z; m_flags : Z; edns : Z; payload : Z; questions : list question; prerequisites : list rrset; updates : list rrset;
  other_sections : wire; tsig : option (name * tsig_rr);
}.
#[export] Instance question_eq : EqDecision question.
Proof. solve_decision. Defined.
#[export] Instance rrset_eq : EqDecision rrset.
Proof. solve_decision. Defined.
#[export] Instance tsig_rr_eq : EqDecision tsig_rr.
Proof. solve_decision. Defined.

Definition QUERY : Z := 0.
Definition UPDATE : Z := 5.
Definition SOA : Z := 6.
Definition TXT : Z := 16.
Definition TSIG : Z := 250.
Definition ANY : Z := 255.
Definition IN : Z := 1.
Definition NONE : Z := 254.

Record TsigKeyMaterial := { key_id : Z; key_name : name; key_algorithm : name; key_secret : wire }.

Record soa_rr := { s_owner : name; s_mname : name; s_rname : name; s_timers : Z * Z * Z * Z * Z; s_ttl : Z }.
(* a response to a message: what make_response copies, and what the handler sets *)
Record response := {
  r_to : message; r_questions : list question; r_answer : list soa_rr; r_authority : list soa_rr;
  r_rcode : Z; r_aa : bool; r_tc : bool;
}.

Inductive validation := MacValid | BadSignature | BadKeyOrAlgorithm | ValidationFailed.

Class DnsLibrary := {
  to_text : name -> string;
  from_text : string -> option name;
  from_wire : wire -> option message;                     (* message.from_wire(keyring=False) *)
  name_from_wire : wire -> nat -> option (name * nat);    (* the name at an offset, and the next offset *)
  to_wire : option Z -> response -> option wire;          (* None: larger than the size allowed *)
  tsig_to_wire : name -> tsig_rr -> wire;
  sign : wire -> TsigKeyMaterial -> tsig_rr -> Z -> wire -> option wire;    (* the MAC; time, request MAC *)
  validate : wire -> TsigKeyMaterial -> name -> tsig_rr -> nat -> validation;
  b64decode : string -> option wire;
  mac_size : name -> Z;                                   (* tsig.mac_sizes *)
}.

(** ** constants.py *)

Definition HMAC_SHA256 : name := ["hmac-sha256"].
Definition HMAC_SHA384 : name := ["hmac-sha384"].
Definition HMAC_SHA512 : name := ["hmac-sha512"].
Definition ALLOWED_TSIG_ALGORITHMS : list name := [HMAC_SHA256; HMAC_SHA384; HMAC_SHA512].
Definition MAX_FUDGE : Z := 300.
Definition RESPONSE_FUDGE : Z := 300.
Definition MAX_MESSAGE_SIZE : Z := 4096.
Definition MAX_QDCOUNT : Z := 16.
Definition MAX_ANCOUNT : Z := 16.
Definition MAX_NSCOUNT : Z := 16.
Definition MAX_ARCOUNT : Z := 4.
Definition REPLAY_CACHE_SIZE : nat := Z.to_nat 4096.
Definition REPLAY_TTL_S : Z := 2 * MAX_FUDGE.
Definition SOA_TIMERS : Z * Z * Z * Z * Z := (1, 3600, 600, 86400, 0).
Definition CHALLENGE_LABEL : string := "_acme-challenge".

Definition second : Z := 1000000.

(** ** Tables *)

Record AcmeDnsUpdateKey := {
  k_id : Z; acme_client_account_id : Z; eab_credential_id : option Z; eab_bound_col : bool;
  k_name : string; k_algorithm : string; k_secret : option string; k_status : string; last_used_at : option Z;
}.
Record AcmeProxyDnsChallenge := {
  c_id : Z; c_order : Z; c_client_account : option Z; c_account : option string; c_thumbprint : string;
  c_identifier : string; record_name : string; txt_value : string; zone_name : string;
  challenge_url : option string; c_status : string; c_created_at : Z; c_expires_at : Z; client_confirmed_at : option Z;
}.
Record tables := {
  update_keys : list AcmeDnsUpdateKey;
  proxy_enabled : list Z;                              (* the client accounts that are enabled *)
  eab_rows : list (Z * (string * option string));      (* identifier, status, account *)
  acme_domains : list domain_row;
  challenges : list AcmeProxyDnsChallenge;
  client_orders : list (Z * string);                   (* identifier and status *)
}.

Definition with_challenges (f : list AcmeProxyDnsChallenge -> list AcmeProxyDnsChallenge) (d : tables) : tables :=
  {| update_keys := update_keys d; proxy_enabled := proxy_enabled d; eab_rows := eab_rows d;
     acme_domains := acme_domains d; challenges := f (challenges d); client_orders := client_orders d |}.
Definition with_update_keys (f : list AcmeDnsUpdateKey -> list AcmeDnsUpdateKey) (d : tables) : tables :=
  {| update_keys := f (update_keys d); proxy_enabled := proxy_enabled d; eab_rows := eab_rows d;
     acme_domains := acme_domains d; challenges := challenges d; client_orders := client_orders d |}.

Definition assoc {V} (l : list (Z * V)) (k : Z) : option V :=
  snd <$> List.find (fun p => p.1 =? k) l.

(** ** keys.py *)

Record KeyScope := { scope_account : Z; eab_bound : bool; eab_account_id : option string }.

Definition text_set (o : option string) : option string :=
  match o with Some s => if nonempty s then Some s else None | None => None end.

Definition allows (s : KeyScope) (row_acme_client_account_id : option Z) (row_account_id : option string) : bool :=
  match row_acme_client_account_id with
  | None => false
  | Some a =>
      if negb (a =? scope_account s) then false
      else if eab_bound s then
        match text_set (eab_account_id s), text_set row_account_id with
        | Some e, Some r => (r =? e)%string
        | _, _ => false
        end
      else true
  end.

Definition _TOUCH_INTERVAL_S : Z := 60 * second.
Definition _RETRY_S : Z := 2 * second.
Definition KEY_MAX_AGE : Z := 30 * second.

Record KeyStore := {
  materials : gmap string TsigKeyMaterial;
  scopes : gmap Z KeyScope;
  ks_loaded_at : option Z;
  dirty : bool;
  ks_retry_at : option Z;
  touched : gmap Z Z;
}.
Definition new_key_store : KeyStore :=
  {| materials := ∅; scopes := ∅; ks_loaded_at := None; dirty := false; ks_retry_at := None; touched := ∅ |}.

Definition invalidate_keys (k : KeyStore) : KeyStore :=
  {| materials := materials k; scopes := scopes k; ks_loaded_at := None; dirty := true; ks_retry_at := None;
     touched := touched k |}.

Section Caches.
Context `{!DnsLibrary}.

Definition _canonical (n : name) : string := lower (to_text n).

(* the account a bound key is limited to *)
Definition bound_account (d : tables) (k : AcmeDnsUpdateKey) : option string :=
  match eab_credential_id k ≫= assoc (eab_rows d) with
  | Some (s, account) => if (s =? "used")%string then text_set account else None
  | None => None
  end.

Definition key_material (d : tables) (k : AcmeDnsUpdateKey) : option (TsigKeyMaterial * KeyScope) :=
  if negb (k_status k =? "active")%string || negb (existsb (Z.eqb (acme_client_account_id k)) (proxy_enabled d)) then None
  else
    algorithm ← from_text (k_algorithm k);
    n ← from_text (k_name k);
    if negb (existsb (same_name algorithm) ALLOWED_TSIG_ALGORITHMS) then None
    else
      text ← text_set (k_secret k);
      secret ← b64decode text;
      match secret with
      | [] => None
      | _ =>
          let bound := eab_bound_col k || bool_decide (is_Some (eab_credential_id k)) in
          Some ({| key_id := k_id k; key_name := n; key_algorithm := algorithm; key_secret := secret |},
                {| scope_account := acme_client_account_id k; eab_bound := bound;
                   eab_account_id := if bound then bound_account d k else None |})
      end.

Definition add_key (d : tables) (acc : gmap string TsigKeyMaterial * gmap Z KeyScope) (k : AcmeDnsUpdateKey)
    : gmap string TsigKeyMaterial * gmap Z KeyScope :=
  match key_material d k with
  | Some (mat, scope) => (<[_canonical (key_name mat) := mat]> acc.1, <[k_id k := scope]> acc.2)
  | None => acc
  end.
Definition load_keys (d : tables) : gmap string TsigKeyMaterial * gmap Z KeyScope :=
  fold_left (add_key d) (update_keys d) (∅, ∅).

(* loads: whether a reload goes through *)
Definition ensure_keys (d : tables) (loads : bool) (now : Z) (k : KeyStore) : KeyStore :=
  let emptied := {| materials := ∅; scopes := ∅; ks_loaded_at := ks_loaded_at k; dirty := dirty k;
                    ks_retry_at := ks_retry_at k; touched := touched k |} in
  if negb (dirty k) && match ks_loaded_at k with Some l => now - l <? KEY_MAX_AGE | None => false end then k
  else if match ks_retry_at k with Some r => now <? r | None => false end then (if dirty k then emptied else k)
  else if loads then
    let '(m, s) := load_keys d in
    {| materials := m; scopes := s; ks_loaded_at := Some now; dirty := false; ks_retry_at := None; touched := touched k |}
  else
    let kept := if dirty k then emptied else k in
    {| materials := materials kept; scopes := scopes kept; ks_loaded_at := ks_loaded_at k; dirty := dirty k;
       ks_retry_at := Some (now + _RETRY_S); touched := touched k |}.

(* touch: whether last_used_at is to be written, and the table of the last times *)
Definition touch_due (now : Z) (key : Z) (k : KeyStore) : bool :=
  match touched k !! key with Some last => negb (now - last <? _TOUCH_INTERVAL_S) | None => true end.
Definition touch_mark (now : Z) (key : Z) (k : KeyStore) : KeyStore :=
  {| materials := materials k; scopes := scopes k; ks_loaded_at := ks_loaded_at k; dirty := dirty k;
     ks_retry_at := ks_retry_at k; touched := <[key := now]> (touched k) |}.

(** ** zones.py *)

Definition ZONE_MAX_AGE : Z := 10 * second.

Record ZoneIndex := { zones : list name; z_ancestors : list name; z_loaded_at : option Z; z_retry_at : option Z }.
Definition new_zone_index : ZoneIndex := {| zones := []; z_ancestors := []; z_loaded_at := None; z_retry_at := None |}.
Definition invalidate_zones (z : ZoneIndex) : ZoneIndex :=
  {| zones := zones z; z_ancestors := z_ancestors z; z_loaded_at := None; z_retry_at := None |}.

Definition load_zones (d : tables) : list name :=
  omap (fun stored =>
    let bare := normalize (row_domain stored) in
    if nonempty bare then
      match from_text (bare ++ ".") with
      | Some zone => if (length zone <? 2)%nat then None else Some zone
      | None => None
      end
    else None) (acme_domains d).

(* the names above a zone, down to two labels *)
Fixpoint above (n : name) : list name :=
  match n with
  | [] => []
  | _ :: n' => if (2 <? length n)%nat then n' :: above n' else []
  end.

Definition ensure_zones (d : tables) (loads : bool) (now : Z) (z : ZoneIndex) : ZoneIndex :=
  if match z_loaded_at z with Some l => now - l <? ZONE_MAX_AGE | None => false end then z
  else if match z_retry_at z with Some r => now <? r | None => false end then z
  else if loads then
    let l := load_zones d in
    {| zones := l; z_ancestors := mjoin (above <$> l); z_loaded_at := Some now; z_retry_at := None |}
  else {| zones := zones z; z_ancestors := z_ancestors z; z_loaded_at := z_loaded_at z; z_retry_at := Some (now + _RETRY_S) |}.

Definition name_in (n : name) (l : list name) : bool := existsb (same_name n) l.

Definition is_authoritative (z : ZoneIndex) (zname : name) : bool :=
  if (length zname <? 2)%nat then false
  else name_in zname (zones z) || name_in zname (z_ancestors z) || existsb (fun p => name_in p (zones z)) (above zname).

End Caches.

(** ** records.py: the active rows *)

Definition hour : Z := 3600 * second.
Definition ACTIVE_MAX_AGE : Z := 24 * hour.
Definition SOA_GRACE : Z := 24 * hour.
Definition PURGE_AFTER : Z := 7 * 24 * hour.
Definition CACHE_MAX_AGE_S : Z := 5 * second.

Record ActiveRecord := {
  row_id : Z; a_order : Z; a_record_name : string; a_txt_value : string; a_zone_name : string;
  a_client_account : option Z; a_account : option string;
}.
Definition active_record (c : AcmeProxyDnsChallenge) : ActiveRecord :=
  {| row_id := c_id c; a_order := c_order c; a_record_name := record_name c; a_txt_value := txt_value c;
     a_zone_name := zone_name c; a_client_account := c_client_account c; a_account := c_account c |}.

(* by_name as the rows it indexes, in order *)
Record ActiveSnapshot := { active_rows : list ActiveRecord; soa_rows : list ActiveRecord }.
Definition _EMPTY_SNAPSHOT : ActiveSnapshot := {| active_rows := []; soa_rows := [] |}.
Definition by_name (s : ActiveSnapshot) (text : string) : list ActiveRecord :=
  List.filter (fun r => (a_record_name r =? text)%string) (active_rows s).
(* the rows of a zone; a zone is in the snapshot when it has one *)
Definition rows_by_zone (s : ActiveSnapshot) (text : string) : list ActiveRecord :=
  List.filter (fun r => (a_zone_name r =? text)%string) (soa_rows s).

Definition is_active (d : tables) (now : Z) (c : AcmeProxyDnsChallenge) : bool :=
  (c_status c =? "pending")%string && (now <? c_expires_at c)
  && bool_decide (assoc (client_orders d) (c_order c) = Some "pending").

Definition load_rows (d : tables) (now : Z) : ActiveSnapshot :=
  let rows := List.filter (fun c => (now - SOA_GRACE <? c_expires_at c)
                                    && bool_decide (is_Some (assoc (client_orders d) (c_order c)))) (challenges d) in
  {| active_rows := active_record <$> List.filter (is_active d now) rows; soa_rows := active_record <$> rows |}.

Record ActiveRecordCache := {
  cached : ActiveSnapshot; a_loaded_at : option Z; generation : Z; loaded_generation : Z; a_retry_at : option Z;
}.
Definition new_record_cache : ActiveRecordCache :=
  {| cached := _EMPTY_SNAPSHOT; a_loaded_at := None; generation := 0; loaded_generation := -1; a_retry_at := None |}.
Definition invalidate_cache (a : ActiveRecordCache) : ActiveRecordCache :=
  {| cached := cached a; a_loaded_at := a_loaded_at a; generation := generation a + 1;
     loaded_generation := loaded_generation a; a_retry_at := None |}.
Definition rows_fresh (mono : Z) (a : ActiveRecordCache) : bool :=
  match a_loaded_at a with
  | Some l => (loaded_generation a =? generation a) && (mono - l <? CACHE_MAX_AGE_S)
  | None => false
  end.

(* the cache after snapshot(), whose answer is [cached] *)
Definition ensure_rows (d : tables) (loads : bool) (now mono : Z) (a : ActiveRecordCache) : ActiveRecordCache :=
  if rows_fresh mono a then a
  else if match a_retry_at a with Some r => mono <? r | None => false end then a
  else if loads then
    {| cached := load_rows d now; a_loaded_at := Some mono; generation := generation a;
       loaded_generation := generation a; a_retry_at := None |}
  else {| cached := cached a; a_loaded_at := a_loaded_at a; generation := generation a;
          loaded_generation := loaded_generation a; a_retry_at := Some (mono + _RETRY_S) |}.

(** ** handler.py: the replay cache *)

(* key name and request MAC *)
Definition replay_key : Type := string * wire.
(* the oldest first; per transport the response, true for TCP *)
Record entry := { e_key : replay_key; e_at : Z; e_udp : option wire; e_tcp : option wire }.
Record ReplayCache := { items : list entry; in_flight : list replay_key }.
Definition new_replay_cache : ReplayCache := {| items := []; in_flight := [] |}.

Definition is_key (k : replay_key) (e : entry) : bool := bool_decide (e_key e = k).
Definition expired (now : Z) (e : entry) : bool := REPLAY_TTL_S * second <=? now - e_at e.
Definition without (k : replay_key) (l : list entry) : list entry := List.filter (fun e => negb (is_key k e)) l.

(* the live entry of a key, and the cache without it when it is expired *)
Definition _live (now : Z) (k : replay_key) (c : ReplayCache) : option entry * ReplayCache :=
  match List.find (is_key k) (items c) with
  | None => (None, c)
  | Some e => if expired now e then (None, {| items := without k (items c); in_flight := in_flight c |}) else (Some e, c)
  end.

Definition stored (tcp : bool) (e : entry) : option wire := if tcp then e_tcp e else e_udp e.
Definition move_to_end (e : entry) (c : ReplayCache) : ReplayCache :=
  {| items := without (e_key e) (items c) ++ [e]; in_flight := in_flight c |}.

Definition replay_get (now : Z) (k : replay_key) (tcp : bool) (c : ReplayCache) : option wire * ReplayCache :=
  match _live now k c with
  | (Some e, c') => match stored tcp e with Some v => (Some v, move_to_end e c') | None => (None, c') end
  | (None, c') => (None, c')
  end.

Definition seen (now : Z) (k : replay_key) (c : ReplayCache) : bool * ReplayCache :=
  let '(e, c') := _live now k c in (bool_decide (is_Some e), c').

(* the last of a list that is too long *)
Definition newest {A} (size : nat) (l : list A) : list A := drop (length l - size) l.

Definition put (now : Z) (k : replay_key) (v : wire) (tcp : bool) (c : ReplayCache) : ReplayCache :=
  let '(found, c') := _live now k c in
  let e := match found with Some e => e | None => {| e_key := k; e_at := now; e_udp := None; e_tcp := None |} end in
  let e' := {| e_key := k; e_at := e_at e; e_udp := if tcp then e_udp e else Some v; e_tcp := if tcp then Some v else e_tcp e |} in
  {| items := newest REPLAY_CACHE_SIZE (without k (items c') ++ [e']); in_flight := in_flight c' |}.

Definition begin (k : replay_key) (c : ReplayCache) : bool * ReplayCache :=
  if bool_decide (k ∈ in_flight c) then (false, c)
  else (true, {| items := items c; in_flight := k :: in_flight c |}).
Definition end_flight (k : replay_key) (c : ReplayCache) : ReplayCache :=
  {| items := items c; in_flight := List.filter (fun x => negb (bool_decide (x = k))) (in_flight c) |}.

(** ** tsig.py: the time watermark *)

Definition WATERMARK_KEYS : nat := Z.to_nat 4096.
(* the least recently used key first *)
Definition TimeWatermark : Type := list (Z * Z).
Definition is_older (key : Z) (t : Z) (w : TimeWatermark) : bool :=
  match assoc w key with Some s => t <? s | None => false end.
Definition record (key : Z) (t : Z) (w : TimeWatermark) : TimeWatermark :=
  let t' := match assoc w key with Some s => Z.max s t | None => t end in
  newest WATERMARK_KEYS (List.filter (fun p => negb (p.1 =? key)) w ++ [(key, t')]).
