(* ===== verification/DnsUpdateHandler.v ===== *)
(** * DnsUpdateHandler: one request of the DNS UPDATE listener

    Models [backend/services/acme/dns_update/handler.py] and [tsig.py]: the bytes of a
    request to the bytes of its answer, or none, with the calls that change state. A
    Python exception is [None] of the innermost option; [handle] turns it into SERVFAIL.
    The log sampler writes log lines only and is left out. The audit events that [_after]
    writes are not stored: the event carried out is part of the answer. The clocks are read
    once for a request, at the values of [env]. *)

From Stdlib Require Import Ascii String.
From stdpp Require Import prelude strings gmap.
From S2P Require Import Prelude DnsUpdateModel.

Local Open Scope string_scope.
Local Open Scope Z_scope.

Record listener := {
  db : tables; key_store : KeyStore; zone_index : ZoneIndex; rows : ActiveRecordCache;
  watermark : TimeWatermark; replay : ReplayCache;
}.

Definition set_db (x : tables) (s : listener) : listener :=
  {| db := x; key_store := key_store s; zone_index := zone_index s; rows := rows s; watermark := watermark s; replay := replay s |}.
Definition set_key_store (x : KeyStore) (s : listener) : listener :=
  {| db := db s; key_store := x; zone_index := zone_index s; rows := rows s; watermark := watermark s; replay := replay s |}.
Definition set_zone_index (x : ZoneIndex) (s : listener) : listener :=
  {| db := db s; key_store := key_store s; zone_index := x; rows := rows s; watermark := watermark s; replay := replay s |}.
Definition set_rows (x : ActiveRecordCache) (s : listener) : listener :=
  {| db := db s; key_store := key_store s; zone_index := zone_index s; rows := x; watermark := watermark s; replay := replay s |}.
Definition set_watermark (x : TimeWatermark) (s : listener) : listener :=
  {| db := db s; key_store := key_store s; zone_index := zone_index s; rows := rows s; watermark := x; replay := replay s |}.
Definition set_replay (x : ReplayCache) (s : listener) : listener :=
  {| db := db s; key_store := key_store s; zone_index := zone_index s; rows := rows s; watermark := watermark s; replay := x |}.

(* what a request meets: the clocks, the reloads and the commits *)
Record env := {
  wall : Z; mono : Z; tcp : bool;
  keys_load : bool; zones_load : bool; rows_load : bool; confirm_commits : bool; touch_commits : bool;
}.
Definition now_int (ev : env) : Z := wall ev / second.

Definition LM (A : Type) : Type := listener -> A * listener.
#[export] Instance LM_ret : MRet LM := fun A a s => (a, s).
#[export] Instance LM_bind : MBind LM := fun A B k c s => let '(a, s') := c s in k a s'.
Definition reads {A} (f : listener -> A) : LM A := fun s => (f s, s).
Definition writes (f : listener -> listener) : LM unit := fun s => (tt, f s).
Definition on_replay {A} (f : ReplayCache -> A * ReplayCache) : LM A := fun s =>
  let '(a, c) := f (replay s) in (a, set_replay c s).

(** ** Bytes *)

Definition byte (w : wire) (i : nat) : Z := nth i w 0.
Definition u16 (w : wire) (i : nat) : Z := 256 * byte w i + byte w (i + 1).
Definition u32 (w : wire) (i : nat) : Z := 65536 * u16 w i + u16 w (i + 2).
Definition pack16 (z : Z) : wire := [Z.shiftr z 8; Z.land z 255].
Definition size (w : wire) : Z := Z.of_nat (length w).

Definition _QR : Z := 32768.
Definition _RD : Z := 256.
Definition _MIN_UDP : Z := 512.
Definition _WIRE_LIMIT : Z := 65535.
Definition _TSIG_RESERVE : Z := 400.
Definition _MIN_MAC : Z := 10.

Definition FORMERR : Z := 1.
Definition SERVFAIL : Z := 2.
Definition NOTIMP : Z := 4.
Definition REFUSED : Z := 5.
Definition NOTAUTH : Z := 9.
Definition NOTZONE : Z := 10.
Definition BADVERS : Z := 16.
Definition BADSIG_RCODE : Z := 16.
Definition BADKEY_RCODE : Z := 17.
Definition BADTIME_RCODE : Z := 18.
Definition BADTRUNC_RCODE : Z := 22.

Definition opcode_of (flags : Z) : Z := Z.land (Z.shiftr flags 11) 15.

Definition _header_only (w : wire) (rcode : Z) : wire :=
  let flags := u16 w 2 in
  let out := Z.lor (Z.lor _QR (Z.shiftl (opcode_of flags) 11)) (Z.lor (Z.land flags _RD) (Z.land rcode 15)) in
  (pack16 (u16 w 0) ++ pack16 out ++ [0; 0; 0; 0; 0; 0; 0; 0])%list.

Definition _with_request_id (cached w : wire) : wire := (take 2 w ++ drop 2 cached)%list.

Section Handler.
Context `{!DnsLibrary}.

(** ** Walking the records of a packet *)

(* the offset after n bytes *)
Definition get_bytes (w : wire) (p n : nat) : option nat := if (length w <? p + n)%nat then None else Some (p + n)%nat.

Fixpoint skip_questions (w : wire) (p n : nat) : option nat :=
  match n with
  | O => Some p
  | S n' => x ← name_from_wire w p; p1 ← get_bytes w x.2 4; skip_questions w p1 n'
  end.

Record rr_header := { h_name : name; h_type : Z; h_class : Z; h_ttl : Z; h_rdlen : Z }.
Definition read_rr (w : wire) (p : nat) : option (rr_header * nat) :=
  x ← name_from_wire w p;
  p1 ← get_bytes w x.2 10;
  let rdlen := u16 w (x.2 + 8) in
  p2 ← get_bytes w p1 (Z.to_nat rdlen);
  Some ({| h_name := x.1; h_type := u16 w x.2; h_class := u16 w (x.2 + 2); h_ttl := u32 w (x.2 + 4); h_rdlen := rdlen |}, p2).

(* the headers with their offsets, and the offset after them *)
Fixpoint read_rrs (w : wire) (p n : nat) : option (list (nat * rr_header) * nat) :=
  match n with
  | O => Some ([], p)
  | S n' => x ← read_rr w p; y ← read_rrs w x.2 n'; Some ((p, x.1) :: y.1, y.2)
  end.

Definition count (w : wire) (i : nat) : nat := Z.to_nat (u16 w i).

(* offset, type and TTL of the last record *)
Definition _last_rr_header (w : wire) : option (nat * Z * Z) :=
  p0 ← get_bytes w 0 12;
  p1 ← skip_questions w p0 (count w 4);
  x ← read_rrs w p1 (count w 6 + count w 8 + count w 10)%nat;
  l ← last x.1;
  Some (l.1, h_type l.2, h_ttl l.2).

Definition _update_rrs (w : wire) : option (list rr_header) :=
  p0 ← get_bytes w 0 12;
  p1 ← skip_questions w p0 (count w 4);
  x ← read_rrs w p1 (count w 6);
  y ← read_rrs w x.2 (count w 8);
  Some (y.1.*2).

Definition _same_in_signed_form (w : wire) (msg : message) : bool :=
  match tsig msg with
  | None => true
  | Some (_, t) =>
      if original_id t =? m_id msg then true
      else match from_wire (pack16 (original_id t) ++ drop 2 w)%list with
           | None => false
           | Some again =>
               bool_decide (questions again = questions msg) && bool_decide (prerequisites again = prerequisites msg)
               && bool_decide (updates again = updates msg) && bool_decide (other_sections again = other_sections msg)
               && bool_decide (tsig again = tsig msg) && (edns again =? edns msg) && (payload again =? payload msg)
           end
  end.

Definition _replay_key (msg : message) : option replay_key :=
  (fun '(n, t) => (lower (to_text n), mac t)) <$> tsig msg.

(** ** tsig.py: verification *)

Inductive TsigOutcome := Unsigned | Verified | Malformed | BadKey | BadSig | BadTime | BadTrunc.
Record TsigResult := {
  outcome : TsigOutcome; r_key : option TsigKeyMaterial; keyname : option name; rdata : option tsig_rr; replayed : bool;
}.
Definition request_mac (r : TsigResult) : wire := match rdata r with Some t => mac t | None => [] end.

Definition lookup_key (ev : env) (n : name) : LM (option TsigKeyMaterial) :=
  _ ← writes (fun s => set_key_store (ensure_keys (db s) (keys_load ev) (mono ev) (key_store s)) s);
  reads (fun s => materials (key_store s) !! _canonical n).
Definition scope_of (ev : env) (i : Z) : LM (option KeyScope) :=
  _ ← writes (fun s => set_key_store (ensure_keys (db s) (keys_load ev) (mono ev) (key_store s)) s);
  reads (fun s => scopes (key_store s) !! i).

(* the MAC of the whole message, or of the length sent *)
Definition check_mac (w : wire) (key : TsigKeyMaterial) (owner : name) (t : tsig_rr) (start : nat) : TsigOutcome :=
  if size (mac t) =? mac_size (key_algorithm key) then
    match validate w key owner t start with
    | MacValid => Verified
    | BadSignature => BadSig
    | BadKeyOrAlgorithm => BadKey
    | ValidationFailed => Malformed
    end
  else if u16 w 10 =? 0 then Malformed
  else
    let new_wire := (take 10 w ++ pack16 (u16 w 10 - 1) ++ take (start - 12) (drop 12 w))%list in
    match sign new_wire key t (time_signed t) [] with
    | None => Malformed
    | Some signed => if bool_decide (take (length (mac t)) signed = mac t) then Verified else BadSig
    end.

(* the checks before the replay and the time; Verified when the MAC is good *)
Definition check_signature (w : wire) (owner : name) (t : tsig_rr) (found : option TsigKeyMaterial) : TsigOutcome :=
  match found with
  | None => BadKey
  | Some key =>
      if negb (same_name (t_algorithm t) (key_algorithm key))
         || negb (existsb (same_name (key_algorithm key)) ALLOWED_TSIG_ALGORITHMS)
         || bool_decide (key_secret key = []) then BadKey
      else
        let full := mac_size (key_algorithm key) in
        let m := size (mac t) in
        if (full <? m) || (m <? Z.max _MIN_MAC (full / 2)) then Malformed
        else match _last_rr_header w with
             | None => Malformed
             | Some (start, ty, _) => if negb (ty =? TSIG) then Malformed else check_mac w key owner t start
             end
  end.

Definition in_window (ev : env) (t : tsig_rr) : bool :=
  Z.abs (now_int ev - time_signed t) <=? Z.min (fudge t) MAX_FUDGE.

Definition verify_request (ev : env) (w : wire) (msg : message) (rk : option replay_key) : LM TsigResult :=
  match tsig msg with
  | None => mret {| outcome := Unsigned; r_key := None; keyname := None; rdata := None; replayed := false |}
  | Some (owner, t) =>
      let answer o k := {| outcome := o; r_key := k; keyname := Some owner; rdata := Some t; replayed := false |} in
      if negb (t_error t =? 0) then mret (answer Malformed None)
      else match _last_rr_header w with
      | None => mret (answer Malformed None)
      | Some (_, _, ttl) =>
          if negb (ttl =? 0) then mret (answer Malformed None)
          else
            found ← lookup_key ev owner;
            match check_signature w owner t found, found with
            | Verified, Some key =>
                again ← match rk with Some k => on_replay (seen (wall ev) k) | None => mret false end;
                if again : bool then
                  mret {| outcome := Verified; r_key := Some key; keyname := Some owner; rdata := Some t; replayed := true |}
                else if negb (in_window ev t) then mret (answer BadTime (Some key))
                else
                  older ← reads (fun s => is_older (key_id key) (time_signed t) (watermark s));
                  if older : bool then mret (answer BadTime (Some key))
                  else if size (mac t) <? mac_size (key_algorithm key) then mret (answer BadTrunc (Some key))
                  else
                    _ ← writes (fun s => set_watermark (record (key_id key) (time_signed t) (watermark s)) s);
                    mret (answer Verified (Some key))
            | o, _ => mret (answer o None)
            end
      end
  end.

(** ** tsig.py: rendering *)

Definition _tsig_rdata (algorithm : name) (time fudge : Z) (m : wire) (id error : Z) (other : wire) : tsig_rr :=
  {| t_algorithm := algorithm; time_signed := time; fudge := fudge; mac := m; original_id := id; t_error := error; t_other := other |}.
Definition _append_tsig (body : wire) (owner : name) (t : tsig_rr) : wire :=
  (take 10 body ++ pack16 (u16 body 10 + 1) ++ drop 12 body ++ tsig_to_wire owner t)%list.
Definition _sign_and_append (body : wire) (key : TsigKeyMaterial) (template : tsig_rr) (time : Z) (rmac : wire) : option wire :=
  m ← sign body key template time rmac;
  Some (_append_tsig body (key_name key)
          (_tsig_rdata (t_algorithm template) time (fudge template) m (original_id template) (t_error template) (t_other template))).

Definition set_rcode (rcode : Z) (r : response) : response :=
  {| r_to := r_to r; r_questions := r_questions r; r_answer := r_answer r; r_authority := r_authority r; r_rcode := rcode;
     r_aa := r_aa r; r_tc := r_tc r |}.
(* question and OPT only, TC set *)
Definition _truncated (r : response) : response :=
  {| r_to := r_to r; r_questions := r_questions r; r_answer := []; r_authority := []; r_rcode := r_rcode r; r_aa := r_aa r;
     r_tc := true |}.
Definition _truncated_form (r : response) : response := set_rcode 0 (_truncated r).

Definition over (limit : option Z) (w : wire) : bool := match limit with Some l => l <? size w | None => false end.

(* None: raised; Some None: no response *)
Definition render_signed (r : response) (res : TsigResult) (now : Z) (max_size : option Z) : option (option wire) :=
  key ← r_key res;
  let template := _tsig_rdata (key_algorithm key) now RESPONSE_FUDGE [] (m_id (r_to r)) 0 [] in
  out ← match to_wire (Some (_WIRE_LIMIT - _TSIG_RESERVE)) r with
        | Some body => Some <$> _sign_and_append body key template now (request_mac res)
        | None => Some None
        end;
  match out with
  | Some o => if over max_size o then
                body ← to_wire (Some _WIRE_LIMIT) (_truncated_form r);
                o' ← _sign_and_append body key template now (request_mac res);
                Some (if over max_size o' then None else Some o')
              else Some (Some o)
  | None => body ← to_wire (Some _WIRE_LIMIT) (_truncated_form r);
            o' ← _sign_and_append body key template now (request_mac res);
            Some (if over max_size o' then None else Some o')
  end.

Definition render_unsigned_tsig_error (r : response) (res : TsigResult) (error : Z) : option wire :=
  t ← rdata res;
  owner ← keyname res;
  body ← to_wire None (set_rcode NOTAUTH r);
  Some (_append_tsig body owner (_tsig_rdata (t_algorithm t) (time_signed t) (fudge t) [] (m_id (r_to r)) error [])).

Definition render_badtime (r : response) (res : TsigResult) (now : Z) : option wire :=
  key ← r_key res;
  t ← rdata res;
  let other := (pack16 (Z.land (Z.shiftr now 32) 65535) ++ pack16 (Z.land (Z.shiftr now 16) 65535) ++ pack16 (Z.land now 65535))%list in
  body ← to_wire None (set_rcode NOTAUTH r);
  _sign_and_append body key (_tsig_rdata (key_algorithm key) (time_signed t) (fudge t) [] (m_id (r_to r)) BADTIME_RCODE other)
    (time_signed t) (request_mac res).

Definition render_badtrunc (r : response) (res : TsigResult) (now : Z) : option wire :=
  key ← r_key res;
  _ ← rdata res;
  body ← to_wire None (set_rcode NOTAUTH r);
  _sign_and_append body key (_tsig_rdata (key_algorithm key) now RESPONSE_FUDGE [] (m_id (r_to r)) BADTRUNC_RCODE [])
    now (request_mac res).

(** ** handler.py: responses *)

Definition _skeleton (msg : message) : response :=
  {| r_to := msg; r_questions := if opcode_of (m_flags msg) =? UPDATE then [] else questions msg; r_answer := []; r_authority := [];
     r_rcode := 0; r_aa := false; r_tc := false |}.

Definition edns_size (msg : message) : Z := Z.max _MIN_UDP (if 0 <=? edns msg then payload msg else _MIN_UDP).
Definition _unsigned_limit (ev : env) (w : wire) (msg : message) : option Z :=
  if tcp ev then None else Some (Z.min (size w) (edns_size msg)).
Definition signed_limit (ev : env) (msg : message) : option Z :=
  if tcp ev then None else Some (edns_size msg).

Definition within (limit : option Z) (w : wire) : option wire := if over limit w then None else Some w.

(* None: raised; Some None: no response *)
Definition _render_unsigned (r : response) (limit : option Z) : option (option wire) :=
  out ← to_wire (Some _WIRE_LIMIT) r;
  if over limit out then out' ← to_wire (Some _WIRE_LIMIT) (_truncated r); Some (within limit out')
  else Some (Some out).

Definition tsig_error_render (ev : env) (res : TsigResult) (r : response) : option wire :=
  match outcome res with
  | BadKey => render_unsigned_tsig_error r res BADKEY_RCODE
  | BadSig => render_unsigned_tsig_error r res BADSIG_RCODE
  | BadTime => render_badtime r res (now_int ev)
  | _ => render_badtrunc r res (now_int ev)
  end.
Definition tsig_error_limit (ev : env) (w : wire) (msg : message) (o : TsigOutcome) : option Z :=
  match o with BadTime | BadTrunc => signed_limit ev msg | _ => _unsigned_limit ev w msg end.
Definition _tsig_error (ev : env) (w : wire) (msg : message) (skeleton : response) (res : TsigResult) : option (option wire) :=
  let limit := tsig_error_limit ev w msg (outcome res) in
  out ← tsig_error_render ev res skeleton;
  if over limit out then out' ← tsig_error_render ev res (_truncated skeleton); Some (within limit out')
  else Some (Some out).

Definition _servfail (w : wire) (signed_ctx : option (message * TsigResult * Z * option Z)) : option wire :=
  let header := if 12 <=? size w then Some (_header_only w SERVFAIL) else None in
  match signed_ctx with
  | Some (msg, res, now, limit) =>
      let r := {| r_to := msg; r_questions := []; r_answer := []; r_authority := []; r_rcode := SERVFAIL; r_aa := false; r_tc := false |} in
      match render_signed r res now limit with Some (Some o) => Some o | _ => header end
  | None => header
  end.

(** ** handler.py: queries *)

Definition snapshot_now (ev : env) : LM ActiveSnapshot :=
  _ ← writes (fun s => set_rows (ensure_rows (db s) (rows_load ev) (wall ev) (mono ev) (rows s)) s);
  reads (fun s => cached (rows s)).

(* the bytes of a name; Name raises above 255 *)
Definition name_size (n : name) : Z := 1 + foldr (fun l acc => Z.of_nat (slen l) + 1 + acc) 0 n.
Definition _soa_rrset (zone : name) : option soa_rr :=
  let rname := "hostmaster" :: zone in
  if 255 <? name_size rname then None
  else Some {| s_owner := zone; s_mname := zone; s_rname := rname; s_timers := SOA_TIMERS; s_ttl := 0 |}.

Definition with_answer (r : response) (answer authority : list soa_rr) : response :=
  {| r_to := r_to r; r_questions := r_questions r; r_answer := answer; r_authority := authority; r_rcode := r_rcode r;
     r_aa := true; r_tc := r_tc r |}.

(* Q1 over the rows: None raised, Some None no row of this apex *)
Fixpoint apex_answer (qname : name) (r : response) (l : list ActiveRecord) : option (option response) :=
  match l with
  | [] => Some None
  | row :: l' =>
      zone ← from_text (a_zone_name row);
      if same_name qname zone then soa ← _soa_rrset zone; Some (Some (with_answer r [soa] []))
      else apex_answer qname r l'
  end.
(* Q7 *)
Fixpoint between_answer (qname : name) (r : response) (l : list ActiveRecord) : option (option response) :=
  match l with
  | [] => Some None
  | row :: l' =>
      zone ← from_text (a_zone_name row);
      if negb (same_name qname zone) && is_subdomain qname zone then
        owner ← from_text (a_record_name row);
        if is_subdomain owner qname then soa ← _soa_rrset zone; Some (Some (with_answer r [] [soa]))
        else between_answer qname r l'
      else between_answer qname r l'
  end.

Definition refused (r : response) : response := set_rcode REFUSED r.

Definition _query (ev : env) (msg : message) (r : response) (res : TsigResult) : LM (option response) :=
  match questions msg with
  | [q] =>
      if negb (q_class q =? IN) || negb (q_type q =? SOA) then mret (Some (refused r))
      else
        snap ← snapshot_now ev;
        let found := mjoin ((fun n => rows_by_zone snap (lower (to_text n))) <$> name_chain (q_name q)) in
        match found with
        | [] => mret (Some (refused r))
        | _ =>
            visible ← match outcome res, r_key res with
                      | Verified, Some key =>
                          scope ← scope_of ev (key_id key);
                          mret (match scope with
                                | None => []
                                | Some sc => List.filter (fun row => allows sc (a_client_account row) (a_account row)) found
                                end)
                      | _, _ => mret found
                      end;
            mret (a ← apex_answer (q_name q) r visible;
                  match a with
                  | Some r' => Some r'
                  | None => b ← between_answer (q_name q) r visible;
                            Some (match b with Some r' => r' | None => refused r end)
                  end)
        end
  | _ => mret (Some {| r_to := r_to r; r_questions := []; r_answer := r_answer r; r_authority := r_authority r;
                       r_rcode := FORMERR; r_aa := r_aa r; r_tc := r_tc r |})
  end.

(** ** handler.py: updates *)

Inductive kind := NoEvent | Accepted | RefusedUpdate.
Record event := {
  e_kind : kind; e_reason : string; e_zone : string; e_names : list string; e_adds : Z; e_deletes : Z; e_rows : list Z;
}.
Definition _NO_EVENT : event :=
  {| e_kind := NoEvent; e_reason := ""; e_zone := ""; e_names := []; e_adds := 0; e_deletes := 0; e_rows := [] |}.

Definition _refuse (r : response) (rcode : Z) (reason zone : string) (names : list string) : response * event :=
  (set_rcode rcode r, {| e_kind := RefusedUpdate; e_reason := reason; e_zone := zone; e_names := names; e_adds := 0;
                         e_deletes := 0; e_rows := [] |}).

Definition _txt_value (strings : list string) : option string :=
  let v := String.concat "" strings in
  if all_chars (fun c => (code c <? 128)%N) v then Some v else None.

(* a record of a name and type a client may change *)
Definition type_allowed (u : rrset) : bool :=
  ((rr_type u =? TXT) || ((rr_type u =? ANY) && bool_decide (deleting u = Some ANY)))
  && match rr_name u with l :: _ => (lower l =? CHALLENGE_LABEL)%string | [] => false end.

(* the rows each value stands for; None when one stands for none *)
Fixpoint match_values (candidates : list ActiveRecord) (l : list (list string)) : option (list Z) :=
  match l with
  | [] => Some []
  | strings :: l' =>
      let value := _txt_value strings in
      let matched := row_id <$> List.filter (fun r => bool_decide (value = Some (a_txt_value r))) candidates in
      match matched with
      | [] => None
      | _ => rest ← match_values candidates l'; Some (matched ++ rest)%list
      end
  end.

(* loaded: the scope and the snapshot, once an addition asks for them *)
Fixpoint authorize (ev : env) (key : Z) (loaded : option (option KeyScope * ActiveSnapshot)) (l : list rrset)
    : LM (result string (list Z)) :=
  match l with
  | [] => mret (Ok [])
  | u :: l' =>
      if negb (type_allowed u) then mret (Raise "type_not_allowed")
      else if bool_decide (is_Some (deleting u)) then authorize ev key loaded l'
      else
        ctx ← match loaded with
              | Some c => mret c
              | None => scope ← scope_of ev key; snap ← snapshot_now ev; mret (scope, snap)
              end;
        let candidates := List.filter (fun r => match ctx.1 with
                                                | Some sc => allows sc (a_client_account r) (a_account r)
                                                | None => false
                                                end) (by_name ctx.2 (lower (to_text (rr_name u)))) in
        match candidates with
        | [] => mret (Raise "no_pending_order")
        | _ => match match_values candidates (rdatas u) with
               | None => mret (Raise "value_mismatch")
               | Some ids =>
                   rest ← authorize ev key (Some ctx) l';
                   mret (match rest with Ok more => Ok (ids ++ more)%list | Raise e => Raise e end)
               end
        end
  end.

Inductive prescan_result := ScanOk | NotZone | BadFormat.
Fixpoint prescan (zone : name) (l : list rr_header) : prescan_result :=
  match l with
  | [] => ScanOk
  | h :: l' =>
      if negb (is_subdomain (h_name h) zone) then NotZone
      else if h_class h =? IN then prescan zone l'
      else if (h_class h =? ANY) || (h_class h =? NONE) then
        if negb (h_ttl h =? 0) || ((h_class h =? ANY) && negb (h_rdlen h =? 0)) then BadFormat else prescan zone l'
      else BadFormat
  end.

Fixpoint insert_id (x : Z) (l : list Z) : list Z :=
  match l with
  | [] => [x]
  | y :: l' => if x <? y then x :: l else if x =? y then l else y :: insert_id x l'
  end.
Definition sorted_ids (l : list Z) : list Z := foldr insert_id [] l.

Definition _MAX_AUDIT_NAMES : nat := 8.
Definition audit_names (l : list rrset) : list string := 
  take _MAX_AUDIT_NAMES (dedup String.eqb ((fun u => to_text (rr_name u)) <$> l)).

Definition _update (ev : env) (w : wire) (msg : message) (r : response) (res : TsigResult) : LM (option (response * event)) :=
  match outcome res, r_key res with
  | Verified, Some key =>
      match questions msg with
      | [z] =>
          if negb (q_type z =? SOA) then mret (Some (_refuse r FORMERR "format" "" []))
          else if negb (q_class z =? IN) then mret (Some (_refuse r NOTAUTH "not_authoritative" (to_text (q_name z)) []))
          else
            _ ← writes (fun s => if (length (q_name z) <? 2)%nat then s
                                 else set_zone_index (ensure_zones (db s) (zones_load ev) (mono ev) (zone_index s)) s);
            ours ← reads (fun s => is_authoritative (zone_index s) (q_name z));
            if negb ours then mret (Some (_refuse r NOTAUTH "not_authoritative" (to_text (q_name z)) []))
            else match prerequisites msg with
            | _ :: _ => mret (Some (_refuse r REFUSED "prerequisite" (to_text (q_name z)) []))
            | [] =>
                let names := audit_names (updates msg) in
                allowed ← authorize ev (key_id key) None (updates msg);
                match allowed with
                | Raise reason => mret (Some (_refuse r REFUSED reason (to_text (q_name z)) names))
                | Ok ids =>
                    mret (rrs ← _update_rrs w;
                          let adds := Z.of_nat (length (List.filter (fun h => h_class h =? IN) rrs)) in
                          Some (match prescan (q_name z) rrs with
                                | NotZone => _refuse r NOTZONE "not_in_zone" (to_text (q_name z)) names
                                | BadFormat => _refuse r FORMERR "format" (to_text (q_name z)) names
                                | ScanOk => (r, {| e_kind := Accepted; e_reason := ""; e_zone := to_text (q_name z);
                                                   e_names := names; e_adds := adds;
                                                   e_deletes := Z.of_nat (length rrs) - adds; e_rows := sorted_ids ids |})
                                end))
                end
            end
      | _ => mret (Some (_refuse r FORMERR "format" "" []))
      end
  | _, _ => mret (Some (set_rcode REFUSED r, _NO_EVENT))
  end.

(** ** handler.py: side effects *)

Definition confirm (ids : list Z) (t : Z) (d : tables) : tables :=
  with_challenges (fmap (fun c => if existsb (Z.eqb (c_id c)) ids then
    {| c_id := c_id c; c_order := c_order c; c_client_account := c_client_account c; c_account := c_account c;
       c_thumbprint := c_thumbprint c; c_identifier := c_identifier c; record_name := record_name c; txt_value := txt_value c;
       zone_name := zone_name c; challenge_url := challenge_url c; c_status := c_status c; c_created_at := c_created_at c;
       c_expires_at := c_expires_at c; client_confirmed_at := Some t |} else c)) d.
Definition used_at (i t : Z) (d : tables) : tables :=
  with_update_keys (fmap (fun k => if k_id k =? i then
    {| k_id := k_id k; acme_client_account_id := acme_client_account_id k; eab_credential_id := eab_credential_id k;
       eab_bound_col := eab_bound_col k; k_name := k_name k; k_algorithm := k_algorithm k; k_secret := k_secret k;
       k_status := k_status k; last_used_at := Some t |} else k)) d.

Definition mark_confirmed (ev : env) (ids : list Z) (s : listener) : listener :=
  match ids with
  | [] => s
  | _ => if confirm_commits ev then set_db (confirm ids (wall ev) (db s)) s else s
  end.
Definition touch (ev : env) (key : Z) (s : listener) : listener :=
  if touch_due (mono ev) key (key_store s) then
    let s' := set_key_store (touch_mark (mono ev) key (key_store s)) s in
    if touch_commits ev then set_db (used_at key (wall ev) (db s')) s' else s'
  else s.

Definition _after (ev : env) (e : event) (key : TsigKeyMaterial) (s : listener) : listener :=
  match e_kind e with
  | Accepted => touch ev (key_id key) (mark_confirmed ev (e_rows e) s)
  | _ => s
  end.

(** ** handler.py: one request *)

(* the bytes sent, and the event that was carried out for a key *)
Definition answer : Type := option wire * option (event * TsigKeyMaterial).

Definition process_body (ev : env) (w : wire) (msg : message) (opcode : Z) (res : TsigResult)
    : LM (option (response * event)) :=
  if 0 <? edns msg then mret (Some (set_rcode BADVERS (_skeleton msg), _NO_EVENT))
  else if opcode =? QUERY then r ← _query ev msg (_skeleton msg) res; mret ((fun x => (x, _NO_EVENT)) <$> r)
  else _update ev w msg (_skeleton msg) res.

(* a request whose signature was verified *)
Definition process_signed (ev : env) (w : wire) (msg : message) (opcode : Z) (res : TsigResult) (key : TsigKeyMaterial)
    (rk : replay_key) (suppress : bool) : LM answer :=
  body ← process_body ev w msg opcode res;
  let limit := signed_limit ev msg in
  match body with
  | None => mret (_servfail w (Some (msg, res, now_int ev, limit)), None)
  | Some (r, e) =>
      match render_signed r res (now_int ev) limit with
      | None => mret (_servfail w (Some (msg, res, now_int ev, limit)), None)
      | Some out =>
          _ ← match out with Some o => writes (fun s => set_replay (put (wall ev) rk o (tcp ev) (replay s)) s) | None => mret tt end;
          if suppress then mret (out, None)
          else _ ← writes (_after ev e key); mret (out, Some (e, key))
      end
  end.

Definition process_unsigned (ev : env) (w : wire) (msg : message) (opcode : Z) (res : TsigResult) : LM answer :=
  body ← process_body ev w msg opcode res;
  mret (match body with
        | None => (_servfail w None, None)
        | Some (r, _) => match _render_unsigned r (_unsigned_limit ev w msg) with
                         | None => (_servfail w None, None)
                         | Some out => (out, None)
                         end
        end).

Definition serve_signed (ev : env) (w : wire) (msg : message) (opcode : Z) (res : TsigResult) (key : TsigKeyMaterial)
    (rk : replay_key) : LM answer :=
  known ← on_replay (replay_get (wall ev) rk (tcp ev));
  match known with
  | Some o => mret (Some (_with_request_id o w), None)
  | None =>
      free ← on_replay (begin rk);
      if negb free then mret (None, None)
      else
        known ← on_replay (replay_get (wall ev) rk (tcp ev));
        a ← match known with
            | Some o => mret (Some (_with_request_id o w), None)
            | None =>
                again ← if replayed res then mret true else on_replay (seen (wall ev) rk);
                process_signed ev w msg opcode res key rk again
            end;
        _ ← writes (fun s => set_replay (end_flight rk (replay s)) s);
        mret a
  end.

Definition serve_parsed (ev : env) (w : wire) (msg : message) (opcode : Z) : LM answer :=
  res ← verify_request ev w msg (_replay_key msg);
  match outcome res with
  | Malformed => mret (Some (_header_only w FORMERR), None)
  | BadKey | BadSig | BadTime | BadTrunc =>
      mret (match _tsig_error ev w msg (_skeleton msg) res with Some out => out | None => _servfail w None end, None)
  | Verified =>
      match r_key res, _replay_key msg with
      | Some key, Some rk => serve_signed ev w msg opcode res key rk
      | _, _ => mret (_servfail w None, None)
      end
  | Unsigned => process_unsigned ev w msg opcode res
  end.

Definition handle (ev : env) (w : wire) : LM answer :=
  if size w <? 12 then mret (None, None)
  else
    let flags := u16 w 2 in
    let opcode := opcode_of flags in
    if negb (Z.land flags _QR =? 0) then mret (None, None)
    else if MAX_MESSAGE_SIZE <? size w then mret (None, None)
    else if (opcode =? QUERY) && negb (u16 w 6 =? 0) then mret (None, None)
    else if (MAX_QDCOUNT <? u16 w 4) || (MAX_ANCOUNT <? u16 w 6) || (MAX_NSCOUNT <? u16 w 8) || (MAX_ARCOUNT <? u16 w 10)
    then mret (None, None)
    else if negb (opcode =? QUERY) && negb (opcode =? UPDATE) then mret (Some (_header_only w NOTIMP), None)
    else match from_wire w with
         | None => mret (Some (_header_only w FORMERR), None)
         | Some msg => if negb (_same_in_signed_form w msg) then mret (Some (_header_only w FORMERR), None)
                       else serve_parsed ev w msg opcode
         end.
End Handler.
