(* ===== verification/DnsUpdateHistory.v ===== *)
(** * DnsUpdateHistory: the DNS UPDATE listener over time

    Histories of requests, changes of the tables and invalidations. What is accepted was
    expected by the tables the caches were last loaded from, and these are recent; a key that was invalidated is refused, whatever
    reloads fail; a request is carried out once. *)

From Stdlib Require Import Ascii String.
From stdpp Require Import prelude strings gmap.
From S2P Require Import Prelude DomainMatch DnsUpdateModel DnsUpdateHandler DnsUpdateSafety.

Local Open Scope string_scope.
Local Open Scope Z_scope.

Section Histories.
Context {L : DnsLibrary}.

Inductive action :=
| Serve (ev : env) (w : wire)
| Change (d : tables)                  (* any other write to the tables *)
| InvalidateKeys | InvalidateZones | InvalidateRows.

Definition step (s : listener) (a : action) : listener :=
  match a with
  | Serve ev w => (handle ev w s).2
  | Change d => set_db d s
  | InvalidateKeys => set_key_store (invalidate_keys (key_store s)) s
  | InvalidateZones => set_zone_index (invalidate_zones (zone_index s)) s
  | InvalidateRows => set_rows (invalidate_cache (rows s)) s
  end.
Definition run (l : list action) (s : listener) : listener := fold_left step l s.

(** ** What a request keeps *)

Section Keeping.
Variables (ev : env) (P : listener -> Prop).

Definition kept {A} (c : LM A) : Prop := forall s, P s -> P (c s).2.
Lemma kept_ret {A} (a : A) : kept (mret a).
Proof. by intros s H. Qed.
Lemma kept_reads {A} (g : listener -> A) : kept (reads g).
Proof. by intros s H. Qed.
Lemma kept_writes g : (forall s, P s -> P (g s)) -> kept (writes g).
Proof. intros Hg s H. by apply Hg. Qed.
Lemma kept_on_replay {A} (g : ReplayCache -> A * ReplayCache) : (forall s, P s -> P (set_replay (g (replay s)).2 s)) -> kept (on_replay g).
Proof. intros Hg s H. unfold on_replay. specialize (Hg s H). by destruct (g (replay s)). Qed.
Lemma kept_bind {A C} (c : LM A) (k : A -> LM C) : kept c -> (forall a, kept (k a)) -> kept (mbind k c).
Proof.
  intros Hc Hk s H. unfold mbind, LM_bind. specialize (Hc s H). destruct (c s) as [a s1]. by apply Hk.
Qed.
#[local] Hint Resolve kept_ret kept_reads kept_writes kept_on_replay kept_bind : dns.

Hypothesis Hkeys : forall s, P s -> P (set_key_store (warm_keys ev s) s).
Hypothesis Hrows : forall s, P s -> P (set_rows (warm_rows ev s) s).
Hypothesis Hzones : forall s z, P s -> P (set_zone_index z s).

Lemma kept_scope i : kept (scope_of ev i).
Proof. apply kept_bind; [apply kept_writes, Hkeys|auto with dns]. Qed.
Lemma kept_snapshot : kept (snapshot_now ev).
Proof. apply kept_bind; [apply kept_writes, Hrows|auto with dns]. Qed.
#[local] Hint Resolve kept_scope kept_snapshot : dns.

Lemma kept_query msg r res : kept (_query ev msg r res).
Proof.
  unfold _query. destruct (questions msg) as [|q [|? ?]]; auto with dns. destruct (_ || _); auto with dns.
  apply kept_bind; [auto with dns|]. intros snap. destruct (mjoin _); [auto with dns|].
  apply kept_bind; [|auto with dns]. destruct (outcome res), (r_key res); auto with dns.
Qed.

Lemma kept_authorize key l loaded : kept (authorize ev key loaded l).
Proof.
  revert loaded. induction l as [|u l IH]; intros loaded; cbn [authorize]; [auto with dns|].
  destruct (negb _); [auto with dns|]. case_bool_decide; [auto with dns|].
  apply kept_bind; [destruct loaded; auto with dns|]. intros ctx. destruct (List.filter _ _); [auto with dns|].
  destruct (match_values _ _); auto with dns.
Qed.
#[local] Hint Resolve kept_query kept_authorize : dns.

Lemma kept_update w msg r res : kept (_update ev w msg r res).
Proof.
  unfold _update. destruct (outcome res), (r_key res); auto with dns. destruct (questions msg) as [|z [|? ?]]; auto with dns.
  destruct (negb _); [auto with dns|]. destruct (negb _); [auto with dns|]. apply kept_bind.
  { apply kept_writes. intros s H. destruct (_ <? _)%nat; [done|by apply Hzones]. }
  intros []. apply kept_bind; [auto with dns|]. intros []; cbn [negb]; [|auto with dns]. destruct (prerequisites msg); [|auto with dns].
  apply kept_bind; [auto with dns|]. intros []; auto with dns.
Qed.
#[local] Hint Resolve kept_update : dns.

Lemma kept_body w msg opcode res : kept (process_body ev w msg opcode res).
Proof. unfold process_body. destruct (_ <? _); [auto with dns|]. destruct (_ =? _); auto with dns. Qed.
#[local] Hint Resolve kept_body : dns.

Lemma kept_unsigned w msg opcode res : kept (process_unsigned ev w msg opcode res).
Proof. unfold process_unsigned. auto with dns. Qed.

Hypothesis Hafter : forall e key s, P s -> P (_after ev e key s).
Lemma kept_signed w msg opcode res key rk suppress :
  (forall s o, P s -> P (set_replay (put (wall ev) rk o (tcp ev) (replay s)) s)) ->
  kept (process_signed ev w msg opcode res key rk suppress).
Proof.
  intros Hput. unfold process_signed. apply kept_bind; [auto with dns|]. intros [[r e]|]; [|auto with dns].
  destruct (render_signed _ _ _ _) as [[o|]|]; [| |auto with dns];
    (apply kept_bind; [auto using kept_writes with dns|intros _; destruct suppress; auto 7 with dns]).
Qed.

Hypothesis Hmark : forall s m, P s -> P (set_watermark m s).

Lemma kept_verify w msg rk : (forall s k, P s -> P (set_replay (seen (wall ev) k (replay s)).2 s)) ->
  kept (verify_request ev w msg rk).
Proof.
  intros Hseen. unfold verify_request. destruct (tsig msg) as [[owner t]|]; [|auto with dns]. destruct (negb _); [auto with dns|].
  destruct (_last_rr_header w) as [[[start ty] ttl]|]; [|auto with dns]. destruct (negb _); [auto with dns|].
  apply kept_bind; [apply kept_bind; [apply kept_writes, Hkeys|auto with dns]|]. intros found.
  destruct (check_signature w owner t found), found as [key|]; auto with dns.
  apply kept_bind; [destruct rk; auto with dns|]. intros []; [auto with dns|]. destruct (negb _); [auto with dns|].
  apply kept_bind; [auto with dns|]. intros []; [auto with dns|]. destruct (_ <? _); auto with dns.
Qed.

Hypothesis Hreplay : forall s c, P s -> P (set_replay c s).
Lemma kept_serve_signed w msg opcode res key rk : kept (serve_signed ev w msg opcode res key rk).
Proof.
  unfold serve_signed. apply kept_bind; [auto with dns|]. intros [o|]; [auto with dns|]. apply kept_bind; [auto with dns|].
  intros free. destruct (negb free); [auto with dns|]. apply kept_bind; [auto with dns|]. intros known. apply kept_bind; [|auto with dns].
  destruct known; [auto with dns|]. apply kept_bind; [destruct (replayed res); auto with dns|]. intros again. by apply kept_signed; auto.
Qed.

Lemma kept_handle w : kept (handle ev w).
Proof.
  unfold handle. destruct (_ <? _); [auto with dns|]. destruct (negb _); [auto with dns|]. destruct (_ <? _); [auto with dns|].
  destruct (_ && _); [auto with dns|]. destruct (_ || _); [auto with dns|]. destruct (_ && _); [auto with dns|].
  destruct (from_wire w) as [msg|]; [|auto with dns]. destruct (negb _); [auto with dns|]. unfold serve_parsed.
  apply kept_bind; [by apply kept_verify; auto|]. intros res. destruct (outcome res); auto using kept_unsigned with dns.
  destruct (r_key res), (_replay_key msg); auto using kept_serve_signed with dns.
Qed.
End Keeping.

(** ** Keys that were invalidated *)

(* no usable row gives a key of this name *)
Definition unusable (n : string) (d : tables) : Prop :=
  forall k mat sc, k ∈ update_keys d -> key_material d k = Some (mat, sc) -> _canonical (key_name mat) <> n.

(* every key and scope comes from a usable row *)
Definition from_rows (d : tables) (acc : gmap string TsigKeyMaterial * gmap Z KeyScope) : Prop :=
  (forall n mat, acc.1 !! n = Some mat ->
     exists k sc, k ∈ update_keys d /\ key_material d k = Some (mat, sc) /\ _canonical (key_name mat) = n)
  /\ forall i sc, acc.2 !! i = Some sc ->
     exists k mat, k ∈ update_keys d /\ key_material d k = Some (mat, sc) /\ k_id k = i.

Lemma add_key_from d acc k : k ∈ update_keys d -> from_rows d acc -> from_rows d (add_key d acc k).
Proof.
  intros Hk [H1 H2]. unfold add_key. destruct (key_material d k) as [[mat0 sc0]|] eqn:Ek; [|by split]. split; cbn.
  - intros n mat [[<- <-]|[_ H]]%lookup_insert_Some; [by exists k, sc0|by apply H1].
  - intros i sc [[<- <-]|[_ H]]%lookup_insert_Some; [by exists k, mat0|by apply H2].
Qed.

Lemma load_keys_from d : from_rows d (load_keys d).
Proof.
  unfold load_keys. assert (from_rows d (∅, ∅)) as H0 by (split; cbn; intros ? ?; by rewrite lookup_empty).
  assert (forall l acc, (forall k, k ∈ l -> k ∈ update_keys d) -> from_rows d acc -> from_rows d (fold_left (add_key d) l acc)) as H.
  { induction l as [|k l IH]; intros acc Hl Hacc; [done|]. cbn. apply IH; [intros x Hx; apply Hl; by right|].
    apply add_key_from; [apply Hl; by left|done]. }
  by apply H.
Qed.

(* the keys of the second tables are keys of the first *)
Definition fewer_keys (d d' : tables) : Prop := forall k mat sc, k ∈ update_keys d' -> key_material d' k = Some (mat, sc) ->
  exists k0, k0 ∈ update_keys d /\ key_material d k0 = Some (mat, sc) /\ k_id k0 = k_id k.
#[local] Instance fewer_keys_preorder : PreOrder fewer_keys.
Proof.
  split; [intros d k mat sc; eauto|]. intros d1 d2 d3 H1 H2 k mat sc Hk Hm.
  destruct (H2 k mat sc Hk Hm) as (k0 & Hk0 & Hm0 & E0). destruct (H1 k0 mat sc Hk0 Hm0) as (k1 & Hk1 & Hm1 & E1).
  exists k1. by rewrite E1.
Qed.

Lemma used_at_keys i t d : fewer_keys d (used_at i t d).
Proof.
  intros k mat sc (k0 & -> & Hk)%list_elem_of_fmap Hm. exists k0. split; [done|]. by destruct (k_id k0 =? i).
Qed.
Lemma confirm_keys ids t d : fewer_keys d (confirm ids t d).
Proof. intros k mat sc Hk Hm. by exists k. Qed.

Lemma after_keys (ev : env) (e : event) (key : TsigKeyMaterial) (s : listener) : fewer_keys (db s) (db (_after ev e key s)).
Proof.
  unfold _after. destruct (e_kind e); [reflexivity| |reflexivity]. trans (db (mark_confirmed ev (e_rows e) s)).
  - unfold mark_confirmed. destruct (e_rows e); [reflexivity|]. destruct (confirm_commits ev); [apply confirm_keys|reflexivity].
  - unfold touch. destruct (touch_due _ _ _); [|reflexivity]. destruct (touch_commits ev); [apply used_at_keys|reflexivity].
Qed.

Lemma after_materials (ev : env) (e : event) (key : TsigKeyMaterial) (s : listener) :
  dirty (key_store (_after ev e key s)) = dirty (key_store s) /\ materials (key_store (_after ev e key s)) = materials (key_store s)
  /\ scopes (key_store (_after ev e key s)) = scopes (key_store s).
Proof.
  unfold _after, touch, mark_confirmed. destruct (e_kind e); [done| |done].
  by destruct (e_rows e), (confirm_commits ev), (touch_due _ _ _), (touch_commits ev).
Qed.

Section Refused.
Variable n : string.
Definition gone (s : listener) : Prop :=
  unusable n (db s) /\ (dirty (key_store s) = true \/ materials (key_store s) !! n = None).

Lemma warm_gone ev s : gone s -> materials (warm_keys ev s) !! n = None.
Proof.
  intros [Hu Hm]. unfold warm_keys, ensure_keys. destruct (dirty (key_store s)) eqn:Ed; cbn [negb andb].
  - destruct (match ks_retry_at _ with Some _ => _ | None => _ end); [apply lookup_empty|].
    destruct (keys_load ev); [|apply lookup_empty]. destruct (load_keys (db s)) as [m sc] eqn:El. cbn.
    destruct (m !! n) as [mat|] eqn:En; [|done]. destruct (load_keys_from (db s)) as [H1 _]. rewrite El in H1.
    destruct (H1 n mat En) as (k & sc' & Hk & Hmat & Hn). by destruct (Hu k mat sc' Hk Hmat).
  - destruct Hm as [?|Hm]; [done|]. destruct (match ks_loaded_at _ with Some _ => _ | None => _ end); [done|].
    destruct (match ks_retry_at _ with Some _ => _ | None => _ end); [done|]. destruct (keys_load ev); [|done].
    destruct (load_keys (db s)) as [m sc] eqn:El. cbn. destruct (m !! n) as [mat|] eqn:En; [|done].
    destruct (load_keys_from (db s)) as [H1 _]. rewrite El in H1. destruct (H1 n mat En) as (k & sc' & Hk & Hmat & Hn).
    by destruct (Hu k mat sc' Hk Hmat).
Qed.

Lemma gone_handle ev w : kept gone (handle ev w).
Proof.
  apply kept_handle; try done.
  - intros s Hs. split; [apply Hs|]. right. by apply (warm_gone ev).
  - intros e key s [Hu Hm]. destruct (after_materials ev e key s) as (E1 & E2 & _). split; [|by rewrite E1, E2].
    intros k mat sc Hk Hmat. destruct (after_keys ev e key s k mat sc Hk Hmat) as (k0 & Hk0 & Hm0 & _). by eapply Hu.
Qed.

(* the tables other code writes have no such key either *)
Definition stays_unusable (a : action) : Prop := match a with Change d => unusable n d | _ => True end.

Lemma gone_run l s : Forall stays_unusable l -> gone s -> gone (run l s).
Proof.
  intros Hl. revert s. induction Hl as [|a l Ha Hl IH]; intros s Hs; [done|]. cbn. apply IH.
  destruct a; cbn [step]; [by apply gone_handle|by split; [|apply Hs]|by split; [apply Hs|left]|done|done].
Qed.
End Refused.

(** C26. After an invalidation a revoked key is refused: as long as no row of the tables
    makes it usable, no later request signed with it is carried out, whatever else happens
    and whichever reloads fail. *)
Theorem revoked_key_refused (n : string) (s s' : listener) (l : list action) (ev : env) (w : wire) (a : answer)
    (msg : message) (owner : name) (t : tsig_rr) (Hnow : unusable n (db s)) (Hlater : Forall (stays_unusable n) l)
    (Hmsg : from_wire w = Some msg) (Htsig : tsig msg = Some (owner, t)) (Hname : _canonical owner = n)
    (Hrun : handle ev w (run l (step s InvalidateKeys)) = (a, s')) :
  a.2 = None.
Proof.
  destruct a as [out [[e key]|]]; [|done]. exfalso.
  apply handle_carried in Hrun as (msg' & owner' & t' & Hm & Ht & Hk & _). assert (owner' = owner) as -> by congruence.
  assert (gone n (run l (step s InvalidateKeys))) as Hg by (apply gone_run; [done|split; [done|by left]]).
  cbn [fst view] in Hk. by rewrite Hname, (warm_gone n ev _ Hg) in Hk.
Qed.

(* a listener that has just started *)
Definition started (d : tables) : listener :=
  {| db := d; key_store := new_key_store; zone_index := new_zone_index; rows := new_record_cache; watermark := [];
     replay := new_replay_cache |}.

(** ** What the caches stand for

    Which tables a request goes by, in terms of the history alone: those that an earlier
    request, or the request itself, found when it loaded the cache. *)

(* the moments of a history and of the request that follows it: what was done before,
   the request served then, what was done since *)
Definition moment (l : list action) (ev : env) (before : list action) (ev1 : env) (since : list action) : Prop :=
  (exists w1, l = (before ++ Serve ev1 w1 :: since)%list) \/ (before = l /\ ev1 = ev /\ since = []).

(* a reload fails now, or one failed less than two seconds ago and nothing was invalidated after it *)
Definition reload_failed (loads : env -> bool) (invalidation : action) (ev : env) (since : list action) : Prop :=
  loads ev = false \/ exists l3 ev' w' l4, since = (l3 ++ Serve ev' w' :: l4)%list /\ loads ev' = false
    /\ mono ev < mono ev' + 2000000 /\ (invalidation ∉ l4).

(* the rows the request goes by are those of the tables [d'] at the instant [t]: loaded less than five
   seconds ago with no invalidation since, unless a reload failed *)
Definition rows_of (d : tables) (l : list action) (ev : env) (d' : tables) (t : Z) : Prop :=
  exists before ev1 since, moment l ev before ev1 since /\ d' = db (run before (started d)) /\ t = wall ev1
    /\ (mono ev - mono ev1 < 5000000 /\ (InvalidateRows ∉ since) \/ reload_failed rows_load InvalidateRows ev since).
(* the keys are those of the tables [d'], never from before an invalidation; at most thirty seconds old unless a
   reload failed *)
Definition keys_of (d : tables) (l : list action) (ev : env) (d' : tables) : Prop :=
  exists before ev1 since, moment l ev before ev1 since /\ d' = db (run before (started d)) /\ (InvalidateKeys ∉ since)
    /\ (mono ev - mono ev1 < 30000000 \/ reload_failed keys_load InvalidateKeys ev since).

(** ** What a request may do to the caches *)

(* the part of the key store that a lookup reads *)
Definition key_state (k : KeyStore) : gmap string TsigKeyMaterial * gmap Z KeyScope * option Z * bool * option Z :=
  (materials k, scopes k, ks_loaded_at k, dirty k, ks_retry_at k).

Lemma ensure_keys_state d d' loads t k k' : load_keys d = load_keys d' -> key_state k = key_state k' ->
  key_state (ensure_keys d loads t k) = key_state (ensure_keys d' loads t k').
Proof.
  destruct k as [m1 s1 l1 b1 r1 u1], k' as [m2 s2 l2 b2 r2 u2]. unfold key_state. cbn. intros El [= -> -> -> -> ->]. unfold ensure_keys. cbn. rewrite El.
  destruct (_ && _); [done|]. destruct (match _ with Some _ => _ | None => _ end); [by destruct b2|].
  destruct loads; [by destruct (load_keys d')|by destruct b2].
Qed.

Lemma load_keys_used i t d : load_keys (used_at i t d) = load_keys d.
Proof.
  unfold load_keys. change (update_keys (used_at i t d)) with (update_keys (used_at i t (with_update_keys (fun _ => update_keys d) d))).
  generalize (∅ : gmap string TsigKeyMaterial, ∅ : gmap Z KeyScope). generalize (update_keys d).
  intros l. induction l as [|k l IH]; intros acc; [done|]. cbn. rewrite <- IH. cbn. f_equal. by destruct (k_id k =? i).
Qed.

Lemma filter_fmap {A B} (p : B -> bool) (q : A -> bool) (f : A -> B) l : (forall x, p (f x) = q x) ->
  List.filter p (f <$> l) = f <$> List.filter q l.
Proof. intros H. induction l as [|x l IH]; [done|]. cbn. rewrite H, IH. by destruct (q x). Qed.

Lemma load_rows_confirm ids t d now : load_rows (confirm ids t d) now = load_rows d now.
Proof.
  unfold load_rows, confirm. cbn. erewrite filter_fmap; [|intros c; by destruct (existsb _ _)].
  f_equal; [|rewrite <- list_fmap_compose; apply list_fmap_ext; intros ? c _; cbn; by destruct (existsb _ _)].
  erewrite filter_fmap; [|intros c; by destruct (existsb _ _)].
  rewrite <- list_fmap_compose. apply list_fmap_ext. intros ? c _. cbn. by destruct (existsb _ _).
Qed.

Lemma after_loads ev e key s :
  load_keys (db (_after ev e key s)) = load_keys (db s) /\ forall t, load_rows (db (_after ev e key s)) t = load_rows (db s) t.
Proof.
  assert (load_keys (db (mark_confirmed ev (e_rows e) s)) = load_keys (db s)
    /\ forall t, load_rows (db (mark_confirmed ev (e_rows e) s)) t = load_rows (db s) t) as [H1 H2].
  { unfold mark_confirmed. destruct (e_rows e); [done|]. destruct (confirm_commits ev); [|done]. cbn [set_db db].
    split; [reflexivity|intros t; apply load_rows_confirm]. }
  unfold _after. destruct (e_kind e); [done| |done]. rewrite <- H1. setoid_rewrite <- H2.
  unfold touch. destruct (touch_due _ _ _); [|done]. destruct (touch_commits ev); [|done]. cbn [set_db set_key_store db].
  by rewrite load_keys_used.
Qed.
Lemma after_caches ev e key s :
  rows (_after ev e key s) = rows s /\ key_state (key_store (_after ev e key s)) = key_state (key_store s).
Proof.
  unfold _after, touch, mark_confirmed. destruct (e_kind e); [done| |done].
  by destruct (e_rows e), (confirm_commits ev), (touch_due _ _ _), (touch_commits ev).
Qed.

(* a cache is left as it was, or as one look at it leaves it *)
Lemma request_caches ev w s (s' := (handle ev w s).2) :
  (rows s' = rows s \/ rows s' = warm_rows ev s)
  /\ (key_state (key_store s') = key_state (key_store s) \/ key_state (key_store s') = key_state (warm_keys ev s)).
Proof.
  enough (load_keys (db s') = load_keys (db s) /\ (forall t, load_rows (db s') t = load_rows (db s) t)
    /\ (rows s' = rows s \/ rows s' = warm_rows ev s)
    /\ (key_state (key_store s') = key_state (key_store s) \/ key_state (key_store s') = key_state (warm_keys ev s))) as H by apply H.
  refine (kept_handle ev (fun x => load_keys (db x) = load_keys (db s) /\ (forall t, load_rows (db x) t = load_rows (db s) t)
    /\ (rows x = rows s \/ rows x = warm_rows ev s)
    /\ (key_state (key_store x) = key_state (key_store s) \/ key_state (key_store x) = key_state (warm_keys ev s))) _ _ _ _ _ _ w s _);
    try done; [..|split_and!; auto].
  - intros x (Hk & Hr & H1 & H2). split_and!; [done..|]. right. cbn. unfold warm_keys. destruct H2 as [H2|H2].
    + by apply ensure_keys_state.
    + rewrite (ensure_keys_state _ (db s) _ _ _ (warm_keys ev s)) by done. unfold warm_keys. by rewrite ensure_keys_idemp.
  - intros x (Hk & Hr & H1 & H2). split_and!; [done..| |done]. right. cbn. unfold warm_rows.
    assert (forall a, ensure_rows (db x) (rows_load ev) (wall ev) (mono ev) a = ensure_rows (db s) (rows_load ev) (wall ev) (mono ev) a) as E.
    { intros a. unfold ensure_rows. by rewrite Hr. }
    rewrite E. destruct H1 as [H1|H1]; rewrite H1; [done|]. unfold warm_rows. by rewrite ensure_rows_idemp.
  - intros e key x (Hk & Hr & H1 & H2). destruct (after_loads ev e key x) as [E1 E2]. destruct (after_caches ev e key x) as [E3 E4].
    rewrite E1, E3, E4. split_and!; [done| |done..]. intros t. by rewrite E2.
Qed.

(** ** Where the caches come from *)

(* the retry time was set by a reload that failed, and nothing was invalidated after it *)
Definition failed_at (loads : env -> bool) (invalidation : action) (r : Z) (since : list action) : Prop :=
  exists l3 ev' w' l4, since = (l3 ++ Serve ev' w' :: l4)%list /\ loads ev' = false /\ r = mono ev' + _RETRY_S /\ (invalidation ∉ l4).

Definition rows_loaded (d : tables) (l : list action) (a : ActiveRecordCache) : Prop :=
  active_rows (cached a) = [] \/ exists before ev1 w1 since, l = (before ++ Serve ev1 w1 :: since)%list
    /\ active_rows (cached a) = active_rows (load_rows (db (run before (started d))) (wall ev1))
    /\ a_loaded_at a = Some (mono ev1) /\ loaded_generation a <= generation a
    /\ (loaded_generation a = generation a -> InvalidateRows ∉ since)
    /\ forall r, a_retry_at a = Some r -> failed_at rows_load InvalidateRows r since.
Definition keys_loaded (d : tables) (l : list action) (k : KeyStore) : Prop :=
  materials k = ∅ /\ scopes k = ∅ \/ dirty k = true \/ exists before ev1 w1 since, l = (before ++ Serve ev1 w1 :: since)%list
    /\ (materials k, scopes k) = load_keys (db (run before (started d)))
    /\ ks_loaded_at k = Some (mono ev1) /\ (InvalidateKeys ∉ since)
    /\ forall r, ks_retry_at k = Some r -> failed_at keys_load InvalidateKeys r since.

Lemma failed_snoc loads inv r since x : x <> inv -> failed_at loads inv r since -> failed_at loads inv r (since ++ [x])%list.
Proof.
  intros Hx (l3 & ev' & w' & l4 & -> & ? & ? & Hn). exists l3, ev', w', (l4 ++ [x])%list. rewrite <- app_assoc. split_and!; [done..|].
  rewrite not_elem_of_app, not_elem_of_cons. split_and!; auto using not_elem_of_nil.
Qed.
Lemma not_elem_snoc {A} (x y : A) l : x <> y -> x ∉ l -> x ∉ (l ++ [y])%list.
Proof. intros. rewrite not_elem_of_app, not_elem_of_cons. split_and!; auto using not_elem_of_nil. Qed.

Lemma rows_loaded_snoc d l x a : x <> InvalidateRows -> rows_loaded d l a -> rows_loaded d (l ++ [x]) a.
Proof.
  intros Hx [H|(before & ev1 & w1 & since & -> & ? & ? & ? & Hg & Hr)]; [by left|right].
  exists before, ev1, w1, (since ++ [x])%list. rewrite <- app_assoc. split_and!; [done..| |].
  - intros E. by apply not_elem_snoc; [|apply Hg].
  - intros r E. by apply failed_snoc; [|apply Hr].
Qed.
Lemma rows_loaded_invalidate d l a : rows_loaded d l a -> rows_loaded d (l ++ [InvalidateRows]) (invalidate_cache a).
Proof.
  intros [H|(before & ev1 & w1 & since & -> & ? & ? & ? & _ & _)]; [by left|right].
  exists before, ev1, w1, (since ++ [InvalidateRows])%list. rewrite <- app_assoc. split_and!; cbn; [done..|lia|lia|done].
Qed.

Lemma rows_loaded_warm d l ev w s : s = run l (started d) -> rows_loaded d l (rows s) ->
  rows_loaded d (l ++ [Serve ev w]) (warm_rows ev s).
Proof.
  intros Es H. unfold warm_rows, ensure_rows. destruct (rows_fresh _ _) eqn:Ef; [by apply rows_loaded_snoc|].
  destruct (match a_retry_at _ with Some _ => _ | None => _ end); [by apply rows_loaded_snoc|]. destruct (rows_load ev) eqn:El.
  - right. exists l, ev, w, []. rewrite Es. cbn. split_and!; [done..|lia|intros _; apply not_elem_of_nil|done].
  - destruct H as [H|(before & ev1 & w1 & since & -> & ? & ? & ? & Hg & _)]; [by left|right].
    exists before, ev1, w1, (since ++ [Serve ev w])%list. rewrite <- app_assoc. split_and!; cbn; [done..| |].
    + intros E. by apply not_elem_snoc; [|apply Hg].
    + intros r [= <-]. exists since, ev, w, []. split_and!; [done..|apply not_elem_of_nil].
Qed.

Lemma keys_loaded_snoc d l x k : x <> InvalidateKeys -> keys_loaded d l k -> keys_loaded d (l ++ [x]) k.
Proof.
  intros Hx [H|[H|(before & ev1 & w1 & since & -> & ? & ? & ? & Hr)]]; [by left|by right; left|right; right].
  exists before, ev1, w1, (since ++ [x])%list. rewrite <- app_assoc. split_and!; [done..| |].
  - by apply not_elem_snoc.
  - intros r E. by apply failed_snoc; [|apply Hr].
Qed.
Lemma keys_loaded_state d l k k' : key_state k = key_state k' -> keys_loaded d l k -> keys_loaded d l k'.
Proof. destruct k, k'. unfold key_state. cbn. by intros [= -> -> -> -> ->]. Qed.

Lemma keys_loaded_warm d l ev w s : s = run l (started d) -> keys_loaded d l (key_store s) ->
  keys_loaded d (l ++ [Serve ev w]) (warm_keys ev s).
Proof.
  intros Es H. unfold warm_keys, ensure_keys. destruct (_ && _); [by apply keys_loaded_snoc|].
  destruct (match ks_retry_at _ with Some _ => _ | None => _ end).
  { destruct (dirty (key_store s)); [by left|by apply keys_loaded_snoc]. }
  destruct (keys_load ev) eqn:El.
  - destruct (load_keys (db s)) as [m sc] eqn:Em. right; right. exists l, ev, w, []. rewrite <- Es, Em. cbn.
    split_and!; [done..|apply not_elem_of_nil|done].
  - destruct (dirty (key_store s)) eqn:Ed; [by left|].
    destruct H as [H|[H|(before & ev1 & w1 & since & -> & ? & ? & ? & _)]]; [by left|congruence|right; right].
    exists before, ev1, w1, (since ++ [Serve ev w])%list. rewrite <- app_assoc. split_and!; cbn; [done..|by apply not_elem_snoc|].
    intros r [= <-]. exists since, ev, w, []. split_and!; [done..|apply not_elem_of_nil].
Qed.

Lemma run_snoc l x s : run (l ++ [x]) s = step (run l s) x.
Proof. unfold run. by rewrite fold_left_app. Qed.

Lemma caches_loaded d l : rows_loaded d l (rows (run l (started d))) /\ keys_loaded d l (key_store (run l (started d))).
Proof.
  induction l as [|x l [IH1 IH2]] using rev_ind; [by split; left|]. rewrite run_snoc. destruct x as [ev w|d'| | |]; cbn [step].
  - destruct (request_caches ev w (run l (started d))) as [Hr Hk]. split.
    + destruct Hr as [Hr|Hr]; rewrite Hr; [by apply rows_loaded_snoc|by apply rows_loaded_warm].
    + destruct Hk as [Hk|Hk]; symmetry in Hk; apply (keys_loaded_state _ _ _ _ Hk); [by apply keys_loaded_snoc|by apply keys_loaded_warm].
  - by split; [apply rows_loaded_snoc|apply keys_loaded_snoc].
  - split; [by apply rows_loaded_snoc|by right; left].
  - by split; [apply rows_loaded_snoc|apply keys_loaded_snoc].
  - by split; [apply rows_loaded_invalidate|apply keys_loaded_snoc].
Qed.

(** ** What a request goes by *)

Lemma failed_recently loads inv r ev since : failed_at loads inv r since -> mono ev < r -> reload_failed loads inv ev since.
Proof.
  intros (l3 & ev' & w' & l4 & E & Hl & -> & Hn) Hr. right. exists l3, ev', w', l4. unfold _RETRY_S, second in Hr.
  split_and!; [done..|lia|done].
Qed.

(* a row is expected: it is pending, has not expired at this instant, and its order is pending *)
Definition awaited (d : tables) (t : Z) (c : AcmeProxyDnsChallenge) : Prop :=
  c ∈ challenges d /\ c_status c = "pending" /\ t < c_expires_at c /\ (c_order c, "pending") ∈ client_orders d.

Lemma assoc_elem {V} (l : list (Z * V)) i v : assoc l i = Some v -> (i, v) ∈ l.
Proof.
  unfold assoc. destruct (List.find _ l) as [[j u]|] eqn:E; [|done]. intros [= <-].
  apply find_some in E as [H%list_elem_of_In Hj%Z.eqb_eq]. cbn in Hj. by subst.
Qed.

Lemma loaded_row_awaited d t r : r ∈ active_rows (load_rows d t) -> exists c, awaited d t c /\ r = active_record c.
Proof.
  intros (c & -> & Hc)%list_elem_of_fmap. exists c. split; [|done]. apply list_elem_of_In, filter_In in Hc as [Hc Ha].
  apply filter_In in Hc as [Hin%list_elem_of_In _]. unfold is_active in Ha.
  apply andb_prop in Ha as [[Hs%String.eqb_eq Ht%Z.ltb_lt]%andb_prop Ho%bool_decide_eq_true]. split_and!; [done..|by apply assoc_elem].
Qed.

(* the snapshot a request works on: loaded now, or the old one for a reason *)
Lemma warm_rows_cases ev s :
  cached (warm_rows ev s) = load_rows (db s) (wall ev)
  \/ cached (warm_rows ev s) = cached (rows s)
     /\ (rows_fresh (mono ev) (rows s) = true \/ rows_load ev = false \/ exists t, a_retry_at (rows s) = Some t /\ mono ev < t).
Proof.
  unfold warm_rows, ensure_rows. destruct (rows_fresh _ _); [by auto|].
  destruct (a_retry_at (rows s)) as [t|]; [destruct (mono ev <? t) eqn:Et; [apply Z.ltb_lt in Et; eauto 7|]|];
    (destruct (rows_load ev); [by left|right; auto]).
Qed.

Lemma row_awaited d l ev r : r ∈ active_rows (cached (warm_rows ev (run l (started d)))) ->
  exists d' t c, rows_of d l ev d' t /\ awaited d' t c /\ r = active_record c.
Proof.
  destruct (caches_loaded d l) as [H _]. set (s := run l (started d)) in *. destruct (warm_rows_cases ev s) as [->|[-> Hwhy]]; intros Hr.
  { destruct (loaded_row_awaited _ _ _ Hr) as (c & Ha & E). exists (db s), (wall ev), c. split; [|by split].
    exists l, ev, []. split; [by right|]. split_and!; [done..|]. left. split; [lia|apply not_elem_of_nil]. }
  destruct H as [H|(before & ev1 & w1 & since & El & Hc & Hat & Hle & Hg & Hret)]; [rewrite H in Hr; by apply elem_of_nil in Hr|].
  rewrite Hc in Hr. destruct (loaded_row_awaited _ _ _ Hr) as (c & Ha & E). eexists _, _, c. split; [|by split].
  exists before, ev1, since. split; [by left; exists w1|]. split_and!; [done..|]. destruct Hwhy as [Hf|[Hl|(t & Et & Ht)]].
  - left. unfold rows_fresh in Hf. rewrite Hat in Hf. apply andb_prop in Hf as [E1%Z.eqb_eq E2%Z.ltb_lt].
    unfold CACHE_MAX_AGE_S, second in E2. split; [lia|auto].
  - right. by left.
  - right. eapply failed_recently; eauto.
Qed.

Lemma warm_keys_cases ev s :
  (materials (warm_keys ev s), scopes (warm_keys ev s)) = load_keys (db s)
  \/ (materials (warm_keys ev s) = ∅ /\ scopes (warm_keys ev s) = ∅)
  \/ dirty (key_store s) = false /\ (materials (warm_keys ev s), scopes (warm_keys ev s)) = (materials (key_store s), scopes (key_store s))
     /\ ((exists t, ks_loaded_at (key_store s) = Some t /\ mono ev - t < KEY_MAX_AGE) \/ keys_load ev = false
         \/ exists t, ks_retry_at (key_store s) = Some t /\ mono ev < t).
Proof.
  unfold warm_keys, ensure_keys. destruct (dirty (key_store s)) eqn:Ed; cbn [negb andb].
  { destruct (match ks_retry_at _ with Some _ => _ | None => _ end); [by right; left|].
    destruct (keys_load ev); [by left; destruct (load_keys (db s))|by right; left]. }
  destruct (ks_loaded_at (key_store s)) as [t0|]; [destruct (mono ev - t0 <? KEY_MAX_AGE) eqn:Ef; [apply Z.ltb_lt in Ef; eauto 10|]|];
    (destruct (ks_retry_at (key_store s)) as [t|]; [destruct (mono ev <? t) eqn:Et; [apply Z.ltb_lt in Et; eauto 10|]|]);
    (destruct (keys_load ev); [by left; destruct (load_keys (db s))|by auto 10]).
Qed.

Lemma keys_seen d l ev n key : materials (warm_keys ev (run l (started d))) !! n = Some key ->
  exists d', keys_of d l ev d'
    /\ (materials (warm_keys ev (run l (started d))), scopes (warm_keys ev (run l (started d)))) = load_keys d'.
Proof.
  destruct (caches_loaded d l) as [_ H]. set (s := run l (started d)) in *. intros Hn.
  destruct (warm_keys_cases ev s) as [E|[[E _]|(Hd & E & Hwhy)]]; [|by rewrite E, lookup_empty in Hn|].
  { exists (db s). split; [|done]. exists l, ev, []. split; [by right|]. split_and!; [done|apply not_elem_of_nil|left; lia]. }
  destruct H as [[H _]|[H|(before & ev1 & w1 & since & El & Hc & Hat & Hi & Hret)]]; [|congruence|].
  { injection E as E _. by rewrite E, H, lookup_empty in Hn. }
  rewrite E, Hc. eexists. split; [|done]. exists before, ev1, since. split; [by left; exists w1|]. split_and!; [done..|].
  destruct Hwhy as [(t & Et & Ht)|[Hl|(t & Et & Ht)]].
  - left. rewrite Hat in Et. injection Et as <-. unfold KEY_MAX_AGE, second in Ht. lia.
  - right. by left.
  - right. eapply failed_recently; eauto.
Qed.

(** ** Keys and the rows they may publish *)

(* the row of a key, active, of an enabled account, with the secret it holds *)
Definition key_of_row (d : tables) (k : AcmeDnsUpdateKey) (key : TsigKeyMaterial) : Prop :=
  k ∈ update_keys d /\ k_status k = "active" /\ acme_client_account_id k ∈ proxy_enabled d
  /\ key_id key = k_id k /\ from_text (k_name k) = Some (key_name key) /\ from_text (k_algorithm k) = Some (key_algorithm key)
  /\ canonicalize (key_algorithm key) ∈ [["hmac-sha256"]; ["hmac-sha384"]; ["hmac-sha512"]]
  /\ key_secret key <> [] /\ exists text, k_secret k = Some text /\ b64decode text = Some (key_secret key).

(* the key acts for the account of the row: its client account, and when the key is bound
   to a credential the account that used it *)
Definition acts_for (d : tables) (k : AcmeDnsUpdateKey) (c : AcmeProxyDnsChallenge) : Prop :=
  c_client_account c = Some (acme_client_account_id k)
  /\ (eab_bound_col k = true \/ eab_credential_id k <> None ->
      exists i account, eab_credential_id k = Some i /\ (i, ("used", Some account)) ∈ eab_rows d
        /\ account <> "" /\ c_account c = Some account).

Lemma text_set_some o t : text_set o = Some t <-> o = Some t /\ t <> "".
Proof. destruct o as [[|c s]|]; cbn; split; [done|by intros [[= <-] ?]|by intros [= <-]|by intros [[= <-] _]|done|by intros [? _]]. Qed.

Lemma key_material_row d k key sc : k ∈ update_keys d -> key_material d k = Some (key, sc) ->
  key_of_row d k key
  /\ scope_account sc = acme_client_account_id k /\ eab_bound sc = eab_bound_col k || bool_decide (is_Some (eab_credential_id k))
  /\ (eab_bound sc = true -> eab_account_id sc = bound_account d k).
Proof.
  intros Hk. unfold key_material. destruct (String.eqb_spec (k_status k) "active") as [Hs|]; cbn [negb orb]; [|done].
  destruct (existsb _ (proxy_enabled d)) eqn:Ep; cbn [negb]; [|done].
  apply existsb_exists in Ep as (i & Hi%list_elem_of_In & Ei%Z.eqb_eq). rewrite <- Ei in Hi.
  destruct (from_text (k_algorithm k)) as [al|] eqn:Ea; [|done]. destruct (from_text (k_name k)) as [n|] eqn:En; [|done]. cbn [mbind option_bind].
  destruct (existsb (same_name al) ALLOWED_TSIG_ALGORITHMS) eqn:Ex; cbn [negb]; [|done].
  destruct (text_set (k_secret k)) as [text|] eqn:Et; [|done]. apply text_set_some in Et as [Et _]. cbn [mbind option_bind].
  destruct (b64decode text) as [[|b secret]|] eqn:Eb; [done| |done]. cbn. intros [= <- <-]. cbn [key_id key_name key_algorithm key_secret scope_account eab_bound eab_account_id]. split_and!; try done.
  - split_and!; cbn [key_id key_name key_algorithm key_secret]; try done; [|eauto]. apply existsb_exists in Ex as (x & Hx%list_elem_of_In & Hn%bool_decide_eq_true). rewrite Hn.
    unfold ALLOWED_TSIG_ALGORITHMS in Hx. rewrite !elem_of_cons in Hx. destruct Hx as [-> |[-> |[-> |?%elem_of_nil]]]; [| | |done];
      vm_compute; set_solver.
  - by intros ->.
Qed.

Lemma allows_acts d k key sc c : k ∈ update_keys d -> key_material d k = Some (key, sc) ->
  allows sc (c_client_account c) (c_account c) = true -> acts_for d k c.
Proof.
  intros Hk Hm. destruct (key_material_row d k key sc Hk Hm) as (_ & Ea & Eb & Ed). unfold allows.
  destruct (c_client_account c) as [a|] eqn:Ec; [|done]. destruct (a =? scope_account sc) eqn:E1; cbn [negb]; [|done].
  apply Z.eqb_eq in E1 as ->. intros Hal. split; [by rewrite Ec, Ea|]. intros Hb. assert (eab_bound sc = true) as Ht.
  { rewrite Eb. apply orb_true_iff. destruct Hb as [Hb|Hb]; [by left|right]. apply bool_decide_eq_true. destruct (eab_credential_id k); [eauto|done]. }
  rewrite Ht, (Ed Ht) in Hal. unfold bound_account in Hal.
  destruct (eab_credential_id k) as [i|]; [|done]. cbn in Hal. destruct (assoc (eab_rows d) i) as [[st acc]|] eqn:Eas; [|done].
  destruct (String.eqb_spec st "used") as [->|]; [|done].
  destruct (text_set acc) as [x|] eqn:Ex; [|done]. apply text_set_some in Ex as [-> Hx]. cbn in Hal.
  destruct x as [|ch x]; [done|]. cbn in Hal. destruct (text_set (c_account c)) as [y|] eqn:Ey; [|done]. apply text_set_some in Ey as [Ey _].
  apply String.eqb_eq in Hal as ->. exists i, (String ch x). split_and!; [done|by apply assoc_elem|done..].
Qed.

(* a record a client may change: a challenge name, TXT values or all its records deleted *)
Definition challenge_record (u : rrset) : Prop :=
  (rr_type u = 16 \/ rr_type u = 255 /\ deleting u = Some 255)
  /\ exists first rest, rr_name u = first :: rest /\ lower first = "_acme-challenge".

Lemma type_allowed_spec u : type_allowed u = true -> challenge_record u.
Proof.
  unfold type_allowed, challenge_record, TXT, ANY. intros [H1 H2]%andb_prop. split.
  - apply orb_true_iff in H1 as [H1%Z.eqb_eq|[H1%Z.eqb_eq H3%bool_decide_eq_true]%andb_prop]; auto.
  - destruct (rr_name u) as [|first rest]; [done|]. apply String.eqb_eq in H2. eauto.
Qed.

Lemma txt_value_concat strings v : _txt_value strings = Some v -> String.concat "" strings = v.
Proof. unfold _txt_value. destruct (all_chars _ _); congruence. Qed.

(* the value of an addition is expected: [c] is a row the request goes by, pending, at this
   name, with this value, for an account one of the rows of the key acts for *)
Definition expected_value (d : tables) (l : list action) (ev : env) (dk : tables) (key : TsigKeyMaterial) (u : rrset)
    (strings : list string) (c : AcmeProxyDnsChallenge) : Prop :=
  (exists d' t, rows_of d l ev d' t /\ awaited d' t c)
  /\ record_name c = lower (to_text (rr_name u)) /\ txt_value c = String.concat "" strings
  /\ exists k key', key_of_row dk k key' /\ k_id k = key_id key /\ acts_for dk k c.

Lemma expected_from_history d l ev dk key u strings r : 
  (materials (warm_keys ev (run l (started d))), scopes (warm_keys ev (run l (started d)))) = load_keys dk ->
  expected (view ev (run l (started d))) (key_id key) u strings r ->
  exists c, expected_value d l ev dk key u strings c /\ c_id c = row_id r.
Proof.
  intros Ek (Hr & Hn & Hv & sc & Hsc & Ha). destruct (row_awaited d l ev r Hr) as (d' & t & c & Hd & Hc & ->). exists c. split; [|done].
  split; [eauto|]. split; [done|]. split; [symmetry; by apply txt_value_concat|].
  pose proof (load_keys_from dk) as [_ H2]. rewrite <- Ek in H2. destruct (H2 _ sc Hsc) as (k & mat & Hk & Hm & Ei).
  exists k, mat. split; [by destruct (key_material_row dk k mat sc Hk Hm)|]. split; [done|by eapply allows_acts].
Qed.

(** C24. What is carried out was signed and expected. Whatever happened since the listener
    started, an update is carried out only when it was signed in full, by the clock within
    its fudge and 300 seconds, by a key with an active row of an enabled account in the
    tables the request goes by for keys; it touches challenge records only; and every value
    it adds is the value, at that name, of a row that the tables the request goes by for
    rows had as pending, not expired, of a pending order, for an account the key acts for.
    The rows confirmed are rows of the values added. The tables a request goes by are those
    of the last load: for keys never from before an invalidation, and less than thirty
    seconds old, for rows less than five seconds old and with no invalidation since,
    unless the reload then due failed, now or in the two seconds before. *)
Theorem accepted_was_expected (d : tables) (l : list action) (ev : env) (w : wire)
    (s' : listener) (out : option wire) (e : event) (key : TsigKeyMaterial)
    (Hrun : handle ev w (run l (started d)) = ((out, Some (e, key)), s')) (Hkind : e_kind e = Accepted) :
  exists dk k msg owner t, keys_of d l ev dk /\ key_of_row dk k key
    /\ from_wire w = Some msg /\ tsig msg = Some (owner, t) /\ lower (to_text owner) = lower (to_text (key_name key)) /\ signed_by w key owner t
    /\ Z.abs (wall ev / 1000000 - time_signed t) <= Z.min (fudge t) 300
    /\ (forall u, u ∈ updates msg -> challenge_record u
          /\ (deleting u = None -> forall strings, strings ∈ rdatas u -> exists c, expected_value d l ev dk key u strings c))
    /\ (forall i, i ∈ e_rows e -> exists u strings c, u ∈ updates msg /\ deleting u = None /\ strings ∈ rdatas u
          /\ expected_value d l ev dk key u strings c /\ c_id c = i).
Proof.
  destruct (update_authorized ev w _ s' out e key Hrun Hkind) as [(msg & owner & t & Hw & Ht & Hm & Hs & Hi & _ & Hu & Hp)].
  destruct (keys_seen d l ev _ _ Hm) as (dk & Hdk & Ek). pose proof (load_keys_from dk) as [H1 _]. rewrite <- Ek in H1.
  destruct (H1 _ key Hm) as (k & sc & Hk & Hmat & Hname). exists dk, k, msg, owner, t.
  split_and!; try done; [by destruct (key_material_row dk k key sc Hk Hmat)|by apply Z.leb_le in Hi| |].
  - intros u Hin. destruct (Hu u Hin) as [Ha He]. split; [by apply type_allowed_spec|]. intros Hn x Hx. destruct (He Hn x Hx) as (r & Hr).
    destruct (expected_from_history d l ev dk key u x r Ek Hr) as (c & Hc & _). eauto.
  - intros i Hin. destruct (Hp i Hin) as (u & x & r & Hu' & Hn & Hx & Hr & Hid).
    destruct (expected_from_history d l ev dk key u x r Ek Hr) as (c & Hc & E). exists u, x, c. split_and!; [done..|congruence].
Qed.
End Histories.
