(* ===== verification/DnsUpdateReplay.v ===== *)
(** * DnsUpdateReplay: a request of the DNS UPDATE listener is carried out once

    The answer to a signed request is remembered for twice the time a signature is valid.
    While it is remembered a copy changes nothing; when it is not, a copy is out of time.
    The exception is the last second of a signature as far ahead as is allowed. *)

From Stdlib Require Import Ascii String.
From stdpp Require Import prelude strings gmap.
From S2P Require Import Prelude DnsUpdateModel DnsUpdateHandler DnsUpdateSafety DnsUpdateHistory.

Local Open Scope string_scope.
Local Open Scope Z_scope.

Lemma without_app k l1 l2 : without k (l1 ++ l2) = (without k l1 ++ without k l2)%list.
Proof. apply List.filter_app. Qed.
Lemma without_other k e l : e_key e <> k -> without k (e :: l) = e :: without k l.
Proof. intros H. cbn. unfold is_key. by rewrite bool_decide_false. Qed.
Lemma without_length k l : (length (without k l) <= length l)%nat.
Proof. apply List.filter_length_le. Qed.
Lemma elem_without k e l : e ∈ without k l <-> e ∈ l /\ e_key e <> k.
Proof.
  unfold without. rewrite list_elem_of_In, filter_In, <- list_elem_of_In, negb_true_iff. unfold is_key.
  by rewrite bool_decide_eq_false.
Qed.
Lemma without_nodup k l : NoDup (e_key <$> l) -> NoDup (e_key <$> without k l).
Proof.
  intros H. eapply sublist_NoDup; [exact H|]. apply fmap_sublist. clear H.
  induction l as [|e l IH]; cbn; [constructor|]. destruct (is_key k e); by constructor.
Qed.
Lemma nodup_end k e l : e_key e = k -> NoDup (e_key <$> l) -> NoDup (e_key <$> (without k l ++ [e])%list).
Proof.
  intros He Hnd. rewrite fmap_app. apply NoDup_app. split; [by apply without_nodup|]. split; [|apply NoDup_singleton].
  intros x (e' & -> & [_ Hk]%elem_without)%list_elem_of_fmap ?%list_elem_of_singleton. congruence.
Qed.
Lemma newest_app {A} n (l1 l2 : list A) : (length l2 <= n)%nat -> exists l, newest n (l1 ++ l2) = (l ++ l2)%list /\ sublist l l1.
Proof.
  intros H. unfold newest. rewrite length_app. exists (drop (length l1 + length l2 - n) l1).
  rewrite drop_app_le by lia. split; [done|apply sublist_drop].
Qed.
Lemma newest_sublist {A} n (l : list A) : sublist (newest n l) l.
Proof. apply sublist_drop. Qed.

Section Remembered.
Variables (rk : replay_key) (t0 : Z).
Definition span : Z := REPLAY_TTL_S * second.

(* an entry of the key, not older than t0, with at most n entries after it *)
Definition present (n : nat) (l : list entry) : Prop :=
  exists l1 e l2, l = (l1 ++ e :: l2)%list /\ e_key e = rk /\ t0 <= e_at e /\ (length l2 <= n)%nat.
Definition remembered (now : Z) (n : nat) (l : list entry) : Prop :=
  NoDup (e_key <$> l) /\ (present n l \/ t0 + span <= now).

Lemma remembered_mono now now' n n' l : now <= now' -> (n <= n')%nat -> remembered now n l -> remembered now' n' l.
Proof.
  intros H1 H2 [Hnd H]. split; [done|]. destruct H as [(l1 & e & l2 & -> & Hk & Ht & Hl)|H]; [left|right; lia].
  exists l1, e, l2. split_and!; try done. lia.
Qed.

Lemma present_without n k l : k <> rk -> present n l -> present n (without k l).
Proof.
  intros Hk (l1 & e & l2 & -> & He & Ht & Hl). exists (without k l1), e, (without k l2).
  rewrite without_app, without_other by congruence. split_and!; try done. pose proof (without_length k l2). lia.
Qed.

Lemma present_snoc n l e : present n l -> present (S n) (l ++ [e]).
Proof.
  intros (l1 & e0 & l2 & -> & He & Ht & Hl). exists l1, e0, (l2 ++ [e])%list. rewrite <- app_assoc. cbn.
  split_and!; try done. rewrite length_app. cbn. lia.
Qed.

(* the entry found is the one remembered *)
Lemma find_remembered now n l e : remembered now n l -> List.find (is_key rk) l = Some e -> t0 <= e_at e \/ t0 + span <= now.
Proof.
  intros [Hnd [(l1 & e0 & l2 & -> & He & Ht & _)|H]] Hf; [left|by right]. apply List.find_some in Hf as [Hin Hk].
  apply bool_decide_eq_true in Hk. apply list_elem_of_In in Hin. rewrite fmap_app, fmap_cons in Hnd.
  apply elem_of_app in Hin as [Hin|[->|Hin]%elem_of_cons]; [|done|].
  - apply NoDup_app in Hnd as (_ & Hd & _). destruct (Hd rk); [apply list_elem_of_fmap; by exists e|rewrite He; by left].
  - apply NoDup_app in Hnd as (_ & _ & Hd). apply NoDup_cons in Hd as [Hd _]. destruct Hd. apply list_elem_of_fmap. exists e. by rewrite He.
Qed.

Lemma live_remembered now n k c : remembered now n (items c) -> remembered now n (items (_live now k c).2).
Proof.
  intros H. unfold _live. destruct (List.find (is_key k) (items c)) as [e|] eqn:Ef; [|done].
  destruct (expired now e) eqn:Ee; [|done]. cbn. split; [by apply without_nodup, H|].
  destruct (decide (k = rk)) as [->|Hk].
  - right. destruct (find_remembered _ _ _ _ H Ef) as [Ht|Ht]; [|done]. apply Z.leb_le in Ee. unfold span. lia.
  - destruct H as [_ [H|H]]; [left; by apply present_without|by right].
Qed.

Lemma live_found now k c e c' : _live now k c = (Some e, c') -> c' = c /\ List.find (is_key k) (items c) = Some e /\ e_key e = k.
Proof.
  unfold _live. destruct (List.find _ _) as [e0|] eqn:Ef; [|done]. destruct (expired now e0); [done|]. intros [= <- <-].
  split_and!; [done..|]. by apply List.find_some in Ef as [_ ?%bool_decide_eq_true].
Qed.

(* moved or put at the end *)
Lemma remembered_end now n k e l : remembered now n l -> e_key e = k -> (k = rk -> t0 <= e_at e \/ t0 + span <= now) ->
  remembered now (S n) (without k l ++ [e]).
Proof.
  intros [Hnd H] He Ht. split.
  - by apply nodup_end.
  - destruct (decide (k = rk)) as [->|Hk].
    + destruct (Ht eq_refl) as [Ha|Ha]; [left|by right]. exists (without rk l), e, []. split_and!; [done..|]. cbn. lia.
    + destruct H as [H|H]; [left|by right]. by apply present_snoc, present_without.
Qed.

Lemma get_remembered now n k tcp c : remembered now n (items c) -> remembered now (S n) (items (replay_get now k tcp c).2).
Proof.
  intros H. pose proof (live_remembered now n k c H) as Hl. unfold replay_get. destruct (_live now k c) as [[e|] c'] eqn:El; cbn in Hl.
  - apply live_found in El as (-> & Ef & He). destruct (stored tcp e) as [v|]; cbn; [|by apply (remembered_mono now now n (S n)); [lia|lia|]].
    rewrite He. apply remembered_end; [done..|]. intros ->. by eapply find_remembered.
  - by apply (remembered_mono now now n (S n)); [lia|lia|].
Qed.
Lemma get_none_remembered now n k tcp c c' : replay_get now k tcp c = (None, c') -> remembered now n (items c) -> remembered now n (items c').
Proof.
  intros H Hr. pose proof (live_remembered now n k c Hr) as Hl. unfold replay_get in H. destruct (_live now k c) as [[e|] c0]; cbn in Hl.
  - destruct (stored tcp e); [done|]. by injection H as <-.
  - by injection H as <-.
Qed.
Lemma seen_remembered now n k c : remembered now n (items c) -> remembered now n (items (seen now k c).2).
Proof. intros H. pose proof (live_remembered now n k c H) as Hl. unfold seen. by destruct (_live now k c). Qed.

Lemma remembered_newest now n l : (n < REPLAY_CACHE_SIZE)%nat -> remembered now n l -> remembered now n (newest REPLAY_CACHE_SIZE l).
Proof.
  intros Hn [Hnd H]. split.
  - eapply sublist_NoDup; [exact Hnd|]. apply fmap_sublist, newest_sublist.
  - destruct H as [(l1 & e & l2 & -> & He & Ht & Hl)|H]; [left|by right].
    destruct (newest_app REPLAY_CACHE_SIZE l1 (e :: l2)) as (l1' & -> & _); [cbn; lia|]. by exists l1', e, l2.
Qed.

Lemma put_remembered now n k v tcp c : (S n < REPLAY_CACHE_SIZE)%nat -> t0 <= now -> remembered now n (items c) ->
  remembered now (S n) (items (put now k v tcp c)).
Proof.
  intros Hn Ht H. pose proof (live_remembered now n k c H) as Hl. unfold put.
  destruct (_live now k c) as [found c'] eqn:El. cbn [snd] in Hl. cbn [items]. apply remembered_newest; [done|].
  apply remembered_end; [done..|]. intros ->. cbn [e_at]. destruct found as [e|]; [|by left].
  apply live_found in El as (-> & Ef & He). by eapply find_remembered.
Qed.

(* a new answer of the key *)
Lemma put_first now k v tcp c c' : k = rk -> t0 = now -> seen now k c = (false, c') -> NoDup (e_key <$> items c') ->
  remembered now 0 (items (put now k v tcp c')).
Proof.
  intros -> -> Hs Hnd. assert (List.find (is_key rk) (items c') = None) as Hf.
  { unfold seen, _live in Hs. destruct (List.find (is_key rk) (items c)) as [e|] eqn:Ef; [|by injection Hs as <-].
    destruct (expired now e); [|done]. injection Hs as <-. cbn.
    destruct (List.find (is_key rk) (without rk (items c))) as [e'|] eqn:E'; [|done].
    apply List.find_some in E' as [Hin%list_elem_of_In Hk%bool_decide_eq_true]. by apply elem_without in Hin as [_ ?]. }
  unfold put, _live. rewrite Hf. cbn [items]. apply remembered_newest; [vm_compute; lia|].
  split.
  - by apply nodup_end.
  - left. eexists _, _, []. split_and!; [done|done|cbn; lia|cbn; lia].
Qed.
End Remembered.

Section Once.
Context {L : DnsLibrary}.

(** ** One request *)

Section Served.
Variables (rk : replay_key) (t0 : Z) (ev : env) (n : nat).
Hypothesis Hsize : (S n < REPLAY_CACHE_SIZE)%nat.
Hypothesis Hlater : t0 <= wall ev.
Let P (m : nat) (s : listener) : Prop := remembered rk t0 (wall ev) m (items (replay s)).

Lemma after_replay e key s : replay (_after ev e key s) = replay s.
Proof.
  unfold _after, touch, mark_confirmed. destruct (e_kind e); [done| |done].
  by destruct (e_rows e), (confirm_commits ev), (touch_due _ _ _), (touch_commits ev).
Qed.

Lemma body_replay w msg opcode res : keeps replay (process_body ev w msg opcode res).
Proof. intros s. by apply (kept_body ev (fun s' => replay s' = replay s)). Qed.

Lemma verify_remembered w msg k : kept (P n) (verify_request ev w msg k).
Proof.
  apply kept_verify; try done. intros s k' H. unfold P. cbn. by apply seen_remembered.
Qed.

Lemma signed_remembered w msg opcode res key k suppress s : P n s -> P (S n) (process_signed ev w msg opcode res key k suppress s).2.
Proof.
  intros H. unfold process_signed. destruct (process_body ev w msg opcode res s) as [b s1] eqn:Eb. rewrite (bind_run _ _ _ _ _ Eb).
  assert (replay s1 = replay s) as E1 by (change s1 with (b, s1).2; rewrite <- Eb; apply body_replay).
  assert (P (S n) s1) as H1 by (unfold P; rewrite E1; by apply (remembered_mono _ _ (wall ev) _ n); [lia|lia|]).
  destruct b as [[r e]|]; [|done]. destruct (render_signed _ _ _ _) as [[o|]|]; [| |done].
  - unfold mbind, LM_bind, writes. cbn. destruct suppress; cbn; unfold P; rewrite ?after_replay; cbn; apply put_remembered; try done;
      unfold P in H; by rewrite E1.
  - unfold mbind, LM_bind, writes, mret, LM_ret. destruct suppress; cbn; [done|]. unfold P. by rewrite after_replay.
Qed.

Lemma remembered_next s : P n s -> P (S n) s.
Proof. apply remembered_mono; lia. Qed.

Lemma on_get_remembered k s o s1 : on_replay (replay_get (wall ev) k (tcp ev)) s = (o, s1) -> P n s ->
  P (S n) s1 /\ (o = None -> P n s1).
Proof.
  unfold on_replay. intros H Hs. pose proof (get_remembered rk t0 (wall ev) n k (tcp ev) (replay s) Hs) as G.
  destruct (replay_get (wall ev) k (tcp ev) (replay s)) as [o' c] eqn:Eg. injection H as -> <-. split; [done|].
  intros ->. by eapply get_none_remembered.
Qed.

Lemma serve_remembered w msg opcode res key k s a s' : serve_signed ev w msg opcode res key k s = (a, s') -> P n s -> P (S n) s'.
Proof.
  unfold serve_signed. intros H Hs. apply bind_inv in H as (known & s1 & E1 & H).
  apply on_get_remembered in E1 as [G1 H1]; [|done]. destruct known as [o|]; [by injection H as _ <-|]. specialize (H1 eq_refl).
  apply bind_inv in H as (free & s2 & E2 & H).
  assert (P n s2) as H2 by (unfold on_replay, begin in E2; case_bool_decide; by injection E2 as _ <-).
  destruct (negb free); [injection H as _ <-; by apply remembered_next|]. apply bind_inv in H as (known & s3 & E3 & H).
  apply on_get_remembered in E3 as [G3 H3]; [|done]. apply bind_inv in H as (b & s4 & E4 & H).
  apply bind_inv in H as (u & s5 & [= <- <-] & [= <- <-]). change (P (S n) s4).
  destruct known as [o|]; [by injection E4 as _ <-|]. specialize (H3 eq_refl). apply bind_inv in E4 as (again & s6 & E6 & E4).
  change s4 with (b, s4).2. rewrite <- E4. apply signed_remembered. destruct (replayed res); [by injection E6 as _ <-|].
  unfold on_replay in E6. pose proof (seen_remembered rk t0 (wall ev) n k (replay s3) H3) as G.
  destruct (seen (wall ev) k (replay s3)). by injection E6 as _ <-.
Qed.

Lemma handle_remembered w s : P n s -> P (S n) (handle ev w s).2.
Proof.
  intros H. pose proof (remembered_next s H) as H1. unfold handle. destruct (_ <? _); [done|]. destruct (negb _); [done|].
  destruct (_ <? _); [done|]. destruct (_ && _); [done|]. destruct (_ || _); [done|]. destruct (_ && _); [done|].
  destruct (from_wire w) as [msg|]; [|done]. destruct (negb _); [done|]. unfold serve_parsed.
  pose proof (verify_remembered w msg (_replay_key msg) s H) as Hv.
  destruct (verify_request ev w msg (_replay_key msg) s) as [res s1] eqn:Ev. rewrite (bind_run _ _ _ _ _ Ev). cbn in Hv.
  pose proof (remembered_next s1 Hv) as H2. destruct (outcome res); try done.
  - apply (kept_unsigned ev (P (S n))); try done.
  - destruct (r_key res) as [key|], (_replay_key msg) as [k|]; try done.
    destruct (serve_signed ev w msg _ res key k s1) eqn:Es. by eapply serve_remembered.
Qed.
End Served.

(** ** The first copy and the next *)

Lemma remembered_nodup rk now n l : NoDup (e_key <$> l) <-> remembered rk (now - span) now n l.
Proof. split; [|by intros [? _]]. split; [done|]. right. lia. Qed.

Lemma process_signed_put ev w msg opcode res key rk s o e k s1 :
  process_signed ev w msg opcode res key rk false s = ((Some o, Some (e, k)), s1) ->
  replay s1 = put (wall ev) rk o (tcp ev) (replay s).
Proof.
  unfold process_signed. intros H. apply bind_inv in H as ([[r e']|] & s2 & Eb & H); [|done].
  assert (replay s2 = replay s) as E2 by (change s2 with (Some (r, e'), s2).2; rewrite <- Eb; apply body_replay).
  destruct (render_signed _ _ _ _) as [out|]; [|done]. apply bind_inv in H as (u & s3 & E3 & H).
  apply bind_inv in H as (u' & s4 & [= <- <-] & [= -> -> -> <-]). rewrite after_replay. injection E3 as _ <-. cbn. by rewrite E2.
Qed.

Lemma serve_signed_first ev w msg opcode res key rk s o e k s1 : NoDup (e_key <$> items (replay s)) -> replayed res = false ->
  serve_signed ev w msg opcode res key rk s = ((Some o, Some (e, k)), s1) ->
  remembered rk (wall ev) (wall ev) 0 (items (replay s1)).
Proof.
  intros Hnd Hrep. apply (remembered_nodup rk (wall ev) 0) in Hnd as Hs. unfold serve_signed. rewrite Hrep.
  intros H. apply bind_inv in H as ([o1|] & s2 & E2 & H); [done|]. apply (on_get_remembered rk (wall ev - span) ev 0) in E2 as [_ H2]; [|done].
  specialize (H2 eq_refl). apply bind_inv in H as (free & s3 & E3 & H). destruct (negb free); [done|].
  assert (items (replay s3) = items (replay s2)) as I3 by (unfold on_replay, begin in E3; case_bool_decide; by injection E3 as _ <-).
  rewrite <- I3 in H2. apply bind_inv in H as (known & s4 & E4 & H). apply (on_get_remembered rk (wall ev - span) ev 0) in E4 as [_ H4]; [|done].
  apply bind_inv in H as (a & s5 & E5 & H). apply bind_inv in H as (u & s6 & [= <- <-] & [= -> <-]).
  destruct known as [o2|]; [done|]. specialize (H4 eq_refl). apply bind_inv in E5 as (again & s7 & E7 & E5).
  destruct (process_signed_carried _ _ _ _ _ _ _ _ _ _ _ _ _ E5) as (-> & _). apply process_signed_put in E5. cbn. rewrite E5.
  unfold on_replay in E7. pose proof (seen_remembered rk (wall ev - span) (wall ev) 0 rk (replay s4) H4) as H7.
  destruct (seen (wall ev) rk (replay s4)) as [b c] eqn:Es. injection E7 as -> <-. by eapply put_first; [..|apply H7].
Qed.

Lemma handle_first ev w s o e key s1 msg rk : handle ev w s = ((Some o, Some (e, key)), s1) ->
  NoDup (e_key <$> items (replay s)) -> from_wire w = Some msg -> _replay_key msg = Some rk ->
  remembered rk (wall ev) (wall ev) 0 (items (replay s1)).
Proof.
  intros H Hnd Hm Hrk. revert H. unfold handle. destruct (size w <? 12); [done|]. destruct (negb _); [done|]. destruct (_ <? size w); [done|].
  destruct (_ && _); [done|]. destruct (_ || _); [done|]. destruct (_ && _); [done|]. rewrite Hm. destruct (negb _); [done|].
  unfold serve_parsed. rewrite Hrk. intros H. apply bind_inv in H as (res & s2 & Ev & H).
  assert (NoDup (e_key <$> items (replay s2))) as Hnd2.
  { apply (remembered_nodup rk (wall ev) 0). change s2 with (res, s2).2. rewrite <- Ev. apply verify_remembered. by apply remembered_nodup. }
  destruct (outcome res) eqn:Eo; try done.
  { unfold process_unsigned in H. apply bind_inv in H as ([[r x]|] & s3 & _ & H); [|done]. by destruct (_render_unsigned _ _). }
  destruct (r_key res) as [k|] eqn:Ek; [|done]. destruct (serve_signed_carried _ _ _ _ _ _ _ _ _ _ _ _ H) as (Hr & _).
  by eapply serve_signed_first.
Qed.

Lemma copy_not_carried rk t0 n ev w s a s' msg owner t : remembered rk t0 (wall ev) n (items (replay s)) ->
  from_wire w = Some msg -> _replay_key msg = Some rk -> tsig msg = Some (owner, t) ->
  (t0 + span <= wall ev -> in_window ev t = false) -> handle ev w s = (a, s') -> a.2 = None.
Proof.
  intros Hr Hm Hrk Ht Hlate H. destruct a as [out [[e key]|]]; [|done]. exfalso.
  apply handle_carried in H as (msg' & owner' & t' & Hm' & Ht' & _ & _ & Hi & _ & Hseen & _).
  assert (msg' = msg) as -> by congruence. assert (t' = t) as -> by congruence. specialize (Hseen rk Hrk).
  assert (~ t0 + span <= wall ev) as Hin by (intros Hx; by rewrite Hlate in Hi). unfold seen, _live in Hseen.
  destruct (List.find (is_key rk) (items (replay s))) as [e0|] eqn:Ef.
  - destruct (expired (wall ev) e0) eqn:Ee; [|done]. apply Z.leb_le in Ee.
    destruct (find_remembered _ _ _ _ _ _ Hr Ef); unfold span in *; lia.
  - destruct Hr as [_ [(l1 & e0 & l2 & E & Hk & _)|Hr]]; [|done].
    eapply List.find_none in Ef; [|rewrite E; apply in_or_app; right; by left]. unfold is_key in Ef. by rewrite bool_decide_true in Ef.
Qed.

(** ** Histories *)

(* the clock of the requests does not go back *)
Fixpoint in_order (t : Z) (l : list action) : Prop :=
  match l with
  | [] => True
  | Serve ev _ :: l' => t <= wall ev /\ in_order (wall ev) l'
  | _ :: l' => in_order t l'
  end.
Fixpoint last_time (t : Z) (l : list action) : Z :=
  match l with
  | [] => t
  | Serve ev _ :: l' => last_time (wall ev) l'
  | _ :: l' => last_time t l'
  end.
Fixpoint serves (l : list action) : nat :=
  match l with
  | [] => 0
  | Serve _ _ :: l' => S (serves l')
  | _ :: l' => serves l'
  end.

Lemma run_remembered rk t0 l : forall s n now, in_order now l -> (n + serves l < REPLAY_CACHE_SIZE)%nat -> t0 <= now ->
  remembered rk t0 now n (items (replay s)) ->
  remembered rk t0 (last_time now l) (n + serves l) (items (replay (run l s))) /\ t0 <= last_time now l.
Proof.
  induction l as [|a l IH]; intros s n now Ho Hs Ht H; [rewrite Nat.add_0_r; by split|].
  destruct a as [ev w|d| | |]; cbn [run fold_left last_time serves step] in *; try by apply IH.
  destruct Ho as [Hw Ho]. rewrite <- Nat.add_succ_comm. apply IH; [done|lia|lia|].
  apply handle_remembered; [lia|lia|]. by apply (remembered_mono _ _ now _ n); [|lia|].
Qed.

(** C25. A signed request is carried out once: when it was answered, no later copy of it, on
    either transport, is carried out, as long as the clock does not go back and fewer
    requests than the cache holds came in between. The time of the signature must not be
    as far ahead as is allowed. *)
Theorem carried_out_once (ev0 ev : env) (w0 w : wire) (s0 s1 s2 : listener) (l : list action) (o : wire) (e : event)
    (key : TsigKeyMaterial) (a : answer) (msg0 msg : message) (owner0 owner : name) (t0 t : tsig_rr)
    (Hnodup : NoDup (e_key <$> items (replay s0)))
    (Hfirst : handle ev0 w0 s0 = ((Some o, Some (e, key)), s1))
    (Hm0 : from_wire w0 = Some msg0) (Ht0 : tsig msg0 = Some (owner0, t0))
    (Hm : from_wire w = Some msg) (Ht : tsig msg = Some (owner, t))
    (Hcopy : _replay_key msg = _replay_key msg0 /\ time_signed t = time_signed t0)
    (Hahead : time_signed t0 < now_int ev0 + MAX_FUDGE)
    (Horder : in_order (wall ev0) l) (Hlast : last_time (wall ev0) l <= wall ev) (Hroom : (serves l < REPLAY_CACHE_SIZE)%nat)
    (Hrun : handle ev w (run l s1) = (a, s2)) :
  a.2 = None.
Proof.
  destruct Hcopy as [Hrk Hts]. assert (exists rk, _replay_key msg0 = Some rk) as [rk Hk] by (unfold _replay_key; rewrite Ht0; by eexists).
  pose proof (handle_first _ _ _ _ _ _ _ _ _ Hfirst Hnodup Hm0 Hk) as Hr.
  apply (run_remembered rk (wall ev0) l s1 0 (wall ev0)) in Hr as [Hr Hl]; [|done|done|lia].
  apply (remembered_mono _ _ _ (wall ev) _ (serves l)) in Hr; [|done|lia].
  eapply copy_not_carried; [exact Hr|exact Hm|congruence|exact Ht| |exact Hrun]. intros Hlate. apply Z.leb_gt. rewrite Hts.
  unfold span, REPLAY_TTL_S, now_int, MAX_FUDGE, second in *.
  assert (wall ev0 / 1000000 + 600 <= wall ev / 1000000) as Hd.
  { rewrite <- Z.div_add by lia. apply Z.div_le_mono; lia. }
  lia.
Qed.
End Once.
