(* ===== verification/DnsUpdateLimits.v ===== *)
(** * DnsUpdateLimits: what the DNS UPDATE listener gives away

    Over UDP an answer to a request that no key verified is not longer than the request.
    The zones the listener answers for are those that lie on the path of a registered
    domain. A query learns of a zone only while a row of it is visible, and a signed query
    only of rows its key may act for. *)

From Stdlib Require Import Ascii String.
From stdpp Require Import prelude strings gmap.
From S2P Require Import Prelude DomainMatch DnsUpdateModel DnsUpdateHandler DnsUpdateSafety.

Local Open Scope string_scope.
Local Open Scope Z_scope.

Section Limits.
Context {L : DnsLibrary}.

(** ** Sizes *)

Lemma header_size w rcode : size (_header_only w rcode) = 12.
Proof. done. Qed.

Lemma within_size limit w o : within limit w = Some o -> over limit o = false.
Proof. unfold within. destruct (over limit w) eqn:E; [done|]. by intros [= <-]. Qed.

Lemma over_limit ev w msg o : tcp ev = false -> over (_unsigned_limit ev w msg) o = false -> size o <= size w.
Proof. intros Ht. unfold _unsigned_limit. rewrite Ht. cbn. intros H%Z.ltb_ge. lia. Qed.

Lemma servfail_size w o : 12 <= size w -> _servfail w None = Some o -> size o <= size w.
Proof. intros Hw. cbn. rewrite (proj2 (Z.leb_le _ _) Hw). intros [= <-]. exact Hw. Qed.

Lemma render_unsigned_size ev w msg r o : tcp ev = false -> _render_unsigned r (_unsigned_limit ev w msg) = Some (Some o) -> size o <= size w.
Proof.
  intros Ht. unfold _render_unsigned. destruct (to_wire _ r) as [o1|]; [|done]. cbn. destruct (over _ o1) eqn:E1.
  - destruct (to_wire _ (_truncated r)) as [o2|]; [|done]. cbn. intros [= H%within_size]. by eapply over_limit.
  - intros [= <-]. by eapply over_limit.
Qed.

Lemma tsig_error_size ev w msg sk res o : tcp ev = false -> outcome res = BadKey \/ outcome res = BadSig ->
  _tsig_error ev w msg sk res = Some (Some o) -> size o <= size w.
Proof.
  intros Ht Ho. unfold _tsig_error. assert (tsig_error_limit ev w msg (outcome res) = _unsigned_limit ev w msg) as -> by by destruct Ho as [-> | ->].
  destruct (tsig_error_render ev res sk) as [o1|]; [|done]. cbn. destruct (over _ o1) eqn:E1.
  - destruct (tsig_error_render ev res (_truncated sk)) as [o2|]; [|done]. cbn. intros [= H%within_size]. by eapply over_limit.
  - intros [= <-]. by eapply over_limit.
Qed.

(* an outcome that speaks of the time, or of success, names the key *)
Lemma verify_request_key ev w msg rk s : r_key (verify_request ev w msg rk s).1 = None ->
  outcome (verify_request ev w msg rk s).1 ∈ [Unsigned; Malformed; BadKey; BadSig].
Proof.
  unfold verify_request. destruct (tsig msg) as [[owner t]|]; [|set_solver]. destruct (negb _); [set_solver|].
  destruct (_last_rr_header w) as [[[start ty] ttl]|]; [|set_solver]. destruct (negb _); [set_solver|].
  destruct (lookup_key ev owner s) as [found s1] eqn:El. rewrite (bind_run _ _ _ _ _ El).
  assert (check_signature w owner t found ∈ [Verified; Malformed; BadKey; BadSig]) as Hc
    by (unfold check_signature, check_mac; repeat case_match; set_solver).
  destruct (check_signature w owner t found) eqn:Ec; [exfalso; set_solver| |set_solver..|exfalso; set_solver|exfalso; set_solver].
  destruct found as [key|]; [|done]. unfold mbind, LM_bind.
  match goal with |- context [match ?c s1 with _ => _ end] => destruct (c s1) as [[] s2] end; [done|].
  destruct (negb _); [done|]. unfold reads. cbn. destruct (is_older _ _ _); [done|]. by destruct (_ <? _).
Qed.

(** C27. No amplification: over UDP, the answer to a request whose MAC no key verified is not
    longer than the request. *)
Theorem unverified_answer_bounded (ev : env) (w : wire) (s s' : listener) (o : wire) (x : option (event * TsigKeyMaterial))
    (Hudp : tcp ev = false)
    (Hnokey : forall msg, from_wire w = Some msg -> r_key (verify_request ev w msg (_replay_key msg) s).1 = None)
    (Hrun : handle ev w s = ((Some o, x), s')) :
  size o <= size w.
Proof.
  revert Hrun. unfold handle. destruct (size w <? 12) eqn:Ew; [done|]. apply Z.ltb_ge in Ew. destruct (negb _); [done|].
  destruct (_ <? size w); [done|]. destruct (_ && _); [done|]. destruct (_ || _); [done|].
  assert (forall r, size (_header_only w r) <= size w) as Hh by (intros r; by rewrite header_size).
  destruct (_ && _); [intros [= <- <- <-]; apply Hh|]. destruct (from_wire w) as [msg|]; [|intros [= <- <- <-]; apply Hh].
  destruct (negb _); [intros [= <- <- <-]; apply Hh|]. unfold serve_parsed. intros H. specialize (Hnokey msg eq_refl).
  pose proof (verify_request_key ev w msg (_replay_key msg) s Hnokey) as Ho. apply bind_inv in H as (res & s1 & Ev & H). rewrite Ev in Ho. cbn in Ho.
  destruct (outcome res) eqn:Eo; try (exfalso; set_solver).
  - unfold process_unsigned in H. apply bind_inv in H as (b & s2 & _ & H). destruct b as [[r e]|]; [|injection H as H _ _; by apply servfail_size].
    destruct (_render_unsigned _ _) as [out|] eqn:Er; [|injection H as H _ _; by apply servfail_size].
    injection H as -> _ _. by eapply render_unsigned_size.
  - injection H as <- _ _. apply Hh.
  - injection H as H _ _. destruct (_tsig_error _ _ _ _ _) as [out|] eqn:Et; [subst out; eapply tsig_error_size; eauto|by apply servfail_size].
  - injection H as H _ _. destruct (_tsig_error _ _ _ _ _) as [out|] eqn:Et; [subst out; eapply tsig_error_size; eauto|by apply servfail_size].
Qed.

(** ** Zones *)

Lemma same_name_spec a b : same_name a b = true <-> canonicalize a = canonicalize b.
Proof. apply bool_decide_eq_true. Qed.
Lemma canonicalize_length n : length (canonicalize n) = length n.
Proof. apply length_fmap. Qed.
Lemma name_in_spec n l : name_in n l = true <-> exists z, z ∈ l /\ canonicalize n = canonicalize z.
Proof.
  unfold name_in. rewrite existsb_exists. split; intros (z & Hz & E); exists z.
  - by rewrite list_elem_of_In, <- same_name_spec.
  - by rewrite <- list_elem_of_In, same_name_spec.
Qed.

(* a suffix of the labels, read without case *)
Lemma canonical_suffix k n : k `suffix_of` canonicalize n <-> exists p, p `suffix_of` n /\ canonicalize p = k.
Proof.
  split; [|intros (p & [q ->] & <-); exists (canonicalize q); apply fmap_app]. intros [q E]. exists (drop (length q) n).
  split; [exists (take (length q) n); by rewrite take_drop|]. unfold canonicalize in *. by rewrite fmap_drop, E, drop_app_length.
Qed.

Lemma suffix_cons_cases {A} (p : list A) l n : p `suffix_of` l :: n -> p = l :: n \/ p `suffix_of` n.
Proof. intros [[|x q] E]; [by left|]. injection E as -> E. right. by exists q. Qed.

Lemma elem_name_chain p n : p ∈ (name_chain n ++ [[]])%list <-> p `suffix_of` n.
Proof.
  induction n as [|l n IH]; cbn [name_chain app].
  - rewrite elem_of_cons, elem_of_nil. split; [intros [->|[]]; done|]. intros ?%suffix_nil_inv. by left.
  - rewrite elem_of_cons, IH. split; [intros [->|H]; [done|by apply suffix_cons_r]|]. intros [->|H]%suffix_cons_cases; auto.
Qed.
Lemma is_subdomain_spec n zone : is_subdomain n zone = true <-> canonicalize zone `suffix_of` canonicalize n.
Proof.
  unfold is_subdomain. rewrite existsb_exists, canonical_suffix. split.
  - intros (p & Hp%list_elem_of_In%elem_name_chain & E%same_name_spec). by exists p.
  - intros (p & Hp & E). exists p. rewrite <- list_elem_of_In, elem_name_chain, same_name_spec. done.
Qed.

Lemma elem_above p n : p ∈ above n <-> p `suffix_of` n /\ (2 <= length p < length n)%nat.
Proof.
  induction n as [|l n IH]; cbn [above]; [rewrite elem_of_nil; split; [done|intros [_ ?]; cbn in *; lia]|].
  destruct (2 <? length (l :: n))%nat eqn:E.
  - apply Nat.ltb_lt in E. cbn in E. rewrite elem_of_cons, IH. split.
    + intros [->|[H1 H2]]; (split; [by apply suffix_cons_r|cbn; lia]).
    + intros [[->|H]%suffix_cons_cases Hl]; [cbn in Hl; lia|]. cbn in Hl.
      destruct (decide (length p = length n)) as [El|El]; [left|right; split; [done|lia]].
      destruct H as [q ->]. rewrite length_app in El. destruct q; [done|cbn in El; lia].
  - apply Nat.ltb_ge in E. rewrite elem_of_nil. split; [done|]. intros [_ ?]. lia.
Qed.

Lemma load_zones_length d zone : zone ∈ load_zones d -> (2 <= length zone)%nat.
Proof.
  unfold load_zones. intros (stored & _ & H)%list_elem_of_omap. destruct (nonempty _); [|done]. destruct (from_text _) as [z|]; [|done].
  destruct (length z <? 2)%nat eqn:E; [done|]. apply Nat.ltb_ge in E. by injection H as <-.
Qed.

(** The listener is authoritative exactly for the names of two labels or more that lie
    on the path of a registered domain: the domain itself, a name above it or a name
    below it, whatever the case of the letters. *)
Theorem authoritative_iff (d : tables) (now : Z) (zname : name) :
  is_authoritative (ensure_zones d true now new_zone_index) zname = true
  <-> (2 <= length zname)%nat
      /\ exists zone, zone ∈ load_zones d /\ (is_subdomain zname zone = true \/ is_subdomain zone zname = true).
Proof.
  unfold is_authoritative. cbn [ensure_zones new_zone_index z_loaded_at z_retry_at zones z_ancestors].
  destruct (length zname <? 2)%nat eqn:El; [apply Nat.ltb_lt in El; split; [done|intros [? _]; lia]|]. apply Nat.ltb_ge in El.
  rewrite !orb_true_iff, !name_in_spec, existsb_exists. setoid_rewrite is_subdomain_spec. setoid_rewrite canonical_suffix. split.
  - intros H. split; [done|]. destruct H as [[(z & Hz & E)|(p & (zs & Hp & Hz)%list_elem_of_join & E)]|(p & Hp%list_elem_of_In & (z & Hz & E)%name_in_spec)].
    + exists z. split; [done|]. left. exists zname. done.
    + apply list_elem_of_fmap in Hz as (z & -> & Hz). apply elem_above in Hp as [Hp _]. exists z. split; [done|]. right. by exists p.
    + apply elem_above in Hp as [Hp _]. exists z. split; [done|]. left. by exists p.
  - intros [_ (z & Hz & [(p & Hp & E)|(p & Hp & E)])]; pose proof (load_zones_length d z Hz);
      pose proof (f_equal length E) as Hl; rewrite !canonicalize_length in Hl; pose proof (suffix_length _ _ Hp).
    + destruct (decide (length p = length zname)) as [Hq|Hq].
      * left. left. exists z. destruct Hp as [q ->]. rewrite length_app in Hq. destruct q; [done|cbn in Hq; lia].
      * right. exists p. rewrite <- list_elem_of_In, elem_above, name_in_spec. split; [split; [done|lia]|by exists z].
    + left. destruct (decide (length p = length z)) as [Hq|Hq].
      * left. exists z. destruct Hp as [q ->]. rewrite length_app in Hq. destruct q; [done|cbn in Hq; lia].
      * right. exists p. split; [|done]. apply list_elem_of_join. exists (above z). rewrite elem_above. split; [split; [done|lia]|].
        by apply list_elem_of_fmap_2.
Qed.

(** ** Queries *)

(* the zone of a row, answered at its apex or for a name between the apex and the record *)
Definition answers (qname : name) (row : ActiveRecord) (r : response) : Prop :=
  exists zone soa, from_text (a_zone_name row) = Some zone /\ _soa_rrset zone = Some soa
    /\ ((same_name qname zone = true /\ r_answer r = [soa] /\ r_authority r = [])
        \/ (is_subdomain qname zone = true /\ r_answer r = [] /\ r_authority r = [soa]
            /\ exists owner, from_text (a_record_name row) = Some owner /\ is_subdomain owner qname = true)).

Lemma apex_answer_row qname r0 l r : apex_answer qname r0 l = Some (Some r) -> exists row, row ∈ l /\ answers qname row r.
Proof.
  induction l as [|row l IH]; [done|]. cbn [apex_answer]. destruct (from_text (a_zone_name row)) as [zone|] eqn:Ez; [|done]. cbn.
  destruct (same_name qname zone) eqn:Es.
  - destruct (_soa_rrset zone) as [soa|] eqn:Eo; [|done]. cbn. intros [= <-]. exists row. split; [by left|].
    exists zone, soa. split_and!; try done. by left.
  - intros (x & Hx & Ha)%IH. exists x. split; [by right|done].
Qed.
Lemma between_answer_row qname r0 l r : between_answer qname r0 l = Some (Some r) -> exists row, row ∈ l /\ answers qname row r.
Proof.
  induction l as [|row l IH]; [done|]. cbn [between_answer]. destruct (from_text (a_zone_name row)) as [zone|] eqn:Ez; [|done]. cbn.
  assert ((exists x, x ∈ l /\ answers qname x r) -> exists x, x ∈ row :: l /\ answers qname x r) as Hl
    by (intros (x & Hx & Ha); exists x; split; [by right|done]).
  destruct (negb _ && is_subdomain qname zone) eqn:Es; [|by intros ?%IH%Hl]. apply andb_true_iff in Es as [_ Es].
  destruct (from_text (a_record_name row)) as [owner|] eqn:Eo; [|done]. cbn. destruct (is_subdomain owner qname) eqn:En; [|by intros ?%IH%Hl].
  destruct (_soa_rrset zone) as [soa|] eqn:Ea; [|done]. cbn. intros [= <-]. exists row. split; [by left|].
  exists zone, soa. split_and!; try done. right. split_and!; try done. by exists owner.
Qed.

(** A query is answered with a zone only for an SOA question, from a row the snapshot
    still shows, at the zone's apex or on the way from it to the record; a query that a
    key signed sees only rows the key may act for. *)
Theorem soa_answer_visible (ev : env) (msg : message) (res : TsigResult) (s s' : listener) (r : response)
    (Hrun : _query ev msg (_skeleton msg) res s = (Some r, s')) (Hok : r_rcode r = 0) :
  exists q row, questions msg = [q] /\ q_type q = SOA /\ q_class q = IN /\ row ∈ soa_rows (view ev s).2
    /\ answers (q_name q) row r
    /\ (forall key, outcome res = Verified -> r_key res = Some key ->
          exists sc, scopes (view ev s).1 !! key_id key = Some sc /\ allows sc (a_client_account row) (a_account row) = true).
Proof.
  revert Hrun. unfold _query. destruct (questions msg) as [|q [|? ?]] eqn:Eq; [by intros [= <- _]| |by intros [= <- _]].
  destruct (q_class q =? IN) eqn:Ec; [|by intros [= <- _]]. destruct (q_type q =? SOA) eqn:Et; [|by intros [= <- _]]. cbn [negb orb].
  intros H. apply bind_inv in H as (snap & s1 & E1 & H). pose proof (snapshot_now_eq ev s) as Hs. pose proof (snapshot_now_view ev s) as V1.
  rewrite E1 in Hs, V1. cbn [fst snd] in Hs, V1. subst snap. set (found := mjoin _) in H.
  assert (forall row, row ∈ found -> row ∈ soa_rows (view ev s).2) as Hf.
  { intros row (l & Hr & (n & -> & _)%list_elem_of_fmap)%list_elem_of_join. by apply list_elem_of_In, filter_In in Hr as [?%list_elem_of_In _]. }
  destruct found as [|row0 found'] eqn:Ef; [by injection H as <- _|]. rewrite <- Ef in *. clear Ef.
  apply bind_inv in H as (visible & s2 & Ev & H).
  assert (forall row, row ∈ visible -> row ∈ soa_rows (view ev s).2 /\ (forall key, outcome res = Verified -> r_key res = Some key ->
      exists sc, scopes (view ev s).1 !! key_id key = Some sc /\ allows sc (a_client_account row) (a_account row) = true)) as Hv.
  { intros row Hrow. destruct (outcome res) eqn:Eo; try by (injection Ev as <- <-; split; [by apply Hf|]).
    destruct (r_key res) as [key|] eqn:Ek; [|injection Ev as <- <-; split; [by apply Hf|done]].
    apply bind_inv in Ev as (scope & s3 & Es & [= <- <-]). pose proof (scope_of_eq ev (key_id key) s1) as Hsc. rewrite Es, V1 in Hsc. cbn [fst] in Hsc.
    destruct scope as [sc|]; [|by apply elem_of_nil in Hrow]. apply list_elem_of_In, filter_In in Hrow as [Hrow%list_elem_of_In Ha].
    split; [by apply Hf|]. intros k _ [= <-]. by exists sc. }
  injection H as H _. apply Z.eqb_eq in Ec, Et. exists q.
  destruct (apex_answer _ _ visible) as [[r1|]|] eqn:Ea; [| |done]; cbn in H.
  - injection H as ->. apply apex_answer_row in Ea as (row & Hrow & Ha). exists row. destruct (Hv row Hrow). done.
  - destruct (between_answer _ _ visible) as [[r1|]|] eqn:Eb; [| |done]; cbn in H; injection H as <-; [|done].
    apply between_answer_row in Eb as (row & Hrow & Ha). exists row. destruct (Hv row Hrow). done.
Qed.
End Limits.
