(* ===== verification/DnsUpdateRecords.v ===== *)
(** * DnsUpdateRecords: the values a client may publish

    Models the writes of [backend/services/acme/dns_update/records.py]: the expected TXT
    values of proxy orders, stored for the listener and closed again. Each insertion runs
    in a savepoint of its own; every write is best effort, and a commit that fails drops
    the writes of the call. *)

From Stdlib Require Import Ascii String.
From stdpp Require Import prelude strings gmap.
From S2P Require Import Prelude DomainMatch DnsUpdateModel.

Local Open Scope string_scope.
Local Open Scope Z_scope.

(* base64url of the SHA-256 digest, without padding *)
Class Digest := sha256_b64url : string -> string.

Record proxy_order := { o_id : option Z; o_thumbprint : option string; o_client_account : option Z; o_account : option string }.

Definition _CHALLENGE_LABEL : string := "_acme-challenge".
Definition FAILED_STATES : list string := ["invalid"; "expired"; "deactivated"; "revoked"].
Definition is_failed_state (status : option string) : bool := match status with Some s => str_in s FAILED_STATES | None => false end.

(* the name without spaces, case, final dots and wildcard *)
Definition bare_identifier (s : string) : string :=
  let n := rstrip_char "." (lower (strip s)) in if startswith n "*." then sdrop 2 n else n.
Definition record_name_for (identifier : string) : string := _CHALLENGE_LABEL ++ "." ++ bare_identifier identifier ++ ".".

Definition zone_for (d : tables) (identifier : string) : option string :=
  row ← find (acme_domains d) (Some identifier);
  matched ← text_set (row_domain row);
  zone ← text_set (Some (bare_identifier matched));
  Some (zone ++ ".").

Section Records.
Context {G : Digest}.

Definition expected_value (token thumbprint : string) : string := sha256_b64url (token ++ "." ++ thumbprint).

(* what the database answers: the query, each insertion, the purge, the commit *)
Record persist_env := { p_now : Z; p_query : bool; p_zone : bool; p_inserts : list bool; p_purge : bool; p_commit : bool; p_next_id : Z }.

(* one entry per order, the first *)
Fixpoint unique_orders (seen : list Z) (l : list proxy_order) : list (Z * proxy_order) :=
  match l with
  | [] => []
  | o :: l' => match o_id o with
               | None => unique_orders seen l'
               | Some i => if existsb (Z.eqb i) seen then unique_orders seen l' else (i, o) :: unique_orders (i :: seen) l'
               end
  end.

(* the order, its thumbprint and the value expected of it *)
Definition wanted (token : string) (l : list (Z * proxy_order)) : list (Z * proxy_order * string * string) :=
  omap (fun '(i, o) => t ← text_set (o_thumbprint o); Some (i, o, t, expected_value token t)) l.

Definition holds (rn : string) (i : Z) (v : string) (l : list AcmeProxyDnsChallenge) : bool :=
  existsb (fun c => (c_order c =? i) && (record_name c =? rn)%string && (txt_value c =? v)%string) l.

Definition new_row (pe : persist_env) (id : Z) (rn zone identifier : string) (url : option string) (expires : Z)
    (x : Z * proxy_order * string * string) : AcmeProxyDnsChallenge :=
  let '(i, o, t, v) := x in
  {| c_id := id; c_order := i; c_client_account := o_client_account o; c_account := o_account o; c_thumbprint := t;
     c_identifier := identifier; record_name := rn; txt_value := v; zone_name := zone; challenge_url := url; c_status := "pending";
     c_created_at := p_now pe; c_expires_at := expires; client_confirmed_at := None |}.

(* the rows after the insertions, and how many went through *)
Fixpoint insert_rows (mk : Z -> Z * proxy_order * string * string -> AcmeProxyDnsChallenge) (rn : string)
    (existing : list AcmeProxyDnsChallenge) (outcomes : list bool) (next : Z) (l : list (Z * proxy_order * string * string))
    (rows : list AcmeProxyDnsChallenge) : list AcmeProxyDnsChallenge * Z :=
  match l with
  | [] => (rows, 0)
  | (i, o, t, v) :: l' =>
      if holds rn i v existing then insert_rows mk rn existing outcomes next l' rows
      else if holds rn i v rows || negb (hd true outcomes)
      then insert_rows mk rn existing (tl outcomes) next l' rows
      else let '(rows', n) := insert_rows mk rn existing (tl outcomes) (next + 1) l' (rows ++ [mk next (i, o, t, v)])%list in
           (rows', n + 1)
  end.

Definition persist_expected_values (pe : persist_env) (orders : list proxy_order) (identifier token : string) (url : option string)
    (authz_expires : option Z) (d : tables) (cache : ActiveRecordCache) : Z * tables * ActiveRecordCache :=
  let rn := record_name_for identifier in
  let l := wanted token (unique_orders [] orders) in
  let limit := p_now pe + ACTIVE_MAX_AGE in
  let expires := match authz_expires with Some e => if e <? limit then e else limit | None => limit end in
  match l with
  | [] => (0, d, cache)
  | _ =>
      if negb (p_query pe) then (0, d, cache)
      else if forallb (fun '(i, _, _, v) => holds rn i v (challenges d)) l then (0, d, cache)
      else match (if p_zone pe then zone_for d identifier else None) with
           | None => (0, d, cache)
           | Some zone =>
               let mk id x := new_row pe id rn zone (bare_identifier identifier) url expires x in
               let '(rows, n) := insert_rows mk rn (challenges d) (p_inserts pe) (p_next_id pe) l (challenges d) in
               let kept := if p_purge pe then List.filter (fun c => negb (c_expires_at c <? p_now pe - PURGE_AFTER)) rows else rows in
               if p_commit pe then (n, with_challenges (fun _ => kept) d, if 0 <? n then invalidate_cache cache else cache)
               else (0, d, cache)
           end
  end.

(* whether the update and the commit go through *)
Record close_env := { x_update : bool; x_commit : bool }.
Definition close_row (c : AcmeProxyDnsChallenge) : AcmeProxyDnsChallenge :=
  {| c_id := c_id c; c_order := c_order c; c_client_account := c_client_account c; c_account := c_account c;
     c_thumbprint := c_thumbprint c; c_identifier := c_identifier c; record_name := record_name c; txt_value := txt_value c;
     zone_name := zone_name c; challenge_url := challenge_url c; c_status := "closed"; c_created_at := c_created_at c;
     c_expires_at := c_expires_at c; client_confirmed_at := client_confirmed_at c |}.
Definition _close_where (xe : close_env) (p : AcmeProxyDnsChallenge -> bool) (d : tables) (cache : ActiveRecordCache)
    : tables * ActiveRecordCache :=
  if x_update xe && x_commit xe then
    (with_challenges (fmap (fun c => if (c_status c =? "pending")%string && p c then close_row c else c)) d, invalidate_cache cache)
  else (d, cache).
Definition close_for_order (xe : close_env) (order_id : option Z) (d : tables) (cache : ActiveRecordCache) : tables * ActiveRecordCache :=
  match order_id with
  | None => (d, cache)
  | Some i => _close_where xe (fun c => c_order c =? i) d cache
  end.
Definition close_for_challenge_urls (xe : close_env) (urls : list string) (d : tables) (cache : ActiveRecordCache)
    : tables * ActiveRecordCache :=
  match List.filter nonempty urls with
  | [] => (d, cache)
  | l => _close_where xe (fun c => match challenge_url c with Some u => str_in u l | None => false end) d cache
  end.

(** ** The rows stay well formed *)

Inductive write :=
| Persist (pe : persist_env) (orders : list proxy_order) (identifier token : string) (url : option string) (expires : option Z)
| CloseOrder (xe : close_env) (order_id : option Z)
| CloseUrls (xe : close_env) (urls : list string).

Definition apply_write (s : tables * ActiveRecordCache) (x : write) : tables * ActiveRecordCache :=
  match x with
  | Persist pe orders identifier token url expires =>
      let '(_, d, c) := persist_expected_values pe orders identifier token url expires s.1 s.2 in (d, c)
  | CloseOrder xe i => close_for_order xe i s.1 s.2
  | CloseUrls xe urls => close_for_challenge_urls xe urls s.1 s.2
  end.

Definition row_key (c : AcmeProxyDnsChallenge) : Z * string * string := (c_order c, record_name c, txt_value c).

(* a row of an order: its own thumbprint, accounts and value *)
Definition row_of (c : AcmeProxyDnsChallenge) (o : proxy_order) (token : string) : Prop :=
  o_id o = Some (c_order c) /\ o_thumbprint o = Some (c_thumbprint c) /\ o_client_account o = c_client_account c
  /\ o_account o = c_account c /\ txt_value c = expected_value token (c_thumbprint c).

Section WellFormed.
Variable asked : proxy_order -> string -> Prop.    (* the orders and tokens of the calls *)
Definition row_ok (c : AcmeProxyDnsChallenge) : Prop :=
  (exists o token, asked o token /\ row_of c o token)
  /\ c_expires_at c <= c_created_at c + ACTIVE_MAX_AGE
  /\ record_name c = _CHALLENGE_LABEL ++ "." ++ c_identifier c ++ ".".
Definition rows_ok (l : list AcmeProxyDnsChallenge) : Prop := NoDup (row_key <$> l) /\ forall c, c ∈ l -> row_ok c.

Lemma holds_spec rn i v l : holds rn i v l = true <-> (i, rn, v) ∈ row_key <$> l.
Proof.
  unfold holds. rewrite existsb_exists, list_elem_of_fmap. split.
  - intros (c & Hc%list_elem_of_In & H). rewrite !andb_true_iff, Z.eqb_eq, !String.eqb_eq in H. destruct H as [[<- <-] <-]. by exists c.
  - intros (c & [= -> -> ->] & Hc). exists c. rewrite !andb_true_iff, Z.eqb_eq, !String.eqb_eq. by rewrite <- list_elem_of_In.
Qed.

Lemma elem_unique_orders l : forall seen i o, (i, o) ∈ unique_orders seen l -> o ∈ l /\ o_id o = Some i.
Proof.
  induction l as [|o' l IH]; intros seen i o; cbn [unique_orders]; [by intros ?%elem_of_nil|].
  destruct (o_id o') as [j|] eqn:Ej; [|intros [H ?]%IH; split; [by right|done]].
  destruct (existsb (Z.eqb j) seen); [intros [H ?]%IH; split; [by right|done]|].
  intros [[= -> ->]|H]%elem_of_cons; [split; [by left|done]|]. apply IH in H as [H ?]. split; [by right|done].
Qed.

Lemma elem_wanted token orders i o t v : (i, o, t, v) ∈ wanted token (unique_orders [] orders) ->
  o ∈ orders /\ o_id o = Some i /\ o_thumbprint o = Some t /\ v = expected_value token t.
Proof.
  unfold wanted. intros ([j o'] & Hin & H)%list_elem_of_omap. destruct (o_thumbprint o') as [t'|] eqn:Et; cbn in H; [|done].
  destruct (nonempty t'); cbn in H; [|done]. injection H as -> -> -> <-. apply elem_unique_orders in Hin as [H1 H2]. done.
Qed.

Lemma insert_rows_ok mk rn existing l : forall outcomes next rows,
  (forall id x, x ∈ l -> row_ok (mk id x) /\ row_key (mk id x) = (x.1.1.1, rn, x.2)) -> rows_ok rows ->
  rows_ok (insert_rows mk rn existing outcomes next l rows).1.
Proof.
  induction l as [|[[[i o] t] v] l IH]; intros outcomes next rows Hmk Hrows; cbn [insert_rows]; [done|].
  assert (forall id x, x ∈ l -> row_ok (mk id x) /\ row_key (mk id x) = (x.1.1.1, rn, x.2)) as Hl by (intros; apply Hmk; by right).
  destruct (holds rn i v existing); [by apply IH|]. destruct (holds rn i v rows) eqn:Eh; [by apply IH|]. cbn [orb].
  destruct (negb _); [by apply IH|]. destruct (insert_rows _ _ _ _ _ _ _) as [rows' n] eqn:E. change rows' with (rows', n).1. rewrite <- E.
  destruct (Hmk next (i, o, t, v) ltac:(by left)) as [Ho Hk]. apply IH; [done|]. destruct Hrows as [Hnd Hok]. split.
  - rewrite fmap_app. apply NoDup_app. split; [done|]. split; [|apply NoDup_singleton]. intros k Hin ->%list_elem_of_singleton.
    rewrite Hk in Hin. apply holds_spec in Hin. cbn in Hin. congruence.
  - intros c [Hc|E1%list_elem_of_singleton]%elem_of_app; [by apply Hok|by subst].
Qed.

Lemma rows_ok_filter f l : rows_ok l -> rows_ok (List.filter f l).
Proof.
  intros [Hnd Hok]. split; [|intros c [Hc%list_elem_of_In _]%list_elem_of_In%filter_In; by apply Hok].
  eapply sublist_NoDup; [exact Hnd|]. apply fmap_sublist. clear. induction l as [|c l IH]; cbn; [constructor|].
  destruct (f c); by constructor.
Qed.

Lemma rows_ok_close p l : rows_ok l -> rows_ok ((fun c => if (c_status c =? "pending")%string && p c then close_row c else c) <$> l).
Proof.
  intros [Hnd Hok]. split.
  - rewrite <- list_fmap_compose. erewrite list_fmap_ext; [exact Hnd|]. intros i c _. cbn. by destruct (_ && _).
  - intros c (c0 & -> & Hc)%list_elem_of_fmap. specialize (Hok c0 Hc). by destruct (_ && _).
Qed.

Definition within_asked (x : write) : Prop :=
  match x with Persist _ orders _ token _ _ => forall o, o ∈ orders -> asked o token | _ => True end.

Lemma write_ok s x : within_asked x -> rows_ok (challenges s.1) -> rows_ok (challenges (apply_write s x).1).
Proof.
  intros Ha Hr. assert (forall xe p, rows_ok (challenges (_close_where xe p s.1 s.2).1)) as Hc.
  { intros xe p. unfold _close_where. destruct (_ && _); [by apply rows_ok_close|done]. }
  destruct x as [pe orders identifier token url expires|xe [i|]|xe urls]; cbn [apply_write]; [|apply Hc|done|].
  2: { unfold close_for_challenge_urls. destruct (List.filter nonempty urls); [done|apply Hc]. }
  unfold persist_expected_values. destruct (wanted token (unique_orders [] orders)) as [|x0 l0] eqn:El; [done|]. rewrite <- El in *. clear El.
  destruct (negb _); [done|]. destruct (forallb _ _); [done|]. destruct (if p_zone pe then _ else _) as [zone|]; [|done].
  destruct (insert_rows _ _ _ _ _ _ _) as [rows n] eqn:Ei. destruct (p_commit pe); [|done]. cbn.
  assert (rows_ok rows) as Hrows; [|by destruct (p_purge pe); [apply rows_ok_filter|]].
  change rows with (rows, n).1. rewrite <- Ei. apply insert_rows_ok; [|done].
  intros id [[[i o] t] v] (Ho & Hi & Ht & ->)%elem_wanted. split; [|done]. split_and!; [|cbn|done].
  - exists o, token. split; [by apply Ha|]. by split_and!.
  - destruct expires as [e|]; [|lia]. destruct (e <? _) eqn:Ee; [apply Z.ltb_lt in Ee|]; lia.
Qed.
End WellFormed.

(** Whatever is stored and closed, and whatever writes and commits fail, no value is
    stored twice for an order and a name, and every row is one of its own order: it holds
    the value that the token and the order's own key thumbprint give, the accounts of the
    order, a challenge name, and it expires within a day. *)
Theorem expected_rows_well_formed (asked : proxy_order -> string -> Prop) (l : list write) (d : tables) (cache : ActiveRecordCache)
    (Hd : rows_ok asked (challenges d)) (Hl : Forall (within_asked asked) l) :
  rows_ok asked (challenges (fold_left apply_write l (d, cache)).1).
Proof.
  change d with (d, cache).1 in Hd. revert Hd. generalize (d, cache). induction Hl as [|x l Hx Hl IH]; intros s Hs; [done|].
  cbn. apply IH. by apply write_ok.
Qed.

(** ** What is closed stays closed *)

Section Closed.
Variable c : AcmeProxyDnsChallenge.
Definition closed_in (l : list AcmeProxyDnsChallenge) : Prop :=
  exists c', c' ∈ l /\ row_key c' = row_key c /\ c_status c' <> "pending" /\ c_expires_at c' = c_expires_at c.
Definition not_purged (x : write) : Prop :=
  match x with Persist pe _ _ _ _ _ => p_now pe - PURGE_AFTER <= c_expires_at c | _ => True end.

Lemma insert_rows_keeps mk rn existing l c' : forall outcomes next rows,
  c' ∈ rows -> c' ∈ (insert_rows mk rn existing outcomes next l rows).1.
Proof.
  induction l as [|[[[i o] t] v] l IH]; intros outcomes next rows Hin; cbn [insert_rows]; [done|].
  destruct (holds rn i v existing); [by apply IH|]. destruct (_ || _); [by apply IH|].
  destruct (insert_rows _ _ _ _ _ _ _) as [rows' n] eqn:E. change rows' with (rows', n).1. rewrite <- E. apply IH.
  apply elem_of_app. by left.
Qed.

Lemma write_closed s x : not_purged x -> closed_in (challenges s.1) -> closed_in (challenges (apply_write s x).1).
Proof.
  intros Hp Hc. assert (forall xe p, closed_in (challenges (_close_where xe p s.1 s.2).1)) as Hw.
  { intros xe p. unfold _close_where. destruct (_ && _); [|done]. destruct Hc as (c' & Hin & Hk & Hs & He). exists c'. split; [|done].
    apply list_elem_of_fmap. exists c'. split; [|done]. by rewrite (proj2 (String.eqb_neq _ _) Hs). }
  destruct x as [pe orders identifier token url expires|xe [i|]|xe urls]; cbn [apply_write]; [|apply Hw|done|].
  2: { unfold close_for_challenge_urls. destruct (List.filter nonempty urls); [done|apply Hw]. }
  unfold persist_expected_values. destruct (wanted token _) as [|x0 l0]; [done|]. destruct (negb _); [done|]. destruct (forallb _ _); [done|].
  destruct (if p_zone pe then _ else _) as [zone|]; [|done]. destruct (insert_rows _ _ _ _ _ _ _) as [rows n] eqn:Ei.
  destruct (p_commit pe); [|done]. cbn. destruct Hc as (c' & Hin & Hk & Hs & He). exists c'. split; [|done].
  assert (c' ∈ rows) as Hr by (change rows with (rows, n).1; rewrite <- Ei; by apply insert_rows_keeps).
  destruct (p_purge pe); [|done]. apply list_elem_of_In, filter_In. split; [by apply list_elem_of_In|].
  cbn in Hp. rewrite He. by apply negb_true_iff, Z.ltb_ge.
Qed.
End Closed.

(** A value that was closed is not accepted again: whatever is stored and closed later,
    until a week after its expiry no load of the active rows has the value for that order
    at that name. *)
Theorem closed_value_stays_closed (asked : proxy_order -> string -> Prop) (l : list write) (d : tables) (cache : ActiveRecordCache)
    (c : AcmeProxyDnsChallenge) (t : Z) (r : ActiveRecord)
    (Hd : rows_ok asked (challenges d)) (Hl : Forall (within_asked asked) l)
    (Hc : c ∈ challenges d) (Hs : c_status c = "closed") (Hp : Forall (not_purged c) l)
    (Hr : r ∈ active_rows (load_rows (fold_left apply_write l (d, cache)).1 t)) :
  (a_order r, a_record_name r, a_txt_value r) <> row_key c.
Proof.
  assert (rows_ok asked (challenges (d, cache).1) /\ closed_in c (challenges (d, cache).1)) as H0.
  { split; [done|]. exists c. rewrite Hs. by split_and!. }
  clear Hd Hc Hs. revert H0 Hr. generalize (d, cache). induction l as [|x l IH]; intros s [H1 H2]; cbn [fold_left].
  - intros (c1 & -> & Hin)%list_elem_of_fmap. apply list_elem_of_In, filter_In in Hin as [Hin Ha].
    apply filter_In in Hin as [Hin%list_elem_of_In _]. unfold is_active in Ha. rewrite !andb_true_iff, String.eqb_eq in Ha.
    destruct Ha as [[Hpend _] _]. destruct H2 as (c' & Hin' & Hk & Hs & _). intros E. change (row_key c1 = row_key c) in E.
    assert (c1 = c') as ->; [|by rewrite Hpend in Hs]. destruct H1 as [Hnd _]. rewrite <- Hk in E.
    apply list_elem_of_lookup in Hin as [i Hi]. apply list_elem_of_lookup in Hin' as [j Hj].
    assert (i = j) as ->; [|congruence]. eapply NoDup_lookup; [exact Hnd|..]; rewrite list_lookup_fmap; [by rewrite Hi|by rewrite Hj; cbn; rewrite E].
  - apply Forall_cons in Hl as [Hx Hl], Hp as [Hp Hps]. apply IH; [done..|]. split; [by apply write_ok|by apply write_closed].
Qed.
End Records.
