(* ===== verification/DnsUpdateExamples.v ===== *)
(** * DnsUpdateExamples: the DNS UPDATE listener on concrete packets

    A small instance of the DNS library in which a name is one byte, tables with one key
    and one expected value, and packets on them: the hypotheses of the theorems of
    [DnsUpdateHistory], [DnsUpdateReplay], [DnsUpdateLimits] and [DnsUpdateRecords] hold there. Two lemmas show
    what the code does not rule out. *)

From Stdlib Require Import Ascii String.
From stdpp Require Import prelude strings gmap.
From S2P Require Import Prelude DomainMatch DnsUpdateModel DnsUpdateHandler DnsUpdateSafety DnsUpdateHistory DnsUpdateReplay DnsUpdateLimits DnsUpdateRecords.

Local Open Scope string_scope.
Local Open Scope Z_scope.

Module Sample.

Definition names : list name := [["example"; "com"]; ["_acme-challenge"; "host"; "example"; "com"]; ["key1"]].

(* header, zone, one TXT record, the TSIG record with one byte of data *)
Definition packet (id k : Z) : wire :=
  [0; id; 40; 0; 0; 1; 0; 0; 0; 1; 0; 1;
   0; 0; 6; 0; 1;
   1; 0; 16; 0; 1; 0; 0; 0; 60; 0; 0;
   2; 0; 250; 0; 255; 0; 0; 0; 0; 0; 1; k].

Definition full_mac (k : Z) : wire := replicate 32 k.
Definition parsed (w : wire) : option message :=
  let k := byte w 39 in
  if (length w =? 40)%nat then
    Some {| m_id := u16 w 0; m_flags := u16 w 2; edns := -1; payload := 0;
            questions := [{| q_name := ["example"; "com"]; q_type := SOA; q_class := IN |}]; prerequisites := [];
            updates := [{| rr_name := ["_acme-challenge"; "host"; "example"; "com"]; rr_type := TXT; deleting := None;
                           rdatas := [["value"]] |}];
            other_sections := [];
            tsig := Some (["key1"], {| t_algorithm := HMAC_SHA256; time_signed := 1000 + 300 * k; fudge := 300; mac := full_mac k;
                                       original_id := 1; t_error := 0; t_other := [] |}) |}
  else None.

#[export] Instance sample_dns : DnsLibrary := {|
  to_text := fun n => join "." n ++ ".";
  from_text := fun t => Some (split "." (rstrip_char "." t));
  from_wire := parsed;
  name_from_wire := fun w p => (fun n => (n, S p)) <$> nth_error names (Z.to_nat (byte w p));
  to_wire := fun _ r => Some (pack16 (m_id (r_to r)) ++ [168; r_rcode r; 0; 0; 0; 0; 0; 0; 0; 0])%list;
  tsig_to_wire := fun _ t => 250 :: mac t;
  sign := fun _ key _ _ _ => Some (full_mac 9);
  validate := fun _ key _ _ _ => if bool_decide (key_secret key = [1; 2; 3]) then MacValid else BadSignature;
  b64decode := fun s => if (s =? "AQID")%string then Some [1; 2; 3] else None;
  mac_size := fun _ => 32;
|}.

Definition key_row (status : string) : AcmeDnsUpdateKey :=
  {| k_id := 1; acme_client_account_id := 7; eab_credential_id := None; eab_bound_col := false; k_name := "key1.";
     k_algorithm := "hmac-sha256"; k_secret := Some "AQID"; k_status := status; last_used_at := None |}.
Definition expected_row (status : string) : AcmeProxyDnsChallenge :=
  {| c_id := 11; c_order := 5; c_client_account := Some 7; c_account := None; c_thumbprint := "t"; c_identifier := "host.example.com";
     record_name := "_acme-challenge.host.example.com."; txt_value := "value"; zone_name := "example.com."; challenge_url := None;
     c_status := status; c_created_at := 0; c_expires_at := 100000 * second; client_confirmed_at := None |}.
Definition data (key row : string) : tables :=
  {| update_keys := [key_row key]; proxy_enabled := [7]; eab_rows := []; acme_domains := [{| row_domain := Some "example.com"; auto_approve := false; is_wildcard_allowed := None; issuing_ca_id := None |}];
    
     challenges := [expected_row row]; client_orders := [(5, "pending")] |}.
Definition at_second (t : Z) (loads : bool) : env :=
  {| wall := t * second; mono := t * second; tcp := false; keys_load := loads; zones_load := loads; rows_load := loads;
     confirm_commits := true; touch_commits := true |}.

Definition start : listener := started (data "active" "pending").
Definition material : TsigKeyMaterial := {| key_id := 1; key_name := ["key1"]; key_algorithm := HMAC_SHA256; key_secret := [1; 2; 3] |}.
Definition done_event : event :=
  {| e_kind := Accepted; e_reason := ""; e_zone := "example.com."; e_names := ["_acme-challenge.host.example.com."];
     e_adds := 1; e_deletes := 0; e_rows := [11] |}.
Definition reply (id : Z) : wire := ([0; id; 168; 0; 0; 0; 0; 0; 0; 0; 0; 1; 250] ++ full_mac 9)%list.

Definition served : listener := (handle (at_second 1000 true) (packet 1 0) start).2.
Lemma first_copy : handle (at_second 1000 true) (packet 1 0) start = ((Some (reply 1), Some (done_event, material)), served).
Proof.
  assert ((handle (at_second 1000 true) (packet 1 0) start).1 = (Some (reply 1), Some (done_event, material))) as H by (vm_compute; reflexivity).
  unfold served. destruct (handle _ _ _) as [a s]. cbn in *. by rewrite H.
Defined.

(* three seconds after a request that loaded the caches, and a write to the tables *)
Definition past : list action := [Serve (at_second 1000 true) (packet 1 0); Change (data "active" "closed")].
Definition again : LM answer := handle (at_second 1003 true) (packet 2 1).
Lemma second_update : again (run past start) = ((Some (reply 2), Some (done_event, material)), (again (run past start)).2).
Proof.
  assert ((again (run past start)).1 = (Some (reply 2), Some (done_event, material))) as H by (vm_compute; reflexivity).
  destruct (again (run past start)) as [a s]. cbn in *. by rewrite H.
Defined.
Lemma accepted_was_expected_witness : exists dk k c, keys_of (data "active" "pending") past (at_second 1003 true) dk
  /\ key_of_row dk k material /\ c_id c = 11 /\ exists d' t, rows_of (data "active" "pending") past (at_second 1003 true) d' t /\ awaited d' t c.
Proof.
  destruct (accepted_was_expected (data "active" "pending") past (at_second 1003 true) (packet 2 1) _ (Some (reply 2)) done_event
    material second_update eq_refl) as (dk & k & msg & owner & t & Hk & Hr & _ & _ & _ & _ & _ & _ & Hi).
  destruct (Hi 11) as (u & x & c & _ & _ & _ & (Hc & _) & E); [left|]. exists dk, k, c. auto.
Defined.

(* the key is revoked, the reload fails *)
Definition revoked_tables : tables := data "revoked" "pending".
Lemma revoked_unusable : unusable "key1." revoked_tables.
Proof. intros k mat sc ->%list_elem_of_singleton. done. Qed.
Definition after_revocation : listener := step (step served (Change revoked_tables)) InvalidateKeys.
Lemma revoked_key_refused_witness : (handle (at_second 1001 false) (packet 2 0) after_revocation).1.2 = None.
Proof.
  destruct (handle (at_second 1001 false) (packet 2 0) after_revocation) as [a s'] eqn:E.
  refine (revoked_key_refused "key1." (step served (Change revoked_tables)) s' [] (at_second 1001 false) (packet 2 0) a _ ["key1"] _
            _ _ eq_refl eq_refl _ E); [exact revoked_unusable|constructor|vm_compute; reflexivity].
Defined.

(* a copy with another header ID, ten minutes later *)
Lemma carried_out_once_witness : (handle (at_second 1600 true) (packet 2 0) served).1.2 = None.
Proof.
  destruct (handle (at_second 1600 true) (packet 2 0) served) as [a s'] eqn:E.
  refine (carried_out_once (at_second 1000 true) (at_second 1600 true) (packet 1 0) (packet 2 0) start served s' [] (reply 1) done_event
            material a _ _ ["key1"] ["key1"] _ _ _ first_copy eq_refl eq_refl eq_refl eq_refl _ _ _ _ _ E).
  - constructor.
  - split; reflexivity.
  - vm_compute. reflexivity.
  - exact I.
  - vm_compute. discriminate.
  - vm_compute. lia.
Defined.

(* no key: BADKEY, shorter than the request *)
Definition no_key : listener := started revoked_tables.
Lemma unverified_answer_bounded_witness :
  match handle (at_second 1000 true) (packet 1 0) no_key with ((Some o, _), _) => size o <= 40 | _ => False end.
Proof.
  destruct (handle (at_second 1000 true) (packet 1 0) no_key) as [[[o|] x] s'] eqn:E; [|vm_compute in E; discriminate E].
  refine (unverified_answer_bounded (at_second 1000 true) (packet 1 0) no_key s' o x _ _ E); [reflexivity|].
  intros msg [= <-]. vm_compute. reflexivity.
Defined.

Definition soa_query : message :=
  {| m_id := 1; m_flags := 0; edns := -1; payload := 0; questions := [{| q_name := ["example"; "COM"]; q_type := SOA; q_class := IN |}];
     prerequisites := []; updates := []; other_sections := []; tsig := None |}.
Definition unsigned : TsigResult := {| outcome := Unsigned; r_key := None; keyname := None; rdata := None; replayed := false |}.
Lemma soa_answer_visible_witness : exists q row, questions soa_query = [q] /\ row ∈ soa_rows (view (at_second 1000 true) start).2.
Proof.
  destruct (_query (at_second 1000 true) soa_query (_skeleton soa_query) unsigned start) as [[r|] s'] eqn:E; [|vm_compute in E; discriminate E].
  assert (r_rcode r = 0) as Hr by (vm_compute in E; injection E as <- _; reflexivity).
  destruct (soa_answer_visible (at_second 1000 true) soa_query unsigned start s' r E Hr) as (q & row & H1 & _ & _ & H4 & _).
  exists q, row. split; [exact H1|exact H4].
Defined.

(* an order stored, its row closed, the same call again *)
#[export] Instance sample_digest : Digest := fun s => s.
Definition order : proxy_order := {| o_id := Some 5; o_thumbprint := Some "thumb"; o_client_account := Some 7; o_account := None |}.
Definition asked (o : proxy_order) (token : string) : Prop := o = order /\ token = "tok".
Definition storing : persist_env :=
  {| p_now := 0; p_query := true; p_zone := true; p_inserts := []; p_purge := true; p_commit := true; p_next_id := 1 |}.
Definition no_rows : tables := with_challenges (fun _ => []) (data "active" "pending").
Definition store : write := Persist storing [order] "host.example.com" "tok" None None.
Definition close : write := CloseOrder {| x_update := true; x_commit := true |} (Some 5).
Definition stored_rows : tables := (fold_left apply_write [store; close] (no_rows, new_record_cache)).1.

Lemma no_rows_ok : rows_ok asked (challenges no_rows).
Proof. split; [constructor|]. by intros c ?%elem_of_nil. Qed.
Lemma writes_asked : Forall (within_asked asked) [store; close].
Proof. repeat constructor. by apply list_elem_of_singleton in H. Qed.
Lemma expected_rows_well_formed_witness : rows_ok asked (challenges stored_rows) /\ length (challenges stored_rows) = 1%nat.
Proof.
  split; [|vm_compute; reflexivity]. exact (expected_rows_well_formed asked [store; close] no_rows new_record_cache no_rows_ok writes_asked).
Defined.

Lemma stored_rows_ok : rows_ok asked (challenges stored_rows).
Proof.
  apply (write_ok asked (fold_left apply_write [store] (no_rows, new_record_cache)) close I).
  apply (write_ok asked (no_rows, new_record_cache) store); [by intros o ->%list_elem_of_singleton|exact no_rows_ok].
Qed.
Definition closed_row : AcmeProxyDnsChallenge :=
  close_row (new_row storing 1 "_acme-challenge.host.example.com." "example.com." "host.example.com" None ACTIVE_MAX_AGE (5, order, "thumb", "tok.thumb")).
Definition more : list write := [store; Persist storing [order] "other.example.com" "tok" None None].
Definition other_row : ActiveRecord :=
  {| row_id := 1; a_order := 5; a_record_name := "_acme-challenge.other.example.com."; a_txt_value := "tok.thumb"; a_zone_name := "example.com.";
     a_client_account := Some 7; a_account := None |}.
Lemma closed_value_stays_closed_witness : (5, "_acme-challenge.other.example.com.", "tok.thumb") <> row_key closed_row.
Proof.
  refine (closed_value_stays_closed asked more stored_rows new_record_cache closed_row 1 other_row stored_rows_ok _ _ eq_refl _ _).
  - repeat constructor; by apply list_elem_of_singleton in H.
  - vm_compute. left.
  - repeat constructor; vm_compute; discriminate.
  - vm_compute. left.
Defined.

(** ** What is not ruled out *)

(* a signature as far ahead as is allowed is carried out again when its answer is forgotten *)
Lemma copy_in_the_last_second :
  let '(a1, s1) := handle (at_second 1000 true) (packet 1 1) start in
  let '(a2, s2) := handle (at_second 1600 true) (packet 2 1) s1 in
  a1.2 = Some (done_event, material) /\ a2.2 = Some (done_event, material).
Proof. vm_compute. auto. Qed.

(* the row is closed and the cache invalidated; while reloads fail its value is accepted *)
Lemma closed_row_accepted :
  let s1 := run [Change (data "active" "closed"); InvalidateRows] served in
  let '(a, s2) := handle {| wall := 1300 * second; mono := 1300 * second; tcp := false; keys_load := true; zones_load := true;
                            rows_load := false; confirm_commits := true; touch_commits := true |} (packet 2 1) s1 in
  a.2 = Some (done_event, material).
Proof. vm_compute. reflexivity. Qed.
End Sample.
