(* ===== verification/RevocationModel.v ===== *)
(** * RevocationModel: revoked certificates and what a CRL lists

    The tables behind the status of a certificate ([backend/models]: [Certificate], [CA],
    [RevokedSerial], [CACrossCertificate], [CRLMetadata], [OCSPResponse]), and the
    selection of CRL entries in [backend/services/crl/query.py] and
    [backend/services/crl/generation.py]. A table is the list of its rows by ascending
    key. Instants are microseconds; a call reads the clock once. What the code asks of a
    stored certificate is the class [X509]. *)

From Stdlib Require Import Ascii String.
From stdpp Require Import prelude strings.
From S2P Require Import Prelude Scalars Serials Session.

Local Open Scope string_scope.
Local Open Scope Z_scope.

(* the cryptography package, on a stored PEM *)
Class X509 := {
  cert_serial : string -> option Z;               (* None: the certificate cannot be read *)
  cert_key : string -> option string;             (* SubjectPublicKeyInfo *)
  cert_subject : string -> string;
  cert_issuer : string -> string;
  cert_not_after : string -> Z;
  cert_aki : string -> option string;             (* authority key identifier, as CA.ski spells it *)
  cert_ski : string -> option string;
  signed_by : string -> string -> option bool;    (* None: the check raises *)
  references : string -> string -> bool;          (* related_cert.references(b, a) *)
}.

(** ** Rows *)

(* the columns that say whether, since when and why *)
Record revocation := {
  revoked : bool; revoked_at : option Z; revoke_reason : option string; invalidity_at : option Z;
}.
Definition not_revoked : revocation :=
  {| revoked := false; revoked_at := None; revoke_reason := None; invalidity_at := None |}.

Record Certificate := {
  c_id : Z;
  c_caref : option string;
  c_serial : option string;
  c_crt : option string;
  c_rev : revocation;
  c_valid_to : option Z;
  c_archived : bool;
  c_related : option Z;
  c_issuer : option string;
  c_template : option Z;
  c_refid : string;
}.

Record CA := {
  a_id : Z;
  a_refid : string;
  a_caref : option string;
  a_subject : option string;
  a_issuer : option string;
  a_ski : option string;
  a_serial : option string;
  a_crt : option string;
  a_rev : revocation;
  a_valid_to : option Z;
  a_has_key : bool;
  a_offline : bool;
  a_cdp_enabled : bool;
  a_delta_enabled : bool;
  a_crl_days : option Z;
}.

Record RevokedSerial := {
  s_id : Z;
  s_caref : string;
  s_serial : string;
  s_revoked_at : Z;
  s_reason : option string;
  s_invalidity : option Z;
  s_valid_to : Z;
  s_certificate : option Z;
}.

Record CACrossCertificate := {
  x_id : Z;
  x_issuer_caref : option string;
  x_issuer : option string;
  x_serial : string;
  x_crt : option string;
  x_rev : revocation;
  x_valid_to : Z;
}.

(** ** Reasons: the table is [Scalars.REASON_FLAGS] *)

Definition _HOLD_REASONS : list string := ["certificateHold"; "certificate_hold"].

(** ** CRLs *)

Record crl_entry := {
  e_serial : Z; e_date : Z; e_reason : option ReasonFlags; e_invalidity : option Z;
}.

Record CRLMetadata := {
  m_ca : Z;
  m_number : Z;
  m_this_update : Z;
  m_next_update : Z;
  m_entries : list crl_entry;      (* what the stored DER lists *)
  m_delta : bool;
  m_base : option Z;
  m_external : bool;
}.

Inductive ocsp_status :=
| Good
| Revoked (at_ : Z) (reason : option ReasonFlags)
| Unknown.

Record OCSPResponse := {
  o_ca : Z;
  o_key : string;                  (* serial in hexadecimal, colon, hash algorithm *)
  o_status : ocsp_status;
  o_next_update : Z;
}.

Record db := {
  certs : list Certificate;
  cas : list CA;
  serials : list RevokedSerial;
  crosses : list CACrossCertificate;
  crls : list CRLMetadata;
  cache : list OCSPResponse;
  responders : list (Z * Z);       (* CA id, id of the certificate of its delegated responder *)
  settings : list (string * option string);
}.

Definition with_certs (f : list Certificate -> list Certificate) (d : db) : db :=
  {| certs := f (certs d); cas := cas d; serials := serials d; crosses := crosses d; crls := crls d;
     cache := cache d; responders := responders d; settings := settings d |}.
Definition with_cas (f : list CA -> list CA) (d : db) : db :=
  {| certs := certs d; cas := f (cas d); serials := serials d; crosses := crosses d; crls := crls d;
     cache := cache d; responders := responders d; settings := settings d |}.
Definition with_serials (f : list RevokedSerial -> list RevokedSerial) (d : db) : db :=
  {| certs := certs d; cas := cas d; serials := f (serials d); crosses := crosses d; crls := crls d;
     cache := cache d; responders := responders d; settings := settings d |}.
Definition with_crosses (f : list CACrossCertificate -> list CACrossCertificate) (d : db) : db :=
  {| certs := certs d; cas := cas d; serials := serials d; crosses := f (crosses d); crls := crls d;
     cache := cache d; responders := responders d; settings := settings d |}.
Definition with_crls (f : list CRLMetadata -> list CRLMetadata) (d : db) : db :=
  {| certs := certs d; cas := cas d; serials := serials d; crosses := crosses d; crls := f (crls d);
     cache := cache d; responders := responders d; settings := settings d |}.
Definition with_cache (f : list OCSPResponse -> list OCSPResponse) (d : db) : db :=
  {| certs := certs d; cas := cas d; serials := serials d; crosses := crosses d; crls := crls d;
     cache := f (cache d); responders := responders d; settings := settings d |}.
Definition with_responders (f : list (Z * Z) -> list (Z * Z)) (d : db) : db :=
  {| certs := certs d; cas := cas d; serials := serials d; crosses := crosses d; crls := crls d;
     cache := cache d; responders := f (responders d); settings := settings d |}.

(** ** Rows by key, and rows changed in place *)

Definition find_cert (d : db) (i : Z) : option Certificate := List.find (fun c => c_id c =? i) (certs d).
Definition find_ca (d : db) (i : Z) : option CA := List.find (fun a => a_id a =? i) (cas d).
Definition ca_by_refid (d : db) (ref : string) : option CA :=
  List.find (fun a => (a_refid a =? ref)%string) (cas d).

Definition update_where {A} (p : A -> bool) (f : A -> A) (l : list A) : list A :=
  (fun x => if p x then f x else x) <$> l.

Definition set_rev (v : revocation) (c : Certificate) : Certificate :=
  {| c_id := c_id c; c_caref := c_caref c; c_serial := c_serial c; c_crt := c_crt c; c_rev := v;
     c_valid_to := c_valid_to c; c_archived := c_archived c; c_related := c_related c;
     c_issuer := c_issuer c; c_template := c_template c; c_refid := c_refid c |}.
Definition set_related (r : option Z) (c : Certificate) : Certificate :=
  {| c_id := c_id c; c_caref := c_caref c; c_serial := c_serial c; c_crt := c_crt c; c_rev := c_rev c;
     c_valid_to := c_valid_to c; c_archived := c_archived c; c_related := r;
     c_issuer := c_issuer c; c_template := c_template c; c_refid := c_refid c |}.
Definition update_cert (i : Z) (f : Certificate -> Certificate) (d : db) : db :=
  with_certs (update_first (fun c => c_id c =? i) f) d.

(* an absent text and an empty one *)
Definition text_of (o : option string) : option string :=
  match o with Some "" => None | x => x end.

(** ** Records a CRL lists: certificates, CAs and revocation records alike *)

Inductive listed := LCert (c : Certificate) | LCa (a : CA) | LSerial (r : RevokedSerial).

Definition serial_view (l : listed) : serial_record :=
  match l with
  | LCert c => {| crt := c_crt c; serial_number := c_serial c |}
  | LCa a => {| crt := a_crt a; serial_number := a_serial a |}
  | LSerial r => {| crt := None; serial_number := Some (s_serial r) |}
  end.
Definition column (l : listed) : option string := serial_number (serial_view l).
Definition revoked_at_of (l : listed) : option Z :=
  match l with
  | LCert c => revoked_at (c_rev c) | LCa a => revoked_at (a_rev a) | LSerial r => Some (s_revoked_at r)
  end.
Definition reason_of (l : listed) : option string :=
  match l with
  | LCert c => revoke_reason (c_rev c) | LCa a => revoke_reason (a_rev a) | LSerial r => s_reason r
  end.
Definition invalidity_of (l : listed) : option Z :=
  match l with
  | LCert c => invalidity_at (c_rev c) | LCa a => invalidity_at (a_rev a) | LSerial r => s_invalidity r
  end.

(** ** services/crl/query.py *)

Definition _not_expired (valid_to : option Z) (now : Z) : bool :=
  match valid_to with None => true | Some v => now <? v end.

Definition opt_in (o : option string) (l : list string) : bool :=
  match o with Some s => str_in s l | None => false end.

(* order_by(revoked_at, id) *)
Fixpoint insert_serial (r : RevokedSerial) (l : list RevokedSerial) : list RevokedSerial :=
  match l with
  | [] => [r]
  | q :: l' => if s_revoked_at q <=? s_revoked_at r then q :: insert_serial r l' else r :: l
  end.
Definition by_revocation (l : list RevokedSerial) : list RevokedSerial :=
  fold_left (fun acc r => insert_serial r acc) l [].

Definition _TRUE_WORDS : list string := ["true"; "1"; "yes"; "on"].
Definition _setting_enabled (d : db) (key : string) : bool :=
  match dict_get (settings d) key with
  | Some (Some value) => str_in (lower (strip value)) _TRUE_WORDS
  | _ => false
  end.

Section Query.
Context `{!X509}.

Definition resolve (l : listed) : option Z := resolve_record_serial cert_serial (serial_view l).
Definition int_in (o : option Z) (l : list Z) : bool :=
  match o with Some n => bool_decide (n ∈ l) | None => false end.

(* every record of the issuer's subject and key *)
Definition same_key_refids (d : db) (ca : CA) : list string :=
  a_refid ca ::
  match a_crt ca ≫= cert_key with
  | None => []
  | Some wanted =>
      a_refid <$> List.filter (fun o => bool_decide (a_subject o = a_subject ca) && negb (a_id o =? a_id ca)
                                  && bool_decide (a_crt o ≫= cert_key = Some wanted)) (cas d)
  end.

Definition _revoked_child_cas (d : db) (ca : CA) (now : Z) : list CA :=
  List.filter (fun a => bool_decide (a_caref a = Some (a_refid ca)) && revoked (a_rev a)
                   && _not_expired (a_valid_to a) now) (cas d).

Fixpoint dedupe_live (seen_ints : list Z) (seen_columns : list string) (records : list listed) : list listed :=
  match records with
  | [] => []
  | r :: records' =>
      let seen_columns' := (option_list (column r) ++ seen_columns)%list in
      match resolve r with
      | Some n => if bool_decide (n ∈ seen_ints) then dedupe_live seen_ints seen_columns records'
                  else r :: dedupe_live (n :: seen_ints) seen_columns' records'
      | None => if opt_in (column r) seen_columns then dedupe_live seen_ints seen_columns records'
                else r :: dedupe_live seen_ints seen_columns' records'
      end
  end.
Definition _dedupe_live_records (records : list listed) : list listed := dedupe_live [] [] records.

(* a revocation that was lifted and that the record outlived *)
Definition lifted (d : db) (r : RevokedSerial) : bool :=
  match s_certificate r ≫= find_cert d with
  | Some holder => negb (revoked (c_rev holder))
                   && same_serial cert_serial (serial_view (LSerial r)) (serial_view (LCert holder))
  | None => false
  end.

Fixpoint keep_orphans (d : db) (columns : list string) (ints : list Z) (records : list RevokedSerial)
    : list RevokedSerial :=
  match records with
  | [] => []
  | r :: records' =>
      if str_in (s_serial r) columns || int_in (resolve (LSerial r)) ints
      then keep_orphans d columns ints records'
      else if lifted d r then keep_orphans d columns ints records'
      else r :: keep_orphans d (s_serial r :: columns)
                  (option_list (resolve (LSerial r)) ++ ints)%list records'
  end.
Definition _filter_orphan_serials (d : db) (records : list RevokedSerial) (live : list listed)
    : list RevokedSerial :=
  keep_orphans d (omap column live) (omap resolve live) records.

Definition live_certificates (d : db) (ca : CA) (now : Z) : list Certificate :=
  List.filter (fun c => opt_in (c_caref c) (same_key_refids d ca) && revoked (c_rev c)
                   && _not_expired (c_valid_to c) now) (certs d).
Definition persisted_records (d : db) (ca : CA) (now : Z) : list RevokedSerial :=
  by_revocation (List.filter (fun r => str_in (s_caref r) (same_key_refids d ca) && (now <? s_valid_to r))
    (serials d)).

Definition get_revoked_certificates (d : db) (ca : CA) (now : Z) : list listed :=
  let live := _dedupe_live_records ((LCert <$> live_certificates d ca now)
                                    ++ (LCa <$> _revoked_child_cas d ca now))%list in
  (live ++ (LSerial <$> _filter_orphan_serials d (persisted_records d ca now) live))%list.

(** ** services/crl/generation.py *)

Definition bit_length (n : Z) : Z := if n =? 0 then 0 else Z.log2 (Z.abs n) + 1.

Definition _parse_revoked_serial (l : listed) : option Z :=
  match resolve l with
  | None => None
  | Some n => if n <=? 0 then None else if 159 <? bit_length n then None else Some n
  end.

Definition _apply_revoke_reason (reason : option string) (is_delta : bool) : option ReasonFlags :=
  match text_of reason with
  | None => None
  | Some name =>
      if (name =? "unspecified")%string then None
      else if (name =? "removeFromCRL")%string && negb is_delta then None
      else match dict_get REASON_FLAGS name with
           | None | Some unspecified => None
           | Some flag => Some flag
           end
  end.

Definition make_entry (is_delta : bool) (now : Z) (l : listed) : option crl_entry :=
  n ← _parse_revoked_serial l;
  Some {| e_serial := n; e_date := default now (revoked_at_of l);
          e_reason := _apply_revoke_reason (reason_of l) is_delta; e_invalidity := invalidity_of l |}.

Definition full_entries (d : db) (ca : CA) (now : Z) : list crl_entry :=
  omap (make_entry false now) (get_revoked_certificates d ca now).

(* order_by(crl_number.desc()).first() among the rows of the filter *)
Fixpoint latest (p : CRLMetadata -> bool) (l : list CRLMetadata) : option CRLMetadata :=
  match l with
  | [] => None
  | m :: l' =>
      match latest p l' with
      | Some m' => if p m && (m_number m' <=? m_number m) then Some m else Some m'
      | None => if p m then Some m else None
      end
  end.
Definition of_ca (ca_id : Z) (m : CRLMetadata) : bool := m_ca m =? ca_id.
Definition get_latest_crl (d : db) (ca_id : Z) : option CRLMetadata :=
  latest (fun m => of_ca ca_id m && negb (m_delta m)) (crls d).
Definition get_latest_delta_crl (d : db) (ca_id : Z) : option CRLMetadata :=
  latest (fun m => of_ca ca_id m && m_delta m) (crls d).
Definition next_number (d : db) (ca_id : Z) : Z :=
  match latest (of_ca ca_id) (crls d) with None => 1 | Some m => m_number m + 1 end.

(* what changed since the base *)
Definition delta_records (d : db) (ca : CA) (since now : Z) : list listed :=
  let after (v : revocation) := match revoked_at v with Some t => since <? t | None => false end in
  let live := _dedupe_live_records
    ((LCert <$> List.filter (fun c => after (c_rev c)) (live_certificates d ca now))
     ++ (LCa <$> List.filter (fun a => after (a_rev a)) (_revoked_child_cas d ca now)))%list in
  let persisted := List.filter (fun r => since <? s_revoked_at r) (persisted_records d ca now) in
  (live ++ (LSerial <$> _filter_orphan_serials d persisted live))%list.
Definition delta_entries (d : db) (ca : CA) (since now : Z) : list crl_entry :=
  omap (make_entry true now) (delta_records d ca since now).
End Query.
