(* ===== verification/Revocations.v ===== *)
(** * Revocations: revoking, lifting a hold, deleting, renewing, publishing

    Models the calls that change the status of a certificate: [revoke_certificate] and
    [delete_certificate] of [backend/services/cert/mixins/lifecycle.py], [unhold_certificate]
    of [backend/api/v2/certificates/cert_lifecycle.py], the writes of a renewal in
    [backend/services/cert/renewal.py], [generate_crl], [generate_delta_crl] and the purges of
    [backend/services/crl], the revocation of a cross-certificate, the links of related pairs
    ([backend/services/cert/related_pair.py]) and the cache of the OCSP responder
    ([backend/services/ocsp_service.py]). The approval requests these calls close are modelled
    in [Approvals]. *)

From Stdlib Require Import Ascii String.
From stdpp Require Import prelude strings.
From S2P Require Import Prelude Scalars Serials Session RevocationModel.

Local Open Scope string_scope.
Local Open Scope Z_scope.

Inductive rev_error :=
| NotFound | AlreadyRevoked
| NotStaged                       (* the revocation record cannot be written *)
| NotPersisted                    (* the commit failed *)
| CaNotFound | NoPrivateKey | OfflineCa | AwaitingCertificate | UnreadableCa | KeyUnavailable
| CdpDisabled | DeltaDisabled | BadValidity | NoBaseCrl
| SignsItself | InvalidCrl | WrongIssuer | BadSignature | DeltaUpload | NoNextUpdate | OlderCrl | LowerNumber | AlreadyServed
| NotRenewable | RenewedMeanwhile
| IssuerNotHeld | NoHold.

Abbreviation Act := (M db rev_error).

(* what a call meets *)
Record env := {
  now : Z;
  can_sign : Z -> bool;           (* the key of that CA can be loaded *)
}.

Definition year_us : Z := 365 * day_us.
Definition fresh_id (l : list RevokedSerial) : Z := 1 + fold_left Z.max (s_id <$> l) 0.

(* try: body; except Exception: log *)
Definition attempt {A} (body : Act A) : Act unit :=
  try_ (_ ← body; mret tt) (fun _ => mret tt).

(** ** The cache of OCSP responses *)

Definition _cache_key_forms (serial : string) (serial_hex : string) : list string :=
  let raw := lower (strip (remove_char ":" serial)) in
  let raw := if startswith raw "0x" then sdrop 2 raw else raw in
  serial_hex ::
  (if nonempty raw && all_chars (fun c => is_digit c || str_in (String c "") ["a"; "b"; "c"; "d"; "e"; "f"]) raw
   then [match unchars (lstrip_by (Ascii.eqb "0") (chars raw)) with "" => "0" | x => x end]
   else []).

(* the entries of a serial: its key alone, or followed by a colon and an algorithm *)
Definition under_form (form : string) (o : OCSPResponse) : bool :=
  (o_key o =? form)%string || startswith (o_key o) (form ++ ":").

Definition invalidate_ca_cache (ca_id : Z) : Act unit :=
  _ ← modify (with_cache (List.filter (fun o => negb (o_ca o =? ca_id))));
  _ ← commit;
  mret tt.

Definition invalidate_cached_responses (serial : string) (ca_id : option Z) : Act unit :=
  let serial_hex := serial_to_hex (SStr serial) in
  if negb (nonempty serial_hex) then mret tt
  else
    let forms := _cache_key_forms serial serial_hex in
    _ ← modify (with_cache (List.filter (fun o =>
          negb (match ca_id with Some i => o_ca o =? i | None => true end
                && existsb (fun form => under_form form o) forms))));
    _ ← commit;
    mret tt.

Definition responder_cas_for_certificate (d : db) (cert_id : Z) : list Z :=
  (List.filter (fun p => p.2 =? cert_id) (responders d)).*1.

Fixpoint invalidate_ca_caches (l : list Z) : Act unit :=
  match l with
  | [] => mret tt
  | i :: l' => _ ← invalidate_ca_cache i; invalidate_ca_caches l'
  end.

(** ** Related pairs *)

Definition mutual_partner (d : db) (c : Certificate) : option Certificate :=
  match c_related c with
  | None | Some 0 => None
  | Some i => p ← find_cert d i; if bool_decide (c_related p = Some (c_id c)) then Some p else None
  end.

Section Pairs.
Context `{!X509}.

Definition readable (pem : option string) : option string :=
  match pem with Some p => if bool_decide (is_Some (cert_serial p)) then Some p else None | None => None end.

(* current rows linked to a row, newest first *)
Definition _live_rows_linked_to (d : db) (now : Z) (i : Z) (excluded : list Z) : list Certificate :=
  rev (List.filter (fun c => bool_decide (c_related c = Some i) && negb (c_id c =? i)
         && negb (existsb (Z.eqb (c_id c)) excluded) && negb (revoked (c_rev c)) && negb (c_archived c)
         && match c_valid_to c with Some v => now <? v | None => false end
         && bool_decide (is_Some (c_crt c))) (certs d)).

(* the first row that names the certificate; None also when an unreadable one comes first *)
Fixpoint first_naming (a : string) (l : list Certificate) : option Certificate :=
  match l with
  | [] => None
  | b :: l' => match readable (c_crt b) with
               | None => None
               | Some pem => if references pem a then Some b else first_naming a l'
               end
  end.

Definition hand_over_link (d : db) (now : Z) (gone : Certificate) : option (Z * Z) :=
  a ← mutual_partner d gone;
  if revoked (c_rev a) then None else
  cert_a ← readable (c_crt a); cert_b ← readable (c_crt gone);
  if negb (references cert_b cert_a) then None else
  b ← first_naming cert_a (_live_rows_linked_to d now (c_id a) [c_id gone]);
  Some (c_id a, c_id b).

Definition relink_target (d : db) (now : Z) (other : Certificate) (gone : Z) : option Z :=
  cert ← readable (c_crt other);
  c_id <$> List.find (fun b => match readable (c_crt b) with Some pem => references pem cert | None => false end)
             (_live_rows_linked_to d now (c_id other) [gone]).

Definition _relink_or_leave (now : Z) (other : Certificate) (gone : Z) (d : db) : db :=
  update_cert (c_id other) (set_related (relink_target d now other gone)) d.

Definition unlink_rows_naming (now : Z) (gone : Z) (d : db) : db :=
  fold_left (fun d other => _relink_or_leave now other gone d)
    (List.filter (fun c => bool_decide (c_related c = Some gone) && negb (c_id c =? gone)) (certs d)) d.

(** ** Deletion *)

Definition unlink_serials (cert_id : Z) : db -> db :=
  with_serials (update_where (fun r => bool_decide (s_certificate r = Some cert_id))
    (fun r => {| s_id := s_id r; s_caref := s_caref r; s_serial := s_serial r; s_revoked_at := s_revoked_at r;
                 s_reason := s_reason r; s_invalidity := s_invalidity r; s_valid_to := s_valid_to r;
                 s_certificate := None |})).

Definition delete_certificate (ev : env) (cert_id : Z) : Act bool :=
  row ← gets (fun d => find_cert d cert_id);
  match row with
  | None => mret false
  | Some _ =>
      _ ← modify (unlink_serials cert_id);
      _ ← modify (unlink_rows_naming (now ev) cert_id);
      answering ← gets (fun d => responder_cas_for_certificate d cert_id);
      _ ← modify (with_responders (List.filter (fun p => negb (bool_decide (p.1 ∈ answering)))));
      _ ← modify (with_certs (List.filter (fun c => negb (c_id c =? cert_id))));
      ok ← commit;
      if ok : bool then _ ← invalidate_ca_caches answering; mret true else mret false
  end.

(** ** Purges *)

Definition purge_stale_revoked_serials (ev : env) (ca_id : Z) : Act unit :=
  ca ← gets (fun d => find_ca d ca_id);
  match ca with
  | None => mret tt
  | Some a =>
      _ ← modify (with_serials (List.filter (fun r =>
            negb ((s_caref r =? a_refid a)%string && (s_valid_to r <? now ev)))));
      _ ← commit;
      mret tt
  end.

Fixpoint delete_all (ev : env) (ids : list Z) : Act unit :=
  match ids with
  | [] => mret tt
  | i :: ids' => _ ← try_ (_ ← delete_certificate ev i; mret tt) (fun _ => rollback); delete_all ev ids'
  end.

Definition purge_expired_revoked_certificates (ev : env) (ca_id : Z) : Act unit :=
  ca ← gets (fun d => find_ca d ca_id);
  match ca with
  | None => mret tt
  | Some a =>
      ids ← gets (fun d => c_id <$> List.filter (fun c => bool_decide (c_caref c = Some (a_refid a))
              && revoked (c_rev c) && match c_valid_to c with Some v => v <? now ev | None => false end) (certs d));
      delete_all ev ids
  end.

Definition _run_housekeeping (ev : env) (ca_id : Z) : Act unit :=
  stale ← gets (fun d => _setting_enabled d "crl_auto_purge_stale_serials");
  _ ← (if stale : bool then purge_stale_revoked_serials ev ca_id else mret tt);
  expired ← gets (fun d => _setting_enabled d "crl_auto_delete_expired_revoked");
  if expired : bool then purge_expired_revoked_certificates ev ca_id else mret tt.

(** ** Generation *)

Definition DEFAULT_VALIDITY_DAYS : Z := 7.
Definition hour_us : Z := 3600000000.

Definition store_crl (m : CRLMetadata) : Act CRLMetadata :=
  _ ← modify (with_crls (fun l => l ++ [m])%list);
  ok ← commit;
  if ok : bool then mret m else raise NotPersisted.

Definition crl_days (validity_days : option Z) (a : CA) : Z :=
  match validity_days with
  | Some n => n
  | None => match a_crl_days a with None | Some 0 => DEFAULT_VALIDITY_DAYS | Some n => n end
  end.

Definition generate_crl (ev : env) (ca_id : Z) (validity_days : option Z) : Act CRLMetadata :=
  ca ← gets (fun d => find_ca d ca_id);
  match ca with
  | None => raise CaNotFound
  | Some a =>
      if negb (a_has_key a) then raise NoPrivateKey
      else if a_offline a then raise OfflineCa
      else match text_of (a_crt a) with
      | None => raise AwaitingCertificate
      | Some pem =>
          if negb (bool_decide (is_Some (cert_serial pem))) then raise UnreadableCa
          else if negb (can_sign ev ca_id) then raise KeyUnavailable
          else
            _ ← _run_housekeeping ev ca_id;
            entries ← gets (fun d => full_entries d a (now ev));
            number ← gets (fun d => next_number d ca_id);
            store_crl {| m_ca := ca_id; m_number := number; m_this_update := now ev;
                         m_next_update := now ev + crl_days validity_days a * day_us;
                         m_entries := entries; m_delta := false; m_base := None; m_external := false |}
      end
  end.

Definition generate_delta_crl (ev : env) (ca_id : Z) (validity_hours : Z) : Act CRLMetadata :=
  ca ← gets (fun d => find_ca d ca_id);
  match ca with
  | None => raise CaNotFound
  | Some a =>
      if negb (a_has_key a) then raise NoPrivateKey
      else if a_offline a then raise OfflineCa
      else if negb (a_cdp_enabled a) then raise CdpDisabled
      else if negb (a_delta_enabled a) then raise DeltaDisabled
      else if (validity_hours <? 1) || (720 <? validity_hours) then raise BadValidity
      else
        base ← gets (fun d => get_latest_crl d ca_id);
        match base with
        | None => raise NoBaseCrl
        | Some b =>
            match text_of (a_crt a) with
            | None => raise AwaitingCertificate
            | Some pem =>
                if negb (bool_decide (is_Some (cert_serial pem))) then raise UnreadableCa
                else if negb (can_sign ev ca_id) then raise KeyUnavailable
                else
                  entries ← gets (fun d => delta_entries d a (m_this_update b) (now ev));
                  number ← gets (fun d => next_number d ca_id);
                  store_crl {| m_ca := ca_id; m_number := number; m_this_update := now ev;
                               m_next_update := now ev + validity_hours * hour_us;
                               m_entries := entries; m_delta := true; m_base := Some (m_number b);
                               m_external := false |}
            end
        end
  end.

(** ** A CRL signed elsewhere, for a CA that cannot sign (services/crl/external.py) *)

Record external_crl := {
  f_issuer : string;
  f_signed_by : string -> bool;   (* the signature verifies with the key of that certificate *)
  f_delta : bool;
  f_this_update : Z;
  f_next_update : option Z;
  f_number : option Z;
  f_entries : list crl_entry;
}.

(* the CRL of this CA that the upload would follow: refused, or the number it is stored under *)
Definition external_number (latest : option CRLMetadata) (f : external_crl) : result rev_error Z :=
  match latest with
  | None => Ok (default 1 (f_number f))
  | Some m =>
      if f_this_update f <? m_this_update m then Raise OlderCrl
      else match f_number f with
           | None => Ok (m_number m + 1)
           | Some k =>
               if k <? m_number m then Raise LowerNumber
               else if (k =? m_number m) && (f_this_update f =? m_this_update m) then Raise AlreadyServed
               else Ok k
           end
  end.

(* raw: None when it is neither PEM nor DER *)
Definition install_external_crl (ca_id : Z) (raw : option external_crl) : Act CRLMetadata :=
  ca ← gets (fun d => find_ca d ca_id);
  match ca with
  | None => raise CaNotFound
  | Some a =>
      match text_of (a_crt a) with
      | None => raise AwaitingCertificate
      | Some pem =>
          if a_has_key a && negb (a_offline a) then raise SignsItself
          else match raw with
          | None => raise InvalidCrl
          | Some f =>
              if negb (bool_decide (is_Some (cert_serial pem))) then raise UnreadableCa
              else if negb (f_issuer f =? cert_subject pem)%string then raise WrongIssuer
              else if negb (f_signed_by f pem) then raise BadSignature
              else if f_delta f then raise DeltaUpload
              else match f_next_update f with
              | None => raise NoNextUpdate
              | Some next =>
                  latest ← gets (fun d => get_latest_crl d ca_id);
                  match external_number latest f with
                  | Raise e => raise e
                  | Ok k =>
                      _ ← modify (with_cache (List.filter (fun o => negb (o_ca o =? ca_id))));
                      store_crl {| m_ca := ca_id; m_number := k; m_this_update := f_this_update f;
                                   m_next_update := next; m_entries := f_entries f; m_delta := false;
                                   m_base := None; m_external := true |}
                  end
              end
          end
      end
  end.

(** ** Revocation *)

(* the record of a serial: the one the issuer holds under this spelling, or a new one *)
Definition write_record (caref serial : string) (f : RevokedSerial -> RevokedSerial) (l : list RevokedSerial)
    : list RevokedSerial :=
  let same r := (s_caref r =? caref)%string && (s_serial r =? serial)%string in
  match List.find same l with
  | Some _ => update_first same f l
  | None => (l ++ [f {| s_id := fresh_id l; s_caref := caref; s_serial := serial; s_revoked_at := 0;
                        s_reason := None; s_invalidity := None; s_valid_to := 0; s_certificate := None |}])%list
  end.

Definition fill_record (at_ : Z) (reason : string) (invalidity : option Z) (valid_to : Z) (cert : option Z)
    (r : RevokedSerial) : RevokedSerial :=
  {| s_id := s_id r; s_caref := s_caref r; s_serial := s_serial r; s_revoked_at := at_;
     s_reason := Some reason; s_invalidity := invalidity; s_valid_to := valid_to; s_certificate := cert |}.

Definition marked (ev : env) (reason : string) (invalidity : option Z) (c : Certificate) : revocation :=
  {| revoked := true; revoked_at := Some (now ev); revoke_reason := Some reason;
     invalidity_at := match invalidity with Some t => Some t | None => invalidity_at (c_rev c) end |}.

Definition _restore_revocation_state (cert_id : Z) (previous : revocation) : Act unit :=
  row ← gets (fun d => find_cert d cert_id);
  match row with
  | None => mret tt
  | Some _ => _ ← modify (update_cert cert_id (set_rev previous)); _ ← commit; mret tt
  end.

(* up to the commit: the row, its revocation record, or the reason neither was written *)
Definition stage_revocation (ev : env) (c : Certificate) (ca : option CA) (reason : string)
    (invalidity : option Z) : Act unit :=
  _ ← modify (update_cert (c_id c) (set_rev (marked ev reason invalidity c)));
  match ca, c_caref c with
  | Some _, Some caref =>
      match c_serial c with
      | None => _ ← rollback; raise NotStaged
      | Some serial =>
          modify (with_serials (write_record caref serial
            (fill_record (now ev) reason (invalidity_at (marked ev reason invalidity c))
               (default (now ev + year_us) (c_valid_to c)) (Some (c_id c)))))
      end
  | _, _ => mret tt
  end.

Definition after_revocation (ev : env) (c : Certificate) (ca : option CA) : Act unit :=
  _ ← match ca with
      | Some a => if a_cdp_enabled a then attempt (generate_crl ev (a_id a) None) else mret tt
      | None => mret tt
      end;
  _ ← match text_of (c_serial c) with
      | Some serial => invalidate_cached_responses serial (a_id <$> ca)
      | None => mret tt
      end;
  answering ← gets (fun d => responder_cas_for_certificate d (c_id c));
  invalidate_ca_caches answering.

Definition revoke_body (ev : env) (cert_id : Z) (reason : string) (invalidity : option Z) : Act unit :=
  row ← gets (fun d => find_cert d cert_id);
  match row with
  | None => raise NotFound
  | Some c =>
      if revoked (c_rev c) then raise AlreadyRevoked
      else
        ca ← gets (fun d => text_of (c_caref c) ≫= ca_by_refid d);
        _ ← stage_revocation ev c ca reason invalidity;
        ok ← commit;
        if ok : bool then after_revocation ev c ca
        else _ ← _restore_revocation_state cert_id (c_rev c); raise NotPersisted
  end.

Definition hand_over (ev : env) (cert_id : Z) : Act unit :=
  link ← gets (fun d => find_cert d cert_id ≫= hand_over_link d (now ev));
  match link with
  | None => mret tt
  | Some (a, b) => _ ← modify (update_cert a (set_related (Some b))); _ ← commit; mret tt
  end.

Definition revoke_alone (ev : env) (cert_id : Z) (reason : string) (invalidity : option Z) : Act unit :=
  _ ← revoke_body ev cert_id reason invalidity; hand_over ev cert_id.

Definition revoke_certificate (ev : env) (cert_id : Z) (reason : string) (invalidity : option Z)
    (revoke_related : bool) : Act unit :=
  if revoke_related then
    _ ← revoke_body ev cert_id reason invalidity;
    partner ← gets (fun d => find_cert d cert_id ≫= mutual_partner d);
    match partner with
    | Some p => if revoked (c_rev p) then mret tt else attempt (revoke_alone ev (c_id p) reason invalidity)
    | None => mret tt
    end
  else revoke_alone ev cert_id reason invalidity.

(** ** Lifting a hold *)

Inductive unhold_answer := UNotFound | UNotRevoked | UNotHold | UFailed | ULifted.

Definition _restore_hold (cert_id : Z) (held : revocation) : Act unit := _restore_revocation_state cert_id held.

(* removeFromCRL on a delta, for the CAs that publish deltas; whether the call goes on *)
Definition stage_removal (ev : env) (c : Certificate) (ca : option CA) : Act bool :=
  match ca with
  | Some a =>
      if a_delta_enabled a && a_cdp_enabled a then
        _ ← modify (update_cert (c_id c) (set_rev {| revoked := true; revoked_at := Some (now ev);
              revoke_reason := Some "removeFromCRL"; invalidity_at := invalidity_at (c_rev c) |}));
        ok ← commit;
        if ok : bool then _ ← attempt (generate_delta_crl ev (a_id a) 24); mret true else mret false
      else mret true
  | None => mret true
  end.

Definition lift_hold (c : Certificate) (d : db) : db :=
  let d := update_cert (c_id c) (set_rev not_revoked) d in
  match text_of (c_caref c), text_of (c_serial c) with
  | Some caref, Some serial =>
      with_serials (List.filter (fun r => negb ((s_caref r =? caref)%string && (s_serial r =? serial)%string))) d
  | _, _ => d
  end.

Definition unhold_certificate (ev : env) (cert_id : Z) : Act unhold_answer :=
  row ← gets (fun d => find_cert d cert_id);
  match row with
  | None => mret UNotFound
  | Some c =>
      if negb (revoked (c_rev c)) then mret UNotRevoked
      else if negb (opt_in (revoke_reason (c_rev c)) _HOLD_REASONS) then mret UNotHold
      else
        ca ← gets (fun d => text_of (c_caref c) ≫= ca_by_refid d);
        staged ← stage_removal ev c ca;
        if negb staged then mret UFailed
        else
          _ ← modify (lift_hold c);
          ok ← commit;
          if negb ok then _ ← _restore_hold cert_id (c_rev c); mret UFailed
          else
            _ ← match ca with Some a => attempt (generate_crl ev (a_id a) None) | None => mret tt end;
            _ ← match text_of (c_serial c) with
                | Some serial => invalidate_cached_responses serial (a_id <$> ca)
                | None => mret tt
                end;
            answering ← gets (fun d => responder_cas_for_certificate d cert_id);
            _ ← invalidate_ca_caches answering;
            mret ULifted
  end.

(** ** Renewal in place: the writes, once the new certificate is signed *)

Record renewed := { n_serial : Z; n_crt : string; n_valid_to : Z }.

Definition _write_row (a : CA) (n : renewed) (c : Certificate) : Certificate :=
  {| c_id := c_id c; c_caref := Some (a_refid a); c_serial := Some (py_hex (n_serial n)); c_crt := Some (n_crt n);
     c_rev := not_revoked; c_valid_to := Some (n_valid_to n); c_archived := false; c_related := c_related c;
     c_issuer := cert_subject <$> a_crt a; c_template := c_template c; c_refid := c_refid c |}.

Definition _record_superseded (ev : env) (cert_id : Z) (a : CA) (old_serial : option string)
    (old_valid_to : option Z) (d : db) : db :=
  match text_of old_serial with
  | None => d
  | Some serial =>
      with_serials (write_record (a_refid a) serial (fun r =>
        fill_record (now ev) "superseded" (s_invalidity r) (default (now ev + year_us) old_valid_to)
          (Some cert_id) r)) d
  end.

Definition leave_pair (now : Z) (cert_id : Z) (d : db) : db :=
  unlink_rows_naming now cert_id (update_cert cert_id (set_related None) d).

(* signed: what the checks and the signature give, None when one of them refuses *)
Definition renew_alone (ev : env) (cert_id : Z) (known_serial : option string) (ca_id : Z)
    (signed : option renewed) (names_related : bool) : Act unit :=
  row ← gets (fun d => find_cert d cert_id);
  match row with
  | None => raise NotFound
  | Some c =>
      if negb (bool_decide (c_serial c = known_serial)) then raise RenewedMeanwhile
      else if negb (bool_decide (is_Some (text_of (c_crt c)))) || revoked (c_rev c) then raise NotRenewable
      else
        ca ← gets (fun d => find_ca d ca_id);
        match ca, signed with
        | Some a, Some n =>
            if negb (a_has_key a) || a_offline a then raise NotRenewable
            else
              _ ← modify (update_cert cert_id (_write_row a n));
              _ ← modify (_record_superseded ev cert_id a (c_serial c) (c_valid_to c));
              _ ← modify (fun d => if names_related then d else leave_pair (now ev) cert_id d);
              ok ← commit;
              if negb ok then raise NotPersisted
              else
                answering ← gets (fun d => responder_cas_for_certificate d cert_id);
                _ ← invalidate_ca_caches answering;
                _ ← match text_of (c_serial c) with
                    | Some serial => invalidate_cached_responses serial (Some ca_id)
                    | None => mret tt
                    end;
                if a_cdp_enabled a then attempt (generate_crl ev ca_id None) else mret tt
        | _, _ => raise NotRenewable
        end
  end.

(** ** Cross-certificates *)

Definition mark_cross (i : Z) (v : revocation) : db -> db :=
  with_crosses (update_where (fun x => x_id x =? i)
    (fun x => {| x_id := x_id x; x_issuer_caref := x_issuer_caref x; x_issuer := x_issuer x;
                 x_serial := x_serial x; x_crt := x_crt x; x_rev := v; x_valid_to := x_valid_to x |})).

Definition published_record (d : db) (x : CACrossCertificate) (issuer : CA) : option RevokedSerial :=
  match py_int 10 (x_serial x) with
  | None => None
  | Some n => List.find (fun r => str_in (s_caref r) (same_key_refids d issuer)
                                  && str_in (s_serial r) (serial_variants n)) (serials d)
  end.

(* issuer: the held CA that signed it, as issuer_of finds it *)
Definition revoke_cross (ev : env) (cross_id : Z) (issuer : option CA) (reason : string)
    (invalidity : option Z) : Act unit :=
  row ← gets (fun d => List.find (fun x => x_id x =? cross_id) (crosses d));
  match row, issuer with
  | None, _ => raise NotFound
  | _, None => raise IssuerNotHeld
  | Some x, Some a =>
      if revoked (x_rev x) then raise AlreadyRevoked
      else if str_in reason _HOLD_REASONS then raise NoHold
      else
        existing ← gets (fun d => published_record d x a);
        match existing with
        | Some r =>
            modify (mark_cross cross_id {| revoked := true; revoked_at := Some (s_revoked_at r);
                      revoke_reason := s_reason r; invalidity_at := invalidity_at (x_rev x) |})
        | None =>
            _ ← modify (mark_cross cross_id {| revoked := true; revoked_at := Some (now ev);
                  revoke_reason := Some reason; invalidity_at := invalidity_at (x_rev x) |});
            _ ← modify (fun d => with_serials (fun l => l ++ [fill_record (now ev) reason invalidity (x_valid_to x) None
                  {| s_id := fresh_id l; s_caref := a_refid a; s_serial := x_serial x; s_revoked_at := 0;
                     s_reason := None; s_invalidity := None; s_valid_to := 0; s_certificate := None |}])%list d);
            ok ← commit;
            if negb ok then raise NotPersisted
            else
              _ ← (if a_cdp_enabled a then attempt (generate_crl ev (a_id a) None) else mret tt);
              invalidate_cached_responses (x_serial x) (Some (a_id a))
        end
  end.
End Pairs.
