(* ===== verification/IssuedLookup.v ===== *)
(** * IssuedLookup: which stored certificate a presented one is, and whether it may act

    Models [backend/services/cert/issued_lookup.py], the storing of a certificate signed for a
    renewal ([_claim_superseded] and the end of [sign_csr_from_crypto] in
    [backend/services/ca/ca_signing.py]) and the checks a protocol makes of the certificate it
    renews: EST ([backend/api/est_protocol.py]), SCEP ([_validate_renewal] of
    [backend/services/scep/scep_service.py]) and WSTEP ([_renewable_certificate] of
    [backend/services/wstep/wstep_service.py]). Certificates are read by the cryptography
    package: the class [X509Objects]. *)

From Stdlib Require Import Ascii String.
From stdpp Require Import prelude strings gmap sorting.
From S2P Require Import Prelude Scalars Serials Session RevocationModel Revocations.

Local Open Scope string_scope.
Local Open Scope Z_scope.

(* names: None when the extensions cannot be read, Some None when there is no SAN *)
Abbreviation san := (option (option (list (string * string)))).

Record x509_object := {
  x_der : string; x_serial_number : Z; x_subject : string; x_spki : option string;
  x_not_before : Z; x_not_after : Z; x_sans : san;
}.
Record x509_request := { q_subject : string; q_sans : san }.

Class X509Objects := {
  load_stored : string -> option x509_object;        (* base64 of a PEM: the crt column *)
  load_pem : string -> option x509_object;           (* a PEM the TLS layer passes on *)
  load_der : string -> option x509_object;
  certificate_signed_by : x509_object -> string -> option bool;   (* by the CA of that column; None: raises *)
  directly_issued_by : x509_object -> string -> bool;
}.

Inductive issued_status := OK | UNKNOWN | REVOKED | EXPIRED | NOT_YET_VALID | SUPERSEDED.
#[export] Instance issued_status_eq_dec : EqDecision issued_status. Proof. solve_decision. Defined.

(** ** Names *)

Definition names_of (l : list (string * string)) : gset (string * string) := list_to_set l.

(* None: the extensions of one of them cannot be read *)
Definition san_identity_matches (cert csr : san) : option bool :=
  match csr with
  | None => None
  | Some None => Some true
  | Some (Some requested) =>
      match cert with
      | None => None
      | Some held => Some (bool_decide (names_of requested = names_of (default [] held)))
      end
  end.

Section Lookup.
Context `{!X509} `{!X509Objects}.

(** ** Rows *)

Definition holds_der (x : x509_object) (c : Certificate) : bool :=
  match c_crt c ≫= load_stored with Some y => (x_der y =? x_der x)%string | None => false end.

Definition _rows_holding (d : db) (criteria : Certificate -> bool) (x : x509_object) : list Certificate :=
  List.filter (holds_der x)
    (List.filter (fun c => criteria c && opt_in (c_serial c) (serial_variants (x_serial_number x))
                           && bool_decide (is_Some (c_crt c))) (certs d)).

Definition find_issued_rows (d : db) (ca : CA) (x : x509_object) : list Certificate :=
  _rows_holding d (fun c => opt_in (c_caref c) (same_key_refids d ca)) x.
Definition find_stored_rows (d : db) (x : x509_object) : list Certificate := _rows_holding d (fun _ => true) x.
Definition find_issued_row (d : db) (ca : CA) (x : x509_object) : option Certificate := head (find_issued_rows d ca x).

Definition persistent_record (d : db) (ca : CA) (n : Z) : option RevokedSerial :=
  List.find (fun r => str_in (s_caref r) (same_key_refids d ca) && str_in (s_serial r) (serial_variants n)) (serials d).

Definition issued_certificate_status (d : db) (ca : CA) (x : x509_object) (now : Z)
    : option Certificate * issued_status :=
  let rows := find_issued_rows d ca x in
  let persistent := bool_decide (is_Some (persistent_record d ca (x_serial_number x))) in
  match rows with
  | [] => (None, if persistent then REVOKED else UNKNOWN)
  | row :: _ =>
      if existsb (fun c => revoked (c_rev c)) rows || persistent then (Some row, REVOKED)
      else match List.find (fun c => negb (c_archived c)) rows with
      | None => (Some row, SUPERSEDED)
      | Some live =>
          if now <? x_not_before x then (Some live, NOT_YET_VALID)
          else if (x_not_after x <=? now) || match c_valid_to live with Some v => v <? now | None => false end
          then (Some live, EXPIRED)
          else (Some live, OK)
      end
  end.

(** ** The checks of the protocols *)

Inductive refusal :=
| NoClientCertificate
| InvalidCertificate                       (* unreadable, or a check of it raised *)
| OtherIssuer | OtherSubject | OtherNames
| OutsideWindow
| NotCurrent (st : issued_status).

(* EST: the certificate of the TLS layer, when this CA signed it *)
Definition _presented_certificate_refusal (d : db) (ca : CA) (client : option string) (now : Z) : option refusal :=
  match client with
  | None | Some "" => None
  | Some pem =>
      match load_pem pem with
      | None => Some InvalidCertificate
      | Some x =>
          let signed_here := match text_of (a_crt ca) ≫= certificate_signed_by x with Some b => b | None => false end in
          if negb signed_here then None
          else match (issued_certificate_status d ca x now).2 with
               | OK => None
               | st => Some (NotCurrent st)
               end
      end
  end.

(* EST /simplereenroll: the row that is renewed *)
Definition reenroll_certificate (d : db) (ca : CA) (client : option string) (csr : x509_request) (now : Z)
    : result refusal (x509_object * Certificate) :=
  match client with
  | None | Some "" => Raise NoClientCertificate
  | Some pem =>
      match load_pem pem with
      | None => Raise InvalidCertificate
      | Some x =>
          if negb (x_subject x =? q_subject csr)%string then Raise OtherSubject
          else match san_identity_matches (x_sans x) (q_sans csr) with
          | None => Raise InvalidCertificate
          | Some false => Raise OtherNames
          | Some true =>
              match issued_certificate_status d ca x now with
              | (Some row, OK) => Ok (x, row)
              | (_, st) => Raise (NotCurrent st)
              end
          end
      end
  end.

(* SCEP RenewalReq: None when the renewal may go on *)
Definition _validate_renewal (d : db) (ca : CA) (ca_pem : string) (x : x509_object) (csr : x509_request) (now : Z)
    : option refusal :=
  if negb (directly_issued_by x ca_pem) then Some OtherIssuer
  else if negb (x_subject x =? q_subject csr)%string then Some OtherSubject
  else if (now <? x_not_before x) || (x_not_after x <? now) then Some OutsideWindow
  else match (issued_certificate_status d ca x now).2 with
  | OK =>
      match san_identity_matches (x_sans x) (q_sans csr) with
      | None => Some InvalidCertificate
      | Some false => Some OtherNames
      | Some true => None
      end
  | st => Some (NotCurrent st)
  end.

(* WSTEP: the row, and the error *)
Definition _renewable_certificate (d : db) (ca : CA) (x : x509_object) (now : Z) : option Certificate * option refusal :=
  match issued_certificate_status d ca x now with
  | (row, OK) => (row, None)
  | (row, st) => (row, Some (NotCurrent st))
  end.

(** ** Storing the renewal: the renewed row is archived in the commit that stores its successor *)

Definition set_archived (c : Certificate) : Certificate :=
  {| c_id := c_id c; c_caref := c_caref c; c_serial := c_serial c; c_crt := c_crt c; c_rev := c_rev c;
     c_valid_to := c_valid_to c; c_archived := true; c_related := c_related c;
     c_issuer := c_issuer c; c_template := c_template c; c_refid := c_refid c |}.

(* UPDATE ... WHERE id = row_id AND archived IS NOT TRUE: whether one row matched *)
Definition archive_live (row_id : Z) (d : db) : bool * db :=
  match find_cert d row_id with
  | Some c => if c_archived c then (false, d) else (true, update_cert row_id set_archived d)
  | None => (false, d)
  end.

Fixpoint archive_all (ids : list Z) : Act bool :=
  match ids with
  | [] => mret true
  | i :: ids' =>
      one ← gets (fun d => (archive_live i d).1);
      if negb one then mret false
      else _ ← modify (fun d => (archive_live i d).2); archive_all ids'
  end.

Definition live_ids (d : db) (x : x509_object) : list Z :=
  merge_sort Z.le (c_id <$> _rows_holding d (fun c => negb (c_archived c)) x).

Definition _claim_superseded (row : Certificate) : Act bool :=
  match c_crt row ≫= load_stored with
  | None => raise NotPersisted
  | Some held =>
      live ← gets (fun d => live_ids d held);
      if negb (bool_decide (c_id row ∈ live)) then mret false else archive_all live
  end.

(* the end of sign_csr_from_crypto: new is the row of the signed certificate *)
Definition store_signed (new : Certificate) (supersedes : option Certificate) : Act unit :=
  _ ← modify (with_certs (fun l => l ++ [new])%list);
  claimed ← match supersedes with
            | None => mret true
            | Some row => try_ (_claim_superseded row) (fun e => _ ← rollback; raise e)
            end;
  if negb claimed then _ ← rollback; raise RenewedMeanwhile
  else ok ← commit; if ok : bool then mret tt else raise NotPersisted.
End Lookup.
