(* ===== verification/CaChain.v ===== *)
(** * CaChain: which CA signed a certificate, and whether a CA may still sign

    Models [issuing_ca], [persisted_revocation], [is_revoked] and [chain_revocation] of
    [backend/models/ca.py], the helpers of [backend/utils/cert_issuer.py] they use, and
    [resolve_issuing_ca] of [backend/services/cert/renewal.py]. Values cached for one request
    are read once. A CA signs nothing once it or a CA above it is revoked: the theorem says
    that the walk up the chain finds exactly that, on every table. *)

From Stdlib Require Import Ascii String.
From stdpp Require Import prelude strings gmap.
From S2P Require Import Prelude Scalars Serials RevocationModel.

Local Open Scope string_scope.
Local Open Scope Z_scope.

Section Chain.
Context `{!X509}.

Definition is_self_signed (pem : string) : bool :=
  if negb (cert_subject pem =? cert_issuer pem)%string then false
  else match signed_by pem pem with
       | Some b => b
       | None => match cert_aki pem, cert_ski pem with Some a, Some s => (a =? s)%string | _, _ => true end
       end.

Definition readable_pem (o : option string) : option string :=
  match o with Some pem => if bool_decide (is_Some (cert_serial pem)) then Some pem else None | None => None end.

Definition _is_self_signed_record (a : CA) : bool :=
  if negb (bool_decide (a_subject a = a_issuer a)) then false
  else match readable_pem (a_crt a) with Some pem => is_self_signed pem | None => true end.

(* sorted by a key of two values: a stable partition *)
Definition self_signed_first (l : list CA) : list CA :=
  (List.filter _is_self_signed_record l ++ List.filter (fun a => negb (_is_self_signed_record a)) l)%list.

Definition resolve_issuing_ca (d : RevocationModel.db) (c : Certificate) : option CA :=
  match text_of (c_caref c) ≫= ca_by_refid d with
  | Some a => Some a
  | None =>
      match readable_pem (text_of (c_crt c)) with
      | None => None
      | Some leaf =>
          let named := match text_of (c_issuer c) with
                       | Some _ => self_signed_first (List.filter (fun a => bool_decide (a_subject a = c_issuer c)) (cas d))
                       | None => []
                       end in
          let others := self_signed_first (List.filter (fun a => negb (bool_decide (a_id a ∈ a_id <$> named))) (cas d)) in
          let verified := List.filter (fun a => match readable_pem (text_of (a_crt a)) with
                                                | Some pem => bool_decide (signed_by leaf pem = Some true)
                                                | None => false
                                                end) (named ++ others)%list in
          match cert_aki leaf with
          | Some aki =>
              match List.find (fun a => bool_decide (a_crt a ≫= cert_ski = Some aki)) verified with
              | Some a => Some a
              | None => head verified
              end
          | None => head verified
          end
      end
  end.

(** ** The chain of a CA *)

(* order_by(case((CA.subject == CA.issuer, 0), else_=1), CA.id); NULL is not equal to NULL *)
Definition root_row (a : CA) : bool :=
  match a_subject a, a_issuer a with Some s, Some i => (s =? i)%string | _, _ => false end.
Definition cas_by_ski (d : db) (ski : string) : list CA :=
  let found := List.filter (fun a => bool_decide (a_ski a = Some ski)) (cas d) in
  (List.filter root_row found ++ List.filter (fun a => negb (root_row a)) found)%list.

(* duplicates are left in: the first that qualifies is the same *)
Definition issuer_candidates (d : db) (a : CA) (pem : string) : list CA :=
  List.filter (fun b => negb (a_id b =? a_id a) && bool_decide (is_Some (text_of (a_crt b))))
    (option_list (text_of (a_caref a) ≫= ca_by_refid d)
     ++ match cert_aki pem with Some aki => cas_by_ski d aki | None => [] end
     ++ match text_of (a_issuer a) with
        | Some i => List.filter (fun b => bool_decide (a_subject b = Some i)) (cas d)
        | None => []
        end)%list.

(* a key that cannot be checked: the name decides *)
Definition signed_it (a : CA) (pem : string) (b : CA) : bool :=
  match readable_pem (a_crt b) with
  | None => false
  | Some issuer => match signed_by pem issuer with Some v => v | None => bool_decide (a_subject b = a_issuer a) end
  end.

Definition issuing_ca (d : db) (a : CA) : option CA :=
  match readable_pem (text_of (a_crt a)) with
  | None => None
  | Some pem => if is_self_signed pem then None else List.find (signed_it a pem) (issuer_candidates d a pem)
  end.

Definition persisted_revocation (d : db) (a : CA) : option RevokedSerial :=
  match text_of (a_crt a), issuing_ca d a with
  | Some pem, Some parent =>
      let serial := match text_of (a_serial a) with Some s => serial_to_int (SStr s) | None => None end in
      n ← match serial with Some n => Some n | None => cert_serial pem end;
      List.find (fun r => (s_caref r =? a_refid parent)%string && str_in (s_serial r) (serial_variants n)) (serials d)
  | _, _ => None
  end.

Definition ca_is_revoked (d : db) (a : CA) : bool :=
  revoked (a_rev a) || bool_decide (is_Some (persisted_revocation d a)).

Definition MAX_CHAIN_DEPTH : nat := 64.

Inductive chain_problem := ChainRevoked | ChainBroken.

(* levels: how many more may be walked *)
Fixpoint walk_chain (d : db) (levels : nat) (seen : list Z) (a : CA) : option chain_problem :=
  if ca_is_revoked d a then Some ChainRevoked
  else if existsb (Z.eqb (a_id a)) seen then Some ChainBroken
  else match levels with
       | O => Some ChainBroken
       | S n => match issuing_ca d a with
                | None => None
                | Some parent => walk_chain d n (a_id a :: seen) parent
                end
       end.
Definition chain_revocation (d : db) (a : CA) : option chain_problem := walk_chain d MAX_CHAIN_DEPTH [] a.
Definition revoked_in_chain (d : db) (a : CA) : bool := bool_decide (is_Some (chain_revocation d a)).

(** ** What the walk decides *)

(* the CAs from [a] up to one that none of the held CAs signed *)
Inductive chain (d : db) : CA -> list CA -> Prop :=
| chain_top a : issuing_ca d a = None -> chain d a [a]
| chain_up a b l : issuing_ca d a = Some b -> chain d b l -> chain d a (a :: l).

Definition above (d : db) : relation CA := rtc (fun a b => issuing_ca d a = Some b).

Lemma walk_none d n : forall seen a, walk_chain d n seen a = None <->
  exists l, chain d a l /\ (length l <= n)%nat /\ (forall b, b ∈ l -> ca_is_revoked d b = false /\ a_id b ∉ seen)
            /\ NoDup (a_id <$> l).
Proof.
  induction n as [|n IH]; intros seen a; cbn [walk_chain].
  - split; [by repeat case_match|]. intros (l & Hc & Hl & _). inversion Hc; subst; cbn in Hl; lia.
  - destruct (ca_is_revoked d a) eqn:Er.
    { split; [done|]. intros (l & Hc & _ & Hr & _). destruct (Hr a) as [? _]; [inversion Hc; left|congruence]. }
    destruct (existsb (Z.eqb (a_id a)) seen) eqn:Es.
    { split; [done|]. intros (l & Hc & _ & Hr & _). destruct (Hr a) as [_ Hn]; [inversion Hc; left|].
      apply existsb_exists in Es as (i & Hi%list_elem_of_In & <-%Z.eqb_eq). done. }
    assert (a_id a ∉ seen) as Hns.
    { intros Hi. apply not_true_iff_false in Es. apply Es, existsb_exists. exists (a_id a). by rewrite Z.eqb_refl, <- list_elem_of_In. }
    destruct (issuing_ca d a) as [p|] eqn:Ep.
    + rewrite IH. split.
      * intros (l & Hc & Hl & Hr & Hnd). exists (a :: l). split; [by econstructor|]. split; [cbn; lia|]. split.
        -- intros b [->|Hb]%elem_of_cons; [done|]. destruct (Hr b Hb) as [? Hb']. split; [done|]. by intros ?; apply Hb'; right.
        -- rewrite fmap_cons. apply NoDup_cons. split; [|done]. intros (b & Eb & Hb)%list_elem_of_fmap.
           destruct (Hr b Hb) as [_ Hb']. apply Hb'. rewrite Eb. left.
      * intros (l & Hc & Hl & Hr & Hnd). inversion Hc as [? E|? b l' E Hc']; subst; [congruence|].
        assert (b = p) as -> by congruence. exists l'. split; [done|]. split; [cbn in Hl; lia|].
        rewrite fmap_cons in Hnd. apply NoDup_cons in Hnd as [Hn Hnd]. split; [|done]. intros b Hb.
        destruct (Hr b ltac:(by right)) as [? Hb']. split; [done|]. intros [Eb|?]%elem_of_cons; [|done].
        apply Hn, list_elem_of_fmap. by exists b.
    + split; [intros _|done]. exists [a]. split; [by constructor|]. split; [cbn; lia|]. split.
      * by intros b ->%list_elem_of_singleton.
      * apply NoDup_singleton.
Qed.

Lemma chain_above d a l b : chain d a l -> above d a b -> b ∈ l.
Proof.
  intros Hc Ha. revert l Hc. induction Ha as [a|a p b E _ IH]; intros l Hc; [inversion Hc; left|].
  inversion Hc as [? E'|? p' l' E' Hc']; subst; [congruence|]. right. apply IH. congruence.
Qed.
Lemma chain_members d a l : chain d a l -> forall b, b ∈ l -> above d a b.
Proof.
  induction 1 as [a E|a p l E _ IH]; intros b; [intros ->%list_elem_of_singleton; constructor|].
  intros [->|Hb]%elem_of_cons; [constructor|]. by eapply rtc_l; [|apply IH].
Qed.

(** C16. Whether a CA may sign: the walk up its chain ends without objection exactly when the
    chain of the CAs that signed one another ends within the allowed depth, comes back on no
    CA, and none of its CAs is revoked, by its own mark or by the record its issuer keeps.
    A CA with a revoked CA anywhere above it never signs, however long or circular the way. *)
Theorem chain_revocation_exact (d : db) (a : CA) :
  (revoked_in_chain d a = false <->
     exists l, chain d a l /\ (length l <= MAX_CHAIN_DEPTH)%nat /\ NoDup (a_id <$> l)
               /\ forall b, above d a b -> ca_is_revoked d b = false)
  /\ (forall b, above d a b -> ca_is_revoked d b = true -> revoked_in_chain d a = true).
Proof.
  assert (revoked_in_chain d a = false <-> exists l, chain d a l /\ (length l <= MAX_CHAIN_DEPTH)%nat /\ NoDup (a_id <$> l)
    /\ forall b, above d a b -> ca_is_revoked d b = false) as Hiff.
  { unfold revoked_in_chain. rewrite bool_decide_eq_false, <- eq_None_not_Some. unfold chain_revocation. rewrite walk_none. split.
    - intros (l & Hc & Hl & Hr & Hnd). exists l. split_and!; try done. intros b Hb. apply Hr. by eapply chain_above.
    - intros (l & Hc & Hl & Hnd & Hr). exists l. split_and!; try done. intros b Hb. split; [|apply not_elem_of_nil].
      apply Hr. by eapply chain_members. }
  split; [done|]. intros b Hb Hr. apply not_false_iff_true. intros (l & _ & _ & _ & H')%Hiff. rewrite H' in Hr by done. done.
Qed.
End Chain.
