(* ===== verification/OcspStatus.v ===== *)
(** * OcspStatus: what the OCSP responder answers

    Models the status decision of [backend/services/ocsp_service.py] ([_status_for_serial]
    and the lookups it makes), the validity and caching of a response, the answer to a
    request for one certificate in [backend/api/ocsp_routes.py], and the reading of an
    externally signed CRL ([backend/services/crl/external.py]). Which held CA signed a
    cross-certificate whose link is missing is found by signature: [linked_issuer]. *)

From Stdlib Require Import Ascii String.
From stdpp Require Import prelude strings.
From S2P Require Import Prelude Scalars Serials Session RevocationModel Revocations.

Local Open Scope string_scope.
Local Open Scope Z_scope.

(* the table of reasons without removeFromCRL *)
Definition _REASON_MAP : list (string * ReasonFlags) :=
  List.filter (fun p => negb (p.1 =? "removeFromCRL")%string) REASON_FLAGS.

Definition ocsp_reason (reason : option string) : ReasonFlags :=
  match reason with Some name => default unspecified (dict_get _REASON_MAP name) | None => unspecified end.

Inductive found := FCert (c : Certificate) | FCa (a : CA) | FCross (x : CACrossCertificate).

Definition rev_of (f : found) : revocation :=
  match f with FCert c => c_rev c | FCa a => a_rev a | FCross x => x_rev x end.

(* the revocation of a row, as the responder states it *)
Definition revoked_status (now : Z) (v : revocation) : ocsp_status :=
  Revoked (default now (revoked_at v)) (Some (ocsp_reason (revoke_reason v))).

Definition get_external_revocation (d : db) (ca_id : Z) (serial : Z) : option crl_entry :=
  match get_latest_crl d ca_id with
  | Some m => if m_external m
              (* the dict keeps the last entry of a serial *)
              then last (List.filter (fun e => e_serial e =? serial) (m_entries m))
              else None
  | None => None
  end.

Section Status.
Context `{!X509}.
(* issuer_of(row).refid for a cross-certificate linked to no record of the issuer *)
Variable linked_issuer : CACrossCertificate -> option string.

Definition _record_holds_serial (pem : option string) (serial : Z) : option bool :=
  match text_of pem with
  | None => None
  | Some p => match cert_serial p with Some n => Some (n =? serial) | None => None end
  end.

(* not known to hold another serial *)
Definition may_hold (pem : option string) (serial : Z) : bool :=
  negb (bool_decide (_record_holds_serial pem serial = Some false)).

Definition _certificates_with_serial (d : db) (ca : CA) (variants : list string) : list Certificate :=
  let rows := List.filter (fun c => opt_in (c_caref c) (same_key_refids d ca)
                               && opt_in (c_serial c) variants) (certs d) in
  (List.filter (fun c => revoked (c_rev c)) rows ++ List.filter (fun c => negb (revoked (c_rev c))) rows)%list.

Definition _persisted_revocation (d : db) (ca : CA) (variants : list string) : option RevokedSerial :=
  head (by_revocation (List.filter (fun r => str_in (s_caref r) (same_key_refids d ca)
                                        && str_in (s_serial r) variants) (serials d))).

Definition issued_under (d : db) (issuer : CA) (serial : Z) (pem : string) (a : CA) : bool :=
  negb (a_id a =? a_id issuer) &&
  match text_of (a_crt a) with
  | None => false
  | Some p =>
      bool_decide (cert_serial p = Some serial) && (cert_issuer p =? cert_subject pem)%string
      && (bool_decide (a_caref a = Some (a_refid issuer)) || bool_decide (signed_by p pem = Some true))
  end.

Definition _child_ca_for_serial (d : db) (issuer : CA) (serial : Z) (variants : list string) : option CA :=
  match List.find (fun a => opt_in (a_caref a) (same_key_refids d issuer) && opt_in (a_serial a) variants
                       && may_hold (a_crt a) serial) (cas d) with
  | Some a => Some a
  | None => match readable (a_crt issuer) with
            | None => None
            | Some pem => List.find (issued_under d issuer serial pem) (cas d)
            end
  end.

Definition rows_of_issuer (d : db) (issuer : CA) (variants : list string) : list CACrossCertificate :=
  List.filter (fun x => str_in (x_serial x) variants
    && (opt_in (x_issuer_caref x) (same_key_refids d issuer)
        || (bool_decide (x_issuer x = a_subject issuer) && opt_in (linked_issuer x) (same_key_refids d issuer))))
    (crosses d).

Definition _cross_certificate_for_serial (d : db) (issuer : CA) (serial : Z) (variants : list string)
    : option CACrossCertificate :=
  List.find (fun x => may_hold (x_crt x) serial) (rows_of_issuer d issuer variants).

(* the row that answers for the serial, a certificate first *)
Definition row_for_serial (d : db) (ca : CA) (serial : Z) : option found :=
  let variants := serial_variants serial in
  match List.find (fun c => may_hold (c_crt c) serial) (_certificates_with_serial d ca variants) with
  | Some c => Some (FCert c)
  | None => match _child_ca_for_serial d ca serial variants with
            | Some a => Some (FCa a)
            | None => FCross <$> _cross_certificate_for_serial d ca serial variants
            end
  end.

Definition _status_for_serial (d : db) (ca : CA) (now : Z) (serial : Z) : ocsp_status :=
  let row := row_for_serial d ca serial in
  let persisted := match row with
                   | Some (FCert _) => None
                   | _ => _persisted_revocation d ca (serial_variants serial)
                   end in
  let otherwise :=
    match persisted with
    | Some r => Revoked (s_revoked_at r) (Some (ocsp_reason (s_reason r)))
    | None =>
        match get_external_revocation d (a_id ca) serial with
        | Some e => Revoked (e_date e) (e_reason e)
        | None => match row with Some _ => Good | None => Unknown end
        end
    end in
  match row with
  | Some f => if revoked (rev_of f) then revoked_status now (rev_of f) else otherwise
  | None => otherwise
  end.

(** ** Responses *)

Definition _DEFAULT_RESPONSE_VALIDITY_HOURS : Z := 24.
Definition _MAX_RESPONSE_VALIDITY_HOURS : Z := 168.

Definition _response_validity_hours (d : db) : Z :=
  let raw := match dict_get (settings d) "ocsp_response_validity_hours" with
             | Some v => v
             | None => Some (py_str _DEFAULT_RESPONSE_VALIDITY_HOURS)
             end in
  match raw ≫= py_int 10 with
  | Some hours => if hours <=? 0 then _DEFAULT_RESPONSE_VALIDITY_HOURS
                  else Z.min hours _MAX_RESPONSE_VALIDITY_HOURS
  | None => _DEFAULT_RESPONSE_VALIDITY_HOURS
  end.

(* what resolving the signing identity gives *)
Inductive signing :=
| ByCa
| ByResponder (not_after : Z)     (* the delegated responder, until its certificate expires *)
| NoIdentity                      (* OCSPSigningUnavailable *)
| SigningFault.

Definition _bound_next_update (next_update : Z) (sg : signing) : Z :=
  match sg with ByResponder not_after => Z.min next_update not_after | _ => next_update end.

Inductive ocsp_answer := Status (st : ocsp_status) | Unauthorized | InternalError.

Definition cache_key (serial : Z) (algorithm : string) : string := py_hex serial ++ ":" ++ algorithm.

Definition _cache_response (r : OCSPResponse) : Act unit :=
  let same o := (o_ca o =? o_ca r) && (o_key o =? o_key r)%string in
  _ ← modify (with_cache (fun l => if existsb same l then update_where same (fun _ => r) l else l ++ [r])%list);
  _ ← commit;
  mret tt.

Definition generate_response (now : Z) (sg : signing) (ca : CA) (serial : Z) (nonce : bool) (algorithm : string)
    : Act ocsp_answer :=
  if negb (bool_decide (is_Some (readable (a_crt ca)))) then mret InternalError
  else match sg with
  | NoIdentity => mret Unauthorized
  | SigningFault => mret InternalError
  | _ =>
      st ← gets (fun d => _status_for_serial d ca now serial);
      hours ← gets _response_validity_hours;
      _ ← (if nonce then mret tt
           else _cache_response {| o_ca := a_id ca; o_key := cache_key serial algorithm; o_status := st;
                                   o_next_update := _bound_next_update (now + hours * hour_us) sg |});
      mret (Status st)
  end.

Definition get_cached_response (d : db) (now : Z) (ca_id : Z) (serial : Z) (algorithm : string) : option ocsp_status :=
  match List.find (fun o => (o_ca o =? ca_id) && (o_key o =? cache_key serial algorithm)%string) (cache d) with
  | Some o => if o_next_update o <? now then None else Some (o_status o)
  | None => None
  end.

(* a request for one certificate of a CA whose responder is enabled *)
Definition answer_one (now : Z) (sg : signing) (ca : CA) (serial : Z) (nonce : bool) (algorithm : string)
    : Act ocsp_answer :=
  cached ← gets (fun d => if nonce then None else get_cached_response d now (a_id ca) serial algorithm);
  match cached with
  | Some st => mret (Status st)
  | None => generate_response now sg ca serial nonce algorithm
  end.

Definition cleanup_expired_responses (now : Z) : Act unit :=
  _ ← modify (with_cache (List.filter (fun o => negb (o_next_update o <? now))));
  _ ← commit;
  mret tt.
End Status.
