(* ===== verification/CrlContents.v ===== *)
(** * CrlContents: what a full CRL lists

    The entries [RevocationModel] selects for a full CRL, characterised: which serials are
    listed, and that none is listed twice. *)

From Stdlib Require Import Ascii String.
From stdpp Require Import prelude strings.
From S2P Require Import Prelude Scalars Serials Session RevocationModel.

Local Open Scope string_scope.
Local Open Scope Z_scope.

Section Crl.
Context {X : X509}.
#[local] Arguments resolve : simpl never.

Lemma opt_in_spec o l : opt_in o l = true <-> exists s, o = Some s /\ s ∈ l.
Proof. destruct o as [s|]; cbn; [rewrite str_in_spec; naive_solver|naive_solver]. Qed.

(** ** The live records: the first of each serial *)

Lemma dedupe_live_ints l : forall si sc n,
  n ∈ omap resolve (dedupe_live si sc l) <-> n ∈ omap resolve l /\ (n ∉ si).
Proof.
  induction l as [|r l IH]; intros si sc n; cbn [dedupe_live]; [by split; [intros ?%elem_of_nil|intros [?%elem_of_nil _]]|].
  destruct (resolve r) as [m|] eqn:Er.
  - case_bool_decide as Hm; cbn; rewrite Er; rewrite ?elem_of_cons, IH.
    + split; [naive_solver|]. intros [[->|?] ?]; naive_solver.
    + split.
      * intros [->|[? Hn]]; [naive_solver|]. rewrite not_elem_of_cons in Hn. naive_solver.
      * intros [[->|?] Hn]; [by left|]. destruct (decide (n = m)) as [->|]; [by left|]. right. split; [done|].
        by apply not_elem_of_cons.
  - destruct (opt_in (column r) sc); cbn; rewrite Er; apply IH.
Qed.

Lemma dedupe_live_nodup l : forall si sc, NoDup (omap resolve (dedupe_live si sc l)).
Proof.
  induction l as [|r l IH]; intros si sc; cbn [dedupe_live]; [constructor|].
  destruct (resolve r) as [m|] eqn:Er.
  - case_bool_decide; [apply IH|]. cbn. rewrite Er. apply NoDup_cons. split; [|apply IH].
    rewrite dedupe_live_ints. intros [_ Hn]. apply Hn. left.
  - destruct (opt_in (column r) sc); [apply IH|]. cbn. rewrite Er. apply IH.
Qed.

(** ** The records that outlive their certificate *)

Definition record_int (r : RevokedSerial) : option Z := resolve (LSerial r).

#[local] Arguments record_int : simpl never.

Lemma int_in_spec o l : int_in o l = true <-> exists n, o = Some n /\ n ∈ l.
Proof. destruct o; cbn; [rewrite bool_decide_eq_true; naive_solver|naive_solver]. Qed.

Lemma keep_orphans_sound d l : forall columns ints r, r ∈ keep_orphans d columns ints l ->
  r ∈ l /\ lifted d r = false /\ (s_serial r ∉ columns) /\ forall n, record_int r = Some n -> n ∉ ints.
Proof.
  induction l as [|q l IH]; intros columns ints r; cbn [keep_orphans]; [by intros ?%elem_of_nil|].
  destruct (str_in (s_serial q) columns) eqn:Ec; cbn [orb].
  { intros (? & ?)%IH. rewrite elem_of_cons. naive_solver. }
  destruct (int_in (resolve (LSerial q)) ints) eqn:Ei.
  { intros (? & ?)%IH. rewrite elem_of_cons. naive_solver. }
  destruct (lifted d q) eqn:El.
  { intros (? & ?)%IH. rewrite elem_of_cons. naive_solver. }
  rewrite elem_of_cons. intros [->|H].
  - split; [left|]. split; [done|]. split; [by apply str_in_false|]. intros n Hn Hin.
    apply not_true_iff_false in Ei. apply Ei, int_in_spec. eauto.
  - apply IH in H as (H1 & H2 & H3 & H4). split; [by right|]. split; [done|].
    rewrite not_elem_of_cons in H3. split; [naive_solver|]. intros n Hn Hin. apply (H4 n Hn), elem_of_app. by right.
Qed.

Lemma keep_orphans_nodup d l : forall columns ints, NoDup (omap record_int (keep_orphans d columns ints l)).
Proof.
  induction l as [|q l IH]; intros columns ints; cbn [keep_orphans]; [constructor|].
  destruct (_ || _); [apply IH|]. destruct (lifted d q); [apply IH|]. cbn.
  destruct (record_int q) as [n|] eqn:En; [|apply IH]. apply NoDup_cons. split; [|apply IH].
  intros (r & Hr & Hn)%list_elem_of_omap. apply keep_orphans_sound in Hr as (_ & _ & _ & Hr). apply (Hr n Hn).
  apply elem_of_app. left. unfold record_int in En. rewrite En. left.
Qed.

Lemma keep_orphans_complete d n r l : record_int r = Some n -> r ∈ l -> lifted d r = false ->
  forall columns ints, (s_serial r ∈ columns -> n ∈ ints) ->
  n ∈ ints \/ n ∈ omap record_int (keep_orphans d columns ints l).
Proof.
  intros Hn Hin Hl. induction l as [|q l IH]; intros columns ints Hc; [by apply elem_of_nil in Hin|].
  assert (forall q', s_serial q' = s_serial r -> record_int q' = Some n) as Hsame.
  { intros q' E. unfold record_int, resolve in *. cbn in *. by rewrite E. }
  apply elem_of_cons in Hin. cbn [keep_orphans].
  destruct (str_in (s_serial q) columns) eqn:Ec; cbn [orb].
  { destruct Hin as [->|Hin]; [|by apply IH]. left. by apply Hc, str_in_spec. }
  destruct (int_in (resolve (LSerial q)) ints) eqn:Ei.
  { destruct Hin as [->|Hin]; [|by apply IH]. left. apply int_in_spec in Ei as (m & Hm & ?).
    unfold record_int in Hn. congruence. }
  destruct (lifted d q) eqn:Eq; [destruct Hin as [->|Hin]; [congruence|by apply IH]|].
  cbn. destruct Hin as [->|Hin]; [right; rewrite Hn; left|].
  destruct (IH Hin (s_serial q :: columns) (option_list (resolve (LSerial q)) ++ ints)%list) as [H|H].
  - intros [E|?]%elem_of_cons; apply elem_of_app; [left|right; by apply Hc].
    pose proof (Hsame q (eq_sym E)) as Hq. unfold record_int in Hq. rewrite Hq. left.
  - apply elem_of_app in H as [H|H]; [|by left]. right.
    change (resolve (LSerial q)) with (record_int q) in H. destruct (record_int q) as [m|] eqn:Em; [|by apply elem_of_nil in H].
    apply list_elem_of_singleton in H as ->. left.
  - right. destruct (record_int q); [by right|done].
Qed.

Lemma elem_insert_serial q r l : q ∈ insert_serial r l <-> q = r \/ q ∈ l.
Proof.
  induction l as [|x l IH]; cbn; [by rewrite list_elem_of_singleton, elem_of_nil; naive_solver|].
  destruct (_ <=? _); rewrite !elem_of_cons, ?IH; naive_solver.
Qed.
Lemma elem_by_revocation q l : q ∈ by_revocation l <-> q ∈ l.
Proof.
  unfold by_revocation. rewrite <- (fold_left_rev_right insert_serial), (list_elem_of_In l), in_rev, <- list_elem_of_In.
  induction (rev l) as [|r m IH]; cbn; [done|]. by rewrite elem_insert_serial, IH, elem_of_cons.
Qed.

(** ** What a full CRL selects *)

Definition publishable (n : Z) : Prop := 0 < n < 2 ^ 159.

Lemma bit_length_bound n : 0 < n -> bit_length n <= 159 <-> n < 2 ^ 159.
Proof.
  intros Hn. unfold bit_length. destruct (n =? 0) eqn:E; [lia|]. rewrite Z.abs_eq by lia.
  rewrite (Z.log2_lt_pow2 n 159) by lia. lia.
Qed.

Lemma parse_revoked_serial_spec l n : _parse_revoked_serial l = Some n <-> resolve l = Some n /\ publishable n.
Proof.
  unfold _parse_revoked_serial, publishable. destruct (resolve l) as [m|]; [|naive_solver].
  destruct (m <=? 0) eqn:E1; [split; [done|]; intros [[= ->] ?]; lia|]. apply Z.leb_gt in E1.
  pose proof (bit_length_bound m E1). destruct (159 <? bit_length m) eqn:E2.
  - split; [done|]. intros [[= ->] ?]. apply Z.ltb_lt in E2. lia.
  - apply Z.ltb_ge in E2. split; [intros [= ->]; split; [done|lia]|naive_solver].
Qed.

Lemma entry_serials delta now (l : list listed) n :
  n ∈ e_serial <$> omap (make_entry delta now) l <-> n ∈ omap resolve l /\ publishable n.
Proof.
  rewrite list_elem_of_fmap, list_elem_of_omap. setoid_rewrite list_elem_of_omap.
  assert (forall x e, make_entry delta now x = Some e -> resolve x = Some (e_serial e) /\ publishable (e_serial e)) as H.
  { intros x e. unfold make_entry. destruct (_parse_revoked_serial x) as [m|] eqn:Em; [|done]. cbn.
    intros [= <-]. by apply parse_revoked_serial_spec. }
  split.
  - intros (e & -> & x & Hx & He). destruct (H _ _ He). eauto.
  - intros [(x & Hx & Hn) Hp]. pose proof (proj2 (parse_revoked_serial_spec x n) (conj Hn Hp)) as Hs.
    eexists. split; [|exists x; split; [done|unfold make_entry; rewrite Hs; reflexivity]]. done.
Qed.

Definition live_records (d : db) (ca : CA) (now : Z) : list listed :=
  ((LCert <$> live_certificates d ca now) ++ (LCa <$> _revoked_child_cas d ca now))%list.

(* a record whose spelling a live record of another serial carries *)
Definition shadowed (d : db) (ca : CA) (now : Z) (r : RevokedSerial) : Prop :=
  exists l, l ∈ _dedupe_live_records (live_records d ca now) /\ column l = Some (s_serial r)
            /\ resolve l <> record_int r.

(* the records the selection keeps, in the terms of the code *)
Inductive selected (d : db) (ca : CA) (now n : Z) : Prop :=
| sel_certificate c : c ∈ certs d -> opt_in (c_caref c) (same_key_refids d ca) = true ->
    revoked (c_rev c) = true -> _not_expired (c_valid_to c) now = true -> resolve (LCert c) = Some n -> selected d ca now n
| sel_child a : a ∈ cas d -> a_caref a = Some (a_refid ca) -> revoked (a_rev a) = true ->
    _not_expired (a_valid_to a) now = true -> resolve (LCa a) = Some n -> selected d ca now n
| sel_record r : r ∈ serials d -> s_caref r ∈ same_key_refids d ca -> now < s_valid_to r ->
    record_int r = Some n -> lifted d r = false -> ~ shadowed d ca now r -> selected d ca now n.

Lemma elem_live_certificates d ca now c : c ∈ live_certificates d ca now <->
  c ∈ certs d /\ opt_in (c_caref c) (same_key_refids d ca) = true /\ revoked (c_rev c) = true
  /\ _not_expired (c_valid_to c) now = true.
Proof. unfold live_certificates. rewrite elem_lfilter, !andb_true_iff. naive_solver. Qed.
Lemma elem_revoked_child_cas d ca now a : a ∈ _revoked_child_cas d ca now <->
  a ∈ cas d /\ a_caref a = Some (a_refid ca) /\ revoked (a_rev a) = true /\ _not_expired (a_valid_to a) now = true.
Proof. unfold _revoked_child_cas. rewrite elem_lfilter, !andb_true_iff, bool_decide_eq_true. naive_solver. Qed.
Lemma elem_persisted_records d ca now r : r ∈ persisted_records d ca now <->
  r ∈ serials d /\ s_caref r ∈ same_key_refids d ca /\ now < s_valid_to r.
Proof. unfold persisted_records. rewrite elem_by_revocation, elem_lfilter, andb_true_iff, str_in_spec, Z.ltb_lt. done. Qed.

Lemma live_ints d ca now n : n ∈ omap resolve (live_records d ca now) <->
  (exists c, c ∈ live_certificates d ca now /\ resolve (LCert c) = Some n)
  \/ (exists a, a ∈ _revoked_child_cas d ca now /\ resolve (LCa a) = Some n).
Proof.
  unfold live_records. rewrite list_elem_of_omap. setoid_rewrite elem_of_app. setoid_rewrite list_elem_of_fmap. naive_solver.
Qed.

Lemma revoked_ints d ca now : omap resolve (get_revoked_certificates d ca now) =
  (omap resolve (_dedupe_live_records (live_records d ca now))
   ++ omap record_int (_filter_orphan_serials d (persisted_records d ca now)
                         (_dedupe_live_records (live_records d ca now))))%list.
Proof.
  unfold get_revoked_certificates. rewrite omap_app. f_equal.
  unfold live_records. induction (_filter_orphan_serials _ _ _) as [|r l IH]; [done|].
  rewrite fmap_cons. cbn. change (resolve (LSerial r)) with (record_int r). by rewrite IH.
Qed.

Lemma listed_ints d ca now n : n ∈ omap resolve (get_revoked_certificates d ca now) <-> selected d ca now n.
Proof.
  rewrite revoked_ints, elem_of_app. set (live := _dedupe_live_records (live_records d ca now)).
  assert (n ∈ omap resolve live <-> n ∈ omap resolve (live_records d ca now)) as Hlive.
  { unfold live, _dedupe_live_records. rewrite dedupe_live_ints. pose proof (not_elem_of_nil n). tauto. }
  split.
  - rewrite Hlive, live_ints. intros [[(c & Hc & Hn)|(a & Ha & Hn)]|(r & Hr & Hn)%list_elem_of_omap].
    + apply elem_live_certificates in Hc as (? & ? & ? & ?). by eapply sel_certificate.
    + apply elem_revoked_child_cas in Ha as (? & ? & ? & ?). by eapply sel_child.
    + apply keep_orphans_sound in Hr as ((? & ? & ?)%elem_persisted_records & Hl & Hcol & Hint).
      eapply sel_record; [done..|]. intros (l & Hl1 & Hl2 & _). apply Hcol, list_elem_of_omap. eauto.
  - intros [c ? ? ? ? Hn|a ? ? ? ? Hn|r ? ? ? Hn Hl Hs].
    + left. apply Hlive, live_ints. left. exists c. by rewrite elem_live_certificates.
    + left. apply Hlive, live_ints. right. exists a. by rewrite elem_revoked_child_cas.
    + destruct (keep_orphans_complete d n r (persisted_records d ca now) Hn) with (columns := omap column live)
        (ints := omap resolve live) as [?|?]; [by apply elem_persisted_records|done| |by left|by right].
      intros (l & Hl1 & Hl2)%list_elem_of_omap. apply list_elem_of_omap. exists l. split; [done|].
      destruct (decide (resolve l = record_int r)) as [->|]; [done|]. destruct Hs. by exists l.
Qed.

(** ** What a full CRL lists, in terms of the tables *)

(* the serial a record carries: that of its certificate, or what its column says when it
   has no certificate that can be read *)
Inductive carries (pem col : option string) (n : Z) : Prop :=
| by_certificate p : pem = Some p -> p <> "" -> cert_serial p = Some n -> carries pem col n
| by_column s : (forall p, pem = Some p -> p <> "" -> cert_serial p = None) -> col = Some s ->
    serial_to_int (SStr s) = Some n -> carries pem col n.

Definition unexpired (valid_to : option Z) (now : Z) : Prop := forall v, valid_to = Some v -> now < v.

(* [ref] names the CA, or another record with the same subject and the same key *)
Definition under_key (d : db) (ca : CA) (ref : string) : Prop :=
  ref = a_refid ca
  \/ exists o p q key, o ∈ cas d /\ a_refid o = ref /\ a_subject o = a_subject ca /\ a_id o <> a_id ca
       /\ a_crt ca = Some p /\ cert_key p = Some key /\ a_crt o = Some q /\ cert_key q = Some key.

(* the certificate a record was written for is back and is not revoked *)
Definition lifted_record (d : db) (r : RevokedSerial) : Prop :=
  exists i c, s_certificate r = Some i /\ find_cert d i = Some c /\ revoked (c_rev c) = false
    /\ (c_serial c = Some (s_serial r)
         \/ exists n, carries None (Some (s_serial r)) n /\ carries (c_crt c) (c_serial c) n).

(* a revoked certificate or child CA that the CRL of the CA covers: its columns *)
Inductive covered (d : db) (ca : CA) (now : Z) : option string -> option string -> Prop :=
| covered_certificate c ref : c ∈ certs d -> c_caref c = Some ref -> under_key d ca ref -> revoked (c_rev c) = true ->
    unexpired (c_valid_to c) now -> covered d ca now (c_crt c) (c_serial c)
| covered_child a : a ∈ cas d -> a_caref a = Some (a_refid ca) -> revoked (a_rev a) = true ->
    unexpired (a_valid_to a) now -> covered d ca now (a_crt a) (a_serial a).

Definition by_row (d : db) (ca : CA) (now n : Z) : Prop :=
  exists pem col, covered d ca now pem col /\ carries pem col n.
Definition by_record (d : db) (ca : CA) (now n : Z) (r : RevokedSerial) : Prop :=
  r ∈ serials d /\ under_key d ca (s_caref r) /\ now < s_valid_to r /\ carries None (Some (s_serial r)) n
  /\ ~ lifted_record d r.
(* no covered row has the text of the record in its column and carries another serial *)
Definition unopposed (d : db) (ca : CA) (now n : Z) (r : RevokedSerial) : Prop :=
  forall pem, covered d ca now pem (Some (s_serial r)) -> carries pem (Some (s_serial r)) n.

Lemma resolve_carries l n : resolve l = Some n <-> carries (crt (serial_view l)) (column l) n.
Proof.
  unfold resolve, resolve_record_serial, column. destruct (serial_view l) as [pem col]. cbn.
  assert (forall p, pem = p -> (p = None \/ p = Some "" \/ exists t, p = Some t /\ cert_serial t = None) ->
    serial_to_int (column_arg col) = Some n <-> carries pem col n) as Hcol.
  { intros p -> Hp. split.
    - destruct col as [s|]; [|done]. intros Hs. eapply by_column; [|done|done].
      intros t -> Ht. destruct Hp as [?|[[= ->]|(u & [= ->] & ?)]]; done.
    - intros [t -> Ht E|t _ -> E]; [|done]. destruct Hp as [?|[[= ->]|(u & [= ->] & ?)]]; congruence. }
  destruct pem as [[|c t]|]; [by eapply Hcol; [done|right; left]| |by eapply Hcol; [done|left]].
  destruct (cert_serial (String c t)) as [m|] eqn:Em; [|by eapply Hcol; [done|right; right; eauto]].
  split; [intros [= ->]; by eapply by_certificate|].
  intros [p [= <-] _ E|u H _ _]; [congruence|]. by rewrite (H _ eq_refl) in Em.
Qed.

Lemma not_expired_spec v now : _not_expired v now = true <-> unexpired v now.
Proof.
  unfold unexpired. destruct v as [v|]; cbn; [|done]. rewrite Z.ltb_lt. split; [by intros ? ? [= <-]|auto].
Qed.

Lemma same_key_refids_spec d ca ref : ref ∈ same_key_refids d ca <-> under_key d ca ref.
Proof.
  unfold same_key_refids, under_key. rewrite elem_of_cons. apply or_iff_compat_l.
  destruct (a_crt ca) as [p|]; cbn.
  2: { split; [by intros ?%elem_of_nil|]. by intros (? & ? & ? & ? & _ & _ & _ & _ & ? & _). }
  destruct (cert_key p) as [key|] eqn:Ek.
  2: { split; [by intros ?%elem_of_nil|]. intros (? & ? & ? & ? & _ & _ & _ & _ & [= <-] & ? & _). congruence. }
  rewrite list_elem_of_fmap. setoid_rewrite elem_lfilter. setoid_rewrite andb_true_iff. setoid_rewrite andb_true_iff.
  setoid_rewrite bool_decide_eq_true. setoid_rewrite negb_true_iff. setoid_rewrite Z.eqb_neq. split.
  - intros (o & -> & Ho & [Hs Hi] & Hk). destruct (a_crt o) as [q|] eqn:Eq; [|done]. exists o, p, q, key. naive_solver.
  - intros (o & p' & q & k & Ho & <- & Hs & Hi & [= <-] & Hk & Hq & Hk'). exists o. rewrite Hq. cbn. naive_solver.
Qed.

Lemma opt_in_key d ca o : opt_in o (same_key_refids d ca) = true <-> exists ref, o = Some ref /\ under_key d ca ref.
Proof. rewrite opt_in_spec. by setoid_rewrite same_key_refids_spec. Qed.

Lemma lifted_spec d r : lifted d r = true <-> lifted_record d r.
Proof.
  unfold lifted, lifted_record. destruct (s_certificate r) as [i|]; cbn; [|split; [done|by intros (? & ? & ? & _)]].
  destruct (find_cert d i) as [c|] eqn:Ec; [|split; [done|intros (? & ? & [= <-] & ? & _); congruence]].
  assert (same_serial cert_serial (serial_view (LSerial r)) (serial_view (LCert c)) = true <->
    (c_serial c = Some (s_serial r) \/ exists n, carries None (Some (s_serial r)) n /\ carries (c_crt c) (c_serial c) n)) as Hs.
  { pose proof (resolve_carries (LSerial r)) as H1. pose proof (resolve_carries (LCert c)) as H2.
    unfold same_serial. change (crt (serial_view (LSerial r))) with (@None string) in H1.
    change (column (LSerial r)) with (Some (s_serial r)) in H1. change (crt (serial_view (LCert c))) with (c_crt c) in H2.
    change (column (LCert c)) with (c_serial c) in H2. setoid_rewrite <- H1. setoid_rewrite <- H2. unfold resolve.
    change (serial_number (serial_view (LSerial r))) with (Some (s_serial r)).
    change (serial_number (serial_view (LCert c))) with (c_serial c). case_bool_decide as Hcol.
    - split; [intros _; left; naive_solver|done].
    - assert (c_serial c <> Some (s_serial r)) as Hne by (intros E; by rewrite E in Hcol; destruct Hcol).
      destruct (resolve_record_serial cert_serial (serial_view (LSerial r))) as [n|]; [|naive_solver].
      rewrite bool_decide_eq_true. split; [intros E; right; by exists n|]. naive_solver. }
  rewrite andb_true_iff, negb_true_iff, Hs. split.
  - intros [Hr H]. by exists i, c.
  - intros (i' & c' & [= <-] & ? & Hr & H). assert (c' = c) as -> by congruence. done.
Qed.

Lemma covered_live d ca now pem col : covered d ca now pem col <->
  exists l, l ∈ live_records d ca now /\ crt (serial_view l) = pem /\ column l = col.
Proof.
  unfold live_records. setoid_rewrite elem_of_app. setoid_rewrite list_elem_of_fmap. split.
  - intros [c ref Hc Hk Hu Hr He|a Ha Hk Hr He].
    + exists (LCert c). split; [left; exists c; split; [done|]|done]. apply elem_live_certificates.
      rewrite opt_in_key, not_expired_spec. eauto 6.
    + exists (LCa a). split; [right; exists a; split; [done|]|done]. apply elem_revoked_child_cas. by rewrite not_expired_spec.
  - intros (l & [(c & -> & Hc)|(a & -> & Ha)] & <- & <-).
    + apply elem_live_certificates in Hc as (H1 & (ref & H2 & H3)%opt_in_key & H4 & H5%not_expired_spec).
      by eapply covered_certificate.
    + apply elem_revoked_child_cas in Ha as (? & ? & ? & ?%not_expired_spec). by apply covered_child.
Qed.

Lemma by_row_live d ca now n : by_row d ca now n <-> n ∈ omap resolve (live_records d ca now).
Proof.
  unfold by_row. setoid_rewrite covered_live. rewrite list_elem_of_omap. setoid_rewrite resolve_carries. naive_solver.
Qed.

Lemma selected_row d ca now n : by_row d ca now n -> selected d ca now n.
Proof.
  rewrite by_row_live, live_ints. intros [(c & (? & ? & ? & ?)%elem_live_certificates & ?)|(a & (? & ? & ? & ?)%elem_revoked_child_cas & ?)].
  - by eapply sel_certificate.
  - by eapply sel_child.
Qed.

Lemma selected_listed d ca now n : selected d ca now n -> by_row d ca now n \/ exists r, by_record d ca now n r.
Proof.
  intros [c ? ? ? ? Hn|a ? ? ? ? Hn|r Hr Hk Hv Hn Hl _]; [left; apply by_row_live, live_ints..|right].
  - left. exists c. by rewrite elem_live_certificates.
  - right. exists a. by rewrite elem_revoked_child_cas.
  - exists r. split; [done|]. split; [by apply same_key_refids_spec|]. split; [done|].
    split; [by apply (resolve_carries (LSerial r))|]. rewrite <- lifted_spec. by rewrite Hl.
Qed.

Lemma dedupe_live_sub l si sc x : x ∈ dedupe_live si sc l -> x ∈ l.
Proof.
  revert si sc. induction l as [|r l IH]; intros si sc; cbn [dedupe_live]; [done|].
  repeat case_match; rewrite ?elem_of_cons; naive_solver.
Qed.

Lemma record_selected d ca now n r : by_record d ca now n r -> unopposed d ca now n r -> selected d ca now n.
Proof.
  intros (Hr & Hk & Hv & Hn & Hl) Hu. assert (record_int r = Some n) as Hn' by (by apply (resolve_carries (LSerial r))).
  eapply sel_record; [done|by apply same_key_refids_spec|done|done| |].
  - apply not_true_iff_false. by rewrite lifted_spec.
  - intros (l & Hl1%dedupe_live_sub & Hl2 & Hl3). apply Hl3. rewrite Hn'. apply resolve_carries. rewrite Hl2.
    apply Hu, covered_live. by exists l.
Qed.


(** No serial is listed twice on a full CRL, whatever rows share it. *)
Theorem crl_no_repeats (d : db) (ca : CA) (now : Z) : NoDup (e_serial <$> full_entries d ca now).
Proof.
  assert (forall l : list listed, NoDup (omap resolve l) -> NoDup (e_serial <$> omap (make_entry false now) l)) as H.
  { induction l as [|x l IH]; [constructor|]. cbn. intros Hn.
    destruct (make_entry false now x) as [e|] eqn:Ee; cbn.
    - unfold make_entry in Ee. destruct (_parse_revoked_serial x) as [m|] eqn:Em; [|done]. injection Ee as <-.
      apply parse_revoked_serial_spec in Em as [Em Hp]. rewrite Em in Hn. apply NoDup_cons in Hn as [Hm Hn].
      apply NoDup_cons. split; [|by apply IH]. rewrite entry_serials. naive_solver.
    - apply IH. destruct (resolve x); [by apply NoDup_cons in Hn as [_ ?]|done]. }
  apply H. rewrite revoked_ints. apply NoDup_app. split; [apply dedupe_live_nodup|]. split; [|apply keep_orphans_nodup].
  intros n Hn (r & Hr & Hi)%list_elem_of_omap. apply keep_orphans_sound in Hr as (_ & _ & _ & Hr). by apply (Hr n Hi).
Qed.
End Crl.
