(* ===== verification/RevocationSafety.v ===== *)
(** * RevocationSafety: CRL, OCSP and the lifecycle agree

    What the CRL lists the responder answers revoked; a revocation survives whatever is
    done later to the certificate; a failed revocation leaves nothing behind; lifting a
    hold restores the status; no cached answer outlives a revocation. *)

From Stdlib Require Import Ascii String.
From stdpp Require Import prelude strings.
From S2P Require Import Prelude Scalars Serials Session RevocationModel Revocations IssuedLookup OcspStatus CrlContents.

Local Open Scope string_scope.
Local Open Scope Z_scope.

Definition is_revoked (st : ocsp_status) : bool := match st with Revoked _ _ => true | _ => false end.

Section Agreement.
Context {X : X509}.
Variable linked_issuer : CACrossCertificate -> option string.
#[local] Arguments resolve : simpl never.

(* the text of a serial column is one of the spellings the code writes *)
Definition spelled (col : option string) (n : Z) : Prop := exists s, col = Some s /\ s ∈ serial_variants n.

(* the certificate of a child CA says that the CA issued it *)
Definition names_issuer (ca a : CA) (n : Z) : Prop :=
  a_id a <> a_id ca
  /\ exists p q, a_crt a = Some p /\ p <> "" /\ cert_serial p = Some n /\ readable (a_crt ca) = Some q
       /\ cert_issuer p = cert_subject q.

(* the rows that put the serial on the CRL are rows a lookup can find: certificates and
   records by their column, child CAs by their column or by their certificate *)
Record findable (d : db) (ca : CA) (n : Z) : Prop := {
  fi_certs : forall c, c ∈ certs d -> carries (c_crt c) (c_serial c) n -> spelled (c_serial c) n;
  fi_cas : forall a, a ∈ cas d -> a_caref a = Some (a_refid ca) -> carries (a_crt a) (a_serial a) n ->
    spelled (a_serial a) n \/ names_issuer ca a n;
  fi_serials : forall r, r ∈ serials d -> carries None (Some (s_serial r)) n -> s_serial r ∈ serial_variants n;
}.

(* not known to hold another serial *)
Definition may_be (pem : option string) (n : Z) : Prop :=
  forall p m, pem = Some p -> p <> "" -> cert_serial p = Some m -> m = n.

Lemma may_hold_spec pem n : may_hold pem n = true <-> may_be pem n.
Proof.
  unfold may_hold, _record_holds_serial, may_be. destruct pem as [[|c s]|]; cbn; [|destruct (cert_serial (String c s)) as [m|] eqn:E|].
  - split; [intros _ p m [= <-]; done|done].
  - rewrite negb_true_iff, bool_decide_eq_false. split.
    + intros H p k [= <-] _ E'. assert (m = k) as <- by congruence. destruct (m =? n) eqn:En; [by apply Z.eqb_eq|done].
    + intros H [= En%Z.eqb_neq]. apply En. by eapply H.
  - split; [intros _ p k [= <-] _ ?; congruence|done].
  - split; [by intros _ p m|done].
Qed.

Lemma carries_may_hold pem col n : carries pem col n -> may_hold pem n = true.
Proof.
  rewrite may_hold_spec. intros [p -> Hp E|s H _ _] q m Eq Hq Em; [|by rewrite (H q Eq Hq) in Em]. congruence.
Qed.

(* rows of the issuer under a spelling of the serial *)
Definition like (keys : list string) (n : Z) (c : Certificate) : bool :=
  opt_in (c_caref c) keys && opt_in (c_serial c) (serial_variants n).

Lemma elem_with_serial d ca n c : c ∈ _certificates_with_serial d ca (serial_variants n) <->
  c ∈ certs d /\ like (same_key_refids d ca) n c = true.
Proof.
  unfold _certificates_with_serial, like. rewrite elem_of_app, !elem_lfilter, negb_true_iff.
  destruct (revoked (c_rev c)); naive_solver.
Qed.

(* a revoked row is found before one that is not *)
Lemma revoked_row_first d ca n c :
  c ∈ certs d -> like (same_key_refids d ca) n c = true -> may_hold (c_crt c) n = true -> revoked (c_rev c) = true ->
  exists c', row_for_serial linked_issuer d ca n = Some (FCert c') /\ revoked (c_rev c') = true.
Proof.
  intros Hc Hl Hm Hr. unfold row_for_serial, _certificates_with_serial.
  set (rows := List.filter _ (certs d)).
  destruct (find_of_elem (fun c => may_hold (c_crt c) n) (List.filter (fun c => revoked (c_rev c)) rows) c) as [c' Hc'];
    [apply elem_lfilter; split; [by apply elem_lfilter|done]|done|].
  assert (List.find (fun c => may_hold (c_crt c) n) (List.filter (fun c => revoked (c_rev c)) rows
    ++ List.filter (fun c => negb (revoked (c_rev c))) rows)%list = Some c') as ->.
  { revert Hc'. generalize (List.filter (fun c => revoked (c_rev c)) rows). induction l as [|y l IH]; cbn; [done|].
    by destruct (may_hold (c_crt y) n). }
  exists c'. split; [done|]. apply List.find_some in Hc' as [Hin _]. by apply list_elem_of_In, elem_lfilter in Hin as [_ ?].
Qed.

Lemma persisted_found d ca n r : r ∈ serials d -> s_caref r ∈ same_key_refids d ca -> s_serial r ∈ serial_variants n ->
  exists q, _persisted_revocation d ca (serial_variants n) = Some q.
Proof.
  intros H1 H2 H3. unfold _persisted_revocation. set (l := by_revocation _).
  assert (r ∈ l) as Hr.
  { unfold l. apply elem_by_revocation, elem_lfilter. rewrite andb_true_iff, !str_in_spec. done. }
  destruct l as [|q l]; [by apply elem_of_nil in Hr|]. by exists q.
Qed.

(* a row that is not revoked and that the serial may be of *)
Inductive contradicted (d : db) (ca : CA) (n : Z) : Prop :=
| by_other_certificate c ref : c ∈ certs d -> revoked (c_rev c) = false -> c_caref c = Some ref -> under_key d ca ref ->
    spelled (c_serial c) n -> may_be (c_crt c) n -> contradicted d ca n
| by_other_ca a : a ∈ cas d -> revoked (a_rev a) = false ->
    (spelled (a_serial a) n /\ may_be (a_crt a) n \/ exists p, a_crt a = Some p /\ cert_serial p = Some n) -> contradicted d ca n
| by_other_cross x : x ∈ crosses d -> revoked (x_rev x) = false -> x_serial x ∈ serial_variants n -> may_be (x_crt x) n ->
    contradicted d ca n.

Lemma child_found d ca n a : _child_ca_for_serial d ca n (serial_variants n) = Some a ->
  a ∈ cas d /\ (spelled (a_serial a) n /\ may_be (a_crt a) n \/ exists p, a_crt a = Some p /\ cert_serial p = Some n).
Proof.
  unfold _child_ca_for_serial. destruct (List.find _ _) as [b|] eqn:E.
  - intros [= <-]. apply List.find_some in E as [Hin%list_elem_of_In [[_ Hs]%andb_true_iff Hm]%andb_true_iff].
    split; [done|left]. split; [by apply opt_in_spec|by apply may_hold_spec].
  - destruct (readable (a_crt ca)) as [q|]; [|done]. intros [Hin%list_elem_of_In [_ Hi]%andb_true_iff]%List.find_some.
    split; [done|right]. destruct (text_of (a_crt a)) as [p|] eqn:Ep; [|done].
    apply andb_true_iff in Hi as [[Hi _]%andb_true_iff _]. apply bool_decide_eq_true in Hi. exists p. split; [|done].
    by destruct (a_crt a) as [[]|].
Qed.

Lemma row_contradicts d ca n f : row_for_serial linked_issuer d ca n = Some f -> revoked (rev_of f) = false -> contradicted d ca n.
Proof.
  unfold row_for_serial. destruct (List.find _ _) as [c|] eqn:Ec.
  { intros [= <-] Hr. apply List.find_some in Ec as [Hin%list_elem_of_In Hm]. apply elem_with_serial in Hin as [Hin Hl].
    unfold like in Hl. apply andb_true_iff in Hl as [(ref & ? & ?)%opt_in_key Hs%opt_in_spec].
    eapply by_other_certificate; [done..|by apply may_hold_spec]. }
  destruct (_child_ca_for_serial _ _ _ _) as [a|] eqn:Ea.
  { intros [= <-] Hr. apply child_found in Ea as [? ?]. by eapply by_other_ca. }
  destruct (_cross_certificate_for_serial _ _ _ _ _) as [x|] eqn:Ex; [|done]. intros [= <-] Hr.
  apply List.find_some in Ex as [[Hin [Hs _]%andb_true_iff]%list_elem_of_In%elem_lfilter Hm].
  eapply by_other_cross; [done|done|by apply str_in_spec|by apply may_hold_spec].
Qed.

(* a child CA is found by its column, or by its certificate *)
Lemma child_answers d ca n a : a ∈ cas d -> a_caref a = Some (a_refid ca) -> carries (a_crt a) (a_serial a) n ->
  spelled (a_serial a) n \/ names_issuer ca a n -> _child_ca_for_serial d ca n (serial_variants n) <> None.
Proof.
  intros Ha Hk Hn Hf. unfold _child_ca_for_serial. destruct (List.find _ _) eqn:E; [done|].
  destruct Hf as [Hs|(Hid & p & q & Hp & Hne & Hser & Hq & Hi)].
  - exfalso. apply list_elem_of_In, (find_none _ _ E a) in Ha. apply not_true_iff_false in Ha. apply Ha.
    rewrite !andb_true_iff, !opt_in_spec. split; [split; [|done]|by eapply carries_may_hold].
    exists (a_refid ca). split; [done|left].
  - rewrite Hq. intros E'. apply list_elem_of_In, (find_none _ _ E' a) in Ha. apply not_true_iff_false in Ha.
    apply Ha. unfold issued_under. rewrite Hp. assert (text_of (Some p) = Some p) as -> by (by destruct p).
    rewrite !andb_true_iff, negb_true_iff, Z.eqb_neq, orb_true_iff, String.eqb_eq, !bool_decide_eq_true. auto.
Qed.

Lemma row_none d ca n : row_for_serial linked_issuer d ca n = None ->
  List.find (fun c => may_hold (c_crt c) n) (_certificates_with_serial d ca (serial_variants n)) = None
  /\ _child_ca_for_serial d ca n (serial_variants n) = None
  /\ _cross_certificate_for_serial linked_issuer d ca n (serial_variants n) = None.
Proof.
  unfold row_for_serial. destruct (List.find _ _); [done|]. destruct (_child_ca_for_serial _ _ _ _); [done|].
  by destruct (_cross_certificate_for_serial _ _ _ _ _).
Qed.

(** C6. The CRL and the responder agree: a serial on the full CRL of a CA is answered
    revoked when the rows that put it there can be looked up (certificates and revocation
    records whose column is a spelling of the serial; child CAs too, or else, when the
    column is empty, by a certificate that names the CA as its issuer); always when one of
    them is a revoked certificate, and otherwise unless the tables hold a row that is not
    revoked and may be of that serial. *)
Theorem crl_agrees_with_ocsp (d : db) (ca : CA) (now t n : Z) (Hd : findable d ca n)
  (Hn : n ∈ e_serial <$> full_entries d ca now) :
  is_revoked (_status_for_serial linked_issuer d ca t n) = true
  \/ contradicted d ca n
      /\ ~ exists c ref, c ∈ certs d /\ c_caref c = Some ref /\ under_key d ca ref /\ revoked (c_rev c) = true
             /\ unexpired (c_valid_to c) now /\ carries (c_crt c) (c_serial c) n.
Proof.
  apply entry_serials in Hn as [Hn%listed_ints _].
  assert (forall c, c ∈ certs d -> opt_in (c_caref c) (same_key_refids d ca) = true -> revoked (c_rev c) = true ->
    carries (c_crt c) (c_serial c) n -> is_revoked (_status_for_serial linked_issuer d ca t n) = true) as Hcert.
  { intros c Hc H1 H2 H3. destruct (revoked_row_first d ca n c Hc) as (c' & Hc' & Hr'); [|by eapply carries_may_hold|done|].
    - unfold like. rewrite H1. cbn. apply opt_in_spec. by apply (fi_certs d ca n Hd).
    - unfold _status_for_serial. cbv zeta. rewrite Hc'. cbn. by rewrite Hr'. }
  destruct (is_revoked (_status_for_serial linked_issuer d ca t n)) eqn:Est; [by left|right]. split.
  2: { intros (c & ref & Hc & Hk & Hu & Hr & He & Hi). enough (false = true) by done. apply (Hcert c); try done.
       apply opt_in_key. eauto. }
  destruct (row_for_serial linked_issuer d ca n) as [f|] eqn:Ef.
  - eapply row_contradicts; [done|]. destruct (revoked (rev_of f)) eqn:Er; [|done].
    unfold _status_for_serial in Est. by rewrite Ef, Er in Est.
  - exfalso. destruct Hn as [c ? ? ? ? Hi|a Ha Hk ? ? Hi|r Hr Hk ? Hi ? ?].
    + apply resolve_carries in Hi. enough (false = true) by done. by apply (Hcert c).
    + apply resolve_carries in Hi. apply row_none in Ef as (_ & Ef & _). revert Ef.
      apply (child_answers d ca n a Ha Hk Hi). by apply (fi_cas d ca n Hd).
    + apply (resolve_carries (LSerial r)) in Hi. destruct (persisted_found d ca n r Hr Hk) as [q Hq]; [by apply (fi_serials d ca n Hd)|].
      unfold _status_for_serial in Est. by rewrite Ef, Hq in Est.
Qed.
End Agreement.

(** ** A revocation lasts *)

Lemma text_of_Some o s : text_of o = Some s -> o = Some s.
Proof. by destruct o as [[]|]. Qed.

Section Lasting.
Context {X : X509} {O : X509Objects}.
Variables (linked_issuer : CACrossCertificate -> option string) (ca : CA) (keys : list string) (n v : Z).
Abbreviation like_n := (like keys n).

Definition final (x : revocation) : Prop :=
  revoked x = true /\ opt_in (revoke_reason x) _HOLD_REASONS = false.

(* the serial is revoked for good: every row under a spelling of it is, and the issuer
   keeps a record of it until [v] *)
Record lasting (d : db) : Prop := {
  la_keys : same_key_refids d ca = keys;
  la_rows : forall c, c ∈ certs d -> like_n c = true -> final (c_rev c);
  la_record : exists r, r ∈ serials d /\ s_caref r ∈ keys /\ s_serial r ∈ serial_variants n /\ v <= s_valid_to r;
}.

Section Invariant.
(* during a call the rows keep their side: [L i] says whether row [i] carries the serial *)
Variable L : Z -> bool.
Record inv (d : db) : Prop := {
  inv_lasting : lasting d;
  inv_ids : forall i c, find_cert d i = Some c -> like_n c = L i;
}.

Lemma inv_frame d d' : inv d -> cas d' = cas d -> certs d' = certs d ->
  (exists r, r ∈ serials d' /\ s_caref r ∈ keys /\ s_serial r ∈ serial_variants n /\ v <= s_valid_to r) ->
  inv d'.
Proof.
  intros [Hl Hi] E1 E2 Hr. split; [split|].
  - rewrite <- (la_keys _ Hl). unfold same_key_refids. by rewrite E1.
  - rewrite E2. apply Hl.
  - done.
  - unfold find_cert. by rewrite E2.
Qed.

Lemma inv_same d d' : inv d -> cas d' = cas d -> certs d' = certs d -> serials d' = serials d -> inv d'.
Proof. intros H E1 E2 E3. eapply inv_frame; [done..|]. rewrite E3. apply H. Qed.

Lemma inv_certs d f : inv d -> (forall i c', find_cert (with_certs f d) i = Some c' -> like_n c' = L i) ->
  (forall c', c' ∈ f (certs d) -> like_n c' = true -> final (c_rev c')) -> inv (with_certs f d).
Proof. intros [Hl Hi] H1 H2. split; [split; [apply Hl|done|apply Hl]|done]. Qed.

Lemma inv_update_cert d i f : inv d -> (forall c, c_id (f c) = c_id c) ->
  (forall c, find_cert d i = Some c -> like_n (f c) = like_n c /\ (like_n c = true -> c_rev (f c) = c_rev c)) ->
  inv (update_cert i f d).
Proof.
  intros H Hid Hf. apply inv_certs; [done|..].
  - intros j c'. unfold find_cert. cbn [certs with_certs].
    destruct (find_update_first (fun c => c_id c =? i) f (fun c => c_id c =? j) (certs d)) as [->|(y & H1 & H2 & ->)];
      [by intros c; rewrite Hid|apply H|]. intros [= <-]. rewrite (proj1 (Hf y H1)). by apply H.
  - intros c' [Hc'|(y & Hy & ->)]%elem_update_first; [by apply H|]. destruct (Hf y Hy) as [E1 E2].
    rewrite E1. intros E. rewrite E2 by done. apply (la_rows _ (inv_lasting _ H)); [|done].
    by apply List.find_some in Hy as [?%list_elem_of_In _].
Qed.

Lemma inv_write_record d caref serial f : inv d -> ~ (caref ∈ keys /\ serial ∈ serial_variants n) ->
  inv (with_serials (write_record caref serial f) d).
Proof.
  intros H Hno. eapply inv_frame; [done..|]. destruct (la_record _ (inv_lasting _ H)) as (r & Hr & H1 & H2 & H3).
  exists r. split; [|done]. cbn. unfold write_record. destruct (List.find _ _); [|apply elem_of_app; by left].
  apply update_first_other; [done|]. apply not_true_iff_false. rewrite andb_true_iff, !String.eqb_eq.
  intros [<- <-]. by apply Hno.
Qed.

Lemma inv_filter_serials d f : inv d -> (forall r, s_caref r ∈ keys -> s_serial r ∈ serial_variants n ->
    v <= s_valid_to r -> f r = true) -> inv (with_serials (List.filter f) d).
Proof.
  intros H Hf. eapply inv_frame; [done..|]. destruct (la_record _ (inv_lasting _ H)) as (r & Hr & H1 & H2 & H3).
  exists r. split; [|done]. apply elem_lfilter. split; [done|by apply Hf].
Qed.

Lemma inv_unlink_serials d i : inv d -> inv (unlink_serials i d).
Proof.
  intros H. eapply inv_frame; [done..|]. destruct (la_record _ (inv_lasting _ H)) as (r & Hr & H1 & H2 & H3).
  eexists. split; [apply list_elem_of_fmap; exists r; split; [reflexivity|done]|]. by case_match.
Qed.

Lemma inv_filter_certs d i : inv d -> inv (with_certs (List.filter (fun c => negb (c_id c =? i))) d).
Proof.
  intros H. apply inv_certs; [done|..].
  - intros j c'. unfold find_cert. cbn [certs with_certs]. intros Hf. apply H. unfold find_cert. revert Hf.
    induction (certs d) as [|y l IH]; cbn; [done|]. destruct (c_id y =? i) eqn:Ei; cbn.
    + intros Hf. assert ((c_id y =? j) = false) as ->; [|by apply IH]. apply List.find_some in Hf as [Hin Hj].
      apply filter_In in Hin as [_ Hi]. destruct (c_id y =? j) eqn:E; [|done]. lia.
    + destruct (c_id y =? j); [done|exact IH].
  - intros c' [Hc' _]%elem_lfilter. by apply H.
Qed.

Lemma inv_set_related d i r : inv d -> inv (update_cert i (set_related r) d).
Proof. intros H. by apply inv_update_cert. Qed.

Lemma inv_unlink_rows t i d : inv d -> inv (unlink_rows_naming t i d).
Proof.
  unfold unlink_rows_naming. generalize (List.filter (fun c => bool_decide (c_related c = Some i) && negb (c_id c =? i)) (certs d)).
  intros l. revert d. induction l as [|c l IH]; intros d H; cbn; [done|]. apply IH. by apply inv_set_related.
Qed.

(* a row that is not revoked for good does not carry the serial *)
Lemma not_like d i c : inv d -> find_cert d i = Some c -> ~ final (c_rev c) -> L i = false.
Proof.
  intros H Hc Hr. rewrite <- (inv_ids _ H i c Hc). destruct (like_n c) eqn:E; [|done].
  apply List.find_some in Hc as [Hin _]. destruct Hr. apply H; [by apply list_elem_of_In|done].
Qed.

(* such a row may be marked, lifted or put back *)
Lemma inv_set_rev d i x : L i = false -> inv d -> inv (update_cert i (set_rev x) d).
Proof.
  intros Hi H. apply inv_update_cert; [done..|]. intros c Hc. split; [done|]. rewrite (inv_ids _ H i c Hc). congruence.
Qed.

Lemma like_pair c caref serial : c_caref c = Some caref -> c_serial c = Some serial -> like_n c = false ->
  ~ (caref ∈ keys /\ serial ∈ serial_variants n).
Proof.
  unfold like. intros -> ->. cbn [opt_in]. intros H [H1 H2]. apply str_in_spec in H1, H2. by rewrite H1, H2 in H.
Qed.

Lemma find_cert_id d i c : find_cert d i = Some c -> c_id c = i.
Proof. intros [_ H]%List.find_some. by apply Z.eqb_eq. Qed.

Lemma maintains_modify_same f : (forall d, cas (f d) = cas d /\ certs (f d) = certs d /\ serials (f d) = serials d) ->
  maintains inv (modify (E := rev_error) f).
Proof. intros Hf. apply maintains_modify. intros d H. destruct (Hf d) as (? & ? & ?). by eapply inv_same. Qed.

#[local] Hint Resolve inv_unlink_serials inv_unlink_rows inv_filter_certs inv_set_related inv_set_rev : session.
#[local] Hint Extern 4 (maintains inv (modify _)) => apply maintains_modify_same; intros ?; repeat split : session.

Lemma maintains_attempt {A} (c : Act A) : maintains inv c -> maintains inv (attempt c).
Proof. intros Hc. unfold attempt. session_walk. Qed.
Lemma maintains_invalidate_ca_cache i : maintains inv (invalidate_ca_cache i).
Proof. unfold invalidate_ca_cache. session_walk. Qed.
#[local] Hint Resolve maintains_invalidate_ca_cache maintains_attempt : session.
Lemma maintains_invalidate_ca_caches l : maintains inv (invalidate_ca_caches l).
Proof. induction l; cbn; session_walk. Qed.
Lemma maintains_invalidate_cached s i : maintains inv (invalidate_cached_responses s i).
Proof. unfold invalidate_cached_responses. session_walk. Qed.
#[local] Hint Resolve maintains_invalidate_ca_caches maintains_invalidate_cached : session.
Lemma maintains_delete ev i : maintains inv (delete_certificate ev i).
Proof. unfold delete_certificate. session_walk. Qed.
#[local] Hint Resolve maintains_delete : session.
Lemma maintains_delete_all ev l : maintains inv (delete_all ev l).
Proof. induction l; cbn; session_walk. Qed.
#[local] Hint Resolve maintains_delete_all : session.
Lemma maintains_purge_stale ev i : now ev <= v -> maintains inv (purge_stale_revoked_serials ev i).
Proof.
  intros Hv. unfold purge_stale_revoked_serials. session_walk. apply inv_filter_serials; [done|]. intros r _ _ Hr.
  destruct (s_valid_to r <? now ev) eqn:E; [apply Z.ltb_lt in E; lia|by rewrite andb_false_r].
Qed.
Lemma maintains_generate_crl ev i days : now ev <= v -> maintains inv (generate_crl ev i days).
Proof.
  intros Hv. unfold generate_crl, _run_housekeeping, purge_expired_revoked_certificates, store_crl.
  pose proof (maintains_purge_stale ev). session_walk.
Qed.
Lemma maintains_generate_delta ev i h : maintains inv (generate_delta_crl ev i h).
Proof. unfold generate_delta_crl, store_crl. session_walk. Qed.
Lemma maintains_external i raw : maintains inv (install_external_crl i raw).
Proof. unfold install_external_crl, store_crl. session_walk. Qed.
#[local] Hint Resolve maintains_generate_crl maintains_generate_delta : session.

Lemma maintains_restore i x : L i = false -> maintains inv (_restore_revocation_state i x).
Proof. intros Hi. unfold _restore_revocation_state. session_walk. Qed.
#[local] Hint Resolve maintains_restore : session.

Lemma maintains_after ev c ca0 : now ev <= v -> maintains inv (after_revocation ev c ca0).
Proof. intros Hv. unfold after_revocation. session_walk. Qed.
#[local] Hint Resolve maintains_after : session.

Lemma maintains_stage ev c ca0 reason iv : like_n c = false -> L (c_id c) = false ->
  maintains inv (stage_revocation ev c ca0 reason iv).
Proof.
  intros Hc Hi. unfold stage_revocation. session_walk. apply inv_write_record; [done|by eapply like_pair].
Qed.

Lemma maintains_revoke_body ev i reason iv : now ev <= v -> maintains inv (revoke_body ev i reason iv).
Proof.
  intros Hv. unfold revoke_body. apply maintains_bind_gets. intros d Hd.
  destruct (find_cert d i) as [c|] eqn:Hc; [|session_walk]. destruct (revoked (c_rev c)) eqn:Hr; [session_walk|].
  pose proof (find_cert_id _ _ _ Hc) as <-.
  assert (L (c_id c) = false) as Hi by (eapply not_like; [done..|]; intros []; congruence).
  pose proof (maintains_stage ev c). rewrite (inv_ids _ Hd _ _ Hc) in *. session_walk.
Qed.

Lemma maintains_hand_over ev i : maintains inv (hand_over ev i).
Proof. unfold hand_over. session_walk. Qed.
#[local] Hint Resolve maintains_revoke_body maintains_hand_over : session.

Lemma maintains_revoke_alone ev i reason iv : now ev <= v -> maintains inv (revoke_alone ev i reason iv).
Proof. intros Hv. unfold revoke_alone. session_walk. Qed.
#[local] Hint Resolve maintains_revoke_alone : session.
Lemma maintains_revoke ev i reason iv rel : now ev <= v -> maintains inv (revoke_certificate ev i reason iv rel).
Proof. intros Hv. unfold revoke_certificate. session_walk. Qed.

Lemma maintains_answer_one t sg a serial nonce alg : maintains inv (answer_one linked_issuer t sg a serial nonce alg).
Proof. unfold answer_one, generate_response, _cache_response. session_walk. Qed.

Lemma maintains_revoke_cross ev i a reason iv : now ev <= v -> maintains inv (revoke_cross ev i a reason iv).
Proof.
  intros Hv. unfold revoke_cross. session_walk. eapply inv_frame; [eassumption|done..|].
  match goal with H : inv ?d |- context [serials (with_serials _ ?d)] => destruct (la_record _ (inv_lasting _ H)) as (r & Hr & ?) end.
  exists r. split; [|done]. cbn. apply elem_of_app. by left.
Qed.

Lemma inv_lift_hold c d : like_n c = false -> L (c_id c) = false -> inv d -> inv (lift_hold c d).
Proof.
  intros Hc Hi H. unfold lift_hold. apply (inv_set_rev _ _ not_revoked Hi) in H.
  destruct (text_of (c_caref c)) as [caref|] eqn:Ek; [|done]. destruct (text_of (c_serial c)) as [serial|] eqn:Es; [|done].
  apply inv_filter_serials; [done|]. intros r H1 H2 _. apply negb_true_iff, not_true_iff_false.
  rewrite andb_true_iff, !String.eqb_eq. intros [<- <-]. apply (like_pair c (s_caref r) (s_serial r)); [..|done|done].
  - by apply text_of_Some.
  - by apply text_of_Some.
Qed.

Lemma maintains_unhold ev i : now ev <= v -> maintains inv (unhold_certificate ev i).
Proof.
  intros Hv. unfold unhold_certificate. apply maintains_bind_gets. intros d Hd.
  destruct (find_cert d i) as [c|] eqn:Hc; [|session_walk]. destruct (revoked (c_rev c)); cbn [negb]; [|session_walk].
  destruct (opt_in (revoke_reason (c_rev c)) _HOLD_REASONS) eqn:Hh; cbn [negb]; [|session_walk].
  pose proof (find_cert_id _ _ _ Hc) as <-.
  assert (L (c_id c) = false) as Hi by (eapply not_like; [done..|]; intros []; congruence).
  pose proof (inv_lift_hold c). rewrite (inv_ids _ Hd _ _ Hc) in *.
  unfold stage_removal, _restore_hold. session_walk.
Qed.

Lemma inv_write_row d i a m : L i = false -> py_hex (n_serial m) ∉ serial_variants n -> inv d ->
  inv (update_cert i (_write_row a m) d).
Proof.
  intros Hi Hm H. apply inv_update_cert; [done..|]. intros c Hc. rewrite (inv_ids _ H i c Hc), Hi. split; [|done].
  unfold like. apply andb_false_iff. right. by apply str_in_false.
Qed.

(* a renewal that replaces another serial and issues another serial *)
Lemma maintains_renew ev i known ca_id signed rel : now ev <= v ->
  (forall m, signed = Some m -> py_hex (n_serial m) ∉ serial_variants n) ->
  (forall s, known = Some s -> s ∉ serial_variants n) ->
  maintains inv (renew_alone ev i known ca_id signed rel).
Proof.
  intros Hv Hnew Hold. unfold renew_alone. apply maintains_bind_gets. intros d Hd.
  destruct (find_cert d i) as [c|] eqn:Hc; [|session_walk]. case_bool_decide as Hk; cbn [negb]; [|session_walk].
  destruct (negb (bool_decide _)); [session_walk|]. cbn [orb]. destruct (revoked (c_rev c)) eqn:Hr; [session_walk|].
  assert (L i = false) as Hi by (eapply not_like; [done..|]; intros []; congruence).
  pose proof (inv_write_row) as Hw. unfold _record_superseded, leave_pair. session_walk.
  apply inv_write_record; [done|]. intros [_ Hs]. eapply Hold; [|exact Hs]. rewrite <- Hk.
  by apply text_of_Some.
Qed.
End Invariant.

(* the answers kept for the serial under the CA say revoked *)
Definition cached_revoked (d : db) : Prop := forall o alg, o ∈ cache d -> o_ca o = a_id ca -> o_key o = cache_key n alg ->
  is_revoked (o_status o) = true.

(* what holds for good *)
Lemma lasting_revoked d t : lasting d -> is_revoked (_status_for_serial linked_issuer d ca t n) = true.
Proof.
  intros Hl. destruct (la_record _ Hl) as (r & Hr & H1 & H2 & _). rewrite <- (la_keys _ Hl) in H1.
  destruct (persisted_found d ca n r Hr H1 H2) as [q Hq]. unfold _status_for_serial. rewrite Hq.
  destruct (row_for_serial linked_issuer d ca n) as [[c|a|x]|] eqn:E; [|by case_match..|done].
  unfold row_for_serial in E. destruct (List.find _ _) as [c'|] eqn:Ec; [injection E as ->|].
  2: { destruct (_child_ca_for_serial _ _ _ _); [done|]. by destruct (_cross_certificate_for_serial _ _ _ _ _). }
  apply List.find_some in Ec as [Hin%list_elem_of_In _]. apply elem_with_serial in Hin as [Hin Hk].
  rewrite (la_keys _ Hl) in Hk. destruct (la_rows _ Hl c Hin Hk) as [Hrev _]. cbn. by rewrite Hrev.
Qed.

(** ** The calls that may follow *)

Inductive call :=
| CRevoke (ev : env) (cert_id : Z) (reason : string) (invalidity : option Z) (revoke_related : bool)
| CUnhold (ev : env) (cert_id : Z)
| CDelete (ev : env) (cert_id : Z)
| CRenew (ev : env) (cert_id : Z) (known : option string) (ca_id : Z) (signed : option renewed) (names_related : bool)
| CCrl (ev : env) (ca_id : Z) (validity_days : option Z)
| CDelta (ev : env) (ca_id : Z) (validity_hours : Z)
| CExternal (ca_id : Z) (raw : option external_crl)
| CPurgeSerials (ev : env) (ca_id : Z)
| CPurgeCertificates (ev : env) (ca_id : Z)
| CRevokeCross (ev : env) (cross_id : Z) (issuer : option CA) (reason : string) (invalidity : option Z)
| COcsp (now : Z) (sg : signing) (a : CA) (serial : Z) (nonce : bool) (algorithm : string)
| CStore (c : Certificate)        (* a certificate issued or imported *)
| CReissue (new : Certificate) (supersedes : option Certificate).   (* a protocol renewal *)

Definition ignore {A} (c : Act A) : Act unit := _ ← c; mret tt.

Definition perform (k : call) : Act unit :=
  match k with
  | CRevoke ev i reason iv rel => revoke_certificate ev i reason iv rel
  | CUnhold ev i => ignore (unhold_certificate ev i)
  | CDelete ev i => ignore (delete_certificate ev i)
  | CRenew ev i known ca_id signed rel => renew_alone ev i known ca_id signed rel
  | CCrl ev i days => ignore (generate_crl ev i days)
  | CDelta ev i hours => ignore (generate_delta_crl ev i hours)
  | CExternal i raw => ignore (install_external_crl i raw)
  | CPurgeSerials ev i => purge_stale_revoked_serials ev i
  | CPurgeCertificates ev i => purge_expired_revoked_certificates ev i
  | CRevokeCross ev i a reason iv => revoke_cross ev i a reason iv
  | COcsp t sg a serial nonce alg => ignore (answer_one linked_issuer t sg a serial nonce alg)
  | CStore c => _ ← modify (with_certs (fun l => l ++ [c])%list); _ ← commit; mret tt
  | CReissue new supersedes => store_signed new supersedes
  end.

(* until the revoked certificate expires; no certificate of the same serial is issued,
   imported or renewed under the CA *)
Definition admissible (k : call) : Prop :=
  match k with
  | CRevoke ev _ _ _ _ | CUnhold ev _ | CCrl ev _ _ | CPurgeSerials ev _ | CRevokeCross ev _ _ _ _ => now ev <= v
  | CRenew ev _ known _ signed _ =>
      now ev <= v /\ (forall m, signed = Some m -> py_hex (n_serial m) ∉ serial_variants n)
      /\ (forall s, known = Some s -> s ∉ serial_variants n)
  | CStore c | CReissue c _ => like_n c = false
  | CDelete _ _ | CDelta _ _ _ | CExternal _ _ | CPurgeCertificates _ _ | COcsp _ _ _ _ _ _ => True
  end.
(* the responder is asked for positive serials, with the row of the CA *)
Definition well_asked (k : call) : Prop :=
  match k with COcsp _ _ a serial _ _ => 0 < serial /\ (a_id a = a_id ca -> a = ca) | _ => True end.

(* each call with the outcomes of its commits *)
Fixpoint perform_all (l : list (call * list bool)) (d : db) : db :=
  match l with
  | [] => d
  | (k, outcomes) :: l' => perform_all l' (run (perform k) outcomes d).2
  end.

Lemma inv_of d : lasting d -> exists L, inv L d.
Proof.
  intros Hl. exists (fun i => match find_cert d i with Some c => like_n c | None => false end).
  split; [done|]. by intros i c ->.
Qed.

#[local] Hint Resolve maintains_revoke maintains_unhold maintains_delete maintains_delete_all maintains_renew
  maintains_generate_crl maintains_generate_delta maintains_external maintains_purge_stale maintains_revoke_cross maintains_answer_one : session.

Lemma maintains_perform L k : match k with CStore _ | CReissue _ _ => False | _ => admissible k end -> maintains (inv L) (perform k).
Proof.
  destruct k; cbn; intros H; unfold ignore, purge_expired_revoked_certificates; try done;
    try (destruct H as (? & ? & ?)); session_walk.
Qed.

Lemma lasting_store c d : like_n c = false -> lasting d -> lasting (with_certs (fun l => l ++ [c])%list d).
Proof.
  intros Hc [H1 H2 H3]. split; [done| |done]. cbn.
  intros c' [?|E%list_elem_of_singleton]%elem_of_app; [by apply H2|congruence].
Qed.
Lemma maintains_store c : like_n c = false -> maintains lasting (perform (CStore c)).
Proof. intros Hc. cbn [perform]. session_walk. by apply lasting_store. Qed.

Lemma lasting_archive i d : lasting d -> lasting (archive_live i d).2.
Proof.
  intros H. unfold archive_live. destruct (find_cert d i) as [c|]; [|done]. destruct (c_archived c); [done|].
  destruct H as [H1 H2 H3]. split; [done| |done]. cbn.
  intros c' [?|(y & [Hy%list_elem_of_In _]%List.find_some & ->)]%elem_update_first; [by apply H2|]. by apply (H2 y Hy).
Qed.
Lemma maintains_archive_all ids : maintains lasting (archive_all ids).
Proof. induction ids as [|i ids IH]; cbn [archive_all]; session_walk. by apply lasting_archive. Qed.
#[local] Hint Resolve maintains_archive_all lasting_store : session.
Lemma maintains_reissue new supersedes : like_n new = false -> maintains lasting (perform (CReissue new supersedes)).
Proof. intros Hc. cbn [perform]. unfold store_signed, _claim_superseded. session_walk. Qed.

Lemma lasting_call d k outcomes : lasting d -> admissible k -> lasting (run (perform k) outcomes d).2.
Proof.
  intros Hl Hk. destruct (inv_of d Hl) as [L HL].
  assert (match k with CStore _ | CReissue _ _ => False | _ => admissible k end
          \/ (exists c, k = CStore c) \/ exists c row, k = CReissue c row) as [H|[[c ->]|(c & row & ->)]];
    [destruct k; eauto| | |].
  - by apply (maintains_run _ _ outcomes d (maintains_perform L k H)).
  - by apply (maintains_run _ _ outcomes d (maintains_store c Hk)).
  - by apply (maintains_run _ _ outcomes d (maintains_reissue c row Hk)).
Qed.

(** ** The cache *)

Lemma cached_same f : (forall d, cache (f d) = cache d) -> maintains cached_revoked (modify (E := rev_error) f).
Proof. intros Hf. apply maintains_modify. intros d H. unfold cached_revoked. by rewrite Hf. Qed.
Lemma cached_filter f d : cached_revoked d -> cached_revoked (with_cache (List.filter f) d).
Proof. intros H o alg [Ho _]%elem_lfilter. by apply H. Qed.
Lemma cached_unlink_rows t j d : cache (unlink_rows_naming t j d) = cache d.
Proof.
  unfold unlink_rows_naming. generalize (List.filter (fun c => bool_decide (c_related c = Some j) && negb (c_id c =? j)) (certs d)).
  intros l. revert d. induction l as [|c l IH]; intros d; cbn; [done|]. by rewrite IH.
Qed.
Lemma cached_lift_hold c d : cache (lift_hold c d) = cache d.
Proof. unfold lift_hold. cbv zeta. by destruct (text_of (c_caref c)), (text_of (c_serial c)). Qed.
Lemma cached_archive i d : cached_revoked d -> cached_revoked (archive_live i d).2.
Proof. unfold archive_live. repeat case_match; done. Qed.
#[local] Hint Resolve cached_filter cached_archive : session.
#[local] Hint Extern 4 (maintains cached_revoked (modify _)) =>
  apply cached_same; intros ?; (done || apply cached_unlink_rows || apply cached_lift_hold) : session.

Lemma cached_invalidate_ca_caches l : maintains cached_revoked (invalidate_ca_caches l).
Proof. induction l; cbn; unfold invalidate_ca_cache; session_walk. Qed.
#[local] Hint Resolve cached_invalidate_ca_caches : session.
Lemma cached_delete_all ev l : maintains cached_revoked (delete_all ev l).
Proof. induction l; cbn; unfold delete_certificate; session_walk. Qed.
#[local] Hint Resolve cached_delete_all : session.
Lemma cached_generate_crl ev j days : maintains cached_revoked (generate_crl ev j days).
Proof.
  unfold generate_crl, _run_housekeeping, purge_stale_revoked_serials, purge_expired_revoked_certificates, store_crl.
  session_walk.
Qed.
Lemma cached_delta ev j h : maintains cached_revoked (generate_delta_crl ev j h).
Proof. unfold generate_delta_crl, store_crl. session_walk. Qed.
#[local] Hint Resolve cached_generate_crl cached_delta : session.
Lemma cached_hand_over ev j : maintains cached_revoked (hand_over ev j).
Proof. unfold hand_over. session_walk. Qed.
#[local] Hint Resolve cached_hand_over : session.
Lemma cached_revoke_body ev j reason iv : maintains cached_revoked (revoke_body ev j reason iv).
Proof.
  unfold revoke_body, stage_revocation, after_revocation, invalidate_cached_responses, _restore_revocation_state, attempt.
  session_walk.
Qed.
#[local] Hint Resolve cached_revoke_body : session.
Lemma cached_archive_all ids : maintains cached_revoked (archive_all ids).
Proof. induction ids as [|i ids IH]; cbn [archive_all]; session_walk. Qed.
#[local] Hint Resolve cached_archive_all : session.

Lemma cached_perform k : match k with COcsp _ _ _ _ _ _ => False | _ => True end -> maintains cached_revoked (perform k).
Proof.
  destruct k; cbn [perform]; intros H; try done;
    unfold ignore, revoke_certificate, revoke_alone, unhold_certificate, stage_removal, _restore_hold, _restore_revocation_state, delete_certificate,
      renew_alone, _record_superseded, leave_pair, install_external_crl, store_crl, purge_stale_revoked_serials,
      purge_expired_revoked_certificates, revoke_cross, store_signed, _claim_superseded, invalidate_cached_responses, attempt;
    session_walk.
  unfold cached_revoked. by rewrite cached_unlink_rows.
Qed.

(* the key of an answer tells the serial *)
Lemma hex_no_colon z : 0 <= z -> ":"%char ∉ chars (py_hex z).
Proof.
  intros Hz. unfold py_hex. rewrite format_Z_nonneg, chars_unchars by done. intros Hin.
  pose proof (format_N_all 16 false (Z.to_N z) ltac:(lia)) as Hall. rewrite Forall_forall in Hall.
  destruct (Hall _ Hin) as (x & Hx & E).
  pose proof (below_16 (fun x => negb (Ascii.eqb ":" (digit_char false x))) eq_refl x Hx) as H. cbv beta in H.
  by rewrite <- E in H.
Qed.
Lemma cut_unique {A} (c : A) l1 l2 r1 r2 : c ∉ l1 -> c ∉ l2 -> (l1 ++ c :: r1 = l2 ++ c :: r2)%list -> l1 = l2.
Proof.
  revert l2. induction l1 as [|x l1 IH]; intros [|y l2] H1 H2 E; [done|..].
  - injection E as <- _. rewrite not_elem_of_cons in H2. naive_solver.
  - injection E as -> _. rewrite not_elem_of_cons in H1. naive_solver.
  - injection E as -> E. rewrite not_elem_of_cons in H1, H2. f_equal. apply IH; naive_solver.
Qed.
Lemma cache_key_serial z z' alg alg' : 0 <= z -> 0 <= z' -> cache_key z alg = cache_key z' alg' -> z = z'.
Proof.
  intros Hz Hz' E. unfold cache_key in E. apply (f_equal chars) in E. rewrite !chars_app in E.
  change (chars ":" ++ ?l)%list with (":"%char :: l)%list in E.
  apply cut_unique in E; [|by apply hex_no_colon..]. apply chars_inj in E.
  pose proof (py_int_hex z Hz) as H1. pose proof (py_int_hex z' Hz') as H2. rewrite E in H1. congruence.
Qed.

Definition lasting_cached (d : db) : Prop := lasting d /\ cached_revoked d.
Lemma cached_response r : (forall alg, o_ca r = a_id ca -> o_key r = cache_key n alg -> is_revoked (o_status r) = true) ->
  maintains lasting_cached (_cache_response r).
Proof.
  intros Hr. unfold _cache_response. apply maintains_bind; [|intros _; session_walk]. apply maintains_modify.
  intros d [Hl Hc]. split; [by destruct Hl|]. intros o alg Ho Eo Ek. cbn in Ho. destruct (existsb _ _).
  - unfold update_where in Ho. apply list_elem_of_fmap in Ho as (o' & -> & Ho'). revert Eo Ek.
    destruct (_ && _); [by apply Hr|by apply Hc].
  - apply elem_of_app in Ho as [Ho| ->%list_elem_of_singleton]; [by eapply Hc|by eapply Hr].
Qed.

Lemma cached_answer t sg a serial nonce alg : 0 < n -> 0 < serial -> (a_id a = a_id ca -> a = ca) ->
  maintains lasting_cached (answer_one linked_issuer t sg a serial nonce alg).
Proof.
  intros Hn Hs Ha. unfold answer_one. apply maintains_bind_gets. intros d _.
  destruct (if nonce then None else _); [apply maintains_ret|].
  unfold generate_response. destruct (negb _); [apply maintains_ret|]. destruct sg; try apply maintains_ret;
  (apply maintains_bind_gets; intros d' [Hl _]; apply maintains_bind_gets; intros d2 _;
   apply maintains_bind; [|intros _; apply maintains_ret]; destruct nonce; [apply maintains_ret|];
   apply cached_response; cbn; intros al Eo Ek; apply cache_key_serial in Ek as ->; try lia; rewrite (Ha Eo); by apply lasting_revoked).
Qed.

Lemma lasting_calls l : Forall (fun p => admissible p.1) l -> forall d, lasting d -> lasting (perform_all l d).
Proof.
  induction 1 as [|[k outcomes] l Hk _ IH]; intros d Hd; [done|]. cbn. by apply IH, lasting_call.
Qed.

Lemma cached_calls l : 0 < n -> Forall (fun p => admissible p.1 /\ well_asked p.1) l ->
  forall d, lasting d -> cached_revoked d -> cached_revoked (perform_all l d).
Proof.
  intros Hn. induction 1 as [|[k outcomes] l [Ha Hk] _ IH]; intros d Hd Hc; [done|]. cbn. apply IH; [by apply lasting_call|].
  assert (match k with COcsp _ _ _ _ _ _ => False | _ => True end \/ exists t sg a serial nonce alg, k = COcsp t sg a serial nonce alg)
    as [H|(t & sg & a & serial & nonce & alg & ->)] by (destruct k; eauto 12).
  - by apply (maintains_run _ _ outcomes d (cached_perform k H)).
  - destruct Hk as [H1 H2]. assert (maintains lasting_cached (perform (COcsp t sg a serial nonce alg))) as Hm.
    { pose proof (cached_answer t sg a serial nonce alg Hn H1 H2). cbn [perform]. unfold ignore. session_walk. }
    by apply (maintains_run _ _ outcomes d Hm).
Qed.

(* the responder, cached answers included *)
Lemma lasting_answer d t sg nonce alg outcomes st : lasting d -> cached_revoked d ->
  (run (answer_one linked_issuer t sg ca n nonce alg) outcomes d).1 = Ok (Status st) -> is_revoked st = true.
Proof.
  intros Hl Hc. unfold run, answer_one. rewrite bind_gets. cbn [working]. destruct (if nonce then None else _) as [st'|] eqn:Ec.
  - cbn. intros [= <-]. destruct nonce; [done|]. unfold get_cached_response in Ec. destruct (List.find _ _) as [o|] eqn:Eo; [|done].
    apply List.find_some in Eo as [Hin%list_elem_of_In [Ea%Z.eqb_eq Ek%String.eqb_eq]%andb_true_iff].
    destruct (_ <? _); [done|]. injection Ec as <-. by eapply Hc.
  - unfold generate_response. destruct (negb _); [done|]. assert (forall k : unit -> Act ocsp_answer,
      (forall w, k tt w = (Ok (Status (_status_for_serial linked_issuer d ca t n)), w)) -> forall b : Act unit, completes b ->
      (let '(r, w) := mbind k b (Session d d outcomes) in (r, committed w)).1 = Ok (Status st) -> is_revoked st = true) as H.
    { intros k Hk b Hb. unfold mbind, M_bind. destruct (Hb (Session d d outcomes)) as [[] E]. destruct (b _) as [r w].
      cbn in E. subst r. rewrite Hk. cbn. intros [= <-]. by apply lasting_revoked. }
    destruct sg; try done; rewrite !bind_gets; cbn [working]; (apply H; [done|]);
      (destruct nonce; unfold _cache_response; completes_walk).
Qed.
End Lasting.

Lemma elem_update_cert d i f c : NoDup (c_id <$> certs d) -> c ∈ certs (update_cert i f d) ->
  c ∈ certs d /\ c_id c <> i \/ exists y, find_cert d i = Some y /\ c = f y.
Proof.
  unfold update_cert, find_cert. cbn [certs with_certs]. induction (certs d) as [|y l IH]; cbn; [by intros _ ?%elem_of_nil|].
  intros [Hy Hl]%NoDup_cons. destruct (c_id y =? i) eqn:E.
  - apply Z.eqb_eq in E. intros [->|H]%elem_of_cons; [right; by exists y|]. left. split; [by right|].
    intros Ei. apply Hy. rewrite E, <- Ei. by apply list_elem_of_fmap_2.
  - apply Z.eqb_neq in E. intros [->|H]%elem_of_cons; [left; by split; [left|]|].
    destruct (IH Hl H) as [[? ?]|?]; [left; by split; [right|]|by right].
Qed.

Lemma write_record_elem caref serial f l : (forall r, s_caref (f r) = s_caref r /\ s_serial (f r) = s_serial r) ->
  exists r, f r ∈ write_record caref serial f l /\ s_caref r = caref /\ s_serial r = serial.
Proof.
  intros Hf. unfold write_record. set (same := fun r => _ && _). destruct (List.find same l) as [r|] eqn:E.
  - exists r. pose proof (List.find_some _ _ E) as [_ Hs]. unfold same in Hs. apply andb_true_iff in Hs as [H1%String.eqb_eq H2%String.eqb_eq].
    split; [|done]. clear H1 H2. induction l as [|y l IH]; [done|]. cbn in *. destruct (same y); [injection E as ->; left|right; by apply IH].
  - eexists. split; [apply elem_of_app; right; apply list_elem_of_singleton; reflexivity|done].
Qed.

Section Established.
Context {X : X509} {O : X509Objects}.
Variable linked_issuer : CACrossCertificate -> option string.

(* what a successful revocation commits, before the CRL and the caches *)
Definition recorded (ev : env) (c : Certificate) (caref serial reason : string) (iv : option Z) (d : db) : db :=
  with_serials (write_record caref serial
    (fill_record (now ev) reason (invalidity_at (marked ev reason iv c)) (default (now ev + year_us) (c_valid_to c)) (Some (c_id c))))
  (update_cert (c_id c) (set_rev (marked ev reason iv c)) d).

Lemma revoke_body_ok ev i reason iv c ca caref serial w w' :
  find_cert (working w) i = Some c -> text_of (c_caref c) = Some caref -> ca_by_refid (working w) caref = Some ca ->
  c_serial c = Some serial -> revoke_body ev i reason iv w = (Ok tt, w') ->
  let d1 := recorded ev c caref serial reason iv (working w) in
  exists l, after_revocation ev c (Some ca) (Session d1 d1 l) = (Ok tt, w').
Proof.
  intros Hc Hk Ha Hs Hrun. unfold revoke_body in Hrun. rewrite bind_gets, Hc in Hrun.
  destruct (revoked (c_rev c)) eqn:Hr; [done|]. rewrite bind_gets in Hrun. rewrite Hk in Hrun. cbn in Hrun. rewrite Ha in Hrun.
  assert (stage_revocation ev c (Some ca) reason iv w
          = (Ok tt, Session (committed w) (recorded ev c caref serial reason iv (working w)) (commits w))) as E.
  { unfold stage_revocation, mbind, M_bind, modify. cbn. by rewrite (text_of_Some _ _ Hk), Hs. }
  rewrite (bind_eq _ _ _ _ _ E) in Hrun. unfold mbind at 1, M_bind at 1, commit in Hrun. cbn [commits committed working] in Hrun.
  destruct (commits w) as [|[] l]; [by exists []|by exists l|].
  exfalso. revert Hrun. unfold mbind, M_bind. by destruct (_restore_revocation_state _ _ _) as [[[]|e] w2].
Qed.

(* the only row that carries the serial, or the others are already revoked for good *)
Definition sole (d : db) (keys : list string) (n i : Z) : Prop :=
  NoDup (c_id <$> certs d) /\ forall c, c ∈ certs d -> like keys n c = true -> c_id c = i \/ final (c_rev c).

Lemma recorded_lasting ev d i c ca caref serial reason iv n v :
  find_cert d i = Some c -> text_of (c_caref c) = Some caref -> ca_by_refid d caref = Some ca -> c_serial c = Some serial ->
  serial ∈ serial_variants n -> str_in reason _HOLD_REASONS = false -> c_valid_to c = Some v ->
  sole d (same_key_refids d ca) n i ->
  lasting ca (same_key_refids d ca) n v (recorded ev c caref serial reason iv d).
Proof.
  intros Hc Hk Ha Hs Hn Hr Hv [Hnd Hsole]. pose proof (find_cert_id _ _ _ Hc) as <-. split.
  - done.
  - intros c' Hc' Hl. destruct (elem_update_cert _ _ _ _ Hnd Hc') as [[Hin Hne]|(y & Hy & ->)].
    + by destruct (Hsole c' Hin Hl).
    + cbn. by split.
  - destruct (write_record_elem caref serial (fill_record (now ev) reason (invalidity_at (marked ev reason iv c))
      (default (now ev + year_us) (c_valid_to c)) (Some (c_id c))) (serials d)) as (r & Hin & E1 & E2); [done|].
    eexists. split; [exact Hin|]. cbn. rewrite E1, E2, Hv. split; [|by split]. unfold same_key_refids. 
    apply List.find_some in Ha as [_ Ea%String.eqb_eq]. rewrite Ea. left.
Qed.

Lemma revoked_then (k : unit -> Act unit) ev d i c ca caref serial reason iv n v outcomes w' :
  find_cert d i = Some c -> text_of (c_caref c) = Some caref -> ca_by_refid d caref = Some ca -> c_serial c = Some serial ->
  serial ∈ serial_variants n -> str_in reason _HOLD_REASONS = false -> c_valid_to c = Some v -> now ev <= v ->
  sole d (same_key_refids d ca) n i ->
  (forall L, maintains (inv ca (same_key_refids d ca) n v L) (k tt)) ->
  mbind k (revoke_body ev i reason iv) (Session d d outcomes) = (Ok tt, w') ->
  lasting ca (same_key_refids d ca) n v (committed w').
Proof.
  intros Hc Hk Ha Hs Hn Hr Hv Hnow Hsole Hm Hrun. unfold mbind, M_bind in Hrun.
  destruct (revoke_body _ _ _ _ _) as [[[]|e] w1] eqn:E; [|done].
  pose proof (revoke_body_ok ev i reason iv c ca caref serial (Session d d outcomes) w1 Hc Hk Ha Hs E) as [l Hl].
  pose proof (recorded_lasting ev d i c ca caref serial reason iv n v Hc Hk Ha Hs Hn Hr Hv Hsole) as H1.
  destruct (inv_of _ _ _ _ _ H1) as [L HL].
  pose proof (maintains_after ca (same_key_refids d ca) n v L ev c (Some ca) Hnow _ (conj HL HL : held _ (Session _ _ l))) as H2.
  cbn [working] in Hl. rewrite Hl in H2. destruct (Hm L w1 H2) as [H3 _]. rewrite Hrun in H3. apply H3.
Qed.

Lemma revoked_lasting ev d d1 i n v c ca caref serial reason iv related outcomes :
  find_cert d i = Some c -> text_of (c_caref c) = Some caref -> ca_by_refid d caref = Some ca -> c_serial c = Some serial ->
  serial ∈ serial_variants n -> c_valid_to c = Some v -> now ev <= v -> str_in reason _HOLD_REASONS = false ->
  sole d (same_key_refids d ca) n i -> run (revoke_certificate ev i reason iv related) outcomes d = (Ok tt, d1) ->
  lasting ca (same_key_refids d ca) n v d1.
Proof.
  intros Hc Hk Ha Hs Hn Hv Hnow Hr Hsole Hrun.
  unfold run in Hrun. destruct (revoke_certificate _ _ _ _ _ _) as [r w'] eqn:E. injection Hrun as -> <-. revert E.
  unfold revoke_certificate. destruct related; intros E; eapply revoked_then; try exact E; try done; intros L.
  - cbv beta. session_walk. by apply maintains_attempt, maintains_revoke_alone.
  - apply maintains_hand_over.
Qed.

(** C5. A revocation lasts: once a certificate is revoked for a reason other than a hold,
    and no answer but revoked is cached for it, the responder of its CA answers revoked for
    its serial until it expires, from the cache or not, whatever other calls are made
    meanwhile (revocations, holds lifted, the certificate deleted, purges, renewals, CRLs,
    answers cached, certificates issued or imported under other serials) and whichever of
    their commits fail. Not covered: storing a certificate of the same serial under the CA
    again. *)
Theorem revocation_lasts (ev : env) (d d1 : db) (i n v : Z) (c : Certificate) (ca : CA) (caref serial reason : string)
    (iv : option Z) (related : bool) (outcomes : list bool) (later : list (call * list bool))
  (Hc : find_cert d i = Some c) (Hk : text_of (c_caref c) = Some caref) (Ha : ca_by_refid d caref = Some ca)
  (Hs : c_serial c = Some serial) (Hpos : 0 < n) (Hn : serial ∈ serial_variants n) (Hv : c_valid_to c = Some v)
  (Hnow : now ev <= v) (Hr : str_in reason _HOLD_REASONS = false) (Hsole : sole d (same_key_refids d ca) n i)
  (Hrun : run (revoke_certificate ev i reason iv related) outcomes d = (Ok tt, d1))
  (Hcache : cached_revoked ca n d1)
  (Hlater : Forall (fun p => admissible (same_key_refids d ca) n v p.1 /\ well_asked ca p.1) later) :
  let d2 := perform_all linked_issuer later d1 in
  (forall t, is_revoked (_status_for_serial linked_issuer d2 ca t n) = true)
  /\ forall t sg nonce alg commits st,
       (run (answer_one linked_issuer t sg ca n nonce alg) commits d2).1 = Ok (Status st) -> is_revoked st = true.
Proof.
  assert (lasting ca (same_key_refids d ca) n v d1) as Hl by (by eapply revoked_lasting).
  pose proof (cached_calls linked_issuer ca (same_key_refids d ca) n v later Hpos Hlater d1 Hl Hcache) as Hc2.
  assert (lasting ca (same_key_refids d ca) n v (perform_all linked_issuer later d1)) as Hl2
    by (apply lasting_calls; [|done]; eapply Forall_impl; [done|naive_solver]).
  split; [intros t; by eapply lasting_revoked|]. intros t sg nonce alg commits st. by eapply lasting_answer.
Qed.
End Established.
