(* ===== verification/RevocationEffects.v ===== *)
(** * RevocationEffects: what the calls of the lifecycle leave behind

    A revocation that fails leaves the database as it was; a hold that is lifted leaves
    neither the mark nor the record; no cached answer outlives a revocation; the CRL a CA
    generates is the one it serves. *)

From Stdlib Require Import Ascii String.
From stdpp Require Import prelude strings.
From S2P Require Import Prelude Scalars Serials Session RevocationModel Revocations OcspStatus CrlContents RevocationSafety.

Local Open Scope string_scope.
Local Open Scope Z_scope.

Section Effects.
Context {X : X509}.

(** ** Calls that never raise *)

Lemma completes_attempt {A} (c : Act A) : completes (attempt c).
Proof. unfold attempt. completes_walk. Qed.
Lemma completes_invalidate_ca_caches l : completes (invalidate_ca_caches l).
Proof. unfold invalidate_ca_cache. induction l; cbn; unfold invalidate_ca_cache; completes_walk. Qed.
Lemma completes_invalidate_cached s i : completes (invalidate_cached_responses s i).
Proof. unfold invalidate_cached_responses. completes_walk. Qed.
#[local] Hint Resolve completes_attempt completes_invalidate_ca_caches completes_invalidate_cached : session.
Lemma completes_after ev c ca : completes (after_revocation ev c ca).
Proof. unfold after_revocation. completes_walk. Qed.
Lemma completes_hand_over ev i : completes (hand_over ev i).
Proof. unfold hand_over. completes_walk. Qed.
#[local] Hint Resolve completes_after completes_hand_over : session.

(** ** A failed revocation *)

Lemma update_cert_same d i f c : find_cert d i = Some c -> f c = c -> update_cert i f d = d.
Proof.
  intros Hc Hf. unfold update_cert, with_certs. destruct d. cbn. f_equal. unfold find_cert in Hc. cbn in Hc.
  induction certs as [|y l IH]; cbn in *; [done|]. destruct (c_id y =? i); [by simplify_eq; rewrite Hf|by rewrite IH].
Qed.
Lemma set_rev_same c : set_rev (c_rev c) c = c.
Proof. by destruct c. Qed.

(* putting the state back writes what the database already holds *)
Lemma restore_same i c d l : find_cert d i = Some c ->
  exists l', _restore_revocation_state i (c_rev c) (Session d d l) = (Ok tt, Session d d l').
Proof.
  intros Hc. unfold _restore_revocation_state. rewrite bind_gets. cbn [working]. rewrite Hc.
  unfold mbind, M_bind, modify, commit. cbn. rewrite (update_cert_same d i _ c Hc (set_rev_same c)).
  destruct l as [|[] l]; cbn; eauto.
Qed.

Lemma stage_result ev c ca reason iv d l :
  (exists d1, stage_revocation ev c ca reason iv (Session d d l) = (Ok tt, Session d d1 l))
  \/ stage_revocation ev c ca reason iv (Session d d l) = (Raise NotStaged, Session d d l).
Proof.
  unfold stage_revocation, mbind, M_bind, modify, rollback, raise. cbn.
  destruct ca, (c_caref c), (c_serial c); cbn; eauto.
Qed.

Lemma revoke_body_failed ev i reason iv d l e w' :
  revoke_body ev i reason iv (Session d d l) = (Raise e, w') -> committed w' = d.
Proof.
  unfold revoke_body. rewrite bind_gets. cbn [working]. destruct (find_cert d i) as [c|] eqn:Hc; [|by intros [= <- <-]].
  destruct (revoked (c_rev c)); [by intros [= <- <-]|]. rewrite bind_gets. cbn [working].
  set (ca := _ ≫= ca_by_refid d). destruct (stage_result ev c ca reason iv d l) as [[d1 E]|E];
    [rewrite (bind_eq _ _ _ _ _ E)|rewrite (bind_raise _ _ _ _ _ E); by intros [= <- <-]].
  assert (forall l', after_revocation ev c ca (Session d1 d1 l') <> (Raise e, w')) as Hno.
  { intros l' E'. destruct (completes_after ev c ca (Session d1 d1 l')) as [a Ha]. by rewrite E' in Ha. }
  unfold mbind at 1, M_bind at 1, commit. cbn [commits committed working].
  destruct l as [|[] l]; [intros E'; by destruct (Hno [])|intros E'; by destruct (Hno l)|].
  destruct (restore_same i c d l Hc) as [l' E']. rewrite (bind_eq _ _ _ _ _ E'). by intros [= <- <-].
Qed.

Lemma revocation_failed ev i reason iv related outcomes d e w :
  revoke_certificate ev i reason iv related (Session d d outcomes) = (Raise e, w) -> committed w = d.
Proof.
  assert (forall k : unit -> Act unit, completes (k tt) ->
    mbind k (revoke_body ev i reason iv) (Session d d outcomes) = (Raise e, w) -> committed w = d) as H.
  { intros k Hk. unfold mbind, M_bind. destruct (revoke_body _ _ _ _ _) as [[[]|e'] w'] eqn:Eb.
    - intros E. destruct (Hk w') as [a Ha]. by rewrite E in Ha.
    - intros [= <- <-]. by eapply revoke_body_failed. }
  unfold revoke_certificate, revoke_alone. destruct related; apply H; cbv beta; completes_walk.
Qed.

(** C8. Revoking either happens or leaves nothing behind: whichever commit fails, a call
    that raises has changed no row, no revocation record, no CRL and no cached answer. *)
Theorem failed_revocation_leaves_nothing (ev : env) (i : Z) (reason : string) (iv : option Z) (related : bool)
    (outcomes : list bool) (d d1 : db) (e : rev_error)
  (Hrun : run (revoke_certificate ev i reason iv related) outcomes d = (Raise e, d1)) : d1 = d.
Proof.
  unfold run in Hrun. destruct (revoke_certificate _ _ _ _ _ _) as [r w] eqn:E. injection Hrun as -> <-.
  by eapply revocation_failed.
Qed.

(** ** Lifting a hold *)

Lemma update_cert_ids d i f : (forall c, c_id (f c) = c_id c) -> c_id <$> certs (update_cert i f d) = c_id <$> certs d.
Proof.
  intros Hf. unfold update_cert. cbn. induction (certs d) as [|y l IH]; cbn; [done|].
  destruct (c_id y =? i); cbn; [by rewrite Hf|by rewrite IH].
Qed.
Lemma find_update_cert d i f c : (forall c, c_id (f c) = c_id c) -> find_cert d i = Some c -> find_cert (update_cert i f d) i = Some (f c).
Proof.
  intros Hf. unfold find_cert, update_cert. cbn. induction (certs d) as [|y l IH]; cbn; [done|].
  destruct (c_id y =? i) eqn:E; cbn; [rewrite Hf, E; by intros [= ->]|rewrite E; exact IH].
Qed.

Lemma find_by_id l i (c : Certificate) : NoDup (c_id <$> l) -> c ∈ l -> c_id c = i -> List.find (fun c => c_id c =? i) l = Some c.
Proof.
  intros Hnd Hc <-. induction l as [|y l IH]; [by apply elem_of_nil in Hc|]. cbn in *.
  apply NoDup_cons in Hnd as [Hy Hnd]. apply elem_of_cons in Hc as [->|Hc]; [by rewrite Z.eqb_refl|].
  destruct (c_id y =? c_id c) eqn:E; [|by apply IH]. apply Z.eqb_eq in E. destruct Hy. rewrite E. by apply list_elem_of_fmap_2.
Qed.

Section Lift.
Variables (i : Z) (k s : option string).

(* the row is there and not revoked, and no record is kept under its spelling *)
Record clear (d : db) : Prop := {
  cl_ids : NoDup (c_id <$> certs d);
  cl_row : exists c, find_cert d i = Some c /\ c_caref c = k /\ c_serial c = s /\ c_rev c = not_revoked;
  cl_records : forall r caref serial, text_of k = Some caref -> text_of s = Some serial -> r ∈ serials d ->
    ~ (s_caref r = caref /\ s_serial r = serial);
}.

Lemma clear_same d d' : clear d -> certs d' = certs d -> serials d' = serials d -> clear d'.
Proof. intros [H1 H2 H3] E1 E2. split; unfold find_cert; rewrite ?E1, ?E2; [exact H1|exact H2|exact H3]. Qed.

Lemma clear_records d d' : clear d -> certs d' = certs d ->
  (forall r, r ∈ serials d' -> exists q, q ∈ serials d /\ s_caref q = s_caref r /\ s_serial q = s_serial r) -> clear d'.
Proof.
  intros [H1 H2 H3] E1 E2. split; unfold find_cert; rewrite ?E1; [exact H1|exact H2|].
  intros r caref serial Hk Hs Hr. destruct (E2 r Hr) as (q & Hq & <- & <-). by apply (H3 q).
Qed.

Lemma clear_set_related d j r : clear d -> clear (update_cert j (set_related r) d).
Proof.
  intros [H1 (c & H2 & H3) H4]. split; [by rewrite update_cert_ids| |exact H4].
  unfold find_cert, update_cert. cbn.
  destruct (find_update_first (fun c => c_id c =? j) (set_related r) (fun c => c_id c =? i) (certs d)) as [->|(y & Hy & Hz & ->)];
    [done|by exists c|]. exists (set_related r y). split; [done|]. unfold find_cert in H2. by simplify_eq.
Qed.

Lemma clear_unlink_rows t j d : clear d -> clear (unlink_rows_naming t j d).
Proof.
  unfold unlink_rows_naming. generalize (List.filter (fun c => bool_decide (c_related c = Some j) && negb (c_id c =? j)) (certs d)).
  intros l. revert d. induction l as [|c l IH]; intros d H; cbn; [done|]. apply IH. by apply clear_set_related.
Qed.

Lemma clear_unlink_serials j d : clear d -> clear (unlink_serials j d).
Proof.
  intros H. eapply clear_records; [done..|]. cbn. intros r (q & -> & Hq)%list_elem_of_fmap. exists q. by case_match.
Qed.

Lemma clear_filter_serials f d : clear d -> clear (with_serials (List.filter f) d).
Proof. intros H. eapply clear_records; [done..|]. cbn. intros r [Hr _]%elem_lfilter. eauto. Qed.

Lemma clear_filter_certs j d : j <> i -> clear d -> clear (with_certs (List.filter (fun c => negb (c_id c =? j))) d).
Proof.
  intros Hj [H1 (c & H2 & H3) H4]. split; [| |exact H4].
  - cbn. eapply sublist_NoDup; [exact H1|]. apply fmap_sublist. clear.
    induction (certs d) as [|y l IH]; cbn; [constructor|]. destruct (negb _); by constructor.
  - exists c. split; [|done]. clear H1. revert H2. unfold find_cert. cbn. induction (certs d) as [|y l IH]; cbn; [done|].
    destruct (c_id y =? i) eqn:E.
    + apply Z.eqb_eq in E. assert ((c_id y =? j) = false) as -> by lia. cbn. intros [= ->].
      by rewrite (proj2 (Z.eqb_eq _ _) E).
    + destruct (negb _); cbn; [rewrite E|]; exact IH.
Qed.

Lemma maintains_clear_same f : (forall d, certs (f d) = certs d /\ serials (f d) = serials d) ->
  maintains clear (modify (E := rev_error) f).
Proof. intros Hf. apply maintains_modify. intros d H. destruct (Hf d). by eapply clear_same. Qed.
#[local] Hint Resolve clear_unlink_rows clear_unlink_serials clear_filter_serials clear_filter_certs : session.
#[local] Hint Extern 4 (maintains clear (modify _)) => apply maintains_clear_same; intros ?; repeat split : session.

Lemma clear_invalidate_ca_caches l : maintains clear (invalidate_ca_caches l).
Proof. induction l; cbn; unfold invalidate_ca_cache; session_walk. Qed.
Lemma clear_invalidate_cached t j : maintains clear (invalidate_cached_responses t j).
Proof. unfold invalidate_cached_responses. session_walk. Qed.
#[local] Hint Resolve clear_invalidate_ca_caches clear_invalidate_cached : session.
Lemma clear_delete_all ev l : i ∉ l -> maintains clear (delete_all ev l).
Proof.
  induction l as [|j l IH]; cbn; [session_walk|]. rewrite not_elem_of_cons. intros [Hj Hl].
  unfold delete_certificate. session_walk.
Qed.

(* only revoked rows are purged *)
Lemma clear_purge ev j : maintains clear (purge_expired_revoked_certificates ev j).
Proof.
  unfold purge_expired_revoked_certificates. session_walk. apply clear_delete_all.
  intros (x & Hi & [Hin Hf]%elem_lfilter)%list_elem_of_fmap. rewrite !andb_true_iff in Hf. destruct Hf as [[_ Hr] _].
  match goal with H : clear ?d, _ : x ∈ certs ?d |- _ => destruct H as [Hnd (c' & Hc' & _ & _ & Hn) _] end.
  unfold find_cert in Hc'. rewrite (find_by_id _ i x Hnd Hin (eq_sym Hi)) in Hc'. simplify_eq. by rewrite Hn in Hr.
Qed.
#[local] Hint Resolve clear_purge : session.

Lemma clear_generate_crl ev j days : maintains clear (generate_crl ev j days).
Proof. unfold generate_crl, _run_housekeeping, purge_stale_revoked_serials, store_crl. session_walk. Qed.
End Lift.

Lemma settles_attempt {A} (c : Act A) : settles c -> settles (attempt c).
Proof. intros Hc. unfold attempt. completes_walk. Qed.
Lemma settles_delta ev j h : settles (generate_delta_crl ev j h).
Proof. unfold generate_delta_crl, store_crl. completes_walk. Qed.
Lemma certs_delta l ev j h : maintains (fun d => certs d = l) (generate_delta_crl ev j h).
Proof. unfold generate_delta_crl, store_crl. session_walk. Qed.

(* the delta that announces the removal leaves the row in place *)
Lemma stage_removal_ok ev c ca d : NoDup (c_id <$> certs d) -> find_cert d (c_id c) = Some c ->
  exists d1 d2, stage_removal ev c ca (Session d d []) = (Ok true, Session d1 d2 [])
    /\ NoDup (c_id <$> certs d2) /\ exists c', find_cert d2 (c_id c) = Some c' /\ c_caref c' = c_caref c /\ c_serial c' = c_serial c.
Proof.
  intros Hnd Hc. unfold stage_removal.
  destruct ca as [a|]; [|exists d, d; eauto 6]. destruct (a_delta_enabled a && a_cdp_enabled a); [|exists d, d; eauto 6].
  set (x := Build_revocation _ _ _ _). unfold mbind, M_bind. unfold modify at 1, commit at 1. cbn [commits committed working tail].
  set (d0 := update_cert (c_id c) (set_rev x) d).
  destruct (completes_attempt (generate_delta_crl ev (a_id a) 24) (Session d0 d0 [])) as [[] Ho].
  pose proof (settles_attempt _ (settles_delta ev (a_id a) 24) (Session d0 d0 []) eq_refl) as Hs.
  assert (maintains (fun d => certs d = certs d0) (attempt (generate_delta_crl ev (a_id a) 24))) as Hm.
  { pose proof (certs_delta (certs d0) ev). unfold attempt. session_walk. }
  destruct (Hm (Session d0 d0 []) (conj eq_refl eq_refl)) as [_ Hc2].
  destruct (attempt _ _) as [r [d1 d2 l]]. unfold settled in Hs. cbn [fst snd committed working commits] in *. subst r l.
  exists d1, d2. split; [done|]. rewrite Hc2. split; [by unfold d0; rewrite update_cert_ids|].
  exists (set_rev x c). split; [|done]. unfold find_cert. rewrite Hc2. by apply find_update_cert.
Qed.

Lemma lift_hold_clear c c' d : NoDup (c_id <$> certs d) -> find_cert d (c_id c) = Some c' ->
  c_caref c' = c_caref c -> c_serial c' = c_serial c -> clear (c_id c) (c_caref c) (c_serial c) (lift_hold c d).
Proof.
  intros Hnd Hc' E1 E2. assert (certs (lift_hold c d) = certs (update_cert (c_id c) (set_rev not_revoked) d)) as Ec.
  { unfold lift_hold. cbv zeta. by destruct (text_of (c_caref c)), (text_of (c_serial c)). }
  split.
  - by rewrite Ec, update_cert_ids.
  - exists (set_rev not_revoked c'). split; [|done]. unfold find_cert. rewrite Ec. by apply find_update_cert.
  - intros r caref serial Hk Hs. unfold lift_hold. rewrite Hk, Hs. cbn. intros [_ Hr]%elem_lfilter [H1 H2].
    by rewrite H1, H2, !String.eqb_refl in Hr.
Qed.

(** Lifting a hold undoes it: when its commits go through, the call on a certificate
    on hold succeeds; the certificate is no longer revoked and the issuer keeps no
    revocation record under its serial, whatever CRL, purge and cache work follows. *)
Theorem hold_lifted (ev : env) (d : db) (i : Z) (c : Certificate) (Hnd : NoDup (c_id <$> certs d))
  (Hc : find_cert d i = Some c) (Hr : revoked (c_rev c) = true)
  (Hh : opt_in (revoke_reason (c_rev c)) _HOLD_REASONS = true) :
  exists d', run (unhold_certificate ev i) [] d = (Ok ULifted, d') /\ clear i (c_caref c) (c_serial c) d'.
Proof.
  pose proof (find_cert_id _ _ _ Hc) as <-. unfold run, unhold_certificate. rewrite bind_gets. cbn [working].
  rewrite Hc, Hr, Hh. cbn [negb]. rewrite bind_gets. cbn [working]. set (ca := _ ≫= ca_by_refid d).
  destruct (stage_removal_ok ev c ca d Hnd Hc) as (d1 & d2 & E & Hnd2 & c' & Hc' & E1 & E2).
  rewrite (bind_eq _ _ _ _ _ E). cbn [negb]. set (w := Session (lift_hold c d2) (lift_hold c d2) []).
  assert (held (clear (c_id c) (c_caref c) (c_serial c)) w) as Hw by (split; by eapply lift_hold_clear).
  unfold mbind at 1, M_bind at 1, modify. unfold mbind at 1, M_bind at 1, commit. cbn [commits committed working tail negb].
  fold w. set (rest := mbind _ _).
  assert (maintains (clear (c_id c) (c_caref c) (c_serial c)) rest) as Hm.
  { pose proof (@clear_generate_crl (c_id c) (c_caref c) (c_serial c) ev). pose proof (clear_invalidate_ca_caches (c_id c) (c_caref c) (c_serial c)).
    pose proof (clear_invalidate_cached (c_id c) (c_caref c) (c_serial c)). unfold rest, attempt. session_walk. }
  assert (yields rest ULifted) as Hy by (unfold rest; completes_walk).
  destruct (Hm w Hw) as [H1 _]. specialize (Hy w). destruct (rest w) as [r w']. cbn in Hy, H1. subst r. by exists (committed w').
Qed.

(** ** No cached answer outlives a revocation *)

Lemma format_digits_lead b up fuel m acc : (2 <= b)%N -> (m < b ^ N.of_nat fuel)%N -> (m <> 0)%N ->
  exists d l, (0 < d < b)%N /\ format_digits fuel b up m acc = digit_char up d :: l.
Proof.
  intros Hb. revert m acc. induction fuel as [|fuel IH]; intros m acc Hm H0; [simpl in Hm; lia|].
  cbn [format_digits]. pose proof (N.mod_lt m b ltac:(lia)) as Hmod. pose proof (N.div_mod' m b) as Hdm.
  destruct (N.eqb_spec (m / b) 0) as [E|E].
  - exists (m mod b)%N, acc. rewrite E in Hdm. split; [lia|done].
  - apply IH; [|done]. rewrite Nat2N.inj_succ, N.pow_succ_r' in Hm. apply N.Div0.div_lt_upper_bound. lia.
Qed.

Lemma lower_digit up d : (d < 16)%N -> lower_char (digit_char up d) = digit_char false d.
Proof.
  intros Hd. pose proof (below_16 (fun d => Ascii.eqb (lower_char (digit_char up d)) (digit_char false d))) as H.
  apply Ascii.eqb_eq. apply (H ltac:(by destruct up) d Hd).
Qed.
Lemma lower_format_digits up fuel m : forall acc acc', lower_char <$> acc = acc' ->
  lower_char <$> format_digits fuel 16 up m acc = format_digits fuel 16 false m acc'.
Proof.
  revert m. induction fuel as [|fuel IH]; intros m acc acc' E; [done|]. cbn [format_digits].
  assert (lower_char <$> digit_char up (m mod 16) :: acc = digit_char false (m mod 16) :: acc') as H.
  { cbn. rewrite E, lower_digit; [done|]. by apply N.mod_lt. }
  destruct (m / 16 =? 0)%N; [done|by apply IH].
Qed.
Lemma lower_format up m : lower (unchars (format_N 16 up m)) = unchars (format_N 16 false m).
Proof. unfold lower, smap. rewrite chars_unchars. f_equal. by apply lower_format_digits. Qed.

Lemma hex_key_form up m : (0 <= m) ->
  py_hex m ∈ _cache_key_forms (format_Z 16 up m) (serial_to_hex (SStr (format_Z 16 up m))).
Proof.
  intros Hm. unfold _cache_key_forms, py_hex. rewrite !format_Z_nonneg by done.
  rewrite remove_colon_format, strip_format, lower_format by done.
  pose proof (no_0x_format 16 false (Z.to_N m) ltac:(lia) ltac:(lia)) as Hx. rewrite lower_format in Hx. rewrite Hx.
  pose proof (format_N_all 16 false (Z.to_N m) ltac:(lia)) as Hall.
  assert (nonempty (unchars (format_N 16 false (Z.to_N m))) = true) as ->.
  { by destruct (format_N_cons 16 false (Z.to_N m) ltac:(lia)) as (? & ? & ->). }
  unfold all_chars. rewrite chars_unchars. rewrite (proj2 (forallb_forall _ _)).
  2: { intros c Hc%list_elem_of_In. rewrite Forall_forall in Hall. destruct (Hall c Hc) as (x & Hd & ->).
       apply (below_16 (fun x => is_digit (digit_char false x) || str_in (String (digit_char false x) "") ["a"; "b"; "c"; "d"; "e"; "f"])); done. }
  right. apply list_elem_of_singleton. destruct (decide (m = 0)) as [->|H0]; [done|].
  destruct (format_digits_lead 16 false (S (N.to_nat (N.log2 (Z.to_N m)))) (Z.to_N m) []) as (x & l & Hd & E);
    [lia|by apply format_N_fuel|lia|]. unfold format_N. rewrite E. unfold lstrip_by. cbn [drop_while].
  assert (Ascii.eqb "0" (digit_char false x) = false) as ->; [|done].
  pose proof (below_16 (fun x => (x =? 0)%N || negb (Ascii.eqb "0" (digit_char false x))) eq_refl x ltac:(lia)) as H.
  apply orb_true_iff in H as [?%N.eqb_eq|?%negb_true_iff]; [lia|done].
Qed.

Lemma key_form serial n : 0 <= n -> serial ∈ serial_variants n -> py_hex n ∈ _cache_key_forms serial (serial_to_hex (SStr serial)).
Proof.
  intros Hn. unfold serial_variants. rewrite !elem_of_cons, elem_of_nil. intros [->|[->|[->|[]]]].
  - rewrite (proj2 (decimal_serial_roundtrip n Hn)). left.
  - by apply (hex_key_form false).
  - by apply (hex_key_form true).
Qed.

Lemma format_Z_nonempty b up z : (2 <= b)%N -> nonempty (format_Z b up z) = true.
Proof.
  intros Hb. unfold format_Z. destruct (z <? 0); [done|]. by destruct (format_N_cons b up (Z.abs_N z) Hb) as (? & ? & ->).
Qed.
Lemma serial_to_hex_nonempty s : nonempty s = true -> nonempty (serial_to_hex (SStr s)) = true.
Proof.
  destruct s as [|c s]; [done|]. intros _. unfold serial_to_hex.
  destruct (serial_to_int _); [by apply format_Z_nonempty|done].
Qed.
Lemma variant_nonempty s n : s ∈ serial_variants n -> nonempty s = true.
Proof. unfold serial_variants. rewrite !elem_of_cons, elem_of_nil. intros [->|[->|[->|[]]]]; by apply format_Z_nonempty. Qed.

Section Cache.
Variables (a n : Z).

(* no answer for the serial is kept under the CA *)
Definition uncached (d : db) : Prop := forall o, o ∈ cache d -> o_ca o = a -> under_form (py_hex n) o = false.

Lemma uncached_none d t alg : uncached d -> get_cached_response d t a n alg = None.
Proof.
  intros H. unfold get_cached_response. destruct (List.find _ _) as [o|] eqn:E; [|done].
  apply List.find_some in E as [Hin%list_elem_of_In [Ha%Z.eqb_eq Hk%String.eqb_eq]%andb_true_iff].
  specialize (H o Hin Ha). unfold under_form in H. apply orb_false_iff in H as [_ H].
  apply not_true_iff_false in H. destruct H. apply startswith_spec. exists alg. rewrite Hk. unfold cache_key.
  apply chars_inj. rewrite !chars_app. by rewrite <- app_assoc.
Qed.

Lemma uncached_same f : (forall d, cache (f d) = cache d) -> maintains uncached (modify (E := rev_error) f).
Proof. intros Hf. apply maintains_modify. intros d H. unfold uncached. by rewrite Hf. Qed.
Lemma uncached_filter f d : uncached d -> uncached (with_cache (List.filter f) d).
Proof. intros H o [Ho _]%elem_lfilter. by apply H. Qed.
Lemma cache_unlink_rows t j d : cache (unlink_rows_naming t j d) = cache d.
Proof.
  unfold unlink_rows_naming. generalize (List.filter (fun c => bool_decide (c_related c = Some j) && negb (c_id c =? j)) (certs d)).
  intros l. revert d. induction l as [|c l IH]; intros d; cbn; [done|]. by rewrite IH.
Qed.
#[local] Hint Resolve uncached_filter : session.
#[local] Hint Extern 4 (maintains uncached (modify _)) => apply uncached_same; intros ?; (done || apply cache_unlink_rows) : session.

Lemma uncached_invalidate_ca_caches l : maintains uncached (invalidate_ca_caches l).
Proof. induction l; cbn; unfold invalidate_ca_cache; session_walk. Qed.
#[local] Hint Resolve uncached_invalidate_ca_caches : session.
Lemma uncached_delete_all ev l : maintains uncached (delete_all ev l).
Proof. induction l; cbn; unfold delete_certificate; session_walk. Qed.
#[local] Hint Resolve uncached_delete_all : session.
Lemma uncached_generate_crl ev j days : maintains uncached (generate_crl ev j days).
Proof.
  unfold generate_crl, _run_housekeeping, purge_stale_revoked_serials, purge_expired_revoked_certificates, store_crl.
  session_walk.
Qed.
#[local] Hint Resolve uncached_generate_crl : session.
Lemma uncached_hand_over ev j : maintains uncached (hand_over ev j).
Proof. unfold hand_over. session_walk. Qed.
Lemma uncached_revoke_alone ev j reason iv : maintains uncached (revoke_alone ev j reason iv).
Proof.
  pose proof uncached_hand_over.
  unfold revoke_alone, revoke_body, stage_revocation, after_revocation, invalidate_cached_responses, _restore_revocation_state, attempt.
  session_walk.
Qed.

(* the invalidation, when its commit goes through *)
Lemma invalidate_uncached serial w : 0 <= n -> serial ∈ serial_variants n -> settled w ->
  exists w', invalidate_cached_responses serial (Some a) w = (Ok tt, w') /\ held uncached w' /\ settled w'.
Proof.
  intros Hn Hs Hw. unfold invalidate_cached_responses. rewrite serial_to_hex_nonempty by (by eapply variant_nonempty). cbn [negb].
  unfold mbind, M_bind, modify. rewrite settled_commit by done. eexists. split; [reflexivity|]. split; [|done].
  assert (forall d f, (forall o, f o = negb ((o_ca o =? a) && existsb (fun form => under_form form o)
    (_cache_key_forms serial (serial_to_hex (SStr serial))))) -> uncached (with_cache (List.filter f) d)) as H.
  { intros d f Hf o [_ Ho]%elem_lfilter Ha. rewrite Hf in Ho. apply negb_true_iff, andb_false_iff in Ho as [Ho|Ho]; [lia|].
    destruct (under_form (py_hex n) o) eqn:E; [|done]. rewrite <- Ho. symmetry. apply existsb_exists. exists (py_hex n).
    split; [|done]. apply list_elem_of_In. by apply key_form. }
  split; by apply H.
Qed.
End Cache.

Lemma settles_invalidate_ca_caches l : settles (invalidate_ca_caches l).
Proof. induction l; cbn; unfold invalidate_ca_cache; completes_walk. Qed.
#[local] Hint Resolve settles_invalidate_ca_caches : session.
Lemma settles_delete_all ev l : settles (delete_all ev l).
Proof. induction l; cbn; unfold delete_certificate; completes_walk. Qed.
#[local] Hint Resolve settles_delete_all : session.
Lemma settles_generate_crl ev j days : settles (generate_crl ev j days).
Proof.
  unfold generate_crl, _run_housekeeping, purge_stale_revoked_serials, purge_expired_revoked_certificates, store_crl.
  completes_walk.
Qed.

Lemma after_uncached ev c ca serial n w : 0 <= n -> c_serial c = Some serial -> serial ∈ serial_variants n -> settled w ->
  exists w', after_revocation ev c (Some ca) w = (Ok tt, w') /\ held (uncached (a_id ca) n) w'.
Proof.
  intros Hn Hc Hs Hw. unfold after_revocation. set (first := if a_cdp_enabled ca then _ else _).
  assert (exists w1, first w = (Ok tt, w1) /\ settled w1) as (w1 & E1 & Hw1).
  { unfold first. destruct (a_cdp_enabled ca); [|by exists w].
    destruct (completes_attempt (generate_crl ev (a_id ca) None) w) as [[] Ho].
    pose proof (settles_attempt _ (settles_generate_crl ev (a_id ca) None) w Hw) as H.
    destruct (attempt _ w) as [r w1]. cbn in Ho. subst r. by exists w1. }
  rewrite (bind_eq _ _ _ _ _ E1). pose proof (variant_nonempty _ _ Hs) as Hne.
  assert (text_of (c_serial c) = Some serial) as -> by (rewrite Hc; by destruct serial).
  destruct (invalidate_uncached (a_id ca) n serial w1 Hn Hs Hw1) as (w2 & E2 & H2 & _).
  change (a_id <$> Some ca) with (Some (a_id ca)). rewrite (bind_eq _ _ _ _ _ E2), bind_gets.
  set (l := responder_cas_for_certificate _ _). destruct (completes_invalidate_ca_caches l w2) as [[] Ho].
  pose proof (uncached_invalidate_ca_caches (a_id ca) n l w2 H2) as H3.
  destruct (invalidate_ca_caches l w2) as [r w3]. cbn in Ho. subst r. by exists w3.
Qed.

(** C9. No cached answer outlives a revocation: revoking a current certificate succeeds
    when its commits go through, and whichever way its serial is spelled in the row, the
    responder then has no stored answer for it under its CA, for any hash algorithm. *)
Theorem revocation_clears_cache (ev : env) (d : db) (i n : Z) (c : Certificate) (ca : CA) (caref serial reason : string)
    (iv : option Z) (related : bool)
  (Hc : find_cert d i = Some c) (Hr : revoked (c_rev c) = false) (Hk : text_of (c_caref c) = Some caref)
  (Ha : ca_by_refid d caref = Some ca) (Hs : c_serial c = Some serial) (Hn : 0 <= n) (Hv : serial ∈ serial_variants n) :
  exists d1, run (revoke_certificate ev i reason iv related) [] d = (Ok tt, d1)
    /\ forall t algorithm, get_cached_response d1 t (a_id ca) n algorithm = None.
Proof.
  set (d0 := recorded ev c caref serial reason iv d).
  destruct (after_uncached ev c ca serial n (Session d0 d0 []) Hn Hs Hv eq_refl) as (w1 & E1 & H1).
  assert (revoke_body ev i reason iv (Session d d []) = (Ok tt, w1)) as E.
  { unfold revoke_body. rewrite bind_gets. cbn [working]. rewrite Hc, Hr, bind_gets, Hk. cbn [working mbind option_bind]. rewrite Ha.
    rewrite (bind_eq _ _ _ tt (Session d d0 [])); [exact E1|].
    unfold stage_revocation, mbind, M_bind, modify. cbn. by rewrite (text_of_Some _ _ Hk), Hs. }
  assert (forall k : unit -> Act unit, completes (k tt) -> maintains (uncached (a_id ca) n) (k tt) ->
    exists d1, (let '(r, w) := mbind k (revoke_body ev i reason iv) (Session d d []) in (r, committed w)) = (Ok tt, d1)
      /\ forall t algorithm, get_cached_response d1 t (a_id ca) n algorithm = None) as H.
  { intros k Hk1 Hk2. rewrite (bind_eq _ _ _ _ _ E). destruct (Hk1 w1) as [[] Ho]. destruct (Hk2 w1 H1) as [H2 _].
    destruct (k tt w1) as [r w2]. cbn in Ho, H2. subst r. exists (committed w2). split; [done|]. intros t alg. by apply uncached_none. }
  unfold run, revoke_certificate. pose proof (uncached_revoke_alone (a_id ca) n ev) as Hu. destruct related; apply H; cbv beta.
  - completes_walk.
  - unfold attempt. session_walk.
  - completes_walk.
  - apply uncached_hand_over.
Qed.

(** ** The CRL that is served *)

Lemma latest_none p l m : latest p l = None -> m ∈ l -> p m = false.
Proof.
  induction l as [|x l IH]; cbn; [by intros _ ?%elem_of_nil|].
  destruct (latest p l) as [m'|]; [by case_match|]. destruct (p x) eqn:E; [done|]. intros _ [->|?]%elem_of_cons; auto.
Qed.
Lemma latest_max p l m x : latest p l = Some m -> x ∈ l -> p x = true -> m_number x <= m_number m.
Proof.
  revert m. induction l as [|y l IH]; intros m; cbn; [by intros _ ?%elem_of_nil|].
  destruct (latest p l) as [m'|] eqn:El.
  - destruct (p y && (m_number m' <=? m_number y)) eqn:E; intros [= <-] [->|Hx]%elem_of_cons Hp.
    + done.
    + apply andb_true_iff in E as [_ E%Z.leb_le]. specialize (IH m' eq_refl Hx Hp). lia.
    + rewrite Hp in E. cbn in E. apply Z.leb_gt in E. lia.
    + by apply IH.
  - destruct (p y) eqn:E; [|done]. intros [= <-] [->|Hx]%elem_of_cons Hp; [done|].
    by rewrite (latest_none p l x El Hx) in Hp.
Qed.
Lemma latest_app p l m : p m = true -> (forall x, x ∈ l -> p x = true -> m_number x < m_number m) ->
  latest p (l ++ [m])%list = Some m.
Proof.
  intros Hm. induction l as [|y l IH]; cbn; intros H; [by rewrite Hm|]. rewrite IH by (intros x Hx; apply H; by right).
  destruct (p y) eqn:E; [|done]. specialize (H y ltac:(left) E). cbn. by rewrite (proj2 (Z.leb_gt _ _) H).
Qed.
Lemma next_number_above d i m : m ∈ crls d -> m_ca m = i -> m_number m < next_number d i.
Proof.
  intros Hm Hi. unfold next_number, of_ca. apply Z.eqb_eq in Hi. destruct (latest _ _) as [x|] eqn:E.
  - pose proof (latest_max _ _ _ m E Hm Hi). lia.
  - by rewrite (latest_none _ _ m E Hm) in Hi.
Qed.

Lemma crls_unlink_rows t j d : crls (unlink_rows_naming t j d) = crls d.
Proof.
  unfold unlink_rows_naming. generalize (List.filter (fun c => bool_decide (c_related c = Some j) && negb (c_id c =? j)) (certs d)).
  intros l. revert d. induction l as [|c l IH]; intros d; cbn; [done|]. by rewrite IH.
Qed.
Lemma crls_invalidate l ids : maintains (fun d => crls d = l) (invalidate_ca_caches ids).
Proof. induction ids; cbn; unfold invalidate_ca_cache; session_walk. Qed.
Lemma crls_delete_all l ev ids : maintains (fun d => crls d = l) (delete_all ev ids).
Proof.
  pose proof (crls_invalidate l). induction ids; cbn; unfold delete_certificate; session_walk. by rewrite crls_unlink_rows.
Qed.
Lemma crls_housekeeping l ev j : maintains (fun d => crls d = l) (_run_housekeeping ev j).
Proof.
  pose proof (crls_delete_all l). unfold _run_housekeeping, purge_stale_revoked_serials, purge_expired_revoked_certificates.
  session_walk.
Qed.

Lemma keep_orphans_crls f d l : forall columns ints,
  keep_orphans (with_crls f d) columns ints l = keep_orphans d columns ints l.
Proof.
  induction l as [|r l IH]; intros columns ints; [done|]. cbn [keep_orphans].
  change (lifted (with_crls f d) r) with (lifted d r). by rewrite !IH.
Qed.
(* the CRLs stored before do not matter *)
Lemma full_entries_crls f d a t : full_entries d a t = full_entries (with_crls f d) a t.
Proof.
  unfold full_entries, get_revoked_certificates, _filter_orphan_serials. rewrite keep_orphans_crls. done.
Qed.

(** The CRL a CA generates is the one it serves: it is numbered above every CRL the CA
    issued before, full or delta, it becomes the current full CRL, and it lists what the
    database holds revoked when the call returns. *)
Theorem generated_crl_served (ev : env) (i : Z) (days : option Z) (outcomes : list bool) (d d' : db) (m : CRLMetadata)
  (Hrun : run (generate_crl ev i days) outcomes d = (Ok m, d')) :
  get_latest_crl d' i = Some m
  /\ (forall m0, m0 ∈ crls d -> m_ca m0 = i -> m_number m0 < m_number m)
  /\ exists a, find_ca d i = Some a /\ m_entries m = full_entries d' a (now ev).
Proof.
  unfold run in Hrun. destruct (generate_crl _ _ _ _) as [r w'] eqn:E. injection Hrun as -> <-. revert E.
  unfold generate_crl. rewrite bind_gets. cbn [working]. destruct (find_ca d i) as [a|]; [|done].
  destruct (negb (a_has_key a)); [done|]. destruct (a_offline a); [done|]. destruct (text_of (a_crt a)); [|done].
  destruct (negb _); [done|]. destruct (negb _); [done|].
  unfold mbind at 1, M_bind at 1. pose proof (crls_housekeeping (crls d) ev i (Session d d outcomes) (conj eq_refl eq_refl)) as [_ Hw].
  destruct (_run_housekeeping _ _ _) as [[[]|e] w]; [|done]. cbn [snd] in Hw.
  rewrite !bind_gets. unfold store_crl, mbind, M_bind, modify, commit. cbn [commits committed working].
  set (x := Build_CRLMetadata _ _ _ _ _ _ _ _).
  assert (get_latest_crl (with_crls (fun l => l ++ [x])%list (working w)) i = Some x
    /\ (forall m0, m0 ∈ crls d -> m_ca m0 = i -> m_number m0 < m_number x)
    /\ exists a', Some a = Some a' /\ m_entries x = full_entries (with_crls (fun l => l ++ [x])%list (working w)) a' (now ev)) as H.
  { split; [|split; [|exists a; split; [done|apply full_entries_crls]]].
    - apply latest_app; [unfold of_ca; cbn; by rewrite Z.eqb_refl|].
      intros y Hy [Hc%Z.eqb_eq _]%andb_true_iff. by apply next_number_above.
    - intros m0 H0 Hi. apply next_number_above; [by rewrite Hw|done]. }
  destruct (commits w) as [|[] l]; [by intros [= <- <-]..|done].
Qed.
End Effects.
