(* ===== verification/RenewalSafety.v ===== *)
(** * RenewalSafety: a certificate that is revoked or replaced renews nothing

    The rule the protocols share ([IssuedLookup]) against the lifecycle of [Revocations]: once
    a certificate is revoked for good, or replaced by the renewal it authenticated, no later
    call makes it current again, and EST, SCEP and WSTEP refuse to renew it. *)

From Stdlib Require Import Ascii String.
From stdpp Require Import prelude strings gmap sorting.
From S2P Require Import Prelude Scalars Serials Session RevocationModel Revocations IssuedLookup OcspStatus CrlContents RevocationSafety RevocationEffects.

Local Open Scope string_scope.
Local Open Scope Z_scope.

(* every door a protocol renewal goes through *)
Record refused_everywhere `{!X509, !X509Objects} (d : db) (ca : CA) (x : x509_object) (t : Z) : Prop := {
  re_est : forall pem csr, load_pem pem = Some x -> forall v, reenroll_certificate d ca (Some pem) csr t <> Ok v;
  re_scep : forall pem csr, _validate_renewal d ca pem x csr t <> None;
  re_wstep : is_Some (_renewable_certificate d ca x t).2;
}.

Section Doors.
Context {X : X509} {O : X509Objects}.

Lemma not_ok_refused d ca x t : (issued_certificate_status d ca x t).2 <> OK -> refused_everywhere d ca x t.
Proof.
  intros H. split.
  - intros [|c s] csr Hp v; unfold reenroll_certificate; [done|]. rewrite Hp.
    destruct (negb _); [done|]. destruct (san_identity_matches _ _) as [[]|]; [|done..].
    destruct (issued_certificate_status d ca x t) as [[row|] st]; [|done]. by destruct st.
  - intros pem csr. unfold _validate_renewal. repeat case_match; done.
  - unfold _renewable_certificate. destruct (issued_certificate_status d ca x t) as [row st]. by destruct st; eauto.
Qed.

Lemma persistent_revoked d ca x t r : r ∈ serials d -> s_caref r ∈ same_key_refids d ca ->
  s_serial r ∈ serial_variants (x_serial_number x) -> (issued_certificate_status d ca x t).2 = REVOKED.
Proof.
  intros Hr H1 H2. unfold issued_certificate_status.
  assert (is_Some (persistent_record d ca (x_serial_number x))) as Hp.
  { apply find_of_elem with (x := r); [done|]. rewrite andb_true_iff, !str_in_spec. done. }
  rewrite bool_decide_true by done. destruct (find_issued_rows d ca x) as [|row l]; [done|]. by rewrite orb_true_r.
Qed.

(** C12. A revoked certificate renews nothing: once it is revoked for a reason other than a
    hold, EST, SCEP and WSTEP refuse to renew it until it expires, whatever other calls are
    made meanwhile (deleting it included) and whichever of their commits fail; what is
    presented need not even be the stored certificate, its serial under the issuer's key is
    enough. Not covered: storing a certificate of the same serial under the CA again, which
    a hold and its lifting can make renewable. *)
Theorem revoked_never_renews (linked_issuer : CACrossCertificate -> option string) (ev : env) (d d1 : db) (i v : Z)
    (x : x509_object) (c : Certificate) (ca : CA) (caref serial reason : string) (iv : option Z) (related : bool)
    (outcomes : list bool) (later : list (call * list bool))
  (Hc : find_cert d i = Some c) (Hk : text_of (c_caref c) = Some caref) (Ha : ca_by_refid d caref = Some ca)
  (Hs : c_serial c = Some serial) (Hn : serial ∈ serial_variants (x_serial_number x)) (Hv : c_valid_to c = Some v)
  (Hnow : now ev <= v) (Hr : str_in reason _HOLD_REASONS = false)
  (Hsole : sole d (same_key_refids d ca) (x_serial_number x) i)
  (Hrun : run (revoke_certificate ev i reason iv related) outcomes d = (Ok tt, d1))
  (Hlater : Forall (fun p => admissible (same_key_refids d ca) (x_serial_number x) v p.1) later) (t : Z) :
  (issued_certificate_status (perform_all linked_issuer later d1) ca x t).2 = REVOKED
  /\ refused_everywhere (perform_all linked_issuer later d1) ca x t.
Proof.
  assert (lasting ca (same_key_refids d ca) (x_serial_number x) v (perform_all linked_issuer later d1)) as Hl
    by (apply lasting_calls; [done|by eapply revoked_lasting]).
  destruct (la_record _ _ _ _ _ Hl) as (r & H1 & H2 & H3 & _). rewrite <- (la_keys _ _ _ _ _ Hl) in H2.
  pose proof (persistent_revoked _ ca x t r H1 H2 H3) as H. split; [done|]. apply not_ok_refused. by rewrite H.
Qed.

(** ** A property of every row, kept by every call *)

Section Rows.
Variable P : Certificate -> Prop.
Hypothesis P_rev : forall c r, P c -> P (set_rev r c).
Hypothesis P_related : forall c r, P c -> P (set_related r c).
Hypothesis P_archived : forall c, P c -> P (set_archived c).

Definition all_rows (d : db) : Prop := forall c, c ∈ certs d -> P c.

Lemma rows_same d d' : certs d' = certs d -> all_rows d -> all_rows d'.
Proof. unfold all_rows. by intros ->. Qed.
Lemma rows_update d i f : (forall c, c_id c = i -> P c -> P (f c)) -> all_rows d -> all_rows (update_cert i f d).
Proof.
  intros Hf H c. cbn. intros [?|(y & [Hy%list_elem_of_In Hi%Z.eqb_eq]%List.find_some & ->)]%elem_update_first; [by apply H|].
  apply Hf; [done|by apply H].
Qed.
Lemma rows_set_rev d i r : all_rows d -> all_rows (update_cert i (set_rev r) d).
Proof. apply rows_update; auto. Qed.
Lemma rows_set_related d i r : all_rows d -> all_rows (update_cert i (set_related r) d).
Proof. apply rows_update; auto. Qed.
Lemma rows_filter d f : all_rows d -> all_rows (with_certs (List.filter f) d).
Proof. intros H c [Hc _]%elem_lfilter. by apply H. Qed.
Lemma rows_store d c : P c -> all_rows d -> all_rows (with_certs (fun l => l ++ [c])%list d).
Proof. intros Hc H c'. cbn. intros [?| ->%list_elem_of_singleton]%elem_of_app; [by apply H|done]. Qed.
Lemma rows_unlink t i d : all_rows d -> all_rows (unlink_rows_naming t i d).
Proof.
  unfold unlink_rows_naming. generalize (List.filter (fun c => bool_decide (c_related c = Some i) && negb (c_id c =? i)) (certs d)).
  intros l. revert d. induction l as [|c l IH]; intros d H; cbn; [done|]. by apply IH, rows_set_related.
Qed.
Lemma rows_lift c d : all_rows d -> all_rows (lift_hold c d).
Proof. intros H. unfold lift_hold. repeat case_match; try by apply rows_set_rev. Qed.
Lemma rows_archive i d : all_rows d -> all_rows (archive_live i d).2.
Proof. intros H. unfold archive_live. repeat case_match; try done. by apply rows_update; auto. Qed.

Lemma rows_modify_same f : (forall d, certs (f d) = certs d) -> maintains all_rows (modify (E := rev_error) f).
Proof. intros Hf. apply maintains_modify. intros d. by apply rows_same. Qed.

#[local] Hint Resolve rows_set_rev rows_set_related rows_filter rows_store rows_unlink rows_lift rows_archive : session.
#[local] Hint Extern 4 (maintains all_rows (modify _)) => apply rows_modify_same; intros ?; reflexivity : session.

Lemma rows_attempt {A} (c : Act A) : maintains all_rows c -> maintains all_rows (attempt c).
Proof. intros H. unfold attempt. session_walk. Qed.
Lemma rows_invalidate_ca_caches l : maintains all_rows (invalidate_ca_caches l).
Proof. induction l; cbn; unfold invalidate_ca_cache; session_walk. Qed.
Lemma rows_invalidate_cached s i : maintains all_rows (invalidate_cached_responses s i).
Proof. unfold invalidate_cached_responses. session_walk. Qed.
#[local] Hint Resolve rows_attempt rows_invalidate_ca_caches rows_invalidate_cached : session.
Lemma rows_delete ev i : maintains all_rows (delete_certificate ev i).
Proof. unfold delete_certificate. session_walk. Qed.
Lemma rows_delete_all ev l : maintains all_rows (delete_all ev l).
Proof. induction l; cbn; pose proof (rows_delete ev); session_walk. Qed.
#[local] Hint Resolve rows_delete rows_delete_all : session.
Lemma rows_generate_crl ev i days : maintains all_rows (generate_crl ev i days).
Proof.
  unfold generate_crl, _run_housekeeping, purge_expired_revoked_certificates, purge_stale_revoked_serials, store_crl. session_walk.
Qed.
Lemma rows_generate_delta ev i h : maintains all_rows (generate_delta_crl ev i h).
Proof. unfold generate_delta_crl, store_crl. session_walk. Qed.
#[local] Hint Resolve rows_generate_crl rows_generate_delta : session.
Lemma rows_revoke_alone ev i reason iv : maintains all_rows (revoke_alone ev i reason iv).
Proof.
  unfold revoke_alone, revoke_body, stage_revocation, after_revocation, _restore_revocation_state, hand_over. session_walk.
Qed.
#[local] Hint Resolve rows_revoke_alone : session.
Lemma rows_revoke ev i reason iv related : maintains all_rows (revoke_certificate ev i reason iv related).
Proof.
  pose proof (rows_revoke_alone ev). unfold revoke_certificate, revoke_body, stage_revocation, after_revocation, _restore_revocation_state.
  session_walk.
Qed.
Lemma rows_unhold ev i : maintains all_rows (unhold_certificate ev i).
Proof. unfold unhold_certificate, stage_removal, _restore_hold, _restore_revocation_state. session_walk. Qed.
Lemma rows_renew ev i known ca_id signed related :
  (forall m a c, signed = Some m -> c_id c = i -> P c -> P (_write_row a m c)) -> maintains all_rows (renew_alone ev i known ca_id signed related).
Proof.
  intros Hm. unfold renew_alone, _record_superseded, leave_pair. session_walk; apply rows_update; naive_solver.
Qed.
Lemma rows_external i raw : maintains all_rows (install_external_crl i raw).
Proof. unfold install_external_crl, store_crl. session_walk. Qed.
Lemma rows_cross ev i a reason iv : maintains all_rows (revoke_cross ev i a reason iv).
Proof. unfold revoke_cross. session_walk. Qed.
Lemma rows_answer linked t sg a serial nonce alg : maintains all_rows (answer_one linked t sg a serial nonce alg).
Proof. unfold answer_one, generate_response, _cache_response. session_walk. Qed.
Lemma rows_archive_all ids : maintains all_rows (archive_all ids).
Proof. induction ids; cbn [archive_all]; session_walk. Qed.
Lemma rows_store_signed new supersedes : P new -> maintains all_rows (store_signed new supersedes).
Proof. intros Hn. pose proof rows_archive_all. unfold store_signed, _claim_superseded. session_walk. Qed.

(* what a call writes in the columns of a certificate *)
Definition writes (k : call) : Prop :=
  match k with
  | CStore c | CReissue c _ => P c
  | CRenew _ i _ _ signed _ => forall m a c, signed = Some m -> c_id c = i -> P c -> P (_write_row a m c)
  | _ => True
  end.

#[local] Hint Resolve rows_revoke rows_unhold rows_renew rows_external rows_cross rows_answer rows_store_signed : session.
Lemma rows_perform linked k : writes k -> maintains all_rows (perform linked k).
Proof.
  destruct k; cbn; intros H; unfold ignore, purge_expired_revoked_certificates, purge_stale_revoked_serials; session_walk.
Qed.
Lemma rows_calls linked l : Forall (fun p => writes p.1) l -> forall d, all_rows d -> all_rows (perform_all linked l d).
Proof.
  induction 1 as [|[k outcomes] l Hk _ IH]; intros d Hd; [done|]. cbn. apply IH.
  by apply (maintains_run _ _ outcomes d (rows_perform linked k Hk)).
Qed.
End Rows.

(** ** What a claim archives *)

Definition archive_ids (ids : list Z) (d : db) : db := fold_left (fun (d : db) (i : Z) => (archive_live i d).2) ids d.

Lemma archive_keeps ids c : forall d, c ∈ certs (archive_ids ids d) -> c ∈ certs d \/ c_archived c = true.
Proof.
  induction ids as [|j ids IH]; intros d; [by left|]. unfold archive_ids. cbn. intros H.
  destruct (IH _ H) as [H'|?]; [|by right]. revert H'. unfold archive_live.
  destruct (find_cert d j) as [y|]; [|by left]. destruct (c_archived y); [by left|]. cbn.
  intros [?|(z & _ & ->)]%elem_update_first; [by left|by right].
Qed.

Lemma archive_ids_keys ids : forall d, c_id <$> certs (archive_ids ids d) = c_id <$> certs d.
Proof.
  induction ids as [|i ids IH]; intros d; [done|]. unfold archive_ids. cbn. etransitivity; [apply IH|].
  unfold archive_live. repeat case_match; try done. by apply update_cert_ids.
Qed.
Lemma archive_ids_archived ids c : forall d, NoDup (c_id <$> certs d) -> c_id c ∈ ids -> c ∈ certs (archive_ids ids d) ->
  c_archived c = true.
Proof.
  induction ids as [|i ids IH]; intros d Hnd Hi Hc; [by apply elem_of_nil in Hi|].
  assert (NoDup (c_id <$> certs (archive_live i d).2)) as Hnd1 by (pose proof (archive_ids_keys [i] d) as E; cbn in E; by rewrite E).
  unfold archive_ids in Hc. cbn in Hc. destruct (decide (c_id c ∈ ids)) as [?|Hni]; [by eapply IH|].
  apply elem_of_cons in Hi as [Hi|?]; [|done]. destruct (archive_keeps _ _ _ Hc) as [Hc1|?]; [|done].
  revert Hc1. unfold archive_live. destruct (find_cert d i) as [y|] eqn:Ey.
  - destruct (c_archived y) eqn:Ea.
    + cbn. intros Hc1. apply (find_by_id _ i c Hnd) in Hc1; [|done]. unfold find_cert in Ey. congruence.
    + cbn [snd]. intros Hc1. destruct (elem_update_cert _ _ _ _ Hnd Hc1) as [[_ ?]|(z & _ & ->)]; [congruence|done].
  - cbn. intros Hc1. apply (find_by_id _ i c Hnd) in Hc1; [|done]. unfold find_cert in Ey. congruence.
Qed.

Lemma archive_all_run ids : forall w : session db, exists b d',
  archive_all ids w = (Ok b, Session (committed w) d' (commits w)) /\ (b = true -> d' = archive_ids ids (working w)).
Proof.
  induction ids as [|i ids IH]; intros w; [exists true, (working w); by destruct w|].
  cbn [archive_all]. rewrite bind_gets. destruct (archive_live i (working w)) as [one d1] eqn:E. cbn [fst].
  destruct one; cbn [negb]; [|exists false, (working w); by destruct w].
  unfold mbind, M_bind, modify. rewrite E. cbn [snd].
  destruct (IH (Session (committed w) d1 (commits w))) as (b & d' & Hb & Ha). cbn [committed working commits] in *.
  exists b, d'. split; [done|]. intros ->. rewrite Ha by done. unfold archive_ids. cbn. by rewrite E.
Qed.

(** ** A certificate renews once *)

(* a row the lookup finds for [x] is archived *)
Definition replaced (x : x509_object) (c : Certificate) : Prop :=
  holds_der x c = true -> opt_in (c_serial c) (serial_variants (x_serial_number x)) = true -> c_archived c = true.

Lemma elem_rows_holding d p x c : c ∈ _rows_holding d p x <->
  c ∈ certs d /\ p c = true /\ opt_in (c_serial c) (serial_variants (x_serial_number x)) = true /\ holds_der x c = true.
Proof.
  unfold _rows_holding. rewrite !elem_lfilter, !andb_true_iff, bool_decide_eq_true. split; [tauto|].
  intros (? & ? & ? & H). repeat split; try done. revert H. unfold holds_der. destruct (c_crt c); [eauto|done].
Qed.

Lemma replaced_status x d ca t : all_rows (replaced x) d ->
  (issued_certificate_status d ca x t).2 ∈ [UNKNOWN; REVOKED; SUPERSEDED].
Proof.
  intros H. unfold issued_certificate_status. destruct (find_issued_rows d ca x) as [|row l] eqn:E;
    [case_bool_decide; set_solver|]. destruct (_ || _); [set_solver|].
  destruct (List.find _ _) as [live|] eqn:El; [exfalso|set_solver].
  apply List.find_some in El as [Hin%list_elem_of_In Ha%negb_true_iff]. rewrite <- E in Hin.
  apply elem_rows_holding in Hin as (Hin & _ & Hs & Hh). rewrite (H live Hin Hh Hs) in Ha. done.
Qed.

Lemma elem_live_ids d x i : i ∈ live_ids d x <-> exists c, c_id c = i /\ c ∈ certs d /\ c_archived c = false
  /\ opt_in (c_serial c) (serial_variants (x_serial_number x)) = true /\ holds_der x c = true.
Proof.
  unfold live_ids. rewrite merge_sort_Permutation, list_elem_of_fmap.
  split; intros (c & E & H); exists c; (split; [done|]); revert H; rewrite elem_rows_holding, negb_true_iff; tauto.
Qed.

Lemma claim_replaces x row d l new w' :
  NoDup (c_id <$> (certs d ++ [new])%list) -> c_crt row ≫= load_stored = Some x ->
  store_signed new (Some row) (Session d d l) = (Ok tt, w') -> all_rows (replaced x) (committed w').
Proof.
  intros Hnd Hx. unfold store_signed. unfold mbind at 1, M_bind at 1, modify at 1. cbn [committed working commits].
  set (d0 := with_certs _ d). unfold mbind at 1, M_bind at 1, try_, _claim_superseded. rewrite Hx, bind_gets. cbn [working].
  destruct (negb (bool_decide _)); [done|].
  destruct (archive_all_run (live_ids d0 x) (Session d d0 l)) as (b & d' & E & Ha).
  rewrite E. cbn [committed working commits] in *. destruct b; [|done]. rewrite Ha by done.
  cbn [negb]. unfold mbind at 1, M_bind at 1, commit. cbn [commits working committed].
  assert (all_rows (replaced x) (archive_ids (live_ids d0 x) d0)) as Hall.
  { intros c Hc Hh Hs. destruct (c_archived c) eqn:Harc; [done|].
    rewrite <- Harc. apply (archive_ids_archived (live_ids d0 x) c d0); [done| |done]. apply elem_live_ids. exists c.
    repeat split; try done. destruct (archive_keeps _ _ _ Hc); congruence. }
  destruct l as [|[] l]; intros [= <-]; done.
Qed.

Lemma claim_refused x row new outcomes d :
  all_rows (replaced x) d -> c_crt row ≫= load_stored = Some x -> holds_der x new = false ->
  run (store_signed new (Some row)) outcomes d = (Raise RenewedMeanwhile, d).
Proof.
  intros H Hx Hn. unfold run, store_signed. unfold mbind at 1, M_bind at 1, modify at 1. cbn [committed working commits].
  set (d0 := with_certs _ d). unfold mbind at 1, M_bind at 1, try_, _claim_superseded. rewrite Hx, bind_gets. cbn [working].
  rewrite bool_decide_false; [done|]. intros (c & _ & Hc & Ha & Hs & Hh)%elem_live_ids. apply elem_of_app in Hc as [Hc| ->%list_elem_of_singleton]; [|congruence].
  by rewrite (H c Hc Hh Hs) in Ha.
Qed.

(* a call that does not bring the certificate back *)
Definition stores_not (x : x509_object) (k : call) : Prop :=
  match k with
  | CStore c | CReissue c _ => holds_der x c = false
  | CRenew _ _ _ _ (Some m) _ => match load_stored (n_crt m) with Some y => x_der y <> x_der x | None => True end
  | _ => True
  end.

Lemma stores_not_writes x k : stores_not x k -> writes (replaced x) k.
Proof.
  destruct k as [| | |? ? ? ? [m|] ?| | | | | | | |c|c ?]; cbn; try done.
  - intros H m' a c [= <-] _ _. unfold replaced, holds_der. cbn. destruct (load_stored (n_crt m)); [|done].
    intros E%String.eqb_eq. by destruct H.
  - unfold replaced. congruence.
  - unfold replaced. congruence.
Qed.

(** C13. A certificate renews once: when a renewal that replaces a certificate is stored, the
    renewed certificate is not current again, whichever calls follow, unless one of them
    stores that very certificate anew: EST, SCEP and WSTEP refuse it, and a renewal of it that had passed
    those checks before is refused when it comes to be stored, and stores nothing. *)
Theorem renewed_once (linked_issuer : CACrossCertificate -> option string) (d d1 : db) (row new : Certificate)
    (x : x509_object) (outcomes : list bool) (later : list (call * list bool))
  (Hids : NoDup (c_id <$> (certs d ++ [new])%list)) (Hx : c_crt row ≫= load_stored = Some x)
  (Hrun : run (store_signed new (Some row)) outcomes d = (Ok tt, d1))
  (Hlater : Forall (fun p => stores_not x p.1) later) :
  let d' := perform_all linked_issuer later d1 in
  (forall ca t, (issued_certificate_status d' ca x t).2 ∈ [UNKNOWN; REVOKED; SUPERSEDED] /\ refused_everywhere d' ca x t)
  /\ (forall row' new' o, c_crt row' ≫= load_stored = Some x -> holds_der x new' = false ->
       run (store_signed new' (Some row')) o d' = (Raise RenewedMeanwhile, d')).
Proof.
  intros d'. assert (all_rows (replaced x) d') as H.
  { apply rows_calls; [unfold replaced; naive_solver..| |].
    - eapply Forall_impl; [done|]. intros [k o]. apply stores_not_writes.
    - unfold run in Hrun. destruct (store_signed _ _ _) as [r w] eqn:E. injection Hrun as -> <-. by eapply claim_replaces. }
  split; [|intros row' new' o ? ?; by eapply claim_refused]. intros ca t.
  pose proof (replaced_status x d' ca t H) as Hs. split; [done|]. apply not_ok_refused. intros E. rewrite E in Hs. set_solver.
Qed.
End Doors.
