(* ===== verification/RenewalRace.v ===== *)
(** * RenewalRace: renewals of one certificate that run at the same time

    Requests are served by several workers, each with its own transaction. The end of
    [sign_csr_from_crypto] ([backend/services/ca/ca_signing.py]) inserts the new row and counts
    it on the CA (the flush, which locks the row of the CA), reads the live rows that hold the
    renewed certificate, archives them one by one in the order of their ids, each under a
    condition, and commits. The steps below interleave any number of such renewals with any
    other call of the lifecycle. The database is at READ COMMITTED: a query sees what is
    committed and the writes of its own transaction, an UPDATE waits for the lock of the row
    and evaluates its condition once it has it, locks are kept until the transaction ends. *)

From Stdlib Require Import Ascii String.
From stdpp Require Import prelude strings gmap sorting.
From S2P Require Import Prelude Scalars Serials Session RevocationModel Revocations IssuedLookup OcspStatus CrlContents RevocationSafety RevocationEffects RenewalSafety.

Local Open Scope string_scope.
Local Open Scope Z_scope.

(* a renewal whose certificate is signed: the record of the CA it counts on, the row its
   checks found, the row to insert (its id is drawn by the insert) *)
Record job := { j_ca : Z; j_row : Certificate; j_new : Certificate }.

Inductive phase :=
| Signed
| Flushed (id : Z)
| Claiming (id : Z) (todo held : list Z)
| Stored (claimed : list Z)
| Refused.

Record world := { rows : db; phases : list phase }.

Definition with_id (i : Z) (c : Certificate) : Certificate :=
  {| c_id := i; c_caref := c_caref c; c_serial := c_serial c; c_crt := c_crt c; c_rev := c_rev c;
     c_valid_to := c_valid_to c; c_archived := c_archived c; c_related := c_related c;
     c_issuer := c_issuer c; c_template := c_template c; c_refid := c_refid c |}.

(** ** What a phase holds *)

Definition row_locks (p : phase) : list Z := match p with Claiming _ _ held => held | _ => [] end.
Definition in_transaction (p : phase) : bool := match p with Flushed _ | Claiming _ _ _ => true | _ => false end.
Definition pending_id (p : phase) : option Z := match p with Flushed i | Claiming i _ _ => Some i | _ => None end.
(* the rows it read as live *)
Definition claim (p : phase) : option (list Z) :=
  match p with Claiming _ todo held => Some (held ++ todo)%list | Stored l => Some l | _ => None end.
Definition taken (p : phase) : list Z := match p with Claiming _ _ held => held | Stored l => l | _ => [] end.
Definition finished (p : phase) : bool := match p with Stored _ | Refused => true | _ => false end.

Section Race.
Context {X : X509} {O : X509Objects}.
Variable linked_issuer : CACrossCertificate -> option string.
Variable x : x509_object.          (* the certificate that is renewed *)
Variable jobs : list job.

(* what the transaction sees *)
Definition view (s : world) (j : job) (id : Z) (held : list Z) : db :=
  archive_ids held (with_certs (fun l => l ++ [with_id id (j_new j)])%list (rows s)).

Definition others (s : world) (t : nat) (p : phase -> Prop) : Prop :=
  forall t' q, t' <> t -> phases s !! t' = Some q -> p q.
Definition ca_free (s : world) (t : nat) (ca : Z) : Prop :=
  forall t' q j, t' <> t -> phases s !! t' = Some q -> jobs !! t' = Some j -> in_transaction q = true -> j_ca j <> ca.

(* an id the database may draw: no row carries it, nor one being inserted or read *)
Definition unused (s : world) (i : Z) : Prop :=
  (i ∉ (c_id <$> certs (rows s)))
  /\ forall t q, phases s !! t = Some q -> pending_id q <> Some i /\ forall l, claim q = Some l -> i ∉ l.

Definition goto (t : nat) (p : phase) (s : world) : world := {| rows := rows s; phases := <[t:=p]> (phases s) |}.

Inductive renewal_step (t : nat) (j : job) (s : world) : world -> Prop :=
| r_flush i : phases s !! t = Some Signed -> ca_free s t (j_ca j) -> unused s i ->
    renewal_step t j s (goto t (Flushed i) s)
| r_read i : phases s !! t = Some (Flushed i) -> c_id (j_row j) ∈ live_ids (view s j i []) x ->
    renewal_step t j s (goto t (Claiming i (live_ids (view s j i []) x) []) s)
| r_gone i : phases s !! t = Some (Flushed i) -> c_id (j_row j) ∉ live_ids (view s j i []) x ->
    renewal_step t j s (goto t Refused s)
| r_archive i k todo held : phases s !! t = Some (Claiming i (k :: todo) held) ->
    others s t (fun q => k ∉ row_locks q) -> (archive_live k (view s j i held)).1 = true ->
    renewal_step t j s (goto t (Claiming i todo (held ++ [k])%list) s)
| r_lost i k todo held : phases s !! t = Some (Claiming i (k :: todo) held) ->
    others s t (fun q => k ∉ row_locks q) -> (archive_live k (view s j i held)).1 = false ->
    renewal_step t j s (goto t Refused s)
| r_commit i held : phases s !! t = Some (Claiming i [] held) ->
    renewal_step t j s {| rows := view s j i held; phases := <[t := Stored held]> (phases s) |}.

(* another call: it neither stores that certificate again, nor an id in use, nor renews in
   place a row that a renewal has read *)
Definition quiet (s : world) (k : call) : Prop :=
  stores_not x k /\
  match k with
  | CStore c | CReissue c _ => unused s (c_id c)
  | CRenew _ i _ _ _ _ => forall t q l, phases s !! t = Some q -> claim q = Some l -> i ∉ l
  | _ => True
  end.

Inductive step (s : world) : world -> Prop :=
| s_renewal t j s' : jobs !! t = Some j -> renewal_step t j s s' -> step s s'
| s_failure t p : phases s !! t = Some p -> finished p = false -> step s (goto t Refused s)
| s_other k outcomes :
    quiet s k -> NoDup (c_id <$> certs (run (perform linked_issuer k) outcomes (rows s)).2) ->
    step s {| rows := (run (perform linked_issuer k) outcomes (rows s)).2; phases := phases s |}.

Definition start (d : db) : world := {| rows := d; phases := (fun _ => Signed) <$> jobs |}.

(** ** Invariant *)

Definition live_in (l : list Z) (c : Certificate) : Prop := replaced x c \/ c_id c ∈ l.
Definition archived_in (l : list Z) (c : Certificate) : Prop := c_id c ∈ l -> c_archived c = true.

Record race_inv (s : world) : Prop := {
  ri_keys : NoDup (c_id <$> certs (rows s));
  ri_nonempty : forall t p l, phases s !! t = Some p -> claim p = Some l -> l <> [];
  ri_chain : forall t t' p p' l l', phases s !! t = Some p -> phases s !! t' = Some p' ->
    claim p = Some l -> claim p' = Some l' -> l ⊆ l' \/ l' ⊆ l;
  ri_disjoint : forall t t' p p' i, t <> t' -> phases s !! t = Some p -> phases s !! t' = Some p' ->
    i ∈ taken p -> i ∉ taken p';
  ri_live : forall t p l, phases s !! t = Some p -> claim p = Some l -> all_rows (live_in l) (rows s);
  ri_gone : forall t l, phases s !! t = Some (Stored l) -> all_rows (archived_in l) (rows s);
  ri_fresh : forall t p i, phases s !! t = Some p -> pending_id p = Some i ->
    all_rows (fun c => c_id c <> i) (rows s)
    /\ forall t' p' l, phases s !! t' = Some p' -> claim p' = Some l -> i ∉ l;
  ri_pending : forall t t' p p' i, t <> t' -> phases s !! t = Some p -> phases s !! t' = Some p' ->
    pending_id p = Some i -> pending_id p' <> Some i;
  ri_sorted : forall t i todo held, phases s !! t = Some (Claiming i todo held) -> StronglySorted Z.le (held ++ todo)%list;
}.

Hypothesis jobs_sound : forall t j, jobs !! t = Some j -> holds_der x (j_new j) = false.

(* a renewal that moves on, the rows being as they are *)
Record entry_ok (s : world) (t : nat) (p : phase) : Prop := {
  eo_claim : forall l, claim p = Some l -> l <> [] /\ all_rows (live_in l) (rows s) /\ forall i, pending_id p = Some i -> i ∉ l;
  eo_chain : forall l t' q l', claim p = Some l -> t' <> t -> phases s !! t' = Some q -> claim q = Some l' -> l ⊆ l' \/ l' ⊆ l;
  eo_disjoint : forall t' q i, t' <> t -> phases s !! t' = Some q -> i ∈ taken p -> i ∉ taken q;
  eo_gone : forall l, p = Stored l -> all_rows (archived_in l) (rows s);
  eo_fresh : forall i, pending_id p = Some i -> all_rows (fun c => c_id c <> i) (rows s)
    /\ forall t' q, t' <> t -> phases s !! t' = Some q -> pending_id q <> Some i /\ forall l, claim q = Some l -> i ∉ l;
  eo_others : forall t' q i l, t' <> t -> phases s !! t' = Some q -> pending_id q = Some i -> claim p = Some l -> i ∉ l;
  eo_sorted : forall i todo held, p = Claiming i todo held -> StronglySorted Z.le (held ++ todo)%list;
}.

Ltac phase_cases :=
  repeat match goal with
  | H : <[_:=_]> _ !! _ = Some _ |- _ => apply list_lookup_insert_Some in H as [(? & ? & ?)|[? H]]; subst
  end.

Lemma goto_inv s t p : race_inv s -> entry_ok s t p -> race_inv (goto t p s).
Proof.
  intros H E. split; cbn; [apply H|..].
  - intros t1 p1 l H1 ?. phase_cases; [by apply E|by eapply (ri_nonempty s H)].
  - intros t1 t2 p1 p2 l1 l2 H1 H2 ? ?. phase_cases; simplify_eq.
    + by left.
    + apply or_comm. apply (eo_chain s _ _ E l2 t1 p1 l1); congruence.
    + apply (eo_chain s _ _ E l1 t2 p2 l2); congruence.
    + by apply (ri_chain s H t1 t2 p1 p2).
  - intros t1 t2 p1 p2 i ? H1 H2 Hi. phase_cases; [done|..|by apply (ri_disjoint s H t1 t2 p1 p2)].
    + intros Hi'. apply (eo_disjoint s _ _ E t1 p1 i); congruence.
    + apply (eo_disjoint s _ _ E t2 p2 i); congruence.
  - intros t1 p1 l H1 ?. phase_cases; [by apply E|by eapply (ri_live s H)].
  - intros t1 l H1. phase_cases; [by apply E|by eapply (ri_gone s H)].
  - intros t1 p1 i H1 Hi. phase_cases.
    + destruct (eo_fresh s _ _ E i Hi) as [? Hf]. split; [done|]. intros t2 p2 l Hp2 ?.
      phase_cases; [by eapply (eo_claim s _ _ E)|apply (Hf t2 p2); congruence].
    + destruct (ri_fresh s H _ _ i H1 Hi) as [? Hf]. split; [done|]. intros t2 p2 l Hp2 ?.
      phase_cases; [apply (eo_others s _ _ E t1 p1); congruence|by eapply Hf].
  - intros t1 t2 p1 p2 i ? H1 H2 Hi. phase_cases; [done|..|by apply (ri_pending s H t1 t2 p1 p2)].
    + intros Hi'. apply (eo_fresh s _ _ E i Hi' ) with (t' := t1) (q := p1); congruence.
    + apply (eo_fresh s _ _ E i Hi) with (t' := t2) (q := p2); congruence.
  - intros t1 i todo held H1. phase_cases; [by eapply (eo_sorted s _ _ E)|by eapply (ri_sorted s H)].
Qed.

(* the rows change, the renewals being where they are *)
Lemma rows_inv s d' : race_inv s -> NoDup (c_id <$> certs d') ->
  (forall t p l, phases s !! t = Some p -> claim p = Some l -> all_rows (live_in l) (rows s) -> all_rows (live_in l) d') ->
  (forall t l, phases s !! t = Some (Stored l) -> all_rows (archived_in l) (rows s) -> all_rows (archived_in l) d') ->
  (forall t p i, phases s !! t = Some p -> pending_id p = Some i -> all_rows (fun c => c_id c <> i) (rows s) ->
     all_rows (fun c => c_id c <> i) d') ->
  race_inv {| rows := d'; phases := phases s |}.
Proof.
  intros [] Hk Hl Hg Hf. split; cbn; eauto. intros t p i Hp Hi. destruct (ri_fresh0 t p i Hp Hi). split; eauto.
Qed.

Lemma refused_ok s t : entry_ok s t Refused.
Proof. split; try done. intros t' q i _ _ H. by apply elem_of_nil in H. Qed.

(** ** Every step keeps it *)

Lemma new_holds t j i : jobs !! t = Some j -> holds_der x (with_id i (j_new j)) = false.
Proof. intros Hj. exact (jobs_sound t j Hj). Qed.

(* a live row of the view is a live row of the database *)
Lemma elem_view s t j i held c : jobs !! t = Some j -> c ∈ certs (view s j i held) -> c_archived c = false ->
  c ∈ certs (rows s) \/ c = with_id i (j_new j).
Proof.
  intros Hj Hc Ha. unfold view in Hc. destruct (archive_keeps _ _ _ Hc) as [Hc'|?]; [|congruence].
  apply elem_of_app in Hc' as [?|?%list_elem_of_singleton]; auto.
Qed.
Lemma view_live s t j i k : jobs !! t = Some j -> k ∈ live_ids (view s j i []) x ->
  exists c, c ∈ certs (rows s) /\ c_id c = k /\ ~ replaced x c.
Proof.
  intros Hj (c & Hk & Hc & Ha & Hs & Hh)%elem_live_ids. exists c.
  destruct (elem_view s t j i [] c Hj Hc Ha) as [?| ->]; [|by rewrite (new_holds t j i Hj) in Hh].
  split; [done|split; [done|]]. unfold replaced. rewrite Ha. naive_solver.
Qed.

Lemma read_ok s t j i : race_inv s -> jobs !! t = Some j -> phases s !! t = Some (Flushed i) ->
  c_id (j_row j) ∈ live_ids (view s j i []) x -> entry_ok s t (Claiming i (live_ids (view s j i []) x) []).
Proof.
  intros H Hj Hp Hrow. assert (exists l, l = live_ids (view s j i []) x) as [l El] by eauto. rewrite <- El in *.
  pose proof (fun k => view_live s t j i k Hj) as Hview. rewrite <- El in Hview. destruct (ri_fresh s H t _ i Hp eq_refl) as [Hf1 Hf2].
  split; cbn.
  - intros ? [= <-]. split; [intros ->; by apply elem_of_nil in Hrow|]. split.
    + intros c Hc. unfold live_in. destruct (c_archived c) eqn:Ha; [left; by intros ? ?|].
      destruct (holds_der x c) eqn:Hh; [|left; unfold replaced; congruence].
      destruct (opt_in (c_serial c) (serial_variants (x_serial_number x))) eqn:Hs; [|left; unfold replaced; congruence].
      right. rewrite El. apply elem_live_ids. exists c. repeat split; try done. apply elem_of_app. by left.
    + intros k [= <-] (c & Hc & Hk & _)%Hview. by apply (Hf1 c Hc).
  - intros ? t' q l' [= <-] _ Hq Hl'. left. intros k (c & Hc & <- & Hr)%Hview.
    by destruct (ri_live s H t' q l' Hq Hl' c Hc).
  - intros t' q k _ _ Hk. by apply elem_of_nil in Hk.
  - done.
  - intros k [= <-]. split; [done|]. intros t' q Hne Hq. split; [|intros l' Hl'; by apply (Hf2 t' q l')].
    eapply (ri_pending s H t t' _ q i); [congruence|done..].
  - intros t' q k ? _ Hq Hk [= <-] (c & Hc & Hck & _)%Hview.
    by apply (proj1 (ri_fresh s H t' q k Hq Hk) c Hc).
  - intros ? ? ? [= <- <- <-]. cbn. rewrite El. apply StronglySorted_merge_sort; apply _.
Qed.

Lemma archive_ok s t j i k todo held : race_inv s -> jobs !! t = Some j -> phases s !! t = Some (Claiming i (k :: todo) held) ->
  others s t (fun q => k ∉ row_locks q) -> (archive_live k (view s j i held)).1 = true ->
  entry_ok s t (Claiming i todo (held ++ [k])%list).
Proof.
  intros H Hj Hp Hfree Hone. assert ((held ++ [k]) ++ todo = held ++ k :: todo)%list as Eq by by rewrite <- app_assoc.
  destruct (ri_fresh s H t _ i Hp eq_refl) as [Hf1 Hf2]. split; cbn; rewrite ?Eq.
  - intros ? [= <-]. split; [by destruct held|]. split; [by eapply (ri_live s H)|]. intros ? [= <-]. by eapply Hf2.
  - intros ? t' q l' [= <-] Hne Hq Hl'. by eapply (ri_chain s H t t' _ q).
  - intros t' q i' Hne Hq [Hi'| ->%list_elem_of_singleton]%elem_of_app.
    { eapply (ri_disjoint s H t t' _ q i'); [congruence|done..]. }
    destruct q as [| |? ? held'|l|]; cbn; try by apply not_elem_of_nil.
    { by apply (Hfree t' _ Hne Hq). }
    intros Hk. unfold archive_live in Hone. destruct (find_cert _ k) as [c|] eqn:Ec; [|done].
    destruct (c_archived c) eqn:Ha; [done|]. pose proof (find_cert_id _ _ _ Ec) as <-.
    apply List.find_some in Ec as [Hc%list_elem_of_In _]. destruct (elem_view s t j i held c Hj Hc Ha) as [Hc'| ->].
    + by rewrite (ri_gone s H t' l Hq c Hc' Hk) in Ha.
    + cbn in *. apply (Hf2 t' _ l Hq eq_refl Hk).
  - done.
  - intros ? [= <-]. split; [done|]. intros t' q Hne Hq. split; [|intros l' Hl'; by apply (Hf2 t' q l')].
    eapply (ri_pending s H t t' _ q i); [congruence|done..].
  - intros t' q i' ? Hne Hq Hi' [= <-]. exact (proj2 (ri_fresh s H t' q i' Hq Hi') t _ _ Hp eq_refl).
  - intros ? ? ? [= <- <- <-]. rewrite Eq. by eapply (ri_sorted s H).
Qed.

(* the rows a commit leaves *)
Lemma view_rows (P : Certificate -> Prop) s j i held : (forall c, P c -> P (set_archived c)) ->
  P (with_id i (j_new j)) -> all_rows P (rows s) -> all_rows P (view s j i held).
Proof.
  intros Ha Hn H. unfold view, archive_ids. assert (all_rows P (with_certs (fun l => l ++ [with_id i (j_new j)])%list (rows s))) as H0
    by by apply rows_store. revert H0. generalize (with_certs (fun l => l ++ [with_id i (j_new j)])%list (rows s)).
  induction held as [|k held IH]; intros d Hd; cbn; [done|]. apply IH. by apply rows_archive.
Qed.

Lemma commit_inv s t j i held : race_inv s -> jobs !! t = Some j -> phases s !! t = Some (Claiming i [] held) ->
  race_inv {| rows := view s j i held; phases := <[t := Stored held]> (phases s) |}.
Proof.
  intros H Hj Hp. destruct (ri_fresh s H t _ i Hp eq_refl) as [Hf1 Hf2].
  pose proof (app_nil_r held) as Eq. assert (claim (Claiming i [] held) = Some held) as Hcl by (cbn; by rewrite Eq).
  assert (NoDup (c_id <$> certs (view s j i held))) as Hnd.
  { unfold view. rewrite archive_ids_keys. cbn. rewrite fmap_app, NoDup_app. split; [apply H|]. split; [|apply NoDup_singleton].
    intros k (c & Ek & Hc)%list_elem_of_fmap Hk%list_elem_of_singleton. apply (Hf1 c Hc). cbn in *. congruence. }
  assert (forall l, all_rows (live_in l) (rows s) -> all_rows (live_in l) (view s j i held)) as Hlive.
  { intros l. apply view_rows; [intros c [?|?]; [left; by intros ? ?|by right]|]. left. unfold replaced.
    by rewrite (new_holds t j i Hj). }
  set (s1 := goto t Refused s). set (s2 := {| rows := view s j i held; phases := phases s1 |}).
  assert (race_inv s2) as H2.
  { apply rows_inv; [by apply goto_inv, refused_ok|done|..]; cbn.
    - intros t' q l _ _. apply Hlive.
    - intros t' l Hq. phase_cases; [done|]. apply view_rows; [by intros ? ? ?|]. intros Hi.
      by destruct (Hf2 _ _ _ Hq eq_refl).
    - intros t' q i' Hq Hi'. phase_cases; [done|]. apply view_rows; [done|]. cbn. intros ->.
      by eapply (ri_pending s H t t' _ q i'). }
  assert (entry_ok s2 t (Stored held)) as Hok; [|apply (goto_inv s2 t _ H2) in Hok; unfold goto, s2, s1 in Hok; cbn in Hok;
    by rewrite list_insert_insert_eq in Hok].
  split; cbn.
  - intros ? [= <-]. split; [by eapply (ri_nonempty s H)|]. split; [|done]. by eapply Hlive, (ri_live s H).
  - intros ? t' q l' [= <-] Hne Hq Hl'. phase_cases; [done|]. by eapply (ri_chain s H t t' _ q).
  - intros t' q k Hne Hq Hk. phase_cases; [done|]. by eapply (ri_disjoint s H t t' _ q k).
  - intros ? [= <-] c Hc Hi. unfold view in Hc. eapply archive_ids_archived; [|exact Hi|exact Hc].
    unfold view in Hnd. by rewrite archive_ids_keys in Hnd.
  - done.
  - intros t' q k ? Hne Hq Hk [= <-]. phase_cases; [done|]. exact (proj2 (ri_fresh s H t' q k Hq Hk) t _ _ Hp Hcl).
  - done.
Qed.

(* a call keeps what holds of every row, when what it writes has it *)
Lemma other_rows (P : Certificate -> Prop) d k outcomes :
  (forall c r, P c -> P (set_rev r c)) -> (forall c r, P c -> P (set_related r c)) -> (forall c, P c -> P (set_archived c)) ->
  writes P k -> all_rows P d -> all_rows P (run (perform linked_issuer k) outcomes d).2.
Proof. intros ? ? ? Hk Hd. by apply (maintains_run _ _ outcomes d (rows_perform P ltac:(done) ltac:(done) ltac:(done) linked_issuer k Hk)). Qed.

Lemma other_inv s k outcomes : race_inv s -> quiet s k ->
  NoDup (c_id <$> certs (run (perform linked_issuer k) outcomes (rows s)).2) ->
  race_inv {| rows := (run (perform linked_issuer k) outcomes (rows s)).2; phases := phases s |}.
Proof.
  intros H [Hx Hq] Hnd. apply rows_inv; [done|done|..].
  - intros t p l Hp Hl. pose proof (stores_not_writes x k Hx) as Hw. apply other_rows; unfold live_in.
    + intros c r [Hc|?]; [left; exact Hc|by right].
    + intros c r [Hc|?]; [left; exact Hc|by right].
    + intros c [?|?]; [left|by right]. by intros ? ?.
    + destruct k as [| | |? ? ? ? [m|] ?| | | | | | | | |]; cbn in *; try done; [|by left..]. intros m' a c [= <-] _ _. left.
      unfold replaced, holds_der. cbn. destruct (load_stored (n_crt m)); [|done]. intros E%String.eqb_eq. by destruct Hx.
  - intros t l Hp. apply other_rows; unfold archived_in; [naive_solver..|].
    destruct k as [| | |? i ? ? ? ?| | | | | | | |c|c ?]; cbn in *; try done.
    + intros m a c _ <- _ Hi. cbn in Hi. by destruct (Hq t _ l Hp eq_refl).
    + intros Hi. by destruct (proj2 (proj2 Hq t _ Hp) l eq_refl).
    + intros Hi. by destruct (proj2 (proj2 Hq t _ Hp) l eq_refl).
  - intros t p i Hp Hi. apply other_rows; [done..|].
    destruct k as [| | |? ? ? ? ? ?| | | | | | | |c|c ?]; cbn in *; try done.
    + intros E. by destruct (proj1 (proj2 Hq t _ Hp)); rewrite E.
    + intros E. by destruct (proj1 (proj2 Hq t _ Hp)); rewrite E.
Qed.

Lemma flush_ok s t i : race_inv s -> unused s i -> entry_ok s t (Flushed i).
Proof.
  intros H Hi. split; cbn; try done.
  - intros t' q k _ _ Hk. by apply elem_of_nil in Hk.
  - destruct Hi as [Hi Hu]. intros ? [= <-]. split; [|intros t' q _ Hq; exact (Hu t' q Hq)]. intros c Hc E. apply Hi, list_elem_of_fmap. by exists c.
Qed.

Lemma step_inv s s' : race_inv s -> step s s' -> race_inv s'.
Proof.
  intros H [t j s1 Hj Hs|t p _ _|k outcomes Hq Hnd]; [|by apply goto_inv, refused_ok|by apply other_inv].
  destruct Hs; [by apply goto_inv, flush_ok|by apply goto_inv, read_ok|by apply goto_inv, refused_ok| |
    by apply goto_inv, refused_ok|by apply commit_inv]. apply goto_inv; [done|by eapply archive_ok].
Qed.

Lemma start_inv d : NoDup (c_id <$> certs d) -> race_inv (start d).
Proof.
  intros Hd. assert (forall t p, phases (start d) !! t = Some p -> p = Signed) as Hs.
  { intros t p (j & -> & _)%list_lookup_fmap_Some. done. }
  split; [done|..]; intros; repeat match goal with H : phases (start d) !! _ = Some ?p |- _ =>
    let E := fresh "E" in pose proof (Hs _ _ H) as E; clear H; first [discriminate E|subst] end; try done.
  match goal with H : _ ∈ taken Signed |- _ => by apply elem_of_nil in H end.
Qed.

Lemma reachable_inv d s : NoDup (c_id <$> certs d) -> rtc step (start d) s -> race_inv s.
Proof. intros Hd. apply (rtc_ind_r race_inv); [by apply start_inv|]. intros s1 s2 _ Hs H. by eapply step_inv. Qed.

(* two renewals that both went through would both have taken the rows the later one read *)
Lemma one_stored s t t' l l' : race_inv s -> phases s !! t = Some (Stored l) -> phases s !! t' = Some (Stored l') -> t = t'.
Proof.
  intros H Ht Ht'. destruct (decide (t = t')) as [|Hne]; [done|exfalso].
  pose proof (ri_nonempty s H t _ l Ht eq_refl) as Hl. pose proof (ri_nonempty s H t' _ l' Ht' eq_refl) as Hl'.
  destruct (ri_chain s H t t' _ _ l l' Ht Ht' eq_refl eq_refl) as [Hs|Hs].
  - destruct l as [|i l]; [done|]. apply (ri_disjoint s H t t' _ _ i Hne Ht Ht'); [left|apply Hs; left].
  - destruct l' as [|i l']; [done|]. apply (ri_disjoint s H t t' _ _ i Hne Ht Ht'); [apply Hs|]; left.
Qed.

(** ** A renewal that runs alone takes the steps of the code *)

Lemma solo_archive s t j i : jobs !! t = Some j -> (forall t' q, t' <> t -> phases s !! t' = Some q -> row_locks q = []) ->
  (t < length (phases s))%nat -> forall todo held (w w' : session db), working w = view s j i held -> archive_all todo w = (Ok true, w') ->
  rtc step (goto t (Claiming i todo held) s) (goto t (Claiming i [] (held ++ todo)%list) s)
  /\ w' = Session (committed w) (view s j i (held ++ todo)%list) (commits w).
Proof.
  intros Hj Hfree Hlt todo. induction todo as [|k todo IH]; intros held w w' Hw.
  { intros [= <-]. rewrite app_nil_r. split; [done|]. destruct w; cbn in *. by subst. }
  cbn [archive_all]. rewrite bind_gets. destruct (archive_live k (working w)) as [[] d1] eqn:E; [|done].
  cbn [fst negb]. unfold mbind, M_bind, modify. rewrite E. cbn [snd]. intros Hrun.
  destruct (IH (held ++ [k])%list (Session (committed w) d1 (commits w)) w') as [H1 H2]; [|done|].
  { cbn. unfold view, archive_ids. rewrite fold_left_app. cbn. unfold view, archive_ids in Hw. rewrite <- Hw. by rewrite E. }
  rewrite <- app_assoc in H1, H2. split; [|done]. eapply rtc_l; [|exact H1]. eapply s_renewal; [done|].
  replace (goto t (Claiming i todo (held ++ [k])%list) s)
    with (goto t (Claiming i todo (held ++ [k])%list) (goto t (Claiming i (k :: todo) held) s))
    by (unfold goto; cbn; by rewrite list_insert_insert_eq).
  eapply r_archive; cbn.
  - by apply list_lookup_insert_eq.
  - intros t' q Hne Hq. cbn in Hq. rewrite list_lookup_insert_ne in Hq by done. rewrite (Hfree t' q Hne Hq). apply not_elem_of_nil.
  - change (view (goto _ _ s) j i held) with (view s j i held). rewrite <- Hw, E. done.
Qed.

Lemma alone_as_coded d d1 j i outcomes : jobs = [j] -> c_crt (j_row j) ≫= load_stored = Some x -> i ∉ (c_id <$> certs d) ->
  run (store_signed (with_id i (j_new j)) (Some (j_row j))) outcomes d = (Ok tt, d1) ->
  exists claimed, rtc step (start d) {| rows := d1; phases := [Stored claimed] |}.
Proof.
  intros Hjobs Hx Hi. assert (jobs !! 0%nat = Some j) as Hj by (by rewrite Hjobs).
  unfold run, store_signed. unfold mbind at 1, M_bind at 1, modify at 1. cbn [committed working commits].
  set (d0 := with_certs _ d). unfold mbind at 1, M_bind at 1, try_, _claim_superseded. rewrite Hx, bind_gets. cbn [working].
  case_bool_decide as Hin; cbn [negb]; [|done].
  destruct (archive_all (live_ids d0 x) (Session d d0 outcomes)) as [[[]|e] w] eqn:E; [|done..].
  set (s0 := start d). assert (phases s0 = [Signed]) as Hs0 by (unfold s0, start; by rewrite Hjobs).
  destruct (solo_archive s0 0%nat j i Hj) with (todo := live_ids d0 x) (held := @nil Z)
    (w := Session d d0 outcomes) (w' := w) as [Hrtc ->]; [|by rewrite Hs0; cbn; lia|done|done|].
  { intros t' q Hne. rewrite Hs0. by destruct t' as [|[]]. }
  cbn [app committed commits] in *. intros Hrun. exists (live_ids d0 x).
  assert (d1 = view s0 j i (live_ids d0 x)) as ->.
  { revert Hrun. unfold mbind, M_bind, commit. cbn. by destruct outcomes as [|[] ?]; intros [= <-]. }
  eapply rtc_l; [eapply s_renewal; [done|]; eapply (r_flush 0%nat j s0 i)|].
  - by rewrite Hs0.
  - intros t' q j' Hne Hq. rewrite Hs0 in Hq. by destruct t' as [|[]].
  - split; [done|]. intros t' q Hq. rewrite Hs0 in Hq. destruct t' as [|[]]; by simplify_eq/=.
  - eapply rtc_l; [eapply s_renewal; [done|]; eapply (r_read 0%nat j _ i)|].
    + unfold goto. cbn [phases]. by rewrite Hs0.
    + exact Hin.
    + change (live_ids (view (goto 0 (Flushed i) s0) j i []) x) with (live_ids d0 x).
      replace (goto 0 (Claiming i (live_ids d0 x) []) (goto 0 (Flushed i) s0)) with (goto 0 (Claiming i (live_ids d0 x) []) s0)
        by (unfold goto; cbn; by rewrite list_insert_insert_eq).
      eapply rtc_r; [exact Hrtc|]. eapply s_renewal; [done|].
      replace {| rows := view s0 j i (live_ids d0 x); phases := [Stored (live_ids d0 x)] |}
        with {| rows := view (goto 0 (Claiming i [] (live_ids d0 x)) s0) j i (live_ids d0 x);
                phases := <[0%nat := Stored (live_ids d0 x)]> (phases (goto 0 (Claiming i [] (live_ids d0 x)) s0)) |}
        by (unfold goto; cbn [rows phases]; by rewrite Hs0).
      eapply r_commit. unfold goto. cbn [phases]. by rewrite Hs0.
Qed.

(** C10. Renewals that run at the same time: however the requests that renew one certificate
    interleave, with one another and with other calls of the lifecycle, and whichever of them
    fail, at most one stores a certificate; once one has, no live row holds the renewed
    certificate any more. The other calls are those that neither store that certificate anew
    nor renew in place a row that one of the requests has read as live: such a renewal makes
    the row live again under a new certificate, and a request that had read it can claim it. *)
Theorem concurrent_renewals_store_one (d : db) (s : world) (t : nat) (l : list Z)
  (Hids : NoDup (c_id <$> certs d)) (Hrun : rtc step (start d) s) (Ht : phases s !! t = Some (Stored l)) :
  (forall t' l', phases s !! t' = Some (Stored l') -> t' = t) /\ all_rows (replaced x) (rows s).
Proof.
  pose proof (reachable_inv d s Hids Hrun) as H. split; [intros t' l' Ht'; by eapply one_stored|].
  intros c Hc. destruct (ri_live s H t _ l Ht eq_refl c Hc) as [?|Hi]; [done|].
  intros _ _. by apply (ri_gone s H t l Ht c Hc).
Qed.

(** ** No renewal waits for ever *)

Lemma phases_length d s : rtc step (start d) s -> length (phases s) = length jobs.
Proof.
  apply (rtc_ind_r (fun s => length (phases s) = length jobs)); [apply length_fmap|]. intros s1 s2 _ Hs IH.
  destruct Hs as [t j s' _ Hs|t p _ _|]; [destruct Hs| |done]; cbn; by rewrite length_insert.
Qed.

Definition can_move (s : world) : Prop := exists t j s', jobs !! t = Some j /\ renewal_step t j s s'.

Lemma unlocked_or_held s t k : others s t (fun q => k ∉ row_locks q)
  \/ exists t' i todo held, t' <> t /\ phases s !! t' = Some (Claiming i todo held) /\ k ∈ held.
Proof.
  destruct (decide (Exists (fun '(t', q) => t' <> t /\ k ∈ row_locks q) (imap pair (phases s)))) as [He|Hn].
  - right. apply Exists_exists in He as ([t' q] & Hin & Hne & Hk). apply elem_of_lookup_imap in Hin as (n & q' & [= -> ->] & Hq).
    destruct q'; cbn in Hk; try by apply elem_of_nil in Hk. eauto 10.
  - left. intros t' q Hne Hq Hk. apply Hn, Exists_exists. exists (t', q). split; [|done].
    apply elem_of_lookup_imap. eauto.
Qed.

Lemma claimer_moves s t i k todo held j : jobs !! t = Some j -> phases s !! t = Some (Claiming i (k :: todo) held) ->
  others s t (fun q => k ∉ row_locks q) -> can_move s.
Proof.
  intros Hj Hp Hf. destruct (archive_live k (view s j i held)) as [[] d'] eqn:E; eexists t, j, _; (split; [done|]).
  - eapply r_archive; [done..|]. by rewrite E.
  - eapply r_lost; [done..|]. by rewrite E.
Qed.

(* whoever holds the row that is waited for wants a later one, or the same *)
Lemma claiming_moves s bound : race_inv s -> length (phases s) = length jobs ->
  (forall t i k todo held, phases s !! t = Some (Claiming i (k :: todo) held) -> k <= bound) ->
  forall n t i k todo held, (Z.to_nat (bound - k) < n)%nat -> phases s !! t = Some (Claiming i (k :: todo) held) -> can_move s.
Proof.
  intros H Hlen Hb n. assert (forall t p, phases s !! t = Some p -> exists j, jobs !! t = Some j) as Hjob.
  { intros t p Hp%lookup_lt_Some. rewrite Hlen in Hp. by apply lookup_lt_is_Some. }
  induction n as [|n IH]; intros t i k todo held Hn Hp; [lia|]. destruct (Hjob _ _ Hp) as [j Hj].
  destruct (unlocked_or_held s t k) as [?|(t' & i' & todo' & held' & Hne & Hp' & Hk)]; [by eapply claimer_moves|].
  destruct (Hjob _ _ Hp') as [j' Hj']. destruct todo' as [|k' todo'].
  { exists t', j'. eexists. split; [done|by eapply r_commit]. }
  assert (k <= k') as Hle.
  { pose proof (ri_sorted s H t' i' _ _ Hp') as Hs.
    eapply StronglySorted_app_1_elem_of; [exact Hs|done|left]. }
  destruct (decide (k = k')) as [<-|Hkk]; [|eapply (IH t'); [|exact Hp']; specialize (Hb _ _ _ _ _ Hp'); lia].
  eapply (claimer_moves s t'); [done..|]. intros t2 q Hne2 Hq Hk2. eapply (ri_disjoint s H t' t2 _ q k); [done|done|done|done|].
  by destruct q; cbn in *; try by apply elem_of_nil in Hk2.
Qed.

Lemma fresh_exists s : exists i, unused s i.
Proof.
  set (ids := ((c_id <$> certs (rows s)) ++ omap pending_id (phases s) ++ concat (omap claim (phases s)))%list).
  exists (1 + fold_right Z.max 0 ids). assert (1 + fold_right Z.max 0 ids ∉ ids) as Hn.
  { assert (forall k l, k ∈ l -> k <= fold_right Z.max 0 l) as Hmax.
    { intros k l. induction l as [|y l IH]; [by intros ?%elem_of_nil|]. cbn. rewrite elem_of_cons. intros [->|?%IH]; lia. }
    intros ?%Hmax. lia. }
  unfold ids at 2 in Hn. rewrite !elem_of_app in Hn. split; [tauto|]. intros t q Hq. split.
  - intros E. apply Hn. right. left. apply list_elem_of_omap. exists q. split; [by eapply list_elem_of_lookup_2|done].
  - intros l Hl E. apply Hn. right. right. rewrite list_elem_of_In, in_concat. exists l.
    rewrite <- !list_elem_of_In. split; [|done]. apply list_elem_of_omap. exists q. split; [by eapply list_elem_of_lookup_2|done].
Qed.

(** C11. Renewals never wait for one another in a circle: in every state that can be
    reached, as long as one of them has neither stored its certificate nor been refused,
    one of them can take its next step. *)
Theorem renewals_never_deadlock (d : db) (s : world) (t : nat) (p : phase)
  (Hids : NoDup (c_id <$> certs d)) (Hrun : rtc step (start d) s) (Ht : phases s !! t = Some p) (Hp : finished p = false) :
  can_move s.
Proof.
  pose proof (reachable_inv d s Hids Hrun) as H. pose proof (phases_length d s Hrun) as Hlen.
  assert (forall t p, phases s !! t = Some p -> exists j, jobs !! t = Some j) as Hjob.
  { intros t' p' Hp'%lookup_lt_Some. rewrite Hlen in Hp'. by apply lookup_lt_is_Some. }
  destruct (decide (Exists (fun q => in_transaction q = true) (phases s))) as [He|Hn].
  - apply Exists_exists in He as (q & [t1 Hq]%list_elem_of_lookup & Hin). destruct (Hjob _ _ Hq) as [j Hj].
    destruct q as [|i|i [|k todo] held| |]; try done.
    + destruct (decide (c_id (j_row j) ∈ live_ids (view s j i []) x)); eexists t1, j, _; (split; [done|]);
        [by eapply r_read|by eapply r_gone].
    + eexists t1, j, _. split; [done|by eapply r_commit].
    + set (heads := omap (fun q => match q with Claiming _ (k :: _) _ => Some k | _ => None end) (phases s)).
      eapply (claiming_moves s (fold_right Z.max 0 heads)); [done|done| |apply Nat.lt_succ_diag_r|exact Hq].
      intros t2 i2 k2 todo2 held2 H2. assert (k2 ∈ heads) as Hk.
      { apply list_elem_of_omap. eexists. split; [by eapply list_elem_of_lookup_2|done]. }
      clearbody heads. induction heads as [|y l IH]; [by apply elem_of_nil in Hk|]. cbn.
      apply elem_of_cons in Hk as [->|?%IH]; lia.
  - destruct (Hjob _ _ Ht) as [j Hj]. destruct p as [| | | |]; try done.
    + destruct (fresh_exists s) as [i Hi]. eexists t, j, _. split; [done|]. apply (r_flush t j s i); [done| |done].
      intros t' q j' _ Hq _ Hin. destruct Hn. apply Exists_exists. exists q. split; [by eapply list_elem_of_lookup_2|done].
    + destruct Hn. apply Exists_exists. eexists. split; [by eapply list_elem_of_lookup_2|done].
    + destruct Hn. apply Exists_exists. eexists. split; [by eapply list_elem_of_lookup_2|done].
Qed.
End Race.
