(* ===== verification/RevocationExamples.v ===== *)
(** * RevocationExamples: the lifecycle on concrete rows

    A root CA held under two records of the same key, one certificate, and what the
    calls make of them: the hypotheses of the theorems on concrete rows, and the cases in
    which two parts of the code disagree. *)

From Stdlib Require Import Ascii String.
From stdpp Require Import prelude strings.
From S2P Require Import Prelude Scalars Serials Session RevocationModel Revocations IssuedLookup OcspStatus CrlContents RevocationSafety RevocationEffects.

Local Open Scope string_scope.
Local Open Scope Z_scope.

Module Sample.
#[export] Instance x509 : X509 := {
  cert_serial pem := dict_get [("ROOT", 1); ("ROOT2", 2); ("LEAF", 171); ("OTHER", 172); ("SUB", 173)] pem;
  cert_key pem := dict_get [("ROOT", "key"); ("ROOT2", "key")] pem;
  cert_subject _ := "CN=root";
  cert_issuer _ := "CN=root";
  cert_not_after _ := 9000;
  cert_aki _ := None;
  cert_ski _ := None;
  signed_by _ _ := None;
  references _ _ := false;
}.

Definition object (pem : string) : option x509_object :=
  match cert_serial pem with
  | Some n => Some {| x_der := pem; x_serial_number := n; x_subject := "CN=" ++ pem; x_spki := Some ("key of " ++ pem);
                      x_not_before := 0; x_not_after := 5000; x_sans := Some (Some [("DNSName", "a.example")]) |}
  | None => None
  end.
#[export] Instance objects : X509Objects := {
  load_stored := object; load_pem := object; load_der := object;
  certificate_signed_by _ _ := Some true; directly_issued_by _ _ := true;
}.

Definition no_link (x : CACrossCertificate) : option string := None.
Definition ev : env := {| now := 100; can_sign := fun _ => true |}.
Definition later_ev : env := {| now := 200; can_sign := fun _ => true |}.

Definition root : CA :=
  {| a_id := 1; a_refid := "R1"; a_caref := None; a_subject := Some "CN=root"; a_issuer := Some "CN=root"; a_ski := None;
     a_serial := Some "1"; a_crt := Some "ROOT"; a_rev := not_revoked; a_valid_to := Some 9000; a_has_key := true;
     a_offline := false; a_cdp_enabled := true; a_delta_enabled := true; a_crl_days := None |}.
Definition root2 : CA :=
  {| a_id := 2; a_refid := "R2"; a_caref := None; a_subject := Some "CN=root"; a_issuer := Some "CN=root"; a_ski := None;
     a_serial := Some "2"; a_crt := Some "ROOT2"; a_rev := not_revoked; a_valid_to := Some 9000; a_has_key := true;
     a_offline := false; a_cdp_enabled := true; a_delta_enabled := false; a_crl_days := Some 1 |}.
Definition cert (i : Z) (serial pem : string) (v : revocation) : Certificate :=
  {| c_id := i; c_caref := Some "R1"; c_serial := Some serial; c_crt := Some pem; c_rev := v; c_valid_to := Some 5000;
     c_archived := false; c_related := None; c_issuer := None; c_template := None; c_refid := pem |}.
Definition leaf : Certificate := cert 10 "ab" "LEAF" not_revoked.
Definition other : Certificate := cert 11 "172" "OTHER" not_revoked.
Definition rows (l : list Certificate) (o : list OCSPResponse) : db :=
  {| certs := l; cas := [root; root2]; serials := []; crosses := []; crls := []; cache := o; responders := [];
     settings := [("crl_auto_purge_stale_serials", Some "true"); ("crl_auto_delete_expired_revoked", Some "on")] |}.
Definition good (ca_id : Z) : OCSPResponse :=
  {| o_ca := ca_id; o_key := cache_key 171 "sha1"; o_status := Good; o_next_update := 4000 |}.
Definition d0 : db := rows [leaf] [good 1; good 2].

Definition on_hold : revocation :=
  {| revoked := true; revoked_at := Some 50; revoke_reason := Some "certificateHold"; invalidity_at := None |}.
Definition compromised : revocation :=
  {| revoked := true; revoked_at := Some 50; revoke_reason := Some "keyCompromise"; invalidity_at := None |}.

Definition d_revoked : db := (run (revoke_certificate ev 10 "keyCompromise" None false) [] d0).2.

(* a revocation, and what the responder and the CRL say of it *)
Example revoked_listed :
  (run (revoke_certificate ev 10 "keyCompromise" None false) [] d0).1 = Ok tt
  /\ _status_for_serial no_link d_revoked root 200 171 = Revoked 100 (Some key_compromise)
  /\ (m_entries <$> get_latest_crl d_revoked 1)
     = Some [{| e_serial := 171; e_date := 100; e_reason := Some key_compromise; e_invalidity := None |}]
  /\ s_serial <$> serials d_revoked = ["ab"].
Proof. by vm_compute. Qed.

(* deleted: the record keeps it on the CRL and answers for it *)
Definition d_deleted : db := (run (delete_certificate later_ev 10) [] d_revoked).2.
Example deleted_still_revoked :
  certs d_deleted = [] /\ e_serial <$> full_entries d_deleted root 200 = [171]
  /\ _status_for_serial no_link d_deleted root 200 171 = Revoked 100 (Some key_compromise).
Proof. by vm_compute. Qed.

(* deleted and imported again: the CRL lists the serial and the responder answers good *)
Definition d_reimported : db := (run (perform no_link (CStore leaf)) [] d_deleted).2.
Example reimport_disagrees :
  e_serial <$> full_entries d_reimported root 200 = [171]
  /\ _status_for_serial no_link d_reimported root 200 171 = Good.
Proof. by vm_compute. Qed.

(* a certificate filed under the second record of the key; requests are answered by the
   first: the answer stored there outlives the revocation *)
Definition filed : Certificate :=
  {| c_id := 10; c_caref := Some "R2"; c_serial := Some "ab"; c_crt := Some "LEAF"; c_rev := not_revoked;
     c_valid_to := Some 5000; c_archived := false; c_related := None; c_issuer := None; c_template := None; c_refid := "LEAF" |}.
Definition d_filed : db := (run (revoke_certificate ev 10 "keyCompromise" None false) [] (rows [filed] [good 1; good 2])).2.
Example cached_under_other_record :
  _status_for_serial no_link d_filed root 200 171 = Revoked 100 (Some key_compromise)
  /\ get_cached_response d_filed 200 2 171 "sha1" = None
  /\ (run (answer_one no_link 200 ByCa root 171 false "sha1") [] d_filed).1 = Ok (Status Good).
Proof. by vm_compute. Qed.

(* a CRL signed elsewhere, with the number of the one that is served and a later date, is
   accepted: two current CRLs share the number by which the served one is chosen *)
Definition offline_root : CA :=
  {| a_id := 1; a_refid := "R1"; a_caref := None; a_subject := Some "CN=root"; a_issuer := Some "CN=root"; a_ski := None;
     a_serial := Some "1"; a_crt := Some "ROOT"; a_rev := not_revoked; a_valid_to := Some 9000; a_has_key := false;
     a_offline := true; a_cdp_enabled := true; a_delta_enabled := false; a_crl_days := None |}.
Definition signed_elsewhere (at_ : Z) (l : list crl_entry) : external_crl :=
  {| f_issuer := "CN=root"; f_signed_by := fun _ => true; f_delta := false; f_this_update := at_;
     f_next_update := Some 9000; f_number := Some 7; f_entries := l |}.
Definition upload (at_ : Z) (l : list crl_entry) (d : db) : db :=
  (run (install_external_crl 1 (Some (signed_elsewhere at_ l))) [] d).2.
Example same_number_upload :
  let d := upload 20 [{| e_serial := 171; e_date := 15; e_reason := None; e_invalidity := None |}]
             (upload 10 [] {| certs := []; cas := [offline_root]; serials := []; crosses := []; crls := []; cache := [];
                              responders := []; settings := [] |}) in
  m_number <$> crls d = [7; 7] /\ m_this_update <$> crls d = [10; 20].
Proof. by vm_compute. Qed.

(** ** The theorems on these rows *)

(* a revoked child CA whose serial column is empty: listed by its certificate, and found by it *)
Definition sub : CA :=
  {| a_id := 3; a_refid := "S1"; a_caref := Some "R1"; a_subject := Some "CN=sub"; a_issuer := Some "CN=root"; a_ski := None;
     a_serial := None; a_crt := Some "SUB"; a_rev := compromised; a_valid_to := Some 9000; a_has_key := true;
     a_offline := false; a_cdp_enabled := false; a_delta_enabled := false; a_crl_days := None |}.
Definition d_sub : db :=
  {| certs := [leaf]; cas := [root; root2; sub]; serials := []; crosses := []; crls := []; cache := []; responders := [];
     settings := [] |}.
Lemma crl_agrees_with_ocsp_witness :
  is_revoked (_status_for_serial no_link d_sub root 200 173) = true
  \/ contradicted d_sub root 173
      /\ ~ exists c ref, c ∈ certs d_sub /\ c_caref c = Some ref /\ under_key d_sub root ref /\ revoked (c_rev c) = true
             /\ unexpired (c_valid_to c) 150 /\ carries (c_crt c) (c_serial c) 173.
Proof.
  apply (crl_agrees_with_ocsp no_link d_sub root 150 200 173).
  - split.
    + intros c ->%list_elem_of_singleton Hc. exfalso. apply (resolve_carries (LCert leaf)) in Hc. by vm_compute in Hc.
    + intros a Ha Hk _. right. apply list_elem_of_In in Ha. repeat (destruct Ha as [<-|Ha]; [try done|]); [|done].
      split; [done|]. by exists "SUB", "ROOT".
    + by intros r []%elem_of_nil.
  - apply (bool_decide_unpack _). by vm_compute.
Defined.

(* both halves of the account of a CRL, on the child CA and on the record that outlives the
   certificate *)
Example crl_lists_sub : e_serial <$> full_entries d_sub root 150 = [173] /\ e_serial <$> full_entries d_deleted root 200 = [171].
Proof. by vm_compute. Qed.

(* what may follow: a hold of the same certificate is refused, the row is deleted, another
   certificate is stored, renewed and revoked, CRLs are issued, requests answered *)
Definition later : list (call * list bool) :=
  [ (CUnhold later_ev 10, []); (CDelete later_ev 10, [true; false]); (CStore other, []);
    (CRenew later_ev 11 (Some "172") 1 (Some {| n_serial := 175; n_crt := "NEW"; n_valid_to := 6000 |}) true, []);
    (CRevoke later_ev 11 "superseded" None true, [false]); (CCrl later_ev 1 None, []);
    (COcsp 300 ByCa root 171 false "sha1", []); (CPurgeSerials later_ev 1, []) ].

Lemma revocation_lasts_witness :
  (forall t, is_revoked (_status_for_serial no_link (perform_all no_link later d_revoked) root t 171) = true)
  /\ forall t sg nonce alg commits st,
       (run (answer_one no_link t sg root 171 nonce alg) commits (perform_all no_link later d_revoked)).1 = Ok (Status st) ->
       is_revoked st = true.
Proof.
  apply (revocation_lasts no_link ev d0 d_revoked 10 171 5000 leaf root "R1" "ab" "keyCompromise" None false [] later).
  - by vm_compute.
  - by vm_compute.
  - by vm_compute.
  - by vm_compute.
  - done.
  - apply (bool_decide_unpack _). by vm_compute.
  - by vm_compute.
  - by vm_compute.
  - by vm_compute.
  - split; [apply (bool_decide_unpack _); by vm_compute|]. intros c Hc _. left. apply list_elem_of_In in Hc. by destruct Hc as [<-|[]].
  - by vm_compute.
  - intros o alg Ho Hi. apply list_elem_of_In in Ho. vm_compute in Ho. by destruct Ho as [<-|[]].
  - repeat constructor; try (cbn; lia); try (by vm_compute).
    + intros m [= <-]. apply (bool_decide_unpack _). by vm_compute.
    + intros s [= <-]. apply (bool_decide_unpack _). by vm_compute.
Defined.

Lemma failed_revocation_witness :
  (run (revoke_certificate ev 10 "keyCompromise" None true) [false; false] d0).2 = d0.
Proof.
  apply (failed_revocation_leaves_nothing ev 10 "keyCompromise" None true [false; false] d0 _ NotPersisted).
  by vm_compute.
Defined.

Definition d_held : db := rows [cert 10 "ab" "LEAF" on_hold; other] [].
Lemma hold_lifted_witness :
  exists d', run (unhold_certificate ev 10) [] d_held = (Ok ULifted, d') /\ clear 10 (Some "R1") (Some "ab") d'.
Proof.
  apply (hold_lifted ev d_held 10 (cert 10 "ab" "LEAF" on_hold)).
  - apply (bool_decide_unpack _). by vm_compute.
  - by vm_compute.
  - by vm_compute.
  - by vm_compute.
Defined.

Lemma revocation_clears_cache_witness :
  exists d1, run (revoke_certificate ev 10 "keyCompromise" None true) [] d0 = (Ok tt, d1)
    /\ forall t algorithm, get_cached_response d1 t 1 171 algorithm = None.
Proof.
  apply (revocation_clears_cache ev d0 10 171 leaf root "R1" "ab" "keyCompromise" None true).
  - by vm_compute.
  - by vm_compute.
  - by vm_compute.
  - by vm_compute.
  - by vm_compute.
  - lia.
  - apply (bool_decide_unpack _). by vm_compute.
Defined.

Definition first_crl : CRLMetadata :=
  {| m_ca := 1; m_number := 1; m_this_update := 100; m_next_update := 100 + 7 * day_us;
     m_entries := [{| e_serial := 171; e_date := 50; e_reason := Some certificate_hold; e_invalidity := None |}];
     m_delta := false; m_base := None; m_external := false |}.
Lemma generated_crl_served_witness :
  let d' := (run (generate_crl ev 1 None) [] d_held).2 in
  get_latest_crl d' 1 = Some first_crl
  /\ (forall m0, m0 ∈ crls d_held -> m_ca m0 = 1 -> m_number m0 < m_number first_crl)
  /\ exists a, find_ca d_held 1 = Some a /\ m_entries first_crl = full_entries d' a (now ev).
Proof.
  apply (generated_crl_served ev 1 None [] d_held _ first_crl). by vm_compute.
Defined.
End Sample.
