(* ===== verification/RenewalExamples.v ===== *)
(** * RenewalExamples: protocol renewals on concrete rows

    The certificate of [RevocationExamples] presented for a renewal: revoked, replaced, and
    renewed twice at the same time through two records of the issuer's key. *)

From Stdlib Require Import Ascii String.
From stdpp Require Import prelude strings gmap sorting.
From S2P Require Import Prelude Scalars Serials Session RevocationModel Revocations IssuedLookup OcspStatus CrlContents RevocationSafety RevocationEffects RenewalSafety RenewalRace RevocationExamples.

Local Open Scope string_scope.
Local Open Scope Z_scope.

Module Renewals.
Import Sample.

Definition leaf_object : x509_object :=
  {| x_der := "LEAF"; x_serial_number := 171; x_subject := "CN=LEAF"; x_spki := Some "key of LEAF";
     x_not_before := 0; x_not_after := 5000; x_sans := Some (Some [("DNSName", "a.example")]) |}.
Definition same_names : x509_request :=
  {| q_subject := "CN=LEAF"; q_sans := Some (Some [("DNSName", "a.example"); ("DNSName", "a.example")]) |}.
Definition other_names : x509_request :=
  {| q_subject := "CN=LEAF"; q_sans := Some (Some [("DNSName", "b.example")]) |}.

(* what each door answers, before and after *)
Example leaf_renews :
  issued_certificate_status d0 root leaf_object 100 = (Some leaf, OK)
  /\ issued_certificate_status d0 root2 leaf_object 100 = (Some leaf, OK)
  /\ reenroll_certificate d0 root (Some "LEAF") same_names 100 = Ok (leaf_object, leaf)
  /\ reenroll_certificate d0 root (Some "LEAF") other_names 100 = Raise OtherNames
  /\ _validate_renewal d0 root "ROOT" leaf_object same_names 100 = None
  /\ (issued_certificate_status d0 root leaf_object 5000).2 = EXPIRED.
Proof. repeat split; by vm_compute. Qed.

Example deleted_still_refused :
  issued_certificate_status d_deleted root leaf_object 200 = (None, REVOKED)
  /\ issued_certificate_status d_reimported root leaf_object 200 = (Some leaf, REVOKED)
  /\ _presented_certificate_refusal d_deleted root (Some "LEAF") 200 = Some (NotCurrent REVOKED).
Proof. repeat split; by vm_compute. Qed.

Lemma revoked_never_renews_witness :
  (issued_certificate_status (perform_all no_link later d_revoked) root leaf_object 400).2 = REVOKED
  /\ refused_everywhere (perform_all no_link later d_revoked) root leaf_object 400.
Proof.
  apply (revoked_never_renews no_link ev d0 d_revoked 10 5000 leaf_object leaf root "R1" "ab" "keyCompromise" None false [] later).
  - by vm_compute.
  - by vm_compute.
  - by vm_compute.
  - by vm_compute.
  - apply (bool_decide_unpack _). by vm_compute.
  - by vm_compute.
  - by vm_compute.
  - by vm_compute.
  - split; [apply (bool_decide_unpack _); by vm_compute|]. intros c Hc _. left. apply list_elem_of_In in Hc. by destruct Hc as [<-|[]].
  - by vm_compute.
  - repeat constructor; try (cbn; lia); try (by vm_compute).
    + intros m [= <-]. apply (bool_decide_unpack _). by vm_compute.
    + intros s [= <-]. apply (bool_decide_unpack _). by vm_compute.
Defined.

(* deleted, imported again, put on hold and the hold lifted: lifting it deletes the record of
   the first revocation, and the certificate renews *)
Definition d_rehold : db := perform_all no_link
  [(CRevoke later_ev 10 "certificateHold" None false, []); (CUnhold later_ev 10, [])] d_reimported.
Lemma reimported_hold_renews :
  (issued_certificate_status d_reimported root leaf_object 200).2 = REVOKED
  /\ serials d_rehold = [] /\ (issued_certificate_status d_rehold root leaf_object 200).2 = OK
  /\ full_entries d_rehold root 200 = [].
Proof. repeat split; by vm_compute. Qed.

(** ** Replaced by its renewal *)

Definition successor (i : Z) : Certificate := cert i "172" "OTHER" not_revoked.
Definition d_renewed : db := (run (store_signed (successor 12) (Some leaf)) [] d0).2.
Definition afterwards : list (call * list bool) :=
  [ (CRenew later_ev 12 (Some "172") 1 (Some {| n_serial := 175; n_crt := "NEW"; n_valid_to := 6000 |}) true, []);
    (CRevoke later_ev 10 "superseded" None true, [false]); (CDelete later_ev 12, []); (CCrl later_ev 1 None, []) ].

Lemma renewed_once_witness :
  let d' := perform_all no_link afterwards d_renewed in
  (forall ca t, (issued_certificate_status d' ca leaf_object t).2 ∈ [UNKNOWN; REVOKED; SUPERSEDED] /\ refused_everywhere d' ca leaf_object t)
  /\ (forall row' new' o, c_crt row' ≫= load_stored = Some leaf_object -> holds_der leaf_object new' = false ->
       run (store_signed new' (Some row')) o d' = (Raise RenewedMeanwhile, d')).
Proof.
  apply (renewed_once no_link d0 d_renewed leaf (successor 12) leaf_object [] afterwards).
  - apply (bool_decide_unpack _). by vm_compute.
  - by vm_compute.
  - by vm_compute.
  - repeat constructor.
Defined.

(* stored anew after its renewal, it is current: the live row of the duplicate answers *)
Lemma restored_is_current :
  (issued_certificate_status d_renewed root leaf_object 200).2 = SUPERSEDED
  /\ (issued_certificate_status (perform_all no_link [(CStore (cert 20 "ab" "LEAF" not_revoked), [])] d_renewed)
       root leaf_object 200).2 = OK.
Proof. split; by vm_compute. Qed.

(** ** Twice at the same time *)

Definition jobs : list job := [ {| j_ca := 1; j_row := leaf; j_new := successor 0 |};
                                {| j_ca := 2; j_row := leaf; j_new := successor 0 |} ].
Definition w0 : world := start jobs d0.
Definition w1 : world := goto 0 (Flushed 12) w0.
Definition w2 : world := goto 1 (Flushed 13) w1.
Definition w3 : world := goto 0 (Claiming 12 [10] []) w2.
Definition w4 : world := goto 1 (Claiming 13 [10] []) w3.
Definition w5 : world := goto 0 (Claiming 12 [] [10]) w4.
Definition j0 : job := {| j_ca := 1; j_row := leaf; j_new := successor 0 |}.
Definition j1 : job := {| j_ca := 2; j_row := leaf; j_new := successor 0 |}.
Definition w6 : world := Build_world (view w5 j0 12 [10]) [Stored [10]; Claiming 13 [10] []].
Definition w7 : world := goto 1 Refused w6.

Ltac two_workers :=
  let t := fresh "t" in intros t; destruct t as [|[|t]]; intros; simplify_eq/=; try done.

Lemma unused_here s i : i ∉ (c_id <$> certs (RenewalRace.rows s)) ->
  Forall (fun q => pending_id q <> Some i /\ match claim q with Some l => i ∉ l | None => True end) (phases s) -> unused s i.
Proof.
  intros Hi Hf. split; [done|]. intros t q Hq. apply (Forall_lookup_1 _ _ _ _ Hf) in Hq as [? Hq]. split; [done|].
  intros l Hl. by rewrite Hl in Hq.
Qed.

Ltac vm_exact := first [apply (bool_decide_unpack _); by vm_compute | by vm_compute].

Lemma read0 : w3 = goto 0 (Claiming 12 (live_ids (view w2 j0 12 []) leaf_object) []) w2.
Proof. by vm_compute. Qed.
Lemma read1 : w4 = goto 1 (Claiming 13 (live_ids (view w3 j1 13 []) leaf_object) []) w3.
Proof. by vm_compute. Qed.

Lemma both_at_once : rtc (step no_link leaf_object jobs) w0 w6.
Proof.
  eapply rtc_l; [apply (s_renewal _ _ _ _ 0 j0 w1); [done|]; apply (r_flush _ _ _ _ _ 12); [done| |]|].
  { two_workers. }
  { apply unused_here; [vm_exact|]. repeat constructor; vm_exact. }
  eapply rtc_l; [apply (s_renewal _ _ _ _ 1 j1 w2); [done|]; apply (r_flush _ _ _ _ _ 13); [done| |]|].
  { two_workers. }
  { apply unused_here; [vm_exact|]. repeat constructor; vm_exact. }
  eapply rtc_l; [apply (s_renewal _ _ _ _ 0 j0 w3); [done|]; rewrite read0; apply (r_read _ _ 0 j0 w2 12); [done|vm_exact]|].
  eapply rtc_l; [apply (s_renewal _ _ _ _ 1 j1 w4); [done|]; rewrite read1; apply (r_read _ _ 1 j1 w3 13); [done|vm_exact]|].
  eapply rtc_l; [apply (s_renewal _ _ _ _ 0 j0 w5); [done|]; apply (r_archive _ _ 0 j0 w4 12 10 [] []); [done| |vm_exact]|].
  { two_workers. apply not_elem_of_nil. }
  eapply rtc_l; [apply (s_renewal _ _ _ _ 0 j0 w6); [done|]; apply (r_commit _ _ 0 j0 w5 12 [10]); done|]. done.
Qed.

Lemma jobs_store_other t j : jobs !! t = Some j -> holds_der leaf_object (j_new j) = false.
Proof. destruct t as [|[|t]]; intros [= <-]; by vm_compute. Qed.

Lemma concurrent_renewals_witness :
  (forall t' l', phases w6 !! t' = Some (Stored l') -> t' = 0%nat) /\ all_rows (replaced leaf_object) (RenewalRace.rows w6).
Proof.
  apply (concurrent_renewals_store_one no_link leaf_object jobs jobs_store_other d0 w6 0 [10]).
  - apply (bool_decide_unpack _). by vm_compute.
  - exact both_at_once.
  - done.
Defined.

(* the second worker waited for the row; it finds it archived *)
Example second_refused : renewal_step leaf_object jobs 1 j1 w6 w7.
Proof. apply (r_lost _ _ 1 j1 w6 13 10 [] []); [done| |vm_exact]. two_workers. apply not_elem_of_nil. Qed.

(* the row is renewed in place between the two claims: it is live again, and the second
   worker, which read it before, claims it and stores a second renewal of the certificate *)
Definition w8 : world :=
  Build_world (run (perform no_link (CRenew later_ev 10 (Some "ab") 1
                 (Some {| n_serial := 176; n_crt := "NEW"; n_valid_to := 6000 |}) true)) [] (RenewalRace.rows w6)).2 (phases w6).
Definition w9 : world := goto 1 (Claiming 13 [] [10]) w8.
Lemma in_place_renewal_reopens :
  renewal_step leaf_object jobs 1 j1 w8 w9
  /\ renewal_step leaf_object jobs 1 j1 w9 (Build_world (view w9 j1 13 [10]) [Stored [10]; Stored [10]]).
Proof.
  split.
  - apply (r_archive _ _ 1 j1 w8 13 10 [] []); [done| |vm_exact]. two_workers. apply not_elem_of_nil.
  - by apply (r_commit _ _ 1 j1 w9 13 [10]).
Qed.

Lemma never_deadlock_witness : can_move leaf_object jobs w6.
Proof.
  apply (renewals_never_deadlock no_link leaf_object jobs jobs_store_other d0 w6 1 (Claiming 13 [10] [])).
  - apply (bool_decide_unpack _). by vm_compute.
  - exact both_at_once.
  - done.
  - done.
Defined.
End Renewals.
