(* ===== verification/AcmeRevoke.v ===== *)
(** * AcmeRevoke: revoking a certificate over ACME

    Models the [revoke-cert] handler of [backend/api/acme/acme_api.py] whole, over the tables
    of the ACME server ([AcmeJws]), those of the revocation service ([RevocationModel]), the
    policies and the audit log: the request is verified, the certificate found byte for byte,
    the right of the signer checked, the approval policies asked
    ([revocation_policy_for] of [backend/services/approval_gate.py], with the issuer resolution of
    [backend/services/cert/renewal.py] and [backend/utils/cert_issuer.py]) and the certificate
    revoked ([Revocations]). Texts of the answers and of the audit entries are not modelled. *)

From Stdlib Require Import Ascii String.
From stdpp Require Import prelude strings gmap.
From S2P Require Import Prelude Scalars Serials Json Session Policies AcmeNonces AcmeJws AcmeAccounts RevocationModel Revocations IssuedLookup CaChain.

Local Open Scope string_scope.
Local Open Scope Z_scope.

(** ** The tables, and calls on some of them *)

Record audit_event := { ae_certificate : Z; ae_success : bool }.

Record world := {
  acme : AcmeJws.db;
  ca_db : RevocationModel.db;
  policies : list CertificatePolicy;
  log : list audit_event;
}.
Definition put_acme (d : AcmeJws.db) (w : world) : world :=
  {| acme := d; ca_db := ca_db w; policies := policies w; log := log w |}.
Definition put_ca (d : RevocationModel.db) (w : world) : world :=
  {| acme := acme w; ca_db := d; policies := policies w; log := log w |}.
Definition put_log (l : list audit_event) (w : world) : world :=
  {| acme := acme w; ca_db := ca_db w; policies := policies w; log := l |}.

Inductive exc := InCall | NotAnObject | Unreadable.

Definition on_acme {A} : AcmeJws.Act A -> M world exc A := zoom acme put_acme (fun _ => InCall).
Definition on_ca {A} : Revocations.Act A -> M world exc A := zoom ca_db put_ca (fun _ => InCall).

(* _audit_acme: what fails in it is swallowed *)
Definition _audit_acme (cert_id : Z) (success : bool) : M world exc unit :=
  _ ← modify (fun w => put_log (log w ++ [{| ae_certificate := cert_id; ae_success := success |}])%list w);
  _ ← commit;
  mret tt.

(* what the libraries read for this handler *)
Class RevokeLibrary := {
  urlsafe_b64decode : string -> option string;                        (* of the text and "==" *)
  jwk_spki : obj -> option string;                                    (* josepy, SubjectPublicKeyInfo; None: raises *)
  certificate_identity : string -> option (option string * list string);  (* CN and DNS names; None: raises *)
}.

Section Gate.
Context `{!X509} `{!RevokeLibrary}.

(** ** services/approval_gate.py *)

Definition certificate_scope (d : RevocationModel.db) (c : Certificate)
    : result exc (option CA * option Z * option string * list string) :=
  let ca := resolve_issuing_ca d c in
  match text_of (c_crt c) with
  | None => Ok (ca, c_template c, None, [])
  | Some pem =>
      match certificate_identity pem with
      | None => Raise Unreadable
      | Some (cn, dns) => Ok (ca, c_template c, cn, dns)
      end
  end.

Definition issuer_scope (d : RevocationModel.db) (a : CA) : list Z :=
  match a_id <$> List.filter (fun b => str_in (a_refid b) (same_key_refids d a)) (cas d) with
  | [] => [a_id a]
  | ids => ids
  end.

Definition _revocation_scope (d : RevocationModel.db) (ca : option CA) : list (option Z) :=
  match ca with Some a => Some <$> issuer_scope d a | None => [None] end.

Definition revocation_policy_for (w : world) (c : Certificate) : result exc (option CertificatePolicy) :=
  match certificate_scope (ca_db w) c with
  | Raise e => Raise e
  | Ok (ca, template, cn, dns) =>
      Ok (check_approval_required (policies w) ["revocation"] (_revocation_scope (ca_db w) ca) template cn dns)
  end.
End Gate.

(** ** The handler *)

Inductive answer := Revoked200 | NotRevoked (type : string) (status : Z) | Unverified (e : jws_error).

Definition _acme_revoke_reasons : list (Z * string) :=
  [(0, "unspecified"); (1, "keyCompromise"); (2, "cACompromise"); (3, "affiliationChanged"); (4, "superseded");
   (5, "cessationOfOperation"); (6, "certificateHold"); (8, "removeFromCRL"); (9, "privilegeWithdrawn");
   (10, "aACompromise")].
Definition reason_name (reason : Z) : string :=
  match List.find (fun p => p.1 =? reason) _acme_revoke_reasons with Some p => p.2 | None => "unspecified" end.

(* an integer from 0 to 10, excluding 7; absent is 0 *)
Definition reason_of_payload (payload : obj) : option Z :=
  match member payload "reason" with
  | None => Some 0
  | Some (JInt z) => if (z <? 0) || (10 <? z) || (z =? 7) then None else Some z
  | Some _ => None
  end.

Section Handler.
Context `{!Jose} `{!X509} `{!X509Objects} `{!RevokeLibrary}.

Definition presented (payload : obj) : option x509_object :=
  match member payload "certificate" with
  | Some (JStr text) => urlsafe_b64decode text ≫= load_der
  | _ => None
  end.

(* the account that signed has an order for the certificate, or the certificate's key signed *)
Definition owns (d : AcmeJws.db) (account : option string) (cert_id : Z) : bool :=
  match account with Some i => bool_decide ((i, cert_id) ∈ order_certs d) | None => false end.
Definition possesses (embedded : option json) (x : x509_object) : bool :=
  match embedded with
  | Some (JObj key) =>
      match dget key "kty" with
      | Some (JStr kty) =>
          ((kty =? "RSA") || (kty =? "EC"))%string
          && match jwk_spki key, x_spki x with Some a, Some b => (a =? b)%string | _, _ => false end
      | _ => false
      end
  | _ => false
  end.

Definition respond_with (ev : AcmeJws.env) (a : answer) : M world exc answer := on_acme (respond ev a).
Definition refuse (ev : AcmeJws.env) (type : string) (status : Z) : M world exc answer := respond_with ev (NotRevoked type status).

(* authorized: the policies, then the revocation, both audited *)
Definition revoke_found (ev : AcmeJws.env) (rev : Revocations.env) (c : Certificate) (reason : Z) : M world exc answer :=
  held ← gets (fun w => revocation_policy_for w c);
  match held with
  | Raise _ => refuse ev "serverInternal" 500
  | Ok (Some _) => _ ← _audit_acme (c_id c) false; refuse ev "unauthorized" 403
  | Ok None =>
      done_ ← try_ (_ ← on_ca (revoke_certificate rev (c_id c) (reason_name reason) None false); mret true)
                   (fun _ => mret false);
      if done_ : bool then _ ← _audit_acme (c_id c) true; respond_with ev Revoked200
      else _ ← rollback; _ ← _audit_acme (c_id c) false; refuse ev "serverInternal" 500
  end.

Definition revoke_presented (ev : AcmeJws.env) (rev : Revocations.env) (jws : obj) (embedded : option json)
    (x : x509_object) (reason : Z) : M world exc answer :=
  rows ← gets (fun w => find_stored_rows (ca_db w) x);
  match rows with
  | [] => refuse ev "malformed" 404
  | c :: _ =>
      if revoked (c_rev c) then refuse ev "alreadyRevoked" 400
      else
        authorized ← gets (fun w => owns (acme w) (_account_id_from_jws jws) (c_id c) || possesses embedded x);
        if negb authorized then _ ← _audit_acme (c_id c) false; refuse ev "unauthorized" 403
        else revoke_found ev rev c reason
  end.

Definition revoke_body_of (ev : AcmeJws.env) (rev : Revocations.env) (body : json) : M world exc answer :=
  if negb (truth body) then refuse ev "malformed" 400
  else
    verified ← on_acme (verify_jws ev body);
    match verified, body with
    | Raise e, _ => respond_with ev (Unverified e)
    | Ok (payload, embedded, _), JObj jws =>
        if negb (truth payload) then refuse ev "malformed" 400
        else match payload with
        | JObj o =>
            if negb (bool_decide (is_Some (truth_of (member o "certificate")))) then refuse ev "malformed" 400
            else match reason_of_payload o with
            | None => refuse ev "badRevocationReason" 400
            | Some reason =>
                match presented o with
                | None => refuse ev "malformed" 400
                | Some x => revoke_presented ev rev jws embedded x reason
                end
            end
        | _ => raise NotAnObject
        end
    | Ok _, _ => raise NotAnObject
    end.

Definition revoke_cert (ev : AcmeJws.env) (rev : Revocations.env) (body : json) : M world exc answer :=
  try_ (revoke_body_of ev rev body) (fun _ => refuse ev "serverInternal" 500).
End Handler.
