(* ===== verification/AcmeRevokeSafety.v ===== *)
(** * AcmeRevokeSafety: who may revoke a certificate over ACME, and what it does

    A request revokes at most the certificate it presents, and only when the account that
    ordered it or its own key signed the request and no policy holds revocations for
    approval; the effect is that of the revocation service, whole or none. *)

From Stdlib Require Import Ascii String.
From stdpp Require Import prelude strings gmap.
From S2P Require Import Prelude Scalars Serials Json Session Policies AcmeNonces AcmeJws AcmeAccounts AcmeAccountSafety RevocationModel Revocations IssuedLookup OcspStatus CrlContents RevocationSafety RevocationEffects AcmeRevoke.

Local Open Scope string_scope.
Local Open Scope Z_scope.

(** ** The revocation service saves what it writes *)

Section Saved.
Context {X : X509}.

Lemma tidy_attempt {A} (c : Revocations.Act A) : tidy c -> tidy (attempt c).
Proof. intros H. unfold attempt. tidy_walk. Qed.
Lemma tidy_invalidate_ca_caches l : tidy (invalidate_ca_caches l).
Proof. induction l; cbn; unfold invalidate_ca_cache; tidy_walk. Qed.
Lemma tidy_invalidate_cached s i : tidy (invalidate_cached_responses s i).
Proof. unfold invalidate_cached_responses. tidy_walk. Qed.
#[local] Hint Resolve tidy_attempt tidy_invalidate_ca_caches tidy_invalidate_cached : session.
Lemma tidy_delete_all ev l : tidy (delete_all ev l).
Proof. induction l; cbn; unfold delete_certificate; tidy_walk. Qed.
#[local] Hint Resolve tidy_delete_all : session.
Lemma tidy_generate_crl ev i days : tidy (generate_crl ev i days).
Proof.
  unfold generate_crl, _run_housekeeping, purge_expired_revoked_certificates, purge_stale_revoked_serials, store_crl. tidy_walk.
Qed.
#[local] Hint Resolve tidy_generate_crl : session.
Lemma tidy_after ev c ca : tidy (after_revocation ev c ca).
Proof. unfold after_revocation. tidy_walk. Qed.
Lemma tidy_hand_over ev i : tidy (hand_over ev i).
Proof. unfold hand_over. tidy_walk. Qed.
Lemma tidy_restore i x : tidy (_restore_revocation_state i x).
Proof. unfold _restore_revocation_state. tidy_walk. Qed.
#[local] Hint Resolve tidy_after tidy_hand_over tidy_restore : session.
(* it stages, or rolls back and raises *)
Lemma stage_raises ev c ca reason iv (w w' : session RevocationModel.db) e :
  stage_revocation ev c ca reason iv w = (Raise e, w') -> saved w'.
Proof.
  unfold stage_revocation, mbind, M_bind, modify, rollback, raise. cbn. repeat case_match; by intros [= <- <-].
Qed.
Lemma tidy_revoke_alone ev i reason iv : tidy (revoke_alone ev i reason iv).
Proof.
  unfold revoke_alone, revoke_body. apply tidy_bind; [|tidy_walk]. apply tidy_bind; [tidy_walk|intros [c|]; [|tidy_walk]].
  destruct (revoked (c_rev c)); [tidy_walk|]. apply tidy_bind; [tidy_walk|intros ca].
  apply tidy_bind_cleans; [by intros w e w' _ H; eapply stage_raises|]. intros []. tidy_walk.
Qed.
End Saved.

Section Safety.
Context {J : Jose} {X : X509} {O : X509Objects} {R : RevokeLibrary}.

(* what a request must show to revoke the certificate of row [c] *)
Record allowed (w : world) (ev : AcmeJws.env) (body : json) (c : Certificate) (reason : Z) : Prop := {
  al_request : exists jws payload embedded account key x,
    body = JObj jws /\ authentic (acme w) ev body (JObj payload) embedded account key
    /\ presented payload = Some x /\ reason_of_payload payload = Some reason
    /\ head (find_stored_rows (ca_db w) x) = Some c
    /\ ((exists a, account = Some a /\ status a = "valid" /\ (account_id a, c_id c) ∈ order_certs (acme w))
        \/ exists k, embedded = Some (JObj k) /\ key = JObj k /\ is_Some (x_spki x) /\ jwk_spki k = x_spki x);
  al_current : revoked (c_rev c) = false;
  al_policy : revocation_policy_for w c = Ok None;
}.

(* the tables the decision reads *)
Definition frame (w0 w : world) : Prop :=
  ca_db w = ca_db w0 /\ policies w = policies w0 /\ order_certs (acme w) = order_certs (acme w0).

(* how a call may end: nothing revoked and not said to be, or the revocation it was allowed *)
Definition ends (w0 : world) (ev : AcmeJws.env) (rev : Revocations.env) (body : json)
    (out : result exc answer * session world) : Prop :=
  (held (fun w => ca_db w = ca_db w0) out.2 /\ out.1 <> Ok Revoked200)
  \/ exists c reason o d', allowed w0 ev body c reason
      /\ run (revoke_certificate rev (c_id c) (reason_name reason) None false) o (ca_db w0) = (Ok tt, d')
      /\ held (fun w => ca_db w = d') out.2.

(** ** Calls that leave the certificates alone *)

Lemma keeps_acme {A} d (c : AcmeJws.Act A) : maintains (fun w => ca_db w = d) (on_acme c).
Proof. intros w [H1 H2]. unfold on_acme, zoom. destruct (c _) as [r w']. by split. Qed.
Lemma keeps_audit d i b : maintains (fun w => ca_db w = d) (_audit_acme i b).
Proof. unfold _audit_acme. session_walk. Qed.
#[local] Hint Resolve keeps_acme keeps_audit : session.

Definition harmless (c : M world exc answer) : Prop :=
  (forall d, maintains (fun w => ca_db w = d) c) /\ forall w, (c w).1 <> Ok Revoked200.

Lemma harmless_respond ev a : a <> Revoked200 -> harmless (respond_with ev a).
Proof.
  intros Ha. split; [intros d; apply keeps_acme|]. intros w. unfold respond_with, on_acme, zoom.
  destruct (respond ev a _) as [[r|e] w'] eqn:E; [|done]. cbn. apply account_respond_ok in E as [-> _]. congruence.
Qed.
Lemma harmless_refuse ev t st : harmless (refuse ev t st).
Proof. by apply harmless_respond. Qed.
Lemma harmless_raise e : harmless (raise e).
Proof. split; [intros d; apply maintains_raise|done]. Qed.
Lemma harmless_bind {A} (c : M world exc A) k : (forall d, maintains (fun w => ca_db w = d) c) -> (forall a, harmless (k a)) ->
  harmless (mbind k c).
Proof.
  intros Hc Hk. split; [intros d; apply maintains_bind; [done|intros a; apply Hk]|].
  intros w. unfold mbind, M_bind. destruct (c w) as [[a|e] w']; [apply Hk|done].
Qed.
Lemma harmless_ends w0 ev rev body c w : harmless c -> held (frame w0) w -> ends w0 ev rev body (c w).
Proof. intros [H1 H2] [[E1 _] [E2 _]]. left. split; [by apply H1|apply H2]. Qed.
#[local] Hint Resolve harmless_refuse harmless_raise : session.

(** ** The revocation *)

Lemma policy_frame w0 w c : frame w0 w -> revocation_policy_for w c = revocation_policy_for w0 c.
Proof. intros (E1 & E2 & _). unfold revocation_policy_for. by rewrite E1, E2. Qed.

Lemma found_ends w0 ev rev body c reason w : held (frame w0) w ->
  (revocation_policy_for w0 c = Ok None -> allowed w0 ev body c reason) -> ends w0 ev rev body (revoke_found ev rev c reason w).
Proof.
  intros Hw Hal. unfold revoke_found. rewrite bind_gets, (policy_frame w0) by apply Hw.
  destruct (revocation_policy_for w0 c) as [[p|]|e];
    [|specialize (Hal eq_refl)|apply harmless_ends; auto with session];
    [apply harmless_ends; [apply harmless_bind; auto with session|done]|].
  destruct Hw as [[Ec _] [Ew _]].
  unfold mbind at 1, M_bind at 1, try_, mbind at 1, M_bind at 1. unfold on_ca at 1, zoom at 1. rewrite Ec, Ew.
  destruct (revoke_certificate _ _ _ _ _ _) as [[[]|e] ws] eqn:E; cbv [mret M_ret].
  - right. exists c, reason, (commits w), (committed ws). split; [done|]. split; [unfold run; by rewrite E|].
    pose proof (tidy_revoke_alone rev (c_id c) (reason_name reason) None (Session (ca_db w0) (ca_db w0) (commits w)) eq_refl) as Ht.
    change (revoke_alone rev (c_id c) (reason_name reason) None (Session (ca_db w0) (ca_db w0) (commits w)))
      with (revoke_certificate rev (c_id c) (reason_name reason) None false (Session (ca_db w0) (ca_db w0) (commits w))) in Ht.
    rewrite E in Ht. apply (maintains_bind (fun w => ca_db w = committed ws)); [apply keeps_audit|intros []; apply keeps_acme|].
    by split.
  - left. pose proof (revocation_failed _ _ _ _ _ _ _ _ _ E) as Hf.
    assert (harmless (_ ← rollback; _ ← _audit_acme (c_id c) false; refuse ev "serverInternal" 500)) as [_ H2]
      by (apply harmless_bind; [intros d; apply maintains_rollback|intros []; apply harmless_bind; auto with session]).
    split; [|apply H2]. unfold mbind at 1, M_bind at 1, rollback. cbn [committed].
    apply (maintains_bind (fun w => ca_db w = ca_db w0)); [apply keeps_audit|intros []; apply keeps_acme|]. by split.
Qed.

Lemma owns_order d ev jws payload embedded account key i cert_id :
  authentic d ev (JObj jws) payload embedded account key -> _account_id_from_jws jws = Some i ->
  owns d (Some i) cert_id = true ->
  exists a, account = Some a /\ status a = "valid" /\ (account_id a, cert_id) ∈ order_certs d.
Proof.
  intros Ha Hi Ho. destruct (named_account _ _ _ _ _ _ _ _ Ha Hi) as (_ & a & -> & _ & Hf & Hs). exists a.
  unfold owns in Ho. apply bool_decide_eq_true in Ho.
  apply List.find_some in Hf as [_ <-%String.eqb_eq]. done.
Qed.

Lemma possesses_key embedded x : possesses embedded x = true ->
  exists k, embedded = Some (JObj k) /\ is_Some (x_spki x) /\ jwk_spki k = x_spki x.
Proof.
  unfold possesses. destruct embedded as [[| | | | | |k]|]; try done. destruct (dget k "kty") as [[]|]; try done.
  intros [_ H]%andb_true_iff. exists k. destruct (jwk_spki k) as [a|], (x_spki x) as [b|]; try done.
  apply String.eqb_eq in H as ->. eauto.
Qed.

Lemma embedded_key d ev body payload embedded account key k :
  authentic d ev body payload embedded account key -> embedded = Some k -> key = k.
Proof. intros [(? & ? & ? & ? & ? & _ & _ & _ & _ & _ & _ & _ & Hk & _)] ->. by destruct Hk as (_ & _ & -> & _). Qed.

Lemma presented_ends w0 ev rev jws payload embedded account key x reason w : held (frame w0) w ->
  authentic (acme w0) ev (JObj jws) (JObj payload) embedded account key -> presented payload = Some x ->
  reason_of_payload payload = Some reason ->
  ends w0 ev rev (JObj jws) (revoke_presented ev rev jws embedded x reason w).
Proof.
  intros Hw Ha Hx Hr. unfold revoke_presented. rewrite bind_gets.
  destruct Hw as [Hwc Hww]. pose proof Hww as (Ec & _ & Eo). rewrite Ec.
  destruct (find_stored_rows (ca_db w0) x) as [|c l] eqn:El; [by apply harmless_ends; auto with session|].
  destruct (revoked (c_rev c)) eqn:Hc; [by apply harmless_ends; auto with session|]. rewrite bind_gets.
  destruct (_ || _) eqn:Hauth; cbn [negb]; [|by apply harmless_ends; [apply harmless_bind; auto with session|]].
  apply found_ends; [done|]. intros Hp. split; [|done|done].
  exists jws, payload, embedded, account, key, x. split_and!; try done; [by rewrite El|].
  apply orb_true_iff in Hauth as [Ho|Hk].
  - left. unfold owns in Ho. destruct (_account_id_from_jws jws) as [i|] eqn:Hi; [|done].
    eapply owns_order; [done|done|]. unfold owns. by rewrite <- Eo.
  - right. apply possesses_key in Hk as (k & -> & H1 & H2). exists k. split_and!; try done. by eapply embedded_key.
Qed.

Lemma verify_frame w0 ev body l r w : on_acme (verify_jws ev body) (Session w0 w0 l) = (r, w) ->
  held (frame w0) w /\ forall payload embedded account, r = Ok (Ok (payload, embedded, account)) ->
    exists key, authentic (acme w0) ev body payload embedded account key.
Proof.
  unfold on_acme, zoom. cbn [committed working commits].
  destruct (verify_jws ev body _) as [q w'] eqn:E. intros [= <- <-].
  pose proof (maintains_verify (fun d => order_certs d = order_certs (acme w0)) ev body ltac:(done)
    (Session (acme w0) (acme w0) l) ltac:(done)) as [H1 H2]. rewrite E in H1, H2. split; [by split; split_and!|].
  intros payload embedded account. destruct q as [q|e]; [|done]. intros [= ->].
  by apply verify_jws_authentic in E as [key Hk]; exists key.
Qed.

Lemma body_ends w0 ev rev body l : ends w0 ev rev body (revoke_body_of ev rev body (Session w0 w0 l)).
Proof.
  assert (held (frame w0) (Session w0 w0 l)) as H0 by (by split; split_and!).
  unfold revoke_body_of. destruct (truth body); cbn [negb]; [|by apply harmless_ends; auto with session].
  unfold mbind at 1, M_bind at 1. destruct (on_acme (verify_jws ev body) (Session w0 w0 l)) as [q w] eqn:E.
  destruct (verify_frame w0 ev body l q w E) as [Hw Ha].
  destruct q as [[[[payload embedded] account]|e]|e].
  - destruct (Ha payload embedded account eq_refl) as [key Hk].
    destruct body as [| | | | | |jws]; try by apply harmless_ends; auto with session.
    destruct (truth payload); cbn [negb]; [|by apply harmless_ends; auto with session].
    destruct payload as [| | | | | |o]; try by apply harmless_ends; auto with session.
    destruct (negb _); [by apply harmless_ends; auto with session|].
    destruct (reason_of_payload o) as [reason|] eqn:Er; [|by apply harmless_ends; auto with session].
    destruct (presented o) as [x|] eqn:Ex; [|by apply harmless_ends; auto with session].
    by eapply presented_ends.
  - by apply harmless_ends; [apply harmless_respond|].
  - left. split; [|done]. by split; apply Hw.
Qed.

Lemma cert_ends w0 ev rev body l : ends w0 ev rev body (revoke_cert ev rev body (Session w0 w0 l)).
Proof.
  unfold revoke_cert, try_. pose proof (body_ends w0 ev rev body l) as H.
  destruct (revoke_body_of _ _ _ _) as [[a|e] w]; [done|]. pose proof (harmless_refuse ev "serverInternal" 500) as [H1 H2].
  destruct H as [[H _]|(c & reason & o & d' & Hal & Hrun & H)].
  - left. split; [by apply H1|apply H2].
  - right. exists c, reason, o, d'. split; [done|split; [done|by apply H1]].
Qed.

(** C15. Revoking over ACME: whatever is sent and whichever commits fail, either no table of
    certificates, revocations, CRLs or answers changes and the request is not answered as
    done, or the request was signed as it must be, presents a stored certificate byte for
    byte, is signed by the account that ordered it or by its own key, no policy holds the
    revocation for approval, and the tables are those the revocation service leaves when it
    revokes that one certificate for the reason asked. *)
Theorem acme_revocation_authorized (w w1 : world) (ev : AcmeJws.env) (rev : Revocations.env) (body : json)
    (outcomes : list bool) (r : result exc answer)
  (Hrun : run (revoke_cert ev rev body) outcomes w = (r, w1)) :
  (ca_db w1 = ca_db w /\ r <> Ok Revoked200)
  \/ exists c reason o, allowed w ev body c reason
      /\ run (revoke_certificate rev (c_id c) (reason_name reason) None false) o (ca_db w) = (Ok tt, ca_db w1).
Proof.
  unfold run in Hrun. pose proof (cert_ends w ev rev body outcomes) as H. destruct (revoke_cert _ _ _ _) as [r' w'].
  injection Hrun as -> <-. destruct H as [[[H _] Hr]|(c & reason & o & d' & Hal & Hd & [<- _])]; [by left|].
  right. by exists c, reason, o.
Qed.
End Safety.
