(* ===== verification/AcmeRevokeExamples.v ===== *)
(** * AcmeRevokeExamples: revocation requests on concrete tables

    An account that ordered the certificate of [RevocationExamples], and requests to revoke it. *)

From Stdlib Require Import Ascii String.
From stdpp Require Import prelude strings gmap.
From S2P Require Import Prelude Scalars Serials Json Session Policies AcmeNonces AcmeJws AcmeAccounts AcmeAccountSafety RevocationModel Revocations IssuedLookup OcspStatus CrlContents RevocationSafety RevocationExamples AcmeRevoke AcmeRevokeSafety.

Local Open Scope string_scope.
Local Open Scope Z_scope.

Module Requests.
Import RevocationExamples.Sample.

Definition url : string := "https://ca/acme/revoke-cert".
Definition key (n : string) : obj := [("kty", JStr "RSA"); ("n", JStr n); ("e", JStr "AQAB")].
Definition header (k : string * json) : json :=
  JObj [("alg", JStr "RS256"); ("url", JStr url); ("nonce", JStr "n1"); k].
Definition payload (reason : Z) : obj := [("certificate", JStr "LEAF"); ("reason", JInt reason)].
Definition texts : list (string * json) :=
  [("by-account", header ("kid", JStr "https://ca/acme/acct/a1"));
   ("by-other", header ("kid", JStr "https://ca/acme/acct/a2"));
   ("by-key", header ("jwk", JObj (key "LEAF")));
   ("compromise", JObj (payload 1)); ("remove", JObj (payload 8)); ("seven", JObj (payload 7))].

Definition n_of (o : obj) : string := match member o "n" with Some (JStr s) => s | _ => "" end.
#[export] Instance jose : Jose := {|
  decode := fun t => if (t =? "")%string then EmptyText else match dict_get texts t with Some v => Value v | None => NotText end;
  jwk_loads := fun o => nonempty (n_of o);
  signature_valid := fun _ o _ sig => (sig =? "sig:" ++ n_of o)%string;
  canonical_digest := n_of;
  hmac_signature := fun _ _ _ => None;
|}.
#[export] Instance library : RevokeLibrary := {|
  urlsafe_b64decode := Some; jwk_spki := fun o => Some ("key of " ++ n_of o);
  certificate_identity := fun _ => Some (Some "leaf", []);
|}.

Definition account_of (i n : string) : AcmeAccount :=
  {| account_id := i; jwk := JObj (key n); jwk_thumbprint_col := n; contact := None; status := "valid";
     terms_of_service_agreed := true |}.
Definition nonce : AcmeNonce := {| token := "n1"; expires_at := AcmeNonces.hour_us; used := false; used_at := None |}.
Definition accounts_of : AcmeJws.db :=
  {| accounts := [account_of "a1" "one"; account_of "a2" "two"]; credentials := []; nonces := [nonce];
     order_certs := [("a1", 10)] |}.
Definition here (d : RevocationModel.db) : world := {| acme := accounts_of; ca_db := d; policies := []; log := [] |}.
Definition request_ev : AcmeJws.env :=
  {| AcmeJws.now := 1; expected_urls := [url]; AcmeJws.fresh_id := "x"; fresh_nonce := "r1"; eab_setting := None |}.
Definition jws (h p s : string) : json := JObj [("protected", JStr h); ("payload", JStr p); ("signature", JStr s)].

(* the account that ordered it and the key of the certificate may; another account may not *)
Example who_may_revoke :
  (run (revoke_cert request_ev ev (jws "by-account" "compromise" "sig:one")) [] (here d0)).1 = Ok Revoked200
  /\ (run (revoke_cert request_ev ev (jws "by-key" "compromise" "sig:LEAF")) [] (here d0)).1 = Ok Revoked200
  /\ run (revoke_cert request_ev ev (jws "by-other" "compromise" "sig:two")) [] (here d0)
     = (Ok (NotRevoked "unauthorized" 403),
        (run (revoke_cert request_ev ev (jws "by-other" "compromise" "sig:two")) [] (here d0)).2)
  /\ (run (revoke_cert request_ev ev (jws "by-account" "compromise" "sig:one")) [] (here d_revoked)).1
     = Ok (NotRevoked "alreadyRevoked" 400)
  /\ (run (revoke_cert request_ev ev (jws "by-account" "seven" "sig:one")) [] (here d0)).1
     = Ok (NotRevoked "badRevocationReason" 400).
Proof. repeat split; by vm_compute. Qed.

(* the commit of the revocation fails: the refusal is audited and revokes nothing *)
Example failed_commit_audited :
  let '(r, w) := run (revoke_cert request_ev ev (jws "by-account" "compromise" "sig:one")) [true; false; false] (here d0) in
  r = Ok (NotRevoked "serverInternal" 500) /\ ca_db w = d0 /\ log w = [{| ae_certificate := 10; ae_success := false |}].
Proof. by vm_compute. Qed.

Lemma acme_revocation_witness :
  let w1 := (run (revoke_cert request_ev ev (jws "by-account" "compromise" "sig:one")) [] (here d0)).2 in
  (ca_db w1 = d0 /\ Ok (E := exc) Revoked200 <> Ok Revoked200)
  \/ exists c reason o, allowed (here d0) request_ev (jws "by-account" "compromise" "sig:one") c reason
      /\ run (revoke_certificate ev (c_id c) (reason_name reason) None false) o d0 = (Ok tt, ca_db w1).
Proof.
  apply (acme_revocation_authorized (here d0) _ request_ev ev (jws "by-account" "compromise" "sig:one") [] (Ok Revoked200)).
  by vm_compute.
Defined.

(* removeFromCRL, which lifts a hold, is taken for a reason to revoke; when the full CRL cannot
   be signed at that moment the next delta tells relying parties to drop the certificate *)
Definition base_crl : CRLMetadata :=
  {| m_ca := 1; m_number := 1; m_this_update := 50; m_next_update := 4000; m_entries := []; m_delta := false;
     m_base := None; m_external := false |}.
Definition key_away : Revocations.env := {| now := 100; can_sign := fun _ => false |}.
Definition d_base : RevocationModel.db := with_crls (fun _ => [base_crl]) d0.
Lemma revoked_as_removed :
  let '(r, w) := run (revoke_cert request_ev key_away (jws "by-account" "remove" "sig:one")) [] (here d_base) in
  r = Ok Revoked200 /\ normalize_revocation_reason (VStr "removeFromCRL") = None
  /\ ((fun c => (revoked (c_rev c), revoke_reason (c_rev c))) <$> certs (ca_db w)) = [(true, Some "removeFromCRL")]
  /\ delta_entries (ca_db w) root 50 200
     = [{| e_serial := 171; e_date := 100; e_reason := Some remove_from_crl; e_invalidity := None |}].
Proof. by vm_compute. Qed.
End Requests.
