(* ===== verification/ScepService.v ===== *)
(** * ScepService: SCEP enrolment

    Models [backend/services/scep/scep_service.py]: the handling of a message
    ([process_pkcs_req] and the handlers of the message types), the issuing of a request
    ([_auto_approve_request]), its approval and rejection, and the routes of
    [backend/api/v2/scep.py] through which an operator decides, over the request and profile
    tables of [backend/models/scep.py] and the certificates of [RevocationModel]. CMS messages,
    requests and certificates are read by libraries: the class [ScepLibrary]. What signing
    and the policies answer, and Intune, are arguments of a call. Texts of failures, nonces and
    the encryption of answers are not modelled. *)

From Stdlib Require Import Ascii String.
From stdpp Require Import prelude strings gmap.
From S2P Require Import Prelude Scalars Serials Session RevocationModel Revocations IssuedLookup CaChain.

Local Open Scope string_scope.
Local Open Scope Z_scope.

(** ** Tables *)

Inductive request_status := Pending | Approved | Rejected.
#[export] Instance request_status_eq_dec : EqDecision request_status. Proof. solve_decision. Defined.

Record SCEPRequest := {
  r_id : Z;
  r_transaction : string;
  r_ca : string;
  r_csr : string;
  r_status : request_status;
  r_approved_by : option string;
  r_cert : option string;            (* refid of the certificate *)
  r_profile : option Z;
  r_renewal_of : option string;
}.
Record ScepProfile := {
  p_id : Z;
  p_url_slug : string;
  p_enabled : bool;
  p_ca : string;
  p_template : option Z;
  p_challenge : string;                                    (* decrypted; empty: none *)
  p_generated_at : option Z;
  p_auto_approve : bool;
  p_intune_enabled : bool;
  p_intune_app : option (string * string * string);        (* tenant, client, secret *)
}.

Record db := {
  core : RevocationModel.db;
  requests : list SCEPRequest;
  profiles : list ScepProfile;
  templates : list Z;
  stamps : list (Z * option Z);      (* scep_challenge_<id>_generated_at, read; None: unreadable *)
}.
Definition with_core (f : RevocationModel.db -> RevocationModel.db) (d : db) : db :=
  {| core := f (core d); requests := requests d; profiles := profiles d; templates := templates d; stamps := stamps d |}.
Definition with_requests (f : list SCEPRequest -> list SCEPRequest) (d : db) : db :=
  {| core := core d; requests := f (requests d); profiles := profiles d; templates := templates d; stamps := stamps d |}.

(** ** Messages *)

Definition MSG_TYPE_RENEWAL_REQ : Z := 17.
Definition MSG_TYPE_PKI_REQ : Z := 19.
Definition MSG_TYPE_GET_CERT_INITIAL : Z := 20.
Definition MSG_TYPE_GET_CERT : Z := 21.
Definition MSG_TYPE_GET_CRL : Z := 22.

Definition FAIL_BAD_ALG : Z := 0.
Definition FAIL_BAD_MESSAGE_CHECK : Z := 1.
Definition FAIL_BAD_REQUEST : Z := 2.
Definition FAIL_BAD_TIME : Z := 3.
Definition FAIL_BAD_CERT_ID : Z := 4.

Inductive cms_signature := SignatureValid | SignatureInvalid | SignatureMalformed.
Inductive envelope := Decrypted (content : string) | FipsRefused | NotDecrypted.

Record pki_message := {
  g_signed_data : bool;
  g_transaction : string;
  g_type : option Z;
  g_challenge : option string;
  g_signing_time : option Z;
  g_data : bool;                     (* the encapsulated content type *)
  g_signer : option x509_object;
  g_signature : cms_signature;
  g_envelope : envelope;
}.

Record csr_object := {
  q_request : x509_request;
  q_spki : string;
  q_key_refused : bool;              (* validate_enrollment_csr *)
  q_self_signed : bool;              (* is_signature_valid *)
  q_challenge : option string;       (* the challengePassword attribute *)
}.

Inductive key_problem := KeyRestricted | KeyUnusable.     (* FipsRestricted; any other ValueError *)
Class ScepLibrary := {
  load_key : CA -> option key_problem;                    (* of the stored private key; None: loads *)
  uses_hsm : CA -> bool;                                  (* hsm_key_id *)
  rsa_ca : CA -> bool;                                    (* key_type starts with RSA *)
  parse_message : string -> option pki_message;           (* None: raises *)
  load_csr : string -> option csr_object;                 (* DER *)
  rsa_key : x509_object -> bool;
  pem_of : x509_object -> string;                         (* base64 of its PEM: the column *)
  issuer_and_serial : string -> option (string * Z);
}.

(** ** The service of an endpoint *)

Record service := {
  v_ca : CA;
  v_ca_pem : string;
  v_challenge : option string;
  v_auto_approve : bool;
  v_challenge_expired : bool;
  v_template : option Z;
  v_intune : bool;
  v_profile : option Z;
}.

(* ValueError, PolicyViolation, anything else *)
Inductive exc := Refusal | Violation | Fault.

(* what a message meets *)
Record env := {
  now : Z;
  client_name : string;
  allow_no_challenge : bool;                  (* UCM_SCEP_ALLOW_NO_CHALLENGE *)
  intune_accepts : bool;                      (* ValidateRequest *)
  intune_notified : bool;                     (* the success notification went through *)
  policy_refuses : csr_object -> bool;        (* _policy_signing_hash reports violations *)
  signs : csr_object -> result exc Certificate;   (* the signed certificate's row, or what refuses to sign it *)
  file_written : bool;
  crl_env : Revocations.env;
}.

Inductive reply := Failure (info : Z) | PendingReply | CertReply (crt : string) | CrlReply (number : Z).
Abbreviation Act := (M db exc).

Definition text_given (o : option string) : bool := match o with Some s => nonempty s | None => false end.

(* SystemConfig *)
Definition _config_value (d : db) (key : string) : option string :=
  match dict_get (settings (core d)) key with Some (Some v) => Some v | _ => None end.
Definition _config_flag (d : db) (key : string) : bool :=
  match _config_value d key with Some v => (lower v =? "true")%string | None => false end.
Definition _config_int (d : db) (key : string) (default_ lo hi : Z) : Z :=
  match _config_value d key ≫= py_int 10 with Some v => Z.max lo (Z.min hi v) | None => default_ end.

Definition minute_us : Z := 60000000.
Definition find_request (d : db) (transaction ca : string) : option SCEPRequest :=
  List.find (fun r => (r_transaction r =? transaction)%string && (r_ca r =? ca)%string) (requests d).
Definition cert_by_refid (d : db) (refid : string) : option Certificate :=
  List.find (fun c => (c_refid c =? refid)%string) (certs (core d)).
Definition next_request_id (l : list SCEPRequest) : Z := 1 + fold_left Z.max (r_id <$> l) 0.

(* a call on the certificates that neither commits nor rolls back *)
Definition on_core {A} (c : Revocations.Act A) : Act A := fun w =>
  let '(r, w') := c (Session (core (committed w)) (core (working w)) (commits w)) in
  (match r with Ok a => Ok a | Raise _ => Raise Fault end,
   Session (committed w) (with_core (fun _ => working w') (working w)) (commits w)).

Section Scep.
Context `{!X509} `{!X509Objects} `{!ScepLibrary}.

(** ** Issuing *)

Definition in_window (x : x509_object) (t : Z) : bool := negb (t <? x_not_before x) && negb (x_not_after x <=? t).

(* of a RenewalReq: the renewed certificate is archived in the same transaction *)
Definition archive_renewed (ca : CA) (x : x509_object) : Act unit :=
  rows ← gets (fun d => find_issued_rows (core d) ca x);
  match rows with
  | [] => mret tt
  | _ =>
      match List.find (fun c => negb (c_archived c)) rows with
      | None => raise Refusal
      | Some live => claimed ← on_core (_claim_superseded live); if claimed : bool then mret tt else raise Refusal
      end
  end.

(* the refid of the certificate *)
Definition _auto_approve_request (ev : env) (sv : service) (csr : csr_object) (renewal_of : option x509_object) : Act string :=
  if a_offline (v_ca sv) then raise Refusal
  else
    cut_off ← gets (fun d => revoked_in_chain (core d) (v_ca sv));
    if cut_off : bool then raise Refusal
    else if negb (match load_stored (v_ca_pem sv) with Some x => in_window x (now ev) | None => false end) then raise Refusal
    else
      renewed_revoked ← gets (fun d => match renewal_of with
                                       | Some x => bool_decide ((issued_certificate_status (core d) (v_ca sv) x (now ev)).2 = REVOKED)
                                       | None => false
                                       end);
      if renewed_revoked : bool then raise Refusal
      else if policy_refuses ev csr then raise Violation
      else match signs ev csr with
      | Raise e => raise e
      | Ok new =>
          _ ← modify (with_core (with_certs (fun l => l ++ [new])%list));
          _ ← match renewal_of with Some x => archive_renewed (v_ca sv) x | None => mret tt end;
          if file_written ev then mret (c_refid new) else raise Fault
      end.

(** ** Answers on a transaction that is known *)

Definition answer_for (d : db) (r : SCEPRequest) : result exc reply :=
  match r_status r, r_cert r with
  | Approved, Some refid =>
      match (if nonempty refid then cert_by_refid d refid else None) with
      | Some c => match c_crt c ≫= load_stored with Some _ => Ok (CertReply (default "" (c_crt c))) | None => Raise Fault end
      | None => Ok PendingReply
      end
  | Rejected, _ => Ok (Failure FAIL_BAD_REQUEST)
  | _, _ => Ok PendingReply
  end.
Definition _status_for_existing (r : SCEPRequest) : Act reply :=
  answer ← gets (fun d => answer_for d r);
  match answer with Ok a => mret a | Raise e => raise e end.

Definition _handle_get_cert_initial (sv : service) (transaction : string) : Act reply :=
  existing ← gets (fun d => find_request d transaction (a_refid (v_ca sv)));
  match existing with
  | None => mret (Failure FAIL_BAD_CERT_ID)
  | Some r => _status_for_existing r
  end.

Definition serial_candidates (n : Z) : list string :=
  let hex := py_hex n in
  [format_Z 10 false n; hex; format_Z 16 true n; "0x" ++ hex; "0X" ++ format_Z 16 true n].

Definition _handle_get_cert (sv : service) (content : string) : Act reply :=
  match issuer_and_serial content with
  | None => mret (Failure FAIL_BAD_REQUEST)
  | Some (issuer, n) =>
      if negb (issuer =? cert_subject (v_ca_pem sv))%string then mret (Failure FAIL_BAD_CERT_ID)
      else
        found ← gets (fun d => List.find (fun c => bool_decide (c_caref c = Some (a_refid (v_ca sv)))
                      && opt_in (c_serial c) (serial_candidates n)
                      && match c_crt c with
                         | Some pem => bool_decide (cert_serial pem = Some n)
                                       && (cert_issuer pem =? cert_subject (v_ca_pem sv))%string
                         | None => false
                         end) (certs (core d)));
        match found with
        | Some c => mret (CertReply (default "" (c_crt c)))
        | None => mret (Failure FAIL_BAD_CERT_ID)
        end
  end.

Definition put_core (c : RevocationModel.db) : db -> db := with_core (fun _ => c).
Definition crl_number (ev : env) (ca_id : Z) : Act Z :=
  latest ← gets (fun d => get_latest_crl (core d) ca_id);
  match latest with
  | Some m => if now ev <=? m_next_update m then mret (m_number m)
              else m' ← zoom core put_core (fun _ => Fault) (generate_crl (crl_env ev) ca_id None); mret (m_number m')
  | None => m' ← zoom core put_core (fun _ => Fault) (generate_crl (crl_env ev) ca_id None); mret (m_number m')
  end.
Definition _handle_get_crl (ev : env) (sv : service) (content : string) : Act reply :=
  match issuer_and_serial content with
  | None => mret (Failure FAIL_BAD_REQUEST)
  | Some (issuer, _) =>
      if negb (issuer =? cert_subject (v_ca_pem sv))%string then mret (Failure FAIL_BAD_CERT_ID)
      else try_ (n ← crl_number ev (a_id (v_ca sv)); mret (CrlReply n)) (fun _ => mret (Failure FAIL_BAD_CERT_ID))
  end.

(* the stored CSR is the transaction's key; unreadable, it is taken for the same *)
Definition _same_key_as_existing (r : SCEPRequest) (csr : csr_object) : bool :=
  match load_csr (r_csr r) with Some stored => (q_spki stored =? q_spki csr)%string | None => true end.

(** ** A message *)

Definition renewal (g : pki_message) : bool := bool_decide (g_type g = Some MSG_TYPE_RENEWAL_REQ).

(* the checks of the signed message, up to its envelope: the signer, the type and the content *)
Definition read_message (ev : env) (d : db) (g : pki_message) : result Z (x509_object * Z * string) :=
  if negb (g_signed_data g) then Raise FAIL_BAD_REQUEST
  else if negb (g_data g) then Raise FAIL_BAD_MESSAGE_CHECK
  else match g_signer g with
  | None => Raise FAIL_BAD_MESSAGE_CHECK
  | Some signer =>
      match g_signature g with
      | SignatureInvalid => Raise FAIL_BAD_MESSAGE_CHECK
      | SignatureMalformed => Raise FAIL_BAD_ALG
      | SignatureValid =>
          if negb (nonempty (g_transaction g)) then Raise FAIL_BAD_REQUEST
          else
            let enforce := _config_flag d "scep_enforce_signing_time" in
            let skewed := match g_signing_time g with
                          | Some t => minute_us * _config_int d "scep_time_skew_minutes" 10 1 1440 <? Z.abs (now ev - t)
                          | None => true
                          end in
            if enforce && skewed then Raise FAIL_BAD_TIME
            else match g_type g with
            | Some t =>
                if negb (existsb (Z.eqb t) [MSG_TYPE_PKI_REQ; MSG_TYPE_RENEWAL_REQ; MSG_TYPE_GET_CERT_INITIAL;
                                            MSG_TYPE_GET_CERT; MSG_TYPE_GET_CRL]) then Raise FAIL_BAD_REQUEST
                else match g_envelope g with
                | FipsRefused => Raise FAIL_BAD_ALG
                | NotDecrypted => Raise FAIL_BAD_MESSAGE_CHECK
                | Decrypted content => Ok (signer, t, content)
                end
            | None => Raise FAIL_BAD_REQUEST
            end
      end
  end.

(* the challenge of a request: the message's, else the one of the CSR *)
Definition challenge_of (g : pki_message) (csr : csr_object) : option string :=
  if text_given (g_challenge g) then g_challenge g
  else match q_challenge csr with Some c => Some c | None => g_challenge g end.

(* an error, or None when the requester may enrol (steps 5 to 8) *)
Definition refused_enrolment (ev : env) (sv : service) (d : db) (g : pki_message) (signer : x509_object) (csr : csr_object)
    : option Z :=
  let challenge := challenge_of g csr in
  if q_key_refused csr then Some FAIL_BAD_REQUEST
  else if negb (q_self_signed csr) then Some FAIL_BAD_MESSAGE_CHECK
  else if policy_refuses ev csr then Some FAIL_BAD_REQUEST
  else if negb (rsa_key signer) && negb (text_given challenge) then Some FAIL_BAD_MESSAGE_CHECK
  else if v_intune sv && negb (intune_accepts ev) then Some FAIL_BAD_MESSAGE_CHECK
  else if negb (v_intune sv) && v_challenge_expired sv && negb (renewal g) then Some FAIL_BAD_MESSAGE_CHECK
  else if negb (v_intune sv) && text_given (v_challenge sv)
          && negb (text_given challenge && bool_decide (challenge = v_challenge sv)) then Some FAIL_BAD_MESSAGE_CHECK
  else if negb (renewal g) && v_auto_approve sv && negb (text_given (v_challenge sv)) && negb (v_intune sv)
          && negb (allow_no_challenge ev) then Some FAIL_BAD_MESSAGE_CHECK
  else if renewal g && bool_decide (is_Some (_validate_renewal (core d) (v_ca sv) (v_ca_pem sv) signer (q_request csr) (now ev)))
       then Some FAIL_BAD_MESSAGE_CHECK
  else None.

Definition new_request (sv : service) (g : pki_message) (signer : x509_object) (content : string) (id : Z) : SCEPRequest :=
  {| r_id := id; r_transaction := g_transaction g; r_ca := a_refid (v_ca sv); r_csr := content; r_status := Pending;
     r_approved_by := None; r_cert := None; r_profile := v_profile sv;
     r_renewal_of := if renewal g then Some (pem_of signer) else None |}.

Definition decided (st : request_status) (by_ : option string) (cert : option string) (r : SCEPRequest) : SCEPRequest :=
  {| r_id := r_id r; r_transaction := r_transaction r; r_ca := r_ca r; r_csr := r_csr r; r_status := st;
     r_approved_by := by_; r_cert := cert; r_profile := r_profile r; r_renewal_of := r_renewal_of r |}.
Definition set_request (id : Z) (f : SCEPRequest -> SCEPRequest) : db -> db :=
  with_requests (update_first (fun r => r_id r =? id) f).

(* store a request, and issue it when the endpoint approves by itself *)
Definition enrol (ev : env) (sv : service) (g : pki_message) (signer : x509_object) (content : string) (csr : csr_object)
    : Act reply :=
  id ← gets (fun d => next_request_id (requests d));
  _ ← modify (with_requests (fun l => l ++ [new_request sv g signer content id])%list);
  if v_auto_approve sv then
    issued ← try_ (refid ← _auto_approve_request ev sv csr (if renewal g then Some signer else None); mret (Some refid))
                  (fun _ => _ ← rollback; mret None);
    match issued with
    | None => mret (Failure FAIL_BAD_REQUEST)
    | Some refid =>
        _ ← modify (set_request id (decided Approved (Some "auto") (Some refid)));
        stored ← gets (fun d => cert_by_refid d refid ≫= c_crt);
        match stored with
        | Some crt =>
            if negb (bool_decide (is_Some (load_stored crt))) then raise Fault
            else if v_intune sv && negb (intune_notified ev) then _ ← rollback; mret (Failure FAIL_BAD_REQUEST)
            else ok ← commit; mret (if ok : bool then CertReply crt else Failure FAIL_BAD_REQUEST)
        | None => raise Fault
        end
    end
  else ok ← commit; mret (if ok : bool then PendingReply else Failure FAIL_BAD_REQUEST).

Definition process_csr (ev : env) (sv : service) (g : pki_message) (signer : x509_object) (content : string) : Act reply :=
  match load_csr content with
  | None => mret (Failure FAIL_BAD_REQUEST)
  | Some csr =>
      refused ← gets (fun d => refused_enrolment ev sv d g signer csr);
      match refused with
      | Some info => mret (Failure info)
      | None =>
          existing ← gets (fun d => find_request d (g_transaction g) (a_refid (v_ca sv)));
          match existing with
          | Some r => if _same_key_as_existing r csr then _status_for_existing r else mret (Failure FAIL_BAD_REQUEST)
          | None => enrol ev sv g signer content csr
          end
      end
  end.

Definition process_message (ev : env) (sv : service) (g : pki_message) : Act reply :=
  read ← gets (fun d => read_message ev d g);
  match read with
  | Raise info => mret (Failure info)
  | Ok (signer, t, content) =>
      if existsb (Z.eqb t) [MSG_TYPE_GET_CERT_INITIAL; MSG_TYPE_GET_CERT; MSG_TYPE_GET_CRL] then
        if negb (rsa_key signer) && negb (text_given (g_challenge g)) then mret (Failure FAIL_BAD_MESSAGE_CHECK)
        else if t =? MSG_TYPE_GET_CERT_INITIAL then _handle_get_cert_initial sv (g_transaction g)
        else if t =? MSG_TYPE_GET_CERT then _handle_get_cert sv content
        else _handle_get_crl ev sv content
      else process_csr ev sv g signer content
  end.

(* what is raised is answered, and the session ends without its unsaved writes *)
Definition process_pkcs_req (ev : env) (sv : service) (pkcs7_data : string) : Act reply :=
  match parse_message pkcs7_data with
  | None => mret (Failure FAIL_BAD_REQUEST)
  | Some g => try_ (process_message ev sv g) (fun _ => mret (Failure FAIL_BAD_REQUEST))
  end.

(** ** Decisions of an operator *)

Inductive outcome := Done (r : SCEPRequest) | Error (status : Z).

(* approve_request: None when it is not pending, or not saved *)
Definition approve_request (ev : env) (sv : service) (transaction user : string) : Act (option string) :=
  row ← gets (fun d => find_request d transaction (a_refid (v_ca sv)));
  match row with
  | None => mret None
  | Some r =>
      if negb (bool_decide (r_status r = Pending)) then mret None
      else match load_csr (r_csr r) with
      | None => raise Refusal
      | Some csr =>
          refid ← _auto_approve_request ev sv csr (text_of (r_renewal_of r) ≫= load_stored);
          _ ← modify (set_request (r_id r) (decided Approved (Some user) (Some refid)));
          ok ← commit;
          mret (if ok : bool then Some refid else None)
      end
  end.

(* the profile the request came through, and its template, must still exist; None: they do not *)
Definition issuing_template (d : db) (r : SCEPRequest) : option (option Z) :=
  match r_profile r with
  | None | Some 0 => Some None
  | Some i =>
      match List.find (fun p => p_id p =? i) (profiles d) with
      | None => None
      | Some p =>
          match p_template p with
          | None | Some 0 => Some None
          | Some t => if existsb (Z.eqb t) (templates d) then Some (Some t) else None
          end
      end
  end.

(* SCEPService(...): the CA row, its certificate and its key; every failure is a ValueError *)
Definition scep_ca (d : db) (ca_refid : string) : option (CA * string) :=
  a ← ca_by_refid (core d) ca_refid;
  pem ← readable_pem (text_of (a_crt a));
  if bool_decide (load_key a = None) then Some (a, pem) else None.

Definition _issuing_service (d : db) (r : SCEPRequest) : result exc service :=
  match issuing_template d r, scep_ca d (r_ca r) with
  | Some template, Some (a, pem) =>
      Ok {| v_ca := a; v_ca_pem := pem; v_challenge := None; v_auto_approve := false; v_challenge_expired := false;
            v_template := template; v_intune := false; v_profile := r_profile r |}
  | _, _ => Raise Refusal
  end.

Definition http_status (e : exc) : Z := match e with Violation => 400 | Refusal => 409 | Fault => 500 end.

Definition approve_scep_request (ev : env) (request_id : Z) : Act outcome :=
  row ← gets (fun d => List.find (fun r => r_id r =? request_id) (requests d));
  match row with
  | None => mret (Error 404)
  | Some r =>
      if negb (bool_decide (r_status r = Pending)) then mret (Error 400)
      else
        sv ← gets (fun d => _issuing_service d r);
        match sv with
        | Raise e => _ ← rollback; mret (Error (http_status e))
        | Ok sv =>
            issued ← try_ (i ← approve_request ev sv (r_transaction r) (client_name ev); mret (Ok i)) (fun e => mret (Raise e));
            match issued with
            | Raise e => _ ← rollback; mret (Error (http_status e))
            | Ok None | Ok (Some "") => _ ← rollback; mret (Error 500)
            | Ok (Some _) =>
                after ← gets (fun d => List.find (fun r => r_id r =? request_id) (requests d));
                match after with Some r' => mret (Done r') | None => raise Fault end
            end
        end
  end.

Definition reject_scep_request (user : string) (request_id : Z) : Act outcome :=
  row ← gets (fun d => List.find (fun r => r_id r =? request_id) (requests d));
  match row with
  | None => mret (Error 404)
  | Some r =>
      if negb (bool_decide (r_status r = Pending)) then mret (Error 400)
      else
        _ ← modify (set_request request_id (decided Rejected (Some user) (r_cert r)));
        ok ← commit;
        if ok : bool then mret (Done (decided Rejected (Some user) (r_cert r) r)) else mret (Error 500)
  end.

Definition reject_request (sv : service) (transaction : string) : Act bool :=
  row ← gets (fun d => find_request d transaction (a_refid (v_ca sv)));
  match row with
  | None => mret false
  | Some r =>
      if negb (bool_decide (r_status r = Pending)) then mret false
      else _ ← modify (set_request (r_id r) (decided Rejected (r_approved_by r) (r_cert r))); commit
  end.
End Scep.
