(* ===== verification/ScepSafety.v ===== *)
(** * ScepSafety: what SCEP issues, to whom, and once

    A certificate is issued on a message only when every check of the protocol held, and it
    is saved together with the approved request that names it; a request is decided once,
    whatever messages and decisions follow. *)

From Stdlib Require Import Ascii String.
From stdpp Require Import prelude strings gmap.
From S2P Require Import Prelude Scalars Serials Session RevocationModel Revocations IssuedLookup CaChain OcspStatus CrlContents RevocationSafety RevocationEffects RenewalSafety ScepService.

Local Open Scope string_scope.
Local Open Scope Z_scope.

(* the refids of the stored certificates *)
Definition known (d : RevocationModel.db) (refid : string) : Prop := exists c, c ∈ certs d /\ c_refid c = refid.
(* no other certificate than those and [extra] *)
Definition adds (d d' : RevocationModel.db) (extra : string -> Prop) : Prop :=
  forall c, c ∈ certs d' -> known d (c_refid c) \/ extra (c_refid c).
Definition nothing (_ : string) : Prop := False.

Lemma adds_refl d extra : adds d d extra.
Proof. intros c Hc. left. by exists c. Qed.

Section Scep.
Context {X : X509} {O : X509Objects} {L : ScepLibrary}.

(** ** What issuing leaves *)

(* what holds of the tables when a certificate is signed *)
Record may_sign (ev : env) (sv : service) (d : RevocationModel.db) (csr : csr_object) (renewal_of : option x509_object)
    (new : Certificate) : Prop := {
  ms_online : a_offline (v_ca sv) = false;
  ms_chain : revoked_in_chain d (v_ca sv) = false;
  ms_window : exists x, load_stored (v_ca_pem sv) = Some x /\ x_not_before x <= now ev < x_not_after x;
  ms_renewed : forall x, renewal_of = Some x -> (issued_certificate_status d (v_ca sv) x (now ev)).2 <> REVOKED;
  ms_policy : policy_refuses ev csr = false;
  ms_signed : signs ev csr = Ok new;
}.

Definition untouched (w w' : session db) : Prop :=
  committed w' = committed w /\ commits w' = commits w /\ requests (working w') = requests (working w)
  /\ profiles (working w') = profiles (working w) /\ templates (working w') = templates (working w).

Lemma claim_rows extra d row : maintains (fun d' => adds d d' extra) (_claim_superseded row).
Proof.
  unfold _claim_superseded. session_walk.
  apply (rows_archive_all (fun c => known d (c_refid c) \/ extra (c_refid c))); auto.
Qed.

Lemma archive_effect d extra ca x w : adds d (core (committed w)) extra -> adds d (core (working w)) extra ->
  untouched w (archive_renewed ca x w).2 /\ adds d (core (working (archive_renewed ca x w).2)) extra.
Proof.
  intros H1 H2. unfold archive_renewed. rewrite bind_gets.
  destruct (find_issued_rows _ ca x) as [|row l]; [by split|]. destruct (List.find _ _) as [live|]; [|by split].
  unfold mbind, M_bind, on_core.
  pose proof (claim_rows extra d live (Session (core (committed w)) (core (working w)) (commits w)) ltac:(by split)) as [_ H].
  destruct (_claim_superseded live _) as [[[]|e] w']; cbn in *; by split.
Qed.

Lemma issue_effect ev sv csr renewal_of w r w' : core (working w) = core (committed w) ->
  _auto_approve_request ev sv csr renewal_of w = (r, w') ->
  untouched w w' /\ forall refid, r = Ok refid ->
    (exists new, may_sign ev sv (core (committed w)) csr renewal_of new /\ refid = c_refid new)
    /\ adds (core (committed w)) (core (working w')) (eq refid).
Proof.
  intros Hw. unfold _auto_approve_request.
  destruct (a_offline (v_ca sv)) eqn:E1; [by intros [= <- <-]|]. rewrite bind_gets, Hw.
  destruct (revoked_in_chain _ _) eqn:E2; [by intros [= <- <-]|].
  destruct (match load_stored (v_ca_pem sv) with Some x => _ | None => _ end) eqn:E3; cbn [negb]; [|by intros [= <- <-]].
  rewrite bind_gets, Hw.
  destruct (match renewal_of with Some x => _ | None => _ end) eqn:E4; [by intros [= <- <-]|].
  destruct (policy_refuses ev csr) eqn:E5; [by intros [= <- <-]|].
  destruct (signs ev csr) as [new|e] eqn:E6; [|by intros [= <- <-]].
  unfold mbind at 1, M_bind at 1, modify. cbn [committed working commits].
  set (w1 := Session _ _ _).
  assert (adds (core (committed w)) (core (working w1)) (eq (c_refid new))) as Ha.
  { intros c. cbn. rewrite Hw. intros [Hc| ->%list_elem_of_singleton]%elem_of_app; [left; by exists c|by right]. }
  assert (may_sign ev sv (core (committed w)) csr renewal_of new) as Hs.
  { split; try done.
    - destruct (load_stored (v_ca_pem sv)) as [x|]; [|done]. exists x. split; [done|].
      unfold in_window in E3. apply andb_true_iff in E3 as [?%negb_true_iff%Z.ltb_ge ?%negb_true_iff%Z.leb_gt]. done.
    - intros x ->. by apply bool_decide_eq_false in E4. }
  pose (step := match renewal_of with Some x => archive_renewed (v_ca sv) x | None => mret tt end : Act unit). fold step.
  assert (untouched w1 (step w1).2 /\ adds (core (committed w)) (core (working (step w1).2)) (eq (c_refid new))) as [Hu Ha'].
  { unfold step. destruct renewal_of as [x|]; [apply archive_effect; [apply adds_refl|done]|by split]. }
  unfold mbind at 1, M_bind at 1. destruct (step w1) as [[[]|e] w2]; cbn in Hu, Ha'.
  - destruct (file_written ev); intros [= <- <-]; (split; [exact Hu|]); [|done]. intros refid [= <-]. split; [by exists new|done].
  - intros [= <- <-]. by split.
Qed.

(** ** What a message leaves *)

(* the requester is authenticated by one of the means the endpoint has *)
Definition authenticated (ev : env) (sv : service) (d : db) (g : pki_message) (signer : x509_object) (csr : csr_object) : Prop :=
  (renewal g = true /\ _validate_renewal (core d) (v_ca sv) (v_ca_pem sv) signer (q_request csr) (now ev) = None)
  \/ (v_intune sv = true /\ intune_accepts ev = true)
  \/ (exists secret, nonempty secret = true /\ v_challenge sv = Some secret /\ challenge_of g csr = Some secret
      /\ v_challenge_expired sv = false)
  \/ (text_given (v_challenge sv) = false /\ allow_no_challenge ev = true).

(* a message whose request is new and passes every check *)
Record accepted (ev : env) (sv : service) (d : db) (data : string) (g : pki_message) (signer : x509_object) (content : string)
    (csr : csr_object) : Prop := {
  ac_message : parse_message data = Some g;
  ac_signature : g_signature g = SignatureValid /\ g_signer g = Some signer;
  ac_envelope : g_envelope g = Decrypted content;
  ac_csr : load_csr content = Some csr;
  ac_proof : q_self_signed csr = true /\ q_key_refused csr = false;
  ac_renewal : renewal g = true ->
    _validate_renewal (core d) (v_ca sv) (v_ca_pem sv) signer (q_request csr) (now ev) = None;
  ac_authenticated : v_auto_approve sv = true -> authenticated ev sv d g signer csr;
  ac_fresh : find_request d (g_transaction g) (a_refid (v_ca sv)) = None;
}.

Inductive effect (ev : env) (sv : service) (data : string) (d d' : db) : Prop :=
| effect_none : requests d' = requests d -> adds (core d) (core d') nothing -> effect ev sv data d d'
| effect_queued g signer content csr :
    accepted ev sv d data g signer content csr -> core d' = core d ->
    requests d' = (requests d ++ [new_request sv g signer content (next_request_id (requests d))])%list ->
    effect ev sv data d d'
| effect_issued g signer content csr new :
    accepted ev sv d data g signer content csr -> v_auto_approve sv = true ->
    may_sign ev sv (core d) csr (if renewal g then Some signer else None) new ->
    requests d' = (requests d ++ [decided Approved (Some "auto") (Some (c_refid new))
                                    (new_request sv g signer content (next_request_id (requests d)))])%list ->
    adds (core d) (core d') (eq (c_refid new)) -> effect ev sv data d d'.

Lemma effect_refl ev sv data d : effect ev sv data d d.
Proof. constructor; [done|apply adds_refl]. Qed.

Lemma next_request_id_new l r : r ∈ l -> r_id r < next_request_id l.
Proof.
  intros Hr. unfold next_request_id. destruct (fold_max_bound (r_id <$> l) 0) as [_ H].
  specialize (H (r_id r) ltac:(by apply list_elem_of_fmap_2)). lia.
Qed.

(** ** The checks *)

Lemma refused_none ev sv d g signer csr : refused_enrolment ev sv d g signer csr = None ->
  (q_self_signed csr = true /\ q_key_refused csr = false)
  /\ (renewal g = true -> _validate_renewal (core d) (v_ca sv) (v_ca_pem sv) signer (q_request csr) (now ev) = None)
  /\ (v_auto_approve sv = true -> authenticated ev sv d g signer csr).
Proof.
  unfold refused_enrolment. destruct (q_key_refused csr); [done|]. destruct (q_self_signed csr); [cbn [negb]|done].
  destruct (policy_refuses ev csr); [done|]. destruct (negb (rsa_key signer) && _); [done|].
  destruct (v_intune sv && _) eqn:Ei; [done|]. destruct (negb (v_intune sv) && v_challenge_expired sv && _) eqn:Ee; [done|].
  destruct (negb (v_intune sv) && text_given (v_challenge sv) && _) eqn:Ec; [done|].
  destruct (negb (renewal g) && v_auto_approve sv && _ && _ && _) eqn:Ea; [done|].
  destruct (renewal g && _) eqn:Er; [done|]. intros _.
  assert (renewal g = true -> _validate_renewal (core d) (v_ca sv) (v_ca_pem sv) signer (q_request csr) (now ev) = None) as Hr.
  { intros Hg. rewrite Hg in Er. cbn in Er. apply bool_decide_eq_false in Er. by apply eq_None_not_Some. }
  split; [done|]. split; [done|]. intros Hauto. unfold authenticated.
  destruct (renewal g) eqn:Hg; [left; auto|]. right.
  destruct (v_intune sv) eqn:Hi; [left; split; [done|by destruct (intune_accepts ev)]|]. right. cbn in Ee, Ec, Ea. rewrite Hauto in Ea.
  destruct (text_given (v_challenge sv)) eqn:Ht; [left|right; split; [done|by destruct (allow_no_challenge ev)]].
  rewrite andb_true_r in Ee. cbn in Ec. apply negb_false_iff, andb_true_iff in Ec as [_ Ec%bool_decide_eq_true].
  destruct (v_challenge sv) as [s|]; [|done]. by exists s.
Qed.

Lemma read_message_ok ev d g signer t content : read_message ev d g = Ok (signer, t, content) ->
  (g_signature g = SignatureValid /\ g_signer g = Some signer) /\ g_envelope g = Decrypted content /\ g_type g = Some t.
Proof.
  unfold read_message. destruct (g_signed_data g); [|done]. destruct (g_data g); [|done]. cbn [negb].
  destruct (g_signer g) as [s|]; [|done]. destruct (g_signature g); try done. destruct (negb _); [done|].
  destruct (_ && _); [done|]. destruct (g_type g) as [t'|]; [|done]. destruct (negb _); [done|].
  destruct (g_envelope g); try done. by intros [= -> -> ->].
Qed.

(** ** The handlers *)

Lemma enrol_effect ev sv data g signer content csr d l : accepted ev sv d data g signer content csr ->
  effect ev sv data d (committed (enrol ev sv g signer content csr (Session d d l)).2).
Proof.
  intros Ha. unfold enrol. rewrite bind_gets. cbn [working].
  set (id := next_request_id (requests d)). set (row := new_request sv g signer content id).
  unfold mbind at 1, M_bind at 1, modify at 1. cbn [committed working commits]. set (w1 := Session d _ l).
  destruct (v_auto_approve sv) eqn:Eauto.
  - unfold mbind at 1, M_bind at 1, try_, mbind at 1, M_bind at 1.
    destruct (_auto_approve_request _ _ _ _ w1) as [r w2] eqn:E.
    apply issue_effect in E as [(Hc & _ & Hr & _) Hok]; [|done]. cbn [committed w1] in Hc, Hok.
    destruct r as [refid|e]; [|unfold mbind, M_bind, rollback, mret, M_ret; cbn; rewrite Hc; apply effect_refl].
    destruct (Hok refid eq_refl) as [(new & Hs & ->) Hadd].
    cbv [mret M_ret]. unfold mbind at 1, M_bind at 1, modify at 1. rewrite bind_gets. cbn [committed working commits].
    destruct (_ ≫= c_crt) as [crt|]; [|cbn; rewrite Hc; apply effect_refl].
    destruct (negb _); [cbn; rewrite Hc; apply effect_refl|].
    destruct (_ && _); [unfold mbind, M_bind, rollback, mret, M_ret; cbn; rewrite Hc; apply effect_refl|].
    at_last_commit; [rewrite Hc; apply effect_refl|].
    eapply effect_issued; [done|done|done| |done].
    cbn. rewrite Hr. cbn. rewrite update_first_skip; [cbn; by rewrite Z.eqb_refl|].
    intros r' Hr'%next_request_id_new. apply Z.eqb_neq. unfold id. lia.
  - at_last_commit; [apply effect_refl|].
    by eapply effect_queued.
Qed.

Lemma csr_effect ev sv data g signer content d l :
  parse_message data = Some g -> (g_signature g = SignatureValid /\ g_signer g = Some signer) -> g_envelope g = Decrypted content ->
  effect ev sv data d (committed (process_csr ev sv g signer content (Session d d l)).2).
Proof.
  intros Hg Hs He. unfold process_csr. destruct (load_csr content) as [csr|] eqn:Ecsr; [|apply effect_refl].
  rewrite bind_gets. cbn [working]. destruct (refused_enrolment _ _ _ _ _ _) eqn:Er; [apply effect_refl|].
  apply refused_none in Er as (H1 & H2 & H3). rewrite bind_gets. cbn [working].
  destruct (find_request _ _ _) as [r|] eqn:Ef.
  - destruct (_same_key_as_existing r csr); [|apply effect_refl]. unfold _status_for_existing. rewrite bind_gets.
    destruct (answer_for _ _); apply effect_refl.
  - apply enrol_effect. by split.
Qed.

Lemma crl_number_effect ev sv data i d l : effect ev sv data d (committed (crl_number ev i (Session d d l)).2).
Proof.
  assert (effect ev sv data d (committed (mbind (fun m => mret (m_number m))
      (zoom core put_core (fun _ => Fault) (generate_crl (crl_env ev) i None)) (Session d d l)).2)) as Hz.
  { unfold mbind, M_bind, zoom. cbn [committed working commits].
    pose proof (rows_generate_crl (fun c => known (core d) (c_refid c) \/ nothing (c_refid c)) ltac:(auto)
      (crl_env ev) i None (Session (core d) (core d) l)) as H.
    destruct H as [H _]; [split; apply adds_refl|].
    destruct (generate_crl _ _ _ _) as [[m|e] w']; cbn in *; (constructor; [done|exact H]). }
  unfold crl_number. rewrite bind_gets. destruct (get_latest_crl _ _) as [m|]; [destruct (_ <=? _); [apply effect_refl|]|]; exact Hz.
Qed.
Lemma crl_effect ev sv data content d l : effect ev sv data d (committed (_handle_get_crl ev sv content (Session d d l)).2).
Proof.
  unfold _handle_get_crl. destruct (issuer_and_serial content) as [[issuer n]|]; [|apply effect_refl].
  destruct (negb _); [apply effect_refl|]. pose proof (crl_number_effect ev sv data (a_id (v_ca sv)) d l) as H.
  unfold try_, mbind, M_bind. by destruct (crl_number _ _ _) as [[n'|e] w'].
Qed.

Lemma message_effect ev sv data g d l : parse_message data = Some g ->
  effect ev sv data d (committed (process_message ev sv g (Session d d l)).2).
Proof.
  intros Hg. unfold process_message. rewrite bind_gets. cbn [working].
  destruct (read_message ev d g) as [[[signer t] content]|info] eqn:Er; [|apply effect_refl].
  apply read_message_ok in Er as (H1 & H2 & _). destruct (existsb _ _); [|by apply csr_effect].
  destruct (_ && _); [apply effect_refl|]. destruct (t =? MSG_TYPE_GET_CERT_INITIAL).
  { unfold _handle_get_cert_initial. rewrite bind_gets. destruct (find_request _ _ _) as [r|]; [|apply effect_refl].
    unfold _status_for_existing. rewrite bind_gets. destruct (answer_for _ _); apply effect_refl. }
  destruct (t =? MSG_TYPE_GET_CERT); [|apply crl_effect].
  unfold _handle_get_cert. destruct (issuer_and_serial content) as [[issuer n]|]; [|apply effect_refl].
  destruct (negb _); [apply effect_refl|]. rewrite bind_gets. destruct (List.find _ _); apply effect_refl.
Qed.

Lemma process_effect ev sv data outcomes d :
  effect ev sv data d (committed (process_pkcs_req ev sv data (Session d d outcomes)).2).
Proof.
  unfold process_pkcs_req. destruct (parse_message data) as [g|] eqn:Eg; [|apply effect_refl].
  pose proof (message_effect ev sv data g d outcomes Eg) as H. unfold try_.
  by destruct (process_message ev sv g _) as [[a|e] w].
Qed.

(* what is new in the tables after a message *)
Definition issued_for (ev : env) (sv : service) (data : string) (d d1 : db) (refid : string) : Prop :=
  exists g signer content csr new,
    accepted ev sv d data g signer content csr /\ authenticated ev sv d g signer csr
    /\ v_auto_approve sv = true /\ may_sign ev sv (core d) csr (if renewal g then Some signer else None) new
    /\ refid = c_refid new
    /\ requests d1 = (requests d ++ [decided Approved (Some "auto") (Some refid)
                                       (new_request sv g signer content (next_request_id (requests d)))])%list
    /\ adds (core d) (core d1) (eq refid).

Lemma effect_issues ev sv data d d1 c : effect ev sv data d d1 -> c ∈ certs (core d1) -> ~ known (core d) (c_refid c) ->
  issued_for ev sv data d d1 (c_refid c).
Proof.
  intros [_ Hadd|g signer content csr _ Hcore _|g signer content csr new Ha Hauto Hs Hreq Hadd] Hc Hnew.
  - by destruct (Hadd c Hc).
  - rewrite Hcore in Hc. destruct Hnew. by exists c.
  - exists g, signer, content, csr, new. destruct (Hadd c Hc) as [?|E]; [done|]. rewrite <- E.
    split_and!; try done. by apply (ac_authenticated _ _ _ _ _ _ _ _ Ha).
Qed.

(** ** The life of a request *)

Inductive op :=
| Message (ev : env) (sv : service) (data : string)
| Approve (ev : env) (request_id : Z)
| Reject (user : string) (request_id : Z)
| ServiceApprove (ev : env) (sv : service) (transaction user : string)
| ServiceReject (sv : service) (transaction : string).

Definition perform (o : op) (outcomes : list bool) (d : db) : db :=
  match o with
  | Message ev sv data => (run (process_pkcs_req ev sv data) outcomes d).2
  | Approve ev i => (run (approve_scep_request ev i) outcomes d).2
  | Reject user i => (run (reject_scep_request user i) outcomes d).2
  | ServiceApprove ev sv t user => (run (approve_request ev sv t user) outcomes d).2
  | ServiceReject sv t => (run (reject_request sv t) outcomes d).2
  end.
Definition perform_all (ops : list (op * list bool)) (d : db) : db := fold_left (fun d o => perform o.1 o.2 d) ops d.

Definition transaction_of (r : SCEPRequest) : string * string := (r_transaction r, r_ca r).
Record well_formed (l : list SCEPRequest) : Prop := {
  wf_id : NoDup (r_id <$> l);
  wf_transaction : NoDup (transaction_of <$> l);
  wf_cert : forall r, r ∈ l -> r_status r = Approved <-> is_Some (r_cert r);
}.
(* a request is as it was, or it was pending and is decided *)
Definition evolves (r r' : SCEPRequest) : Prop :=
  r' = r \/ r_status r = Pending /\ exists st by_ cert, st <> Pending /\ r' = decided st by_ cert r.
Definition evolution (l l' : list SCEPRequest) : Prop := forall r, r ∈ l -> exists r', r' ∈ l' /\ evolves r r'.

Lemma evolution_refl l : evolution l l.
Proof. intros r Hr. exists r. split; [done|by left]. Qed.
Lemma evolution_trans l1 l2 l3 : evolution l1 l2 -> evolution l2 l3 -> evolution l1 l3.
Proof.
  intros H1 H2 r (r' & Hr' & E1)%H1. destruct (H2 r' Hr') as (r'' & Hr'' & E2). exists r''. split; [done|].
  destruct E1 as [->|(Hp & st & by_ & cert & Hst & ->)]; [done|]. destruct E2 as [->|(Hp' & _)]; [right; eauto 8|done].
Qed.

(* how a call changes the requests *)
Inductive moves (l : list SCEPRequest) : list SCEPRequest -> Prop :=
| moves_none : moves l l
| moves_new r : List.find (fun x => (r_transaction x =? r_transaction r)%string && (r_ca x =? r_ca r)%string) l = None ->
    r_id r = next_request_id l -> (r_status r = Approved <-> is_Some (r_cert r)) -> moves l (l ++ [r])
| moves_decided r st by_ cert : r ∈ l -> r_status r = Pending ->
    (st = Approved /\ is_Some cert \/ st = Rejected /\ cert = r_cert r) ->
    moves l (update_first (fun x => r_id x =? r_id r) (decided st by_ cert) l).

Lemma find_id l r : NoDup (r_id <$> l) -> r ∈ l -> List.find (fun x => r_id x =? r_id r) l = Some r.
Proof.
  intros Hnd Hr. destruct (find_of_elem (fun x => r_id x =? r_id r) l r Hr) as [y Hy]; [by apply Z.eqb_refl|].
  rewrite Hy. f_equal. apply List.find_some in Hy as [Hy%list_elem_of_In E%Z.eqb_eq]. by eapply NoDup_fmap_inj.
Qed.

Lemma moves_keep l l' : well_formed l -> moves l l' -> well_formed l' /\ evolution l l'.
Proof.
  intros [H1 H2 H3] [|r Hf Hi Hr|r st by_ cert Hr Hp Hst].
  - split; [done|apply evolution_refl].
  - split; [split|intros r' Hr'; exists r'; split; [apply elem_of_app; by left|by left]].
    + rewrite fmap_app. apply NoDup_app. split_and!; [done| |apply NoDup_singleton].
      intros i (x & -> & Hx%next_request_id_new)%list_elem_of_fmap Hi'%list_elem_of_singleton. lia.
    + rewrite fmap_app. apply NoDup_app. split_and!; [done| |apply NoDup_singleton].
      intros i (x & -> & Hx)%list_elem_of_fmap [= E1 E2]%list_elem_of_singleton.
      eapply List.find_none in Hf; [|by apply list_elem_of_In]. by rewrite E1, E2, !String.eqb_refl in Hf.
    + intros x [Hx| ->%list_elem_of_singleton]%elem_of_app; [by apply H3|done].
  - pose proof (find_id l r H1 Hr) as Hfind.
    assert (st = Approved <-> is_Some cert) as Hc.
    { destruct Hst as [[-> Hc]|[-> ->]]; [done|]. split; [done|]. intros Hc%H3; [congruence|done]. }
    split; [split|].
    + by rewrite fmap_update_first.
    + by rewrite fmap_update_first.
    + intros x [Hx|(y & Hy & ->)]%elem_update_first; [by apply H3|done].
    + intros x Hx. destruct (decide (r_id x = r_id r)) as [E|E].
      * assert (x = r) as -> by (by apply (NoDup_fmap_inj r_id l)). exists (ScepService.decided st by_ cert r).
        split; [by apply update_first_hit|]. right. split; [done|]. exists st, by_, cert. by destruct Hst as [[-> _]|[-> _]].
      * exists x. split; [apply update_first_other; [done|by apply Z.eqb_neq]|by left].
Qed.

Lemma approve_moves ev sv t user d l :
  moves (requests d) (requests (committed (approve_request ev sv t user (Session d d l)).2)).
Proof.
  unfold approve_request. rewrite bind_gets. cbn [working]. destruct (find_request _ _ _) as [r|] eqn:Ef; [|constructor].
  destruct (negb _) eqn:Ep; [constructor|]. apply negb_false_iff, bool_decide_eq_true in Ep.
  destruct (load_csr (r_csr r)) as [csr|]; [|constructor]. unfold mbind at 1, M_bind at 1.
  destruct (_auto_approve_request _ _ _ _ _) as [q w2] eqn:E.
  apply issue_effect in E as [(Hc & _ & Hr & _) _]; [|done]. cbn [committed working] in Hc, Hr.
  destruct q as [refid|e]; [|cbn; rewrite Hc; constructor].
  unfold mbind at 1, M_bind at 1, modify. cbn [committed working commits].
  at_last_commit; [rewrite Hc; constructor|]. cbn. rewrite Hr.
  apply moves_decided; [|done|left; by eauto]. by apply List.find_some in Ef as [?%list_elem_of_In _].
Qed.
Lemma approve_scep_moves ev i d l : moves (requests d) (requests (committed (approve_scep_request ev i (Session d d l)).2)).
Proof.
  unfold approve_scep_request. rewrite bind_gets. cbn [working]. destruct (List.find _ _) as [r|]; [|constructor].
  destruct (negb _); [constructor|]. rewrite bind_gets. cbn [working].
  destruct (_issuing_service d r) as [sv|e]; [|constructor].
  pose proof (approve_moves ev sv (r_transaction r) (client_name ev) d l) as H.
  unfold mbind at 1, M_bind at 1, try_, mbind at 1, M_bind at 1.
  destruct (approve_request _ _ _ _ _) as [[[[|c s]|]|e] w]; cbv [mret M_ret]; try exact H.
  rewrite bind_gets. by destruct (List.find _ (requests (working w))).
Qed.
Lemma reject_scep_moves user i d l : moves (requests d) (requests (committed (reject_scep_request user i (Session d d l)).2)).
Proof.
  unfold reject_scep_request. rewrite bind_gets. cbn [working]. destruct (List.find _ _) as [r|] eqn:Ef; [|constructor].
  destruct (negb _) eqn:Ep; [constructor|]. apply negb_false_iff, bool_decide_eq_true in Ep.
  unfold mbind at 1, M_bind at 1, modify. cbn [committed working commits].
  match goal with |- context [mbind ?k commit ?w] =>
    destruct (last_commit k w ltac:(by intros [])) as [H|H]; rewrite H; [constructor|] end.
  apply List.find_some in Ef as [Hr%list_elem_of_In <-%Z.eqb_eq]. apply moves_decided; auto.
Qed.
Lemma reject_moves sv t d l : moves (requests d) (requests (committed (reject_request sv t (Session d d l)).2)).
Proof.
  unfold reject_request. rewrite bind_gets. cbn [working]. destruct (find_request _ _ _) as [r|] eqn:Ef; [|constructor].
  destruct (negb _) eqn:Ep; [constructor|]. apply negb_false_iff, bool_decide_eq_true in Ep.
  unfold mbind, M_bind, modify, commit. cbn [committed working commits].
  apply List.find_some in Ef as [Hr%list_elem_of_In _].
  destruct l as [|[] l]; cbn; [apply moves_decided; auto..|constructor].
Qed.
Lemma message_moves ev sv data outcomes d :
  moves (requests d) (requests (committed (process_pkcs_req ev sv data (Session d d outcomes)).2)).
Proof.
  destruct (process_effect ev sv data outcomes d) as [-> _|g signer content csr Ha _ ->|g signer content csr new Ha _ _ -> _];
    [constructor| |]; (apply moves_new; [apply Ha|done|cbn; naive_solver]).
Qed.
Lemma perform_moves o outcomes d : moves (requests d) (requests (perform o outcomes d)).
Proof.
  destruct o as [ev sv data|ev i|user i|ev sv t user|sv t]; cbn; unfold run.
  - pose proof (message_moves ev sv data outcomes d). by destruct (process_pkcs_req _ _ _ _).
  - pose proof (approve_scep_moves ev i d outcomes). by destruct (approve_scep_request _ _ _).
  - pose proof (reject_scep_moves user i d outcomes). by destruct (reject_scep_request _ _ _).
  - pose proof (approve_moves ev sv t user d outcomes). by destruct (approve_request _ _ _ _ _).
  - pose proof (reject_moves sv t d outcomes). by destruct (reject_request _ _ _).
Qed.

(** C17. A SCEP request is decided once: over any messages, approvals and rejections, whichever
    commits fail, there is one request per transaction and CA, a request carries a
    certificate exactly when it is approved, every request stays, and one that was approved or
    rejected is never written again: it keeps its decision, who made it, and its certificate. *)
Theorem scep_decided_once (ops : list (op * list bool)) (d : db) (Hwf : well_formed (requests d)) :
  well_formed (requests (perform_all ops d)) /\ evolution (requests d) (requests (perform_all ops d))
  /\ forall r, r ∈ requests d -> r_status r <> Pending ->
       r ∈ requests (perform_all ops d)
       /\ forall r', r' ∈ requests (perform_all ops d) -> transaction_of r' = transaction_of r -> r' = r.
Proof.
  assert (well_formed (requests (perform_all ops d)) /\ evolution (requests d) (requests (perform_all ops d))) as [Hw He].
  { revert d Hwf. induction ops as [|[o l] ops IH]; intros d Hwf; cbn; [split; [done|apply evolution_refl]|].
    destruct (moves_keep _ _ Hwf (perform_moves o l d)) as [H1 H2]. destruct (IH _ H1) as [H3 H4].
    split; [done|by eapply evolution_trans]. }
  split; [done|]. split; [done|]. intros r Hr Hp. destruct (He r Hr) as (r' & Hr' & [->|[? _]]); [|done].
  split; [done|]. intros r' Hr2 E. by apply (NoDup_fmap_inj transaction_of (requests (perform_all ops d))); [apply Hw|..].
Qed.
End Scep.
