(* ===== verification/ScepEndpoint.v ===== *)
(** * ScepEndpoint: the SCEP endpoint

    Models [backend/api/scep_protocol.py]: the service of an endpoint ([get_scep_service], the
    global one or that of a profile, with the age of its challenge, [challenge_age_state] of
    [backend/api/v2/scep.py]) and the handler of a PKIOperation. The theorem composes them with the
    protocol of [ScepService]: what a request to the endpoint may issue. Texts are not modelled. *)

From Stdlib Require Import Ascii String.
From stdpp Require Import prelude strings gmap.
From S2P Require Import Prelude Scalars Serials Session RevocationModel Revocations IssuedLookup CaChain OcspStatus CrlContents RevocationSafety RevocationEffects RenewalSafety ScepService ScepSafety.

Local Open Scope string_scope.
Local Open Scope Z_scope.

Definition hour_us : Z := 3600000000.

Definition get_config (d : db) (key : string) (default_ : option string) : option string :=
  match dict_get (settings (core d)) key with Some v => v | None => default_ end.

Definition validity_hours (d : db) : Z := default 24 (get_config d "scep_challenge_validity" (Some "24") ≫= py_int 10).

Definition _profile_challenge_state (d : db) (t : Z) (p : ScepProfile) : string * bool :=
  if nonempty (p_challenge p) then
    match p_generated_at p with
    | None => (p_challenge p, false)
    | Some at_ => (p_challenge p, at_ + hour_us * validity_hours d <? t)
    end
  else ("", false).

Definition with_stamps (f : list (Z * option Z) -> list (Z * option Z)) (d : db) : db :=
  {| core := core d; requests := requests d; profiles := profiles d; templates := templates d; stamps := f (stamps d) |}.
Definition stamp_of (d : db) (ca_id : Z) : option Z :=
  match List.find (fun p => p.1 =? ca_id) (stamps d) with Some p => p.2 | None => None end.
Definition set_stamp (ca_id t : Z) (l : list (Z * option Z)) : list (Z * option Z) :=
  (ca_id, Some t) :: List.filter (fun p => negb (p.1 =? ca_id)) l.

(* a challenge with no stamp is stamped now *)
Definition challenge_age_state (t ca_id : Z) : Act (option string * bool) :=
  challenge ← gets (fun d => text_of (get_config d ("scep_challenge_" ++ py_str ca_id) None));
  match challenge with
  | None => mret (None, false)
  | Some secret =>
      hours ← gets validity_hours;
      stamp ← gets (fun d => stamp_of d ca_id);
      at_ ← match stamp with
            | Some at_ => mret at_
            | None => _ ← modify (with_stamps (set_stamp ca_id t)); _ ← commit; mret t
            end;
      mret (Some secret, at_ + hour_us * hours <=? t)
  end.

Section Endpoint.
Context {X : X509} {O : X509Objects} {L : ScepLibrary}.

(* the HTTP status of a refusal *)
Definition _resolve_profile (d : db) (profile_slug : string) : result Z ScepProfile :=
  match List.find (fun p => (p_url_slug p =? profile_slug)%string) (profiles d) with
  | None => Raise 404
  | Some p => if p_enabled p then Ok p else Raise 503
  end.

Definition configured_ca (d : db) : option CA :=
  ca_id ← text_of (get_config d "scep_ca_id" None);
  match py_int 10 ca_id ≫= find_ca (core d) with Some a => Some a | None => ca_by_refid (core d) ca_id end.

(* the CA of the endpoint, and its profile *)
Definition endpoint_ca (d : db) (profile_slug : option string) : result Z (option ScepProfile * CA) :=
  if negb (bool_decide (get_config d "scep_enabled" (Some "true") = Some "true")) then Raise 503
  else match profile_slug with
  | Some slug =>
      match _resolve_profile d slug with
      | Raise e => Raise e
      | Ok p => match ca_by_refid (core d) (p_ca p) with Some a => Ok (Some p, a) | None => Raise 503 end
      end
  | None => match configured_ca d with Some a => Ok (None, a) | None => Raise 503 end
  end.

Definition ca_refused (d : db) (a : CA) : bool :=
  negb (a_has_key a) || bool_decide (text_of (a_crt a) = None) || a_offline a || revoked_in_chain (core d) a || uses_hsm a.

(* IntuneScepClient: tenant, client and secret are all required *)
Definition intune_ready (p : ScepProfile) : bool :=
  match p_intune_app p with Some (t, c, s) => nonempty t && nonempty c && nonempty s | None => false end.

(* SCEPService(...), then the type of its key *)
Definition make_service (d : db) (a : CA) (challenge : option string) (auto expired : bool) (template : option Z)
    (intune : bool) (profile_id : option Z) : result Z service :=
  match scep_ca d (a_refid a) with
  | None => Raise (if bool_decide (is_Some (readable_pem (ca_by_refid (core d) (a_refid a) ≫= fun b => text_of (a_crt b))))
                      && match ca_by_refid (core d) (a_refid a) ≫= load_key with Some KeyRestricted => true | _ => false end
                   then 503 else 500)
  | Some (b, pem) =>
      if rsa_ca a then Ok {| v_ca := b; v_ca_pem := pem; v_challenge := challenge; v_auto_approve := auto;
                             v_challenge_expired := expired; v_template := template; v_intune := intune; v_profile := profile_id |}
      else Raise 503
  end.

Definition profile_service (d : db) (t : Z) (a : CA) (p : ScepProfile) : result Z service :=
  let '(challenge, expired) := _profile_challenge_state d t p in
  let template := match p_template p with Some 0 => None | o => o end in
  if negb (match template with Some i => existsb (Z.eqb i) (templates d) | None => true end) then Raise 503
  else if p_intune_enabled p && negb (intune_ready p) then Raise 503
  else make_service d a (Some challenge) (p_auto_approve p) expired template (p_intune_enabled p) (Some (p_id p)).

Definition get_scep_service (t : Z) (profile_slug : option string) : Act (result Z service) :=
  found ← gets (fun d => endpoint_ca d profile_slug);
  match found with
  | Raise e => mret (Raise e)
  | Ok (profile, a) =>
      refused ← gets (fun d => ca_refused d a);
      if refused : bool then mret (Raise 503)
      else match profile with
      | Some p => gets (fun d => profile_service d t a p)
      | None =>
          state ← challenge_age_state t (a_id a);
          gets (fun d => make_service d a state.1 (bool_decide (get_config d "scep_auto_approve" (Some "false") = Some "true"))
                           state.2 None false None)
      end
  end.

(** ** A PKIOperation *)

Definition MAX_PKI_BODY_BYTES : Z := 1024 * 1024.
Inductive http_request := Post (content_length : option Z) (body : string) | Get (message : string).
Inductive http_answer := Message200 (r : reply) | HttpError (status : Z).

(* the message, or the status of the refusal *)
Definition pki_message_of (b64decode : string -> option string) (q : http_request) : result Z string :=
  match q with
  | Post length_ body =>
      if MAX_PKI_BODY_BYTES <? default 0 length_ then Raise 413
      else if MAX_PKI_BODY_BYTES <? Z.of_nat (String.length body) then Raise 413
      else if nonempty body then Ok body else Raise 400
  | Get message =>
      if negb (nonempty message) then Raise 400
      else if MAX_PKI_BODY_BYTES <? Z.of_nat (String.length message) then Raise 413
      else match b64decode message with
           | None => Raise 400
           | Some data => if nonempty data then Ok data else Raise 400
           end
  end.

Definition handle_pki_operation (b64decode : string -> option string) (ev : env) (profile_slug : option string)
    (q : http_request) : Act http_answer :=
  service_ ← get_scep_service (now ev) profile_slug;
  match service_ with
  | Raise status => mret (HttpError status)
  | Ok sv =>
      match pki_message_of b64decode q with
      | Raise status => mret (HttpError status)
      | Ok data => try_ (r ← process_pkcs_req ev sv data; mret (Message200 r)) (fun _ => mret (HttpError 500))
      end
  end.

(** ** What a request to the endpoint may issue *)

(* how the endpoint is configured when it serves *)
Definition served (d : db) (t : Z) (profile_slug : option string) (sv : service) : Prop :=
  match profile_slug with
  | Some slug => exists p, p ∈ profiles d /\ p_url_slug p = slug /\ p_enabled p = true /\ a_refid (v_ca sv) = p_ca p
      /\ v_auto_approve sv = p_auto_approve p /\ v_intune sv = p_intune_enabled p /\ v_challenge sv = Some (p_challenge p)
      /\ (v_challenge_expired sv = false -> nonempty (p_challenge p) = true ->
          forall at_, p_generated_at p = Some at_ -> t <= at_ + hour_us * validity_hours d)
  | None => exists a, configured_ca d = Some a /\ a_refid (v_ca sv) = a_refid a /\ v_intune sv = false
      /\ v_auto_approve sv = bool_decide (get_config d "scep_auto_approve" (Some "false") = Some "true")
      /\ v_challenge sv = text_of (get_config d ("scep_challenge_" ++ py_str (a_id a)) None)
      /\ (v_challenge_expired sv = false -> v_challenge sv <> None ->
          t < default t (stamp_of d (a_id a)) + hour_us * validity_hours d)
  end.

Lemma make_service_ok d a challenge auto expired template intune i sv :
  make_service d a challenge auto expired template intune i = Ok sv ->
  a_refid (v_ca sv) = a_refid a /\ v_challenge sv = challenge /\ v_auto_approve sv = auto
  /\ v_challenge_expired sv = expired /\ v_intune sv = intune.
Proof.
  unfold make_service. destruct (scep_ca d (a_refid a)) as [[b pem]|] eqn:E; [|done]. destruct (rsa_ca a); [|done].
  intros [= <-]. split; [|done]. cbn. unfold scep_ca in E. destruct (ca_by_refid _ _) as [b'|] eqn:Eb; [|done]. cbn in E.
  destruct (readable_pem _); [|done]. cbn in E. destruct (bool_decide _); [|done]. injection E as -> _.
  by apply List.find_some in Eb as [_ ?%String.eqb_eq].
Qed.

Lemma profile_service_ok d t a p sv : profile_service d t a p = Ok sv ->
  a_refid (v_ca sv) = a_refid a /\ v_challenge sv = Some (p_challenge p) /\ v_auto_approve sv = p_auto_approve p
  /\ v_intune sv = p_intune_enabled p
  /\ (v_challenge_expired sv = false -> nonempty (p_challenge p) = true ->
      forall at_, p_generated_at p = Some at_ -> t <= at_ + hour_us * validity_hours d).
Proof.
  unfold profile_service. destruct (_profile_challenge_state d t p) as [challenge expired] eqn:E.
  destruct (negb _); [done|]. destruct (_ && _); [done|]. intros (H1 & H2 & H3 & H4 & H5)%make_service_ok.
  unfold _profile_challenge_state in E. split_and!; try done.
  - rewrite H2. destruct (p_challenge p); [by injection E as <- <-|]. cbn in E. by destruct (p_generated_at p); injection E as <- <-.
  - intros Hx Hn at_ Hat. rewrite Hn, Hat in E. injection E as <- <-. rewrite Hx in H4. symmetry in H4. by apply Z.ltb_ge in H4.
Qed.

Definition same_tables (d d' : db) : Prop := exists f, d' = with_stamps f d.
Lemma same_tables_refl d : same_tables d d.
Proof. exists id. by destruct d. Qed.

(* the challenge and its age; at most the stamp is written *)
Lemma challenge_age_ok t ca_id d l q w : challenge_age_state t ca_id (Session d d l) = (q, w) ->
  (exists d' l', w = Session d' d' l' /\ same_tables d d')
  /\ exists secret expired, q = Ok (secret, expired) /\ secret = text_of (get_config d ("scep_challenge_" ++ py_str ca_id) None)
     /\ (expired = false -> secret <> None -> t < default t (stamp_of d ca_id) + hour_us * validity_hours d).
Proof.
  unfold challenge_age_state. rewrite bind_gets. cbn [working].
  destruct (text_of _) as [secret|] eqn:Es.
  - rewrite !bind_gets. cbn [working]. destruct (stamp_of d ca_id) as [at_|].
    + intros [= <- <-]. split; [exists d, l; split; [done|apply same_tables_refl]|]. exists (Some secret). eexists.
      split; [done|]. split; [done|]. intros ?%Z.leb_gt _. cbn. lia.
    + unfold mbind, M_bind, modify, commit. cbn [commits working committed].
      assert (forall w' : session db, (exists d' l', w' = Session d' d' l' /\ same_tables d d') ->
        (Ok (E := exc) (Some secret, t + hour_us * validity_hours d <=? t), w') = (q, w) ->
        (exists d' l', w = Session d' d' l' /\ same_tables d d')
        /\ exists secret' expired, q = Ok (secret', expired) /\ secret' = Some secret
           /\ (expired = false -> secret' <> None -> t < default t None + hour_us * validity_hours d)) as Hk.
      { intros w' Hw [= <- <-]. split; [done|]. eexists _, _. split; [done|]. split; [done|]. intros ?%Z.leb_gt _. done. }
      destruct l as [|[] l]; apply Hk; eexists _, _; (split; [done|]); [by eexists|by eexists|apply same_tables_refl].
  - intros [= <- <-]. split; [exists d, l; split; [done|apply same_tables_refl]|]. by exists None, false.
Qed.

Lemma get_service_ok t slug d l q w : get_scep_service t slug (Session d d l) = (q, w) ->
  (exists d' l', w = Session d' d' l' /\ same_tables d d')
  /\ forall sv, q = Ok (Ok sv) -> served d t slug sv /\ get_config d "scep_enabled" (Some "true") = Some "true".
Proof.
  assert (exists d' l', Session d d l = Session d' d' l' /\ same_tables d d') as H0
    by (exists d, l; split; [done|apply same_tables_refl]).
  unfold get_scep_service. rewrite bind_gets. cbn [working]. destruct (endpoint_ca d slug) as [[profile a]|e] eqn:E; [|by intros [= <- <-]].
  unfold endpoint_ca in E. destruct (negb _) eqn:Een; [done|]. apply negb_false_iff, bool_decide_eq_true in Een.
  rewrite bind_gets. cbn [working]. destruct (ca_refused d a); [by intros [= <- <-]|].
  destruct slug as [slug|].
  - unfold _resolve_profile in E. destruct (List.find _ _) as [p|] eqn:Ep; [|done]. destruct (p_enabled p) eqn:Ee; [|done].
    destruct (ca_by_refid _ _) as [b|] eqn:Eb; [|done]. injection E as <- <-. intros [= <- <-]. split; [done|].
    intros sv [= (H1 & H2 & H3 & H4 & H5)%profile_service_ok]. split; [|done].
    apply List.find_some in Ep as [Hp%list_elem_of_In Hs%String.eqb_eq].
    apply List.find_some in Eb as [_ Hb%String.eqb_eq]. exists p. split_and!; try done. congruence.
  - destruct (configured_ca d) as [b|] eqn:Eb; [|done]. injection E as <- <-.
    unfold mbind at 1, M_bind at 1. destruct (challenge_age_state _ _ _) as [q' w'] eqn:Eq.
    destruct (challenge_age_ok _ _ _ _ _ _ Eq) as [(d' & l' & -> & [f ->]) (secret & expired & -> & Hsec & Hexp)].
    intros [= <- <-]. split; [exists (with_stamps f d), l'; split; [done|by exists f]|].
    intros sv [= (H1 & H2 & H3 & H4 & H5)%make_service_ok]. split; [|done]. cbn in H2, H4. exists b.
    split_and!; try done; [congruence|]. rewrite H2, H4. done.
Qed.

Lemma issued_same_tables ev sv data d d' d1 refid : same_tables d d' -> issued_for ev sv data d' d1 refid -> issued_for ev sv data d d1 refid.
Proof.
  intros [f ->] (g & signer & content & csr & new & [] & H2 & H3 & H4 & H5 & H6 & H7).
  exists g, signer, content, csr, new. split; [by split|]. by split_and!.
Qed.
Lemma not_processed d d1 c : same_tables d d1 -> c ∈ certs (core d1) -> known (core d) (c_refid c).
Proof. intros [f ->] Hc. by exists c. Qed.

(** C14. What the SCEP endpoint issues: a certificate that was not stored before means that SCEP
    is enabled and the endpoint served (its profile exists and is enabled), the message's
    signature verified, its request proves possession of its key and is the first of its
    transaction under this CA, the requester is authenticated (a renewal by the certificate it
    renews, Intune, the challenge password of this endpoint within its validity, or an
    endpoint opened on purpose), the endpoint approves by itself, the CA is online, within its
    validity and not revoked anywhere in its chain, and no policy refuses; the certificate is
    saved together with the approved request that names it, and no other is added. *)
Theorem scep_issue_authorized (b64decode : string -> option string) (ev : env) (profile_slug : option string)
    (q : http_request) (outcomes : list bool) (d d1 : db) (r : result exc http_answer) (c : Certificate)
  (Hrun : run (handle_pki_operation b64decode ev profile_slug q) outcomes d = (r, d1))
  (Hc : c ∈ certs (core d1)) (Hnew : ~ known (core d) (c_refid c)) :
  get_config d "scep_enabled" (Some "true") = Some "true"
  /\ exists sv data, served d (now ev) profile_slug sv /\ pki_message_of b64decode q = Ok data
      /\ issued_for ev sv data d d1 (c_refid c).
Proof.
  unfold run, handle_pki_operation, mbind at 1, M_bind at 1 in Hrun.
  destruct (get_scep_service _ _ _) as [s w] eqn:Es.
  destruct (get_service_ok _ _ _ _ _ _ Es) as [(d' & l' & -> & Hd) Hs].
  destruct s as [[sv|e]|e]; [|by injection Hrun as <- <-; destruct Hnew; apply (not_processed d d')..].
  destruct (Hs sv eq_refl) as [Hsv Hen]. destruct (pki_message_of b64decode q) as [data|e] eqn:Eq;
    [|by injection Hrun as <- <-; destruct Hnew; apply (not_processed d d')].
  split; [done|]. exists sv, data. split_and!; try done.
  pose proof (process_effect ev sv data l' d') as He. unfold try_, mbind, M_bind in Hrun.
  assert (effect ev sv data d' d1) as He1 by (by destruct (process_pkcs_req _ _ _ _) as [[a|e] w]; injection Hrun as _ <-).
  eapply issued_same_tables; [done|]. apply effect_issues; [done|done|]. by destruct Hd as [f ->].
Qed.
End Endpoint.
