(* ===== verification/ScepExamples.v ===== *)
(** * ScepExamples: SCEP messages on concrete tables

    The CA and certificate of [RevocationExamples] behind the global endpoint: enrolments,
    renewals and decisions, and a renewal after the challenge password expired. *)

From Stdlib Require Import Ascii String.
From stdpp Require Import prelude strings gmap.
From S2P Require Import Prelude Scalars Serials Session RevocationModel Revocations IssuedLookup CaChain OcspStatus CrlContents RevocationSafety RevocationExamples ScepService ScepSafety ScepEndpoint.

Local Open Scope string_scope.
Local Open Scope Z_scope.

Module Enrolments.
Import RevocationExamples.Sample.

Definition device : x509_object :=
  {| x_der := "DEVICE"; x_serial_number := 7; x_subject := "CN=device"; x_spki := Some "key of DEVICE";
     x_not_before := 0; x_not_after := 5000; x_sans := None |}.
Definition signer_of (pem : string) : option x509_object := match object pem with Some x => Some x | None => Some device end.
Definition message (type : Z) (transaction signer : string) (challenge : option string) : pki_message :=
  {| g_signed_data := true; g_transaction := transaction; g_type := Some type; g_challenge := challenge;
     g_signing_time := None; g_data := true; g_signer := signer_of signer; g_signature := SignatureValid;
     g_envelope := Decrypted "CSR" |}.
Definition messages : list (string * pki_message) :=
  [("enrol", message MSG_TYPE_PKI_REQ "t1" "DEVICE" (Some "secret"));
   ("guess", message MSG_TYPE_PKI_REQ "t1" "DEVICE" (Some "guess"));
   ("renew", message MSG_TYPE_RENEWAL_REQ "t2" "LEAF" None);
   ("renew-with-secret", message MSG_TYPE_RENEWAL_REQ "t2" "LEAF" (Some "secret"));
   ("poll", message MSG_TYPE_GET_CERT_INITIAL "t1" "DEVICE" None)].
Definition csr : csr_object :=
  {| q_request := {| q_subject := "CN=LEAF"; q_sans := Some (Some [("DNSName", "a.example")]) |}; q_spki := "spki";
     q_key_refused := false; q_self_signed := true; q_challenge := None |}.
#[export] Instance library : ScepLibrary := {|
  load_key := fun _ => None; uses_hsm := fun _ => false; rsa_ca := fun _ => true;
  parse_message := fun data => dict_get messages data;
  load_csr := fun content => if (content =? "CSR")%string then Some csr else None;
  rsa_key := fun _ => true; pem_of := fun x => x_der x; issuer_and_serial := fun _ => None;
|}.

Definition tables (auto : string) (generated_at : Z) : db :=
  {| core := {| certs := certs d0; cas := cas d0; serials := serials d0; crosses := crosses d0; crls := crls d0;
                cache := cache d0; responders := responders d0;
                settings := [("scep_ca_id", Some "1"); ("scep_auto_approve", Some auto); ("scep_challenge_1", Some "secret")] |};
     requests := []; profiles := []; templates := []; stamps := [(1, Some generated_at)] |}.
Definition issued : Certificate := cert 12 "172" "OTHER" not_revoked.
Definition at_ (t : Z) : env :=
  {| ScepService.now := t; client_name := "operator"; allow_no_challenge := false; intune_accepts := false; intune_notified := false;
     policy_refuses := fun _ => false; signs := fun _ => Ok issued; file_written := true; crl_env := ev |}.
Definition send (t : Z) (data : string) (d : db) : result exc http_answer * db :=
  run (handle_pki_operation Some (at_ t) None (Post None data)) [] d.

Definition d_enrolled : db := (send 100 "enrol" (tables "true" 50)).2.
Example enrolment :
  (send 100 "enrol" (tables "true" 50)).1 = Ok (Message200 (CertReply "OTHER"))
  /\ (send 100 "guess" (tables "true" 50)).1 = Ok (Message200 (Failure FAIL_BAD_MESSAGE_CHECK))
  /\ (send 100 "enrol" d_enrolled) = (Ok (Message200 (CertReply "OTHER")), d_enrolled)
  /\ (send 100 "poll" d_enrolled) = (Ok (Message200 (CertReply "OTHER")), d_enrolled)
  /\ (send 100 "enrol" (tables "true" (50 - 24 * hour_us))).1 = Ok (Message200 (Failure FAIL_BAD_MESSAGE_CHECK)).
Proof. repeat split; by vm_compute. Qed.

Lemma scep_issue_witness :
  get_config (tables "true" 50) "scep_enabled" (Some "true") = Some "true"
  /\ exists sv data, served (tables "true" 50) 100 None sv /\ pki_message_of Some (Post None "enrol") = Ok data
      /\ issued_for (at_ 100) sv data (tables "true" 50) d_enrolled "OTHER".
Proof.
  apply (scep_issue_authorized Some (at_ 100) None (Post None "enrol") [] (tables "true" 50) d_enrolled
           (Ok (Message200 (CertReply "OTHER"))) issued).
  - by vm_compute.
  - apply list_elem_of_In. vm_compute. by right; left.
  - intros (c & Hc%list_elem_of_In & E). destruct Hc as [<-|[]]. by vm_compute in E.
Defined.

(** ** Queued, then decided *)

Definition d_queued : db := (send 100 "enrol" (tables "false" 50)).2.
Definition d_rejected : db := (run (reject_scep_request "operator" 1) [] d_queued).2.
Example decisions :
  (send 100 "enrol" (tables "false" 50)).1 = Ok (Message200 PendingReply)
  /\ certs (core d_queued) = certs d0
  /\ (r_status <$> requests (run (approve_scep_request (at_ 110) 1) [] d_queued).2) = [Approved]
  /\ (run (approve_scep_request (at_ 110) 1) [false] d_queued) = (Ok (Error 500), d_queued)
  /\ (run (approve_scep_request (at_ 110) 1) [] d_rejected) = (Ok (Error 400), d_rejected)
  /\ (send 120 "poll" d_rejected).1 = Ok (Message200 (Failure FAIL_BAD_REQUEST)).
Proof. repeat split; by vm_compute. Qed.

Definition later : list (op * list bool) :=
  [(Approve (at_ 120) 1, []); (Reject "other" 1, [false]);
   (Message (at_ 130) {| v_ca := root; v_ca_pem := "ROOT"; v_challenge := Some "secret"; v_auto_approve := true;
                         v_challenge_expired := false; v_template := None; v_intune := false; v_profile := None |} "renew-with-secret", [])].
Lemma scep_decided_once_witness :
  well_formed (requests (perform_all later d_rejected)) /\ evolution (requests d_rejected) (requests (perform_all later d_rejected))
  /\ forall r, r ∈ requests d_rejected -> r_status r <> Pending ->
       r ∈ requests (perform_all later d_rejected)
       /\ forall r', r' ∈ requests (perform_all later d_rejected) -> transaction_of r' = transaction_of r -> r' = r.
Proof.
  apply (scep_decided_once later d_rejected). split.
  - apply (bool_decide_unpack _). by vm_compute.
  - apply (bool_decide_unpack _). by vm_compute.
  - intros r Hr%list_elem_of_In. destruct Hr as [<-|[]]. cbn. split; [done|]. by intros [? ?].
Defined.

(* an expired challenge does not strand what is enrolled, says the code; but a renewal, signed
   by the certificate it renews, is refused unless it still carries the expired password *)
Lemma expired_challenge_asked_of_renewals :
  let d := tables "true" (50 - 24 * hour_us) in
  _validate_renewal (core d) root "ROOT" {| x_der := "LEAF"; x_serial_number := 171; x_subject := "CN=LEAF";
    x_spki := Some "key of LEAF"; x_not_before := 0; x_not_after := 5000; x_sans := Some (Some [("DNSName", "a.example")]) |}
    (q_request csr) 100 = None
  /\ (send 100 "renew" d).1 = Ok (Message200 (Failure FAIL_BAD_MESSAGE_CHECK))
  /\ (send 100 "renew-with-secret" d).1 = Ok (Message200 (CertReply "OTHER")).
Proof. repeat split; by vm_compute. Qed.
End Enrolments.
