(* ===== verification/Fnmatch.v ===== *)
(** * Fnmatch: the patterns of Python's fnmatch

    [fnmatchcase], with which [backend/services/ssh_cert/signing.py] compares principals with the
    patterns of a CA: [*], [?] and classes of characters with ranges, negated by [!]. A class
    that is never closed is a literal bracket. The translation to a regular expression is
    followed to its corners: a range whose ends are in the wrong order is dropped, and an
    exclamation mark that thereby comes first negates. *)

From Stdlib Require Import Ascii String.
From stdpp Require Import prelude strings.
From S2P Require Import Prelude.

Local Open Scope char_scope.

Inductive tok := Star | AnyChar | Class (negated : bool) (ranges : list (ascii * ascii)) | Lit (c : ascii).

Fixpoint upto_bracket (p : list ascii) : option (list ascii) :=
  match p with
  | [] => None
  | c :: p' => if Ascii.eqb c "]" then Some [] else cons c <$> upto_bracket p'
  end.

(* after a bracket: whether it is negated, and its members; None when it is not closed *)
Definition read_class (p : list ascii) : option (bool * list ascii) :=
  let '(negated, p1) := match p with "!" :: p' => (true, p') | _ => (false, p) end in
  members ← match p1 with "]" :: p2 => cons "]" <$> upto_bracket p2 | _ => upto_bracket p1 end;
  Some (negated, members).
Definition class_length (negated : bool) (members : list ascii) : nat := (if negated then 1 else 0) + length members + 1.

Inductive item := One (c : ascii) | Range (lo hi : ascii).
Fixpoint items (l : list ascii) : list item :=
  match l with
  | x :: ("-" :: (y :: l') as l1) => Range x y :: items l'
  | x :: l' => One x :: items l'
  | [] => []
  end.
Definition in_order (lo hi : ascii) : bool := (nat_of_ascii lo <=? nat_of_ascii hi)%nat.
Definition kept (i : item) : bool := match i with One _ => true | Range lo hi => in_order lo hi end.
Definition range_of (i : item) : ascii * ascii := match i with One c => (c, c) | Range lo hi => (lo, hi) end.

(* the first range is in the wrong order: what follows it comes first *)
Definition first_dropped (l : list item) : bool := match l with i :: _ => negb (kept i) | [] => false end.
Definition class_of (negated : bool) (members : list ascii) : tok :=
  let l := items members in
  let rest := List.filter kept l in
  match negated, first_dropped l, rest with
  | false, true, One "!" :: rest' => Class true (range_of <$> rest')
  | false, true, Range "!" c :: rest' => Class true (("-", "-") :: (c, c) :: (range_of <$> rest'))
  | _, _, _ => Class negated (range_of <$> rest)
  end.

(* skip: characters of a class already read *)
Fixpoint translate_from (skip : nat) (p : list ascii) : list tok :=
  match p with
  | [] => []
  | c :: p' =>
      match skip with
      | S n => translate_from n p'
      | O =>
          if Ascii.eqb c "*" then Star :: translate_from O p'
          else if Ascii.eqb c "?" then AnyChar :: translate_from O p'
          else if Ascii.eqb c "[" then
            match read_class p' with
            | Some (negated, members) => class_of negated members :: translate_from (class_length negated members) p'
            | None => Lit c :: translate_from O p'
            end
          else Lit c :: translate_from O p'
      end
  end.
Definition translate : list ascii -> list tok := translate_from O.

Definition tok_matches (t : tok) (c : ascii) : bool :=
  match t with
  | Star => false
  | AnyChar => true
  | Class negated l => xorb negated (existsb (fun r => in_order r.1 c && in_order c r.2) l)
  | Lit c' => Ascii.eqb c' c
  end.

Fixpoint match_toks (ts : list tok) (s : list ascii) : bool :=
  match ts with
  | [] => match s with [] => true | _ => false end
  | Star :: ts' =>
      (fix star (s : list ascii) : bool := match_toks ts' s || match s with [] => false | _ :: s' => star s' end) s
  | t :: ts' => match s with c :: s' => tok_matches t c && match_toks ts' s' | [] => false end
  end.

Definition fnmatchcase (name pat : string) : bool :=
  match_toks (translate (list_ascii_of_string pat)) (list_ascii_of_string name).

(** ** What a pattern matches *)

Inductive globs : list tok -> list ascii -> Prop :=
| globs_nil : globs [] []
| globs_star ts u v : globs ts v -> globs (Star :: ts) (u ++ v)
| globs_one t ts c s : tok_matches t c = true -> globs ts s -> globs (t :: ts) (c :: s).

Lemma match_toks_spec ts : forall s, match_toks ts s = true <-> globs ts s.
Proof.
  induction ts as [|t ts IH]; intros s.
  { cbn. destruct s; split; try done; [constructor|]. by inversion 1. }
  assert (t <> Star -> match_toks (t :: ts) s = true <-> globs (t :: ts) s) as Hone.
  { intros Ht. assert (match_toks (t :: ts) s = match s with c :: s' => tok_matches t c && match_toks ts s' | [] => false end) as ->
      by (by destruct t). destruct s as [|c s]; split; try done.
    - by inversion 1; subst.
    - intros [H1 H2]%andb_true_iff. constructor; [done|by apply IH].
    - intros H. inversion H; subst; [done|]. apply andb_true_iff. split; [done|by apply IH]. }
  destruct t; [|by apply Hone..]. clear Hone. split.
  - induction s as [|c s IHs]; cbn; intros [H|H]%orb_true_iff; try done.
    + apply (globs_star ts [] []). by apply IH.
    + apply (globs_star ts [] (c :: s)). by apply IH.
    + specialize (IHs H). inversion IHs as [|ts' u v Hv| ]; subst; [|done]. by apply (globs_star ts (c :: u) v).
  - intros H. inversion H as [|ts' u v Hv|]; subst; [|done]. clear H. apply IH in Hv. induction u as [|c u IHu].
    + cbn [app]. destruct v; cbn in *; by rewrite Hv.
    + cbn. apply orb_true_iff. by right.
Qed.

(* a pattern without * ? or [ names itself alone *)
Definition literal (p : list ascii) : bool := forallb (fun c => negb (Ascii.eqb c "*" || Ascii.eqb c "?" || Ascii.eqb c "[")) p.
Lemma translate_literal p : literal p = true -> translate p = Lit <$> p.
Proof.
  unfold translate. induction p as [|c p IH]; [done|]. cbn. intros [Hc Hp]%andb_true_iff.
  rewrite !negb_orb in Hc. apply andb_true_iff in Hc as [[H1%negb_true_iff H2%negb_true_iff]%andb_true_iff H3%negb_true_iff].
  rewrite H1, H2, H3. by rewrite IH.
Qed.
Lemma fnmatch_literal name pat : literal (list_ascii_of_string pat) = true -> fnmatchcase name pat = true <-> name = pat.
Proof.
  intros H. unfold fnmatchcase. rewrite (translate_literal _ H). clear H.
  assert (forall p s, match_toks (Lit <$> p) s = true <-> s = p) as Hm.
  { induction p as [|c p IH]; intros s; cbn; [by destruct s|]. destruct s as [|c' s]; [done|].
    rewrite andb_true_iff, IH, Ascii.eqb_eq. naive_solver. }
  rewrite Hm. split; [|by intros ->]. intros E. by rewrite <- (string_of_list_ascii_of_string name), E, string_of_list_ascii_of_string.
Qed.

Example patterns :
  fnmatchcase "web-01.example" "web-*.example" = true /\ fnmatchcase "alice" "[a-c]l?ce" = true
  /\ fnmatchcase "alice" "[!a]*" = false /\ fnmatchcase "[x" "[x" = true /\ fnmatchcase "]" "[]a]" = true
  /\ fnmatchcase "b" "[z-a]" = false /\ fnmatchcase "b" "[!z-a]" = true /\ fnmatchcase "b" "[z-a!b]" = false
  /\ fnmatchcase "-" "[a-c-]" = true /\ fnmatchcase "" "*" = true.
Proof. by vm_compute. Qed.
