(* ===== verification/SshCerts.v ===== *)
(** * SshCerts: SSH certificate authorities

    Models [backend/services/ssh_ca_service.py], [backend/services/ssh_cert] and
    [backend/services/ssh_krl_service.py] over the tables of [backend/models/ssh.py]: creation, import,
    change and deletion of SSH CAs, signing, import, revocation and deletion of certificates,
    and the revocation list. Keys and certificates are read and signed by the cryptography
    package, and ssh-keygen compiles the list: the class [SshLibrary]. The columns that only
    describe a row are left out. *)

From Stdlib Require Import Ascii String.
From stdpp Require Import prelude strings.
From S2P Require Import Prelude Json Scalars Session Fnmatch.

Local Open Scope string_scope.
Local Open Scope Z_scope.

(** ** Tables *)

Definition VALID_CERT_TYPES : list string := ["user"; "host"].
Definition STANDARD_EXTENSIONS : list string :=
  ["permit-pty"; "permit-user-rc"; "permit-agent-forwarding"; "permit-port-forwarding"; "permit-X11-forwarding"].

Record SSHCertificateAuthority := {
  s_id : Z;
  s_descr : string;
  s_type : string;
  s_public_key : string;
  s_private_key : string;                   (* the key it holds *)
  s_key_type : string;
  s_fingerprint : string;
  s_serial_counter : Z;
  s_default_ttl : option Z;
  s_max_ttl : option Z;
  s_default_extensions : option json;       (* None: the column is NULL *)
  s_allowed_principals : list string;       (* NULL reads as an empty list *)
  s_allow_any_principal : bool;
  s_allow_custom_key_id : bool;
}.

Abbreviation options := (list (string * option string)).       (* a dict; None is null *)

Record SSHCertificate := {
  h_id : Z;
  h_ca : Z;
  h_type : string;
  h_key_id : string;
  h_public_key : string;
  h_certificate : string;
  h_principals : list string;
  h_serial : Z;
  h_valid_from : Z;                          (* seconds *)
  h_valid_to : Z;
  h_extensions : options;
  h_critical_options : options;
  h_revoked : bool;
  h_revoked_at : option Z;
  h_revoke_reason : option string;
  h_source : string;
}.

Record db := { ssh_cas : list SSHCertificateAuthority; ssh_certs : list SSHCertificate }.
Definition with_cas (f : list SSHCertificateAuthority -> list SSHCertificateAuthority) (d : db) : db :=
  {| ssh_cas := f (ssh_cas d); ssh_certs := ssh_certs d |}.
Definition with_ssh_certs (f : list SSHCertificate -> list SSHCertificate) (d : db) : db :=
  {| ssh_cas := ssh_cas d; ssh_certs := f (ssh_certs d) |}.
Definition find_ssh_ca (d : db) (i : Z) : option SSHCertificateAuthority := List.find (fun a => s_id a =? i) (ssh_cas d).
Definition find_ssh_cert (d : db) (i : Z) : option SSHCertificate := List.find (fun c => h_id c =? i) (ssh_certs d).
Definition next_id (l : list Z) : Z := 1 + fold_left Z.max l 0.

(** ** What the libraries read and write *)

(* what is given to the builder *)
Record to_sign := {
  t_public_key : string;
  t_serial : Z;
  t_type : string;
  t_key_id : string;
  t_principals : list string;
  t_valid_after : Z;
  t_valid_before : Z;
  t_extensions : list (string * string);
  t_critical_options : list (string * string);
}.
Record decoded := { de_fields : to_sign; de_ca_key : string; de_signature_valid : bool }.
Inductive identity := PublicKey (key : string) | Certificate (c : decoded).

Class SshLibrary := {
  load_identity : string -> option identity;            (* load_ssh_public_identity; None: raises *)
  load_private : string -> option string;               (* the public key of a private one *)
  detect_key_type : string -> string;
  compute_fingerprint : string -> string;
  serialize_key : string -> string;
  builder_sign : string -> to_sign -> option string;    (* with the stored private key; None: raises *)
  eddsa_key : string -> bool;
}.

(* FipsRestricted, any other ValueError, a commit that failed, anything else *)
Inductive exc := Restricted | Refused | NotPersisted | Broken.
Abbreviation Act := (M db exc).

Record env := {
  now : Z;
  fips : bool;
  fresh_key : string -> result exc (string * string);   (* a new key of a type: public, stored private *)
}.

Definition refuse_eddsa_key `{!SshLibrary} (ev : env) (data : string) : bool := fips ev && eddsa_key data.
Definition refuse_unusable_ca (ev : env) (a : SSHCertificateAuthority) : bool := (s_key_type a =? "ed25519")%string && fips ev.

(** ** Certificate authorities *)

Definition KEY_TYPE_MAP : list string := ["ed25519"; "rsa"; "ecdsa-p256"; "ecdsa-p384"; "ecdsa-p521"].
Definition default_key_type (ev : env) : string := if fips ev then "ecdsa-p256" else "ed25519".
Definition normalize_key_type (ev : env) (value : option string) : string :=
  let text := lower (strip (default "" value)) in
  let key_type := if nonempty text then text else default_key_type ev in
  if (key_type =? "ecdsa")%string then "ecdsa-p256" else key_type.

Definition DEFAULT_USER_TTL : Z := 86400.
Definition DEFAULT_HOST_TTL : Z := 31536000.

(* the list that bounds what may be requested; None: it cannot be read as one *)
Definition iterate (v : json) : option (list json) :=
  match v with
  | JList l => Some l
  | JStr s => Some ((fun c => JStr (String c "")) <$> list_ascii_of_string s)
  | JObj o => Some ((fun p => JStr p.1) <$> o)
  | _ => None
  end.
Definition get_default_extensions (a : SSHCertificateAuthority) : json :=
  match s_default_extensions a with None => strs STANDARD_EXTENSIONS | Some v => v end.

Record ca_args := {
  g_descr : string;
  g_type : string;
  g_default_ttl : pyval;                    (* VNone: not given *)
  g_max_ttl : pyval;
  g_allowed_principals : option (list string);
  g_allow_any_principal : bool;
  g_allow_custom_key_id : bool;
}.

(* of the routes *)
Definition _allowed_principals (data : obj) : result exc (option (list string)) :=
  match dget data "allowed_principals" with
  | None => Ok None
  | Some (JList l) =>
      if forallb (fun v => match v with JStr p => nonempty (strip p) | _ => false end) l
      then Ok (Some (omap (fun v => match v with JStr p => Some (strip p) | _ => None end) l))
      else Raise Refused
  | Some _ => Raise Refused
  end.
Definition _opt_in (data : obj) (name : string) : result exc bool :=
  match member data name with None => Ok false | Some (JBool b) => Ok b | Some _ => Raise Refused end.

Definition duration (v : pyval) (field : string) : result exc Z :=
  match parse_duration_seconds v field with Ok s => Ok s | Raise _ => Raise Refused end.
Definition default_ttl_of (ca_type : string) (v : pyval) : result exc Z :=
  match v with
  | VNone => Ok (if (ca_type =? "user")%string then DEFAULT_USER_TTL else DEFAULT_HOST_TTL)
  | v => duration v "default_ttl"
  end.
Definition max_ttl_of (v : pyval) : result exc (option Z) :=
  match v with
  | VNone => Ok None
  | v => match duration v "max_ttl" with Ok s => Ok (Some s) | Raise e => Raise e end
  end.

Definition new_ca (g : ca_args) (id : Z) (public private key_type fingerprint : string) (ttl : Z) (max_ttl : option Z)
    (extensions : option json) : SSHCertificateAuthority :=
  {| s_id := id; s_descr := g_descr g; s_type := g_type g; s_public_key := public; s_private_key := private;
     s_key_type := key_type; s_fingerprint := fingerprint; s_serial_counter := 0; s_default_ttl := Some ttl;
     s_max_ttl := max_ttl; s_default_extensions := extensions; s_allowed_principals := default [] (g_allowed_principals g);
     s_allow_any_principal := g_allow_any_principal g; s_allow_custom_key_id := g_allow_custom_key_id g |}.

Definition store_ca (mk : Z -> SSHCertificateAuthority) : Act SSHCertificateAuthority :=
  id ← gets (fun d => next_id (s_id <$> ssh_cas d));
  _ ← modify (with_cas (fun l => l ++ [mk id])%list);
  ok ← commit;
  if ok : bool then mret (mk id) else raise NotPersisted.

Section Ssh.
Context `{!SshLibrary}.

Definition create_ca (ev : env) (g : ca_args) (key_type : option string) (extensions : option json) : Act SSHCertificateAuthority :=
  if negb (str_in (g_type g) VALID_CERT_TYPES) then raise Refused
  else
    let key_type := normalize_key_type ev key_type in
    if negb (str_in key_type KEY_TYPE_MAP) then raise Refused
    else match default_ttl_of (g_type g) (g_default_ttl g), max_ttl_of (g_max_ttl g), fresh_key ev key_type with
    | Ok ttl, Ok max_ttl, Ok (public, private) =>
        let extensions := match extensions with
                          | None => if (g_type g =? "user")%string then Some (strs STANDARD_EXTENSIONS) else None
                          | o => o
                          end in
        store_ca (fun id => new_ca g id (serialize_key public) private key_type (compute_fingerprint public) ttl max_ttl extensions)
    | Raise e, _, _ | Ok _, Raise e, _ | Ok _, Ok _, Raise e => raise e
    end.

Definition import_ca (ev : env) (g : ca_args) (private_key_pem : string) : Act SSHCertificateAuthority :=
  if negb (str_in (g_type g) VALID_CERT_TYPES) then raise Refused
  else if refuse_eddsa_key ev private_key_pem then raise Restricted
  else match load_private private_key_pem with
  | None => raise Refused
  | Some public =>
      known ← gets (fun d => existsb (fun a => (s_fingerprint a =? compute_fingerprint public)%string) (ssh_cas d));
      if known : bool then raise Refused
      else match default_ttl_of (g_type g) (g_default_ttl g), max_ttl_of (g_max_ttl g) with
      | Ok ttl, Ok max_ttl =>
          store_ca (fun id => new_ca g id (serialize_key public) private_key_pem (detect_key_type public)
                                (compute_fingerprint public) ttl max_ttl
                                (if (g_type g =? "user")%string then Some (strs STANDARD_EXTENSIONS) else None))
      | Raise e, _ | _, Raise e => raise e
      end
  end.

(* update_ca: what is given *)
Record ca_changes := {
  u_descr : option string;
  u_default_ttl : option pyval;
  u_max_ttl : option pyval;
  u_allow_any_principal : option bool;
  u_allow_custom_key_id : option bool;
  u_default_extensions : option (option json);
  u_allowed_principals : option (option (list string));
}.
Definition ttl_change (old : option Z) (v : option pyval) (field : string) : result exc (option Z) :=
  match v with
  | None => Ok old
  | Some VNone => Ok None
  | Some v => match duration v field with Ok s => Ok (Some s) | Raise e => Raise e end
  end.
Definition changed_ca (u : ca_changes) (a : SSHCertificateAuthority) : result exc SSHCertificateAuthority :=
  match ttl_change (s_default_ttl a) (u_default_ttl u) "default_ttl", ttl_change (s_max_ttl a) (u_max_ttl u) "max_ttl" with
  | Ok ttl, Ok max_ttl =>
      Ok {| s_id := s_id a; s_descr := default (s_descr a) (u_descr u); s_type := s_type a; s_public_key := s_public_key a;
            s_private_key := s_private_key a; s_key_type := s_key_type a; s_fingerprint := s_fingerprint a;
            s_serial_counter := s_serial_counter a; s_default_ttl := ttl; s_max_ttl := max_ttl;
            s_default_extensions := default (s_default_extensions a) (u_default_extensions u);
            s_allowed_principals := match u_allowed_principals u with Some o => default [] o | None => s_allowed_principals a end;
            s_allow_any_principal := default (s_allow_any_principal a) (u_allow_any_principal u);
            s_allow_custom_key_id := default (s_allow_custom_key_id a) (u_allow_custom_key_id u) |}
  | Raise e, _ | Ok _, Raise e => Raise e
  end.
Definition apply_changes (u : ca_changes) (a : SSHCertificateAuthority) : SSHCertificateAuthority :=
  match changed_ca u a with Ok a' => a' | Raise _ => a end.
Definition set_ca (i : Z) (f : SSHCertificateAuthority -> SSHCertificateAuthority) : db -> db :=
  with_cas (update_first (fun a => s_id a =? i) f).

Definition update_ca (ca_id : Z) (u : ca_changes) : Act SSHCertificateAuthority :=
  row ← gets (fun d => find_ssh_ca d ca_id);
  match row with
  | None => raise Refused
  | Some a =>
      match changed_ca u a with
      | Raise e => raise e
      | Ok a' => _ ← modify (set_ca ca_id (apply_changes u)); ok ← commit; if ok : bool then mret a' else raise NotPersisted
      end
  end.

Definition delete_ca (ca_id : Z) : Act unit :=
  row ← gets (fun d => find_ssh_ca d ca_id);
  match row with
  | None => raise Refused
  | Some a =>
      issued ← gets (fun d => existsb (fun c => h_ca c =? ca_id) (ssh_certs d));
      if issued : bool then raise Refused
      else _ ← modify (with_cas (List.filter (fun a => negb (s_id a =? ca_id)))); ok ← commit;
           if ok : bool then mret tt else raise NotPersisted
  end.

Definition counted (a : SSHCertificateAuthority) : SSHCertificateAuthority :=
  {| s_id := s_id a; s_descr := s_descr a; s_type := s_type a; s_public_key := s_public_key a;
     s_private_key := s_private_key a; s_key_type := s_key_type a; s_fingerprint := s_fingerprint a;
     s_serial_counter := s_serial_counter a + 1; s_default_ttl := s_default_ttl a; s_max_ttl := s_max_ttl a;
     s_default_extensions := s_default_extensions a; s_allowed_principals := s_allowed_principals a;
     s_allow_any_principal := s_allow_any_principal a; s_allow_custom_key_id := s_allow_custom_key_id a |}.
Definition get_next_serial (ca_id : Z) : Act Z :=
  row ← gets (fun d => find_ssh_ca d ca_id);
  match row with
  | None => raise Refused
  | Some a => _ ← modify (set_ca ca_id counted); ok ← commit;
              if ok : bool then mret (s_serial_counter a + 1) else raise NotPersisted
  end.

(** ** Signing *)

Inductive ext_request := ExtList (l : list string) | ExtDict (o : options).

Record sign_args := {
  i_public_key : string;
  i_type : string;
  i_principals : list string;
  i_validity : option Z;
  i_key_id : option string;
  i_extensions : option ext_request;
  i_critical_options : option options;
}.

Definition ssh_prefixes : list string :=
  ["ssh-ed25519"; "ssh-rsa"; "ecdsa-sha2-nistp256"; "ecdsa-sha2-nistp384"; "ecdsa-sha2-nistp521"].
Definition _parse_public_key (ev : env) (pub_key_data : string) : result exc identity :=
  let data := strip pub_key_data in
  if refuse_eddsa_key ev data then Raise Restricted
  else match head (omap load_identity (data :: ((fun prefix => prefix ++ " " ++ data) <$> ssh_prefixes))) with
       | Some id => Ok id
       | None => Raise Refused
       end.

(* a principal is allowed by a pattern of the CA, or the CA lists none and allows any *)
Definition principal_allowed (a : SSHCertificateAuthority) (p : string) : bool :=
  match s_allowed_principals a with
  | [] => s_allow_any_principal a
  | patterns => existsb (fnmatchcase p) patterns
  end.

Definition default_key_id (a : SSHCertificateAuthority) (principals : list string) : string :=
  join "," principals ++ "@" ++ s_descr a.
Definition key_id_for (a : SSHCertificateAuthority) (principals : list string) (key_id : option string) : result exc string :=
  let asked := strip (default "" key_id) in
  let own := default_key_id a principals in
  if nonempty asked && negb (asked =? own)%string && negb (s_allow_custom_key_id a) then Raise Refused
  else Ok (if nonempty asked then asked else own).

Definition validity_for (a : SSHCertificateAuthority) (validity : option Z) : Z :=
  let seconds := match validity with
                 | Some v => v
                 | None => match s_default_ttl a with None | Some 0 => 86400 | Some t => t end
                 end in
  match s_max_ttl a with
  | Some m => if (0 <? m) && (m <? seconds) then m else seconds
  | None => seconds
  end.

(* {e: '' for e in names}: a name once *)
Fixpoint dict_of (names : list string) : options :=
  match names with
  | [] => []
  | e :: l => (e, Some "") :: List.filter (fun p => negb (p.1 =? e)%string) (dict_of l)
  end.
Definition asked_extensions (r : ext_request) : options := match r with ExtList l => dict_of l | ExtDict o => o end.

Definition hashable (v : json) : bool := match v with JList _ | JObj _ => false | _ => true end.
Definition json_name (v : json) : option string := match v with JStr s => Some s | _ => None end.
Definition names_of (l : list json) : option (list string) := if forallb (fun v => bool_decide (is_Some (json_name v))) l
  then Some (omap json_name l) else None.

(* the extensions of a user certificate, checked against those of the CA; a type the code cannot handle raises *)
Definition extensions_for (a : SSHCertificateAuthority) (r : option ext_request) : result exc options :=
  match iterate (get_default_extensions a) with
  | None => Raise Broken
  | Some allowed =>
      match r with
      | Some r =>
          if negb (forallb hashable allowed) then Raise Broken
          else if forallb (fun p => str_in p.1 (omap json_name allowed)) (asked_extensions r) then Ok (asked_extensions r)
          else Raise Refused
      | None => match names_of allowed with Some l => Ok (dict_of l) | None => Raise Broken end
      end
  end.

(* sorted(d.items()), null written as the empty text *)
Fixpoint insert_option (p : string * option string) (l : list (string * string)) : list (string * string) :=
  match l with
  | [] => [(p.1, default "" p.2)]
  | q :: l' => if String.leb p.1 q.1 then (p.1, default "" p.2) :: q :: l' else q :: insert_option p l'
  end.
Definition sorted_options (o : options) : list (string * string) := foldr insert_option [] o.

Definition new_cert (a : SSHCertificateAuthority) (g : sign_args) (id serial t : Z) (key key_id text : string)
    (principals : list string) (validity : Z) (extensions : options) : SSHCertificate :=
  {| h_id := id; h_ca := s_id a; h_type := i_type g; h_key_id := key_id; h_public_key := serialize_key key;
     h_certificate := text; h_principals := principals; h_serial := serial; h_valid_from := t; h_valid_to := t + validity;
     h_extensions := extensions; h_critical_options := default [] (i_critical_options g); h_revoked := false;
     h_revoked_at := None; h_revoke_reason := None; h_source := "web" |}.

Definition store_cert (mk : Z -> SSHCertificate) : Act SSHCertificate :=
  id ← gets (fun d => next_id (h_id <$> ssh_certs d));
  _ ← modify (with_ssh_certs (fun l => l ++ [mk id])%list);
  ok ← commit;
  if ok : bool then mret (mk id) else raise NotPersisted.

(* a serial is spent: the key, the extensions and the signature, then the row *)
Definition sign_with (ev : env) (a : SSHCertificateAuthority) (g : sign_args) (principals : list string) (key_id key : string)
    (serial : Z) : Act SSHCertificate :=
  let validity := validity_for a (i_validity g) in
  let user := (i_type g =? "user")%string in
  if refuse_unusable_ca ev a then raise Restricted
  else if refuse_eddsa_key ev (s_private_key a) then raise Restricted
  else if negb (bool_decide (is_Some (load_private (s_private_key a)))) then raise Broken
  else match (if user then extensions_for a (i_extensions g) else Ok []) with
  | Raise e => raise e
  | Ok extensions =>
      let fields := {| t_public_key := key; t_serial := serial; t_type := i_type g; t_key_id := key_id; t_principals := principals;
                       t_valid_after := now ev; t_valid_before := now ev + validity;
                       t_extensions := sorted_options extensions;
                       t_critical_options := sorted_options (default [] (i_critical_options g)) |} in
      match builder_sign (s_private_key a) fields with
      | None => raise Broken
      | Some text =>
          let stored := if user then extensions else match i_extensions g with Some r => asked_extensions r | None => [] end in
          store_cert (fun id => new_cert a g id serial (now ev) key key_id text principals validity stored)
      end
  end.

Definition sign_certificate (ev : env) (ca_id : Z) (g : sign_args) : Act SSHCertificate :=
  row ← gets (fun d => find_ssh_ca d ca_id);
  match row with
  | None => raise Refused
  | Some a =>
      if negb (str_in (i_type g) VALID_CERT_TYPES) then raise Refused
      else if negb (s_type a =? i_type g)%string then raise Refused
      else if refuse_unusable_ca ev a then raise Restricted
      else
        let principals := List.filter nonempty (strip <$> i_principals g) in
        if bool_decide (principals = []) then raise Refused
        else if negb (forallb (principal_allowed a) principals) then raise Refused
        else match key_id_for a principals (i_key_id g), _parse_public_key ev (i_public_key g) with
        | Ok key_id, Ok (PublicKey key) =>
            serial ← get_next_serial ca_id;
            a' ← gets (fun d => find_ssh_ca d ca_id);
            match a' with
            | None => raise Refused
            | Some a' => sign_with ev a' g principals key_id key serial
            end
        | Ok _, Ok (Certificate _) => raise Broken
        | Raise e, _ | Ok _, Raise e => raise e
        end
  end.

Definition generate_and_sign (ev : env) (ca_id : Z) (g : sign_args) (key_type : option string) : Act (SSHCertificate * string) :=
  let key_type := normalize_key_type ev key_type in
  if negb (str_in key_type KEY_TYPE_MAP) then raise Refused
  else match fresh_key ev key_type with
  | Raise e => raise e
  | Ok (public, private) =>
      c ← sign_certificate ev ca_id
            {| i_public_key := serialize_key public; i_type := i_type g; i_principals := i_principals g; i_validity := i_validity g;
               i_key_id := i_key_id g; i_extensions := i_extensions g; i_critical_options := i_critical_options g |};
      mret (c, private)
  end.

(** ** Certificates signed elsewhere, revocation and deletion *)

Definition decode_certificate (ev : env) (cert_data : string) : result exc decoded :=
  if refuse_eddsa_key ev (strip cert_data) then Raise Restricted
  else match load_identity (strip cert_data) with
       | Some (Certificate c) => Ok c
       | _ => Raise Refused
       end.

Definition import_certificate (ev : env) (certificate_data : string) (ssh_ca_id : option Z) : Act SSHCertificate :=
  match decode_certificate ev certificate_data with
  | Raise e => raise e
  | Ok de =>
      let fingerprint := compute_fingerprint (de_ca_key de) in
      matched ← gets (fun d => match ssh_ca_id with
                               | Some i => List.find (fun a => (s_fingerprint a =? fingerprint)%string) (option_list (find_ssh_ca d i))
                               | None => List.find (fun a => (s_fingerprint a =? fingerprint)%string) (ssh_cas d)
                               end);
      match matched with
      | None => raise Refused
      | Some a =>
          let f := de_fields de in
          known ← gets (fun d => existsb (fun c => (h_ca c =? s_id a) && (h_serial c =? t_serial f)) (ssh_certs d));
          if known : bool then raise Refused
          else store_cert (fun id =>
            {| h_id := id; h_ca := s_id a; h_type := t_type f; h_key_id := t_key_id f; h_public_key := serialize_key (t_public_key f);
               h_certificate := strip certificate_data; h_principals := t_principals f; h_serial := t_serial f;
               h_valid_from := t_valid_after f; h_valid_to := t_valid_before f;
               h_extensions := (fun p => (p.1, Some p.2)) <$> t_extensions f;
               h_critical_options := (fun p => (p.1, Some p.2)) <$> t_critical_options f; h_revoked := false;
               h_revoked_at := None; h_revoke_reason := None; h_source := "imported" |})
      end
  end.

Definition set_revoked (t : Z) (reason : string) (c : SSHCertificate) : SSHCertificate :=
  {| h_id := h_id c; h_ca := h_ca c; h_type := h_type c; h_key_id := h_key_id c; h_public_key := h_public_key c;
     h_certificate := h_certificate c; h_principals := h_principals c; h_serial := h_serial c; h_valid_from := h_valid_from c;
     h_valid_to := h_valid_to c; h_extensions := h_extensions c; h_critical_options := h_critical_options c; h_revoked := true;
     h_revoked_at := Some t; h_revoke_reason := Some reason; h_source := h_source c |}.

Definition revoke_certificate (ev : env) (cert_id : Z) (reason : string) : Act unit :=
  row ← gets (fun d => find_ssh_cert d cert_id);
  match row with
  | None => raise Refused
  | Some c =>
      if h_revoked c then raise Refused
      else _ ← modify (with_ssh_certs (update_first (fun c => h_id c =? cert_id) (set_revoked (now ev) reason)));
           ok ← commit; if ok : bool then mret tt else raise NotPersisted
  end.

Definition delete_certificate (ev : env) (cert_id : Z) : Act unit :=
  row ← gets (fun d => find_ssh_cert d cert_id);
  match row with
  | None => raise Refused
  | Some c =>
      if negb (h_revoked c) && (now ev <? h_valid_to c) then raise Refused
      else _ ← modify (with_ssh_certs (List.filter (fun c => negb (h_id c =? cert_id))));
           ok ← commit; if ok : bool then mret tt else raise NotPersisted
  end.

(** ** The revocation list: what ssh-keygen is given *)

Definition revoked_rows (d : db) (ca_id : Z) : list SSHCertificate :=
  List.filter (fun c => (h_ca c =? ca_id) && h_revoked c) (ssh_certs d).
Definition newline : string := String (ascii_of_nat 10) "".
Definition krl_lines (l : list SSHCertificate) : string := fold_right (fun c s => "serial: " ++ py_str (h_serial c) ++ newline ++ s) "" l.
(* the CA key the serials are of, and the file *)
Definition generate_krl (d : db) (ca_id : Z) : result exc (string * string) :=
  match find_ssh_ca d ca_id with
  | None => Raise Refused
  | Some a => Ok (s_public_key a, krl_lines (revoked_rows d ca_id))
  end.
End Ssh.
