(* ===== verification/SshSafety.v ===== *)
(** * SshSafety: what an SSH CA signs, serials, and the revocation list

    A certificate is signed within what its CA allows; serials given out by a CA are never
    given twice; what is revoked is on every revocation list until it is deleted. *)

From Stdlib Require Import Ascii String.
From stdpp Require Import prelude strings.
From S2P Require Import Prelude Json Scalars Session Fnmatch SshCerts.

Local Open Scope string_scope.
Local Open Scope Z_scope.

Section Safety.
Context {L : SshLibrary}.

(** ** What signing leaves *)

(* what the CA row allows, of the row that is stored and of what is signed *)
Record within_policy (ev : env) (a : SSHCertificateAuthority) (c : SSHCertificate) : Prop := {
  po_type : h_type c = s_type a /\ h_type c ∈ VALID_CERT_TYPES;
  po_principals : h_principals c <> [] /\ forall p, p ∈ h_principals c -> nonempty p = true
    /\ ((exists pattern, pattern ∈ s_allowed_principals a
                         /\ globs (translate (list_ascii_of_string pattern)) (list_ascii_of_string p))
        \/ s_allowed_principals a = [] /\ s_allow_any_principal a = true);
  po_key_id : h_key_id c = default_key_id a (h_principals c) \/ s_allow_custom_key_id a = true;
  po_validity : h_valid_from c = now ev
    /\ forall m, s_max_ttl a = Some m -> 0 < m -> h_valid_to c <= now ev + m;
  po_extensions : h_type c = "user" -> exists allowed, iterate (get_default_extensions a) = Some allowed
    /\ forall e, e ∈ (h_extensions c).*1 -> JStr e ∈ allowed;
  po_serial : h_ca c = s_id a /\ h_serial c = s_serial_counter a + 1;
  po_signed : exists key, h_public_key c = serialize_key key /\
    builder_sign (s_private_key a)
      {| t_public_key := key; t_serial := h_serial c; t_type := h_type c; t_key_id := h_key_id c; t_principals := h_principals c;
         t_valid_after := h_valid_from c; t_valid_before := h_valid_to c;
         t_extensions := if (h_type c =? "user")%string then sorted_options (h_extensions c) else [];
         t_critical_options := sorted_options (h_critical_options c) |} = Some (h_certificate c);
  po_fresh : h_revoked c = false /\ h_source c = "web";
}.

Lemma principal_allowed_spec a p : principal_allowed a p = true ->
  (exists pattern, pattern ∈ s_allowed_principals a /\ globs (translate (list_ascii_of_string pattern)) (list_ascii_of_string p))
  \/ s_allowed_principals a = [] /\ s_allow_any_principal a = true.
Proof.
  unfold principal_allowed. destruct (s_allowed_principals a) as [|x l]; [by right|].
  intros (y & Hy & Hm)%existsb_exists. left. exists y. split; [by apply list_elem_of_In|by apply match_toks_spec].
Qed.
Lemma dict_of_names l e : e ∈ (dict_of l).*1 -> e ∈ l.
Proof.
  induction l as [|x l IH]; cbn; [done|]. rewrite !elem_of_cons. intros [->|H]; [by left|]. right. apply IH.
  apply list_elem_of_fmap in H as (p & -> & H). apply list_elem_of_fmap. exists p. split; [done|].
  apply list_elem_of_In, List.filter_In in H as [H _]. by apply list_elem_of_In.
Qed.
Lemma names_of_elem l names e : names_of l = Some names -> e ∈ names -> JStr e ∈ l.
Proof.
  unfold names_of. destruct (forallb _ l); [|done]. intros [= <-] (v & Hv & E)%list_elem_of_omap.
  destruct v; try done. by injection E as <-.
Qed.
Lemma extensions_allowed a r o : extensions_for a r = Ok o ->
  exists allowed, iterate (get_default_extensions a) = Some allowed /\ forall e, e ∈ o.*1 -> JStr e ∈ allowed.
Proof.
  unfold extensions_for. destruct (iterate _) as [allowed|]; [|done]. intros H. exists allowed. split; [done|].
  destruct r as [r|].
  - destruct (negb _); [done|]. destruct (forallb _ (asked_extensions r)) eqn:Ha; [|done]. injection H as <-.
    intros e (p & -> & Hp)%list_elem_of_fmap. rewrite forallb_forall in Ha. apply list_elem_of_In, Ha, str_in_spec in Hp.
    apply list_elem_of_omap in Hp as (v & Hv & E). destruct v; try done. by injection E as <-.
  - destruct (names_of allowed) as [names|] eqn:En; [|done]. injection H as <-. intros e He%dict_of_names. by eapply names_of_elem.
Qed.
Lemma ssh_validity_capped a v m : s_max_ttl a = Some m -> 0 < m -> validity_for a v <= m.
Proof. unfold validity_for. intros ->. destruct (0 <? m) eqn:E; [|lia]. cbn. intros _. destruct (m <? _) eqn:E'; lia. Qed.
Lemma key_id_cases a principals k key_id : key_id_for a principals k = Ok key_id ->
  key_id = default_key_id a principals \/ s_allow_custom_key_id a = true.
Proof.
  unfold key_id_for. destruct (nonempty (strip (default "" k))) eqn:En; cbn; [|intros [= <-]; by left].
  destruct (_ =? _)%string eqn:Ee; cbn; [apply String.eqb_eq in Ee; intros [= <-]; by left|].
  destruct (s_allow_custom_key_id a); [by right|done].
Qed.

(** ** How each call changes the tables *)

Definition next_cert_id (d : db) : Z := next_id (h_id <$> ssh_certs d).

Inductive step (deletes : Z -> Prop) (d : db) : db -> Prop :=
| step_none : step deletes d d
| step_new_ca a : s_id a = next_id (s_id <$> ssh_cas d) -> s_serial_counter a = 0 -> step deletes d (with_cas (fun l => l ++ [a])%list d)
| step_change_ca i f :
    (forall a, s_id (f a) = s_id a /\ s_public_key (f a) = s_public_key a /\ s_serial_counter a <= s_serial_counter (f a)) ->
    step deletes d (set_ca i f d)
| step_delete_ca i : (forall c, c ∈ ssh_certs d -> h_ca c <> i) ->
    step deletes d (with_cas (List.filter (fun a => negb (s_id a =? i))) d)
| step_signed ev a c : find_ssh_ca d (h_ca c) = Some a -> within_policy ev a c -> h_id c = next_cert_id d ->
    step deletes d (with_ssh_certs (fun l => l ++ [c])%list (set_ca (h_ca c) counted d))
| step_imported c : h_source c = "imported" -> h_id c = next_cert_id d ->
    step deletes d (with_ssh_certs (fun l => l ++ [c])%list d)
| step_revoked i t reason c : find_ssh_cert d i = Some c -> h_revoked c = false ->
    step deletes d (with_ssh_certs (update_first (fun c => h_id c =? i) (set_revoked t reason)) d)
| step_deleted i : deletes i -> step deletes d (with_ssh_certs (List.filter (fun c => negb (h_id c =? i))) d).

Definition raised {A} (r : result exc A) : Prop := exists e, r = Raise e.
Ltac gives_up := left; split; [solve [auto]|unfold raised; eexists; reflexivity].

Lemma store_cert_effect mk d l : committed (store_cert mk (Session d d l)).2 = d /\ raised (store_cert mk (Session d d l)).1
  \/ committed (store_cert mk (Session d d l)).2 = with_ssh_certs (fun l => l ++ [mk (next_cert_id d)])%list d
     /\ (store_cert mk (Session d d l)).1 = Ok (mk (next_cert_id d)).
Proof.
  unfold store_cert. rewrite bind_gets. unfold mbind, M_bind, modify, commit. cbn.
  destruct l as [|[] l]; cbn; [by right..|gives_up].
Qed.
Lemma serial_effect ca_id d l q w : get_next_serial ca_id (Session d d l) = (q, w) ->
  (committed w = d /\ raised q)
  \/ exists a l', find_ssh_ca d ca_id = Some a /\ q = Ok (s_serial_counter a + 1)
     /\ w = Session (set_ca ca_id counted d) (set_ca ca_id counted d) l'.
Proof.
  unfold get_next_serial. rewrite bind_gets. cbn [working]. destruct (find_ssh_ca d ca_id) as [a|]; [|intros [= <- <-]; gives_up].
  unfold mbind, M_bind, modify, commit. cbn. destruct l as [|[] l]; intros [= <- <-]; [right; eauto 8..|gives_up].
Qed.
Lemma find_counted d i a : find_ssh_ca d i = Some a -> find_ssh_ca (set_ca i counted d) i = Some (counted a).
Proof.
  unfold find_ssh_ca, set_ca. cbn. induction (ssh_cas d) as [|x l IH]; cbn; [done|].
  destruct (s_id x =? i) eqn:E; [intros [= ->]; cbn; by rewrite E|]. cbn. by rewrite E.
Qed.

(* the first row is that of the CA before its serial was counted *)
Lemma sign_with_effect ev a g principals key_id key serial d l :
  i_type g = s_type a -> i_type g ∈ VALID_CERT_TYPES -> principals <> [] ->
  (forall p, p ∈ principals -> nonempty p = true /\ principal_allowed a p = true) ->
  (key_id = default_key_id a principals \/ s_allow_custom_key_id a = true) -> serial = s_serial_counter a + 1 ->
  let out := sign_with ev (counted a) g principals key_id key serial (Session d d l) in
  committed out.2 = d /\ raised out.1 \/ exists c, committed out.2 = with_ssh_certs (fun l => l ++ [c])%list d /\ out.1 = Ok c
                                    /\ within_policy ev a c /\ h_id c = next_cert_id d.
Proof.
  intros Ht Hv Hp Hps Hk -> out. unfold out, sign_with. clear out.
  destruct (refuse_unusable_ca _ _); [gives_up|]. destruct (refuse_eddsa_key _ _); [gives_up|]. destruct (negb _); [gives_up|].
  destruct (if (i_type g =? "user")%string then extensions_for (counted a) (i_extensions g) else Ok []) as [ext|e] eqn:Ee; [|gives_up].
  destruct (builder_sign _ _) as [text|] eqn:Eb; [|gives_up].
  match goal with |- context [store_cert ?mk _] => destruct (store_cert_effect mk d l) as [H|[H1 H2]]; [by left|]; right;
    exists (mk (next_cert_id d)) end.
  split; [done|]. split; [done|]. split; [|done]. split; cbn.
  - done.
  - split; [done|]. intros p Hin. destruct (Hps p Hin) as [? ?]. split; [done|by apply principal_allowed_spec].
  - done.
  - split; [done|]. intros m Hm Hpos. pose proof (ssh_validity_capped (counted a) (i_validity g) m Hm Hpos). lia.
  - intros Hu. rewrite Hu in *. cbn in Ee. by apply extensions_allowed in Ee.
  - done.
  - exists key. split; [done|]. rewrite <- Eb. f_equal. f_equal. destruct (i_type g =? "user")%string; [done|]. by injection Ee as <-.
  - done.
Qed.

(* nothing, a serial spent, or a certificate *)
Definition sign_outcome (ev : env) (ca_id : Z) (d : db) (out : result exc SSHCertificate * session db) : Prop :=
  (committed out.2 = d \/ committed out.2 = set_ca ca_id counted d) /\ raised out.1
  \/ exists a c, find_ssh_ca d ca_id = Some a /\ within_policy ev a c /\ h_ca c = ca_id /\ h_id c = next_cert_id d
       /\ committed out.2 = with_ssh_certs (fun l => l ++ [c])%list (set_ca ca_id counted d) /\ out.1 = Ok c.
Lemma sign_effect ev ca_id g d l : sign_outcome ev ca_id d (sign_certificate ev ca_id g (Session d d l)).
Proof.
  unfold sign_certificate. rewrite bind_gets. cbn [working].
  destruct (find_ssh_ca d ca_id) as [a|] eqn:Ea; [|gives_up].
  destruct (str_in (i_type g) VALID_CERT_TYPES) eqn:Ev; [cbn [negb]|gives_up]. apply str_in_spec in Ev.
  destruct (s_type a =? i_type g)%string eqn:Et; [cbn [negb]|gives_up]. apply String.eqb_eq in Et.
  destruct (refuse_unusable_ca ev a); [gives_up|]. set (ps := List.filter nonempty (strip <$> i_principals g)).
  destruct (bool_decide (ps = [])) eqn:Ep; [gives_up|]. apply bool_decide_eq_false in Ep.
  destruct (forallb (principal_allowed a) ps) eqn:Eal; [cbn [negb]|gives_up].
  destruct (key_id_for a ps (i_key_id g)) as [key_id|e] eqn:Ek; [|gives_up].
  destruct (_parse_public_key ev (i_public_key g)) as [[key|]|e]; [|gives_up..].
  unfold mbind at 1, M_bind at 1. destruct (get_next_serial ca_id (Session d d l)) as [q w] eqn:Eq.
  destruct (serial_effect _ _ _ _ _ Eq) as [[Hw [e ->]]|(a' & l' & Ea' & -> & ->)]; [gives_up|].
  assert (a' = a) as -> by congruence. clear Eq. rewrite bind_gets. cbn [working]. rewrite (find_counted d ca_id a Ea).
  assert (s_id a = ca_id) as Hid by (by apply List.find_some in Ea as [_ ?%Z.eqb_eq]).
  assert (forall p, p ∈ ps -> nonempty p = true /\ principal_allowed a p = true) as Hps.
  { intros p Hin. split; [|rewrite forallb_forall in Eal; apply Eal; by apply list_elem_of_In].
    apply list_elem_of_In, List.filter_In in Hin as [_ Hin]. done. }
  destruct (sign_with_effect ev a g ps key_id key (s_serial_counter a + 1) (set_ca ca_id counted d) l' (eq_sym Et) Ev Ep Hps
    (key_id_cases _ _ _ _ Ek) eq_refl) as [H|(c & H1 & H2 & H3 & H4)]; [left; destruct H; by auto|].
  right. exists a, c. split_and!; try done. destruct (po_serial _ _ _ H3) as [E _]. congruence.
Qed.

(** C18. What an SSH CA signs: a certificate that is stored by a signing call is of the type
    of its CA, each of its principals matches a pattern of the CA (or the CA lists none and
    was told to sign for any), it carries the identity the CA gives unless the CA lets
    requesters choose, it does not outlive the CA's maximum, a user certificate has no
    extension outside the CA's list, its serial is the next one, and the signed fields
    are those of the row; nothing else changes but the counter. *)
Theorem ssh_signed_within_policy (ev : env) (ca_id : Z) (g : sign_args) (outcomes : list bool) (d d1 : db)
    (r : result exc SSHCertificate) (c : SSHCertificate)
  (Hrun : run (sign_certificate ev ca_id g) outcomes d = (r, d1)) (Hc : c ∈ ssh_certs d1) (Hnew : c ∉ ssh_certs d) :
  exists a, find_ssh_ca d ca_id = Some a /\ within_policy ev a c /\ r = Ok c
    /\ d1 = with_ssh_certs (fun l => l ++ [c])%list (set_ca ca_id counted d).
Proof.
  pose proof (sign_effect ev ca_id g d outcomes) as H. unfold run in Hrun.
  destruct (sign_certificate ev ca_id g (Session d d outcomes)) as [r' w]. injection Hrun as <- <-.
  destruct H as [[[E|E] _]|(a & c' & Ha & Hp & Hca & _ & E & Hr)]; cbn in E, Hc |- *; rewrite E in Hc; try done.
  cbn in Hc, Hr. apply elem_of_app in Hc as [?| ->%list_elem_of_singleton]; [done|]. exists a. by rewrite E, Hr.
Qed.

Lemma sign_raises_or_policy ev ca_id g outcomes d c : (run (sign_certificate ev ca_id g) outcomes d).1 = Ok c ->
  exists a, find_ssh_ca d ca_id = Some a /\ within_policy ev a c.
Proof.
  pose proof (sign_effect ev ca_id g d outcomes) as H. unfold run. destruct (sign_certificate _ _ _ _) as [r w]. cbn. intros ->.
  destruct H as [[_ [e He]]|(a & c' & Ha & Hp & _ & _ & _ & Hr)]; [done|]. injection Hr as <-. by exists a.
Qed.

(** ** Histories *)

Inductive op :=
| CreateCa (ev : env) (g : ca_args) (key_type : option string) (extensions : option json)
| ImportCa (ev : env) (g : ca_args) (private_key_pem : string)
| UpdateCa (ca_id : Z) (u : ca_changes)
| DeleteCa (ca_id : Z)
| Sign (ev : env) (ca_id : Z) (g : sign_args)
| Generate (ev : env) (ca_id : Z) (g : sign_args) (key_type : option string)
| ImportCert (ev : env) (data : string) (ssh_ca_id : option Z)
| Revoke (ev : env) (cert_id : Z) (reason : string)
| Delete (ev : env) (cert_id : Z).

Definition perform (o : op) (outcomes : list bool) (d : db) : db :=
  match o with
  | CreateCa ev g k e => (run (create_ca ev g k e) outcomes d).2
  | ImportCa ev g pem => (run (import_ca ev g pem) outcomes d).2
  | UpdateCa i u => (run (update_ca i u) outcomes d).2
  | DeleteCa i => (run (delete_ca i) outcomes d).2
  | Sign ev i g => (run (sign_certificate ev i g) outcomes d).2
  | Generate ev i g k => (run (generate_and_sign ev i g k) outcomes d).2
  | ImportCert ev data i => (run (import_certificate ev data i) outcomes d).2
  | Revoke ev i reason => (run (revoke_certificate ev i reason) outcomes d).2
  | Delete ev i => (run (delete_certificate ev i) outcomes d).2
  end.
Definition perform_all (ops : list (op * list bool)) (d : db) : db := fold_left (fun d o => perform o.1 o.2 d) ops d.
Definition deletes (o : op) (i : Z) : Prop := match o with Delete _ i' => i' = i | _ => False end.

Lemma run_committed {A} (c : Act A) outcomes d : (run c outcomes d).2 = committed (c (Session d d outcomes)).2.
Proof. unfold run. by destruct (c _). Qed.

Lemma store_ca_step D mk d l : (forall i, s_id (mk i) = i /\ s_serial_counter (mk i) = 0) ->
  step D d (committed (store_ca mk (Session d d l)).2).
Proof.
  intros Hmk. unfold store_ca. rewrite bind_gets. unfold mbind, M_bind, modify, commit. cbn.
  destruct l as [|[] l]; cbn; try constructor; apply Hmk.
Qed.
Lemma sign_step D ev i g d l : step D d (committed (sign_certificate ev i g (Session d d l)).2).
Proof.
  destruct (sign_effect ev i g d l) as [[[E|E] _]|(a & c & Ha & Hp & Hca & Hid & E & _)]; rewrite E.
  - constructor.
  - apply step_change_ca. intros a. cbn. split_and!; try done. lia.
  - rewrite <- Hca. apply (step_signed D d ev a); [by rewrite Hca|done|done].
Qed.
Lemma changed_keeps u a : s_id (apply_changes u a) = s_id a /\ s_public_key (apply_changes u a) = s_public_key a
  /\ s_serial_counter a <= s_serial_counter (apply_changes u a).
Proof. unfold apply_changes, changed_ca. repeat case_match; cbn; split_and!; try done; try lia; naive_solver. Qed.

Lemma create_step D ev g k e d l : step D d (committed (create_ca ev g k e (Session d d l)).2).
Proof. unfold create_ca. repeat case_match; try constructor; by apply store_ca_step. Qed.
Lemma import_ca_step D ev g pem d l : step D d (committed (import_ca ev g pem (Session d d l)).2).
Proof.
  unfold import_ca. destruct (negb _); [constructor|]. destruct (refuse_eddsa_key _ _); [constructor|].
  destruct (load_private pem) as [public|]; [|constructor]. rewrite bind_gets. destruct (existsb _ _); [constructor|].
  repeat case_match; try constructor; by apply store_ca_step.
Qed.
Lemma update_step D i u d l : step D d (committed (update_ca i u (Session d d l)).2).
Proof.
  unfold update_ca. rewrite bind_gets. cbn [working]. destruct (find_ssh_ca d i) as [a|]; [|constructor].
  destruct (changed_ca u a) as [a'|e]; [|constructor]. unfold mbind, M_bind, modify, commit. cbn.
  destruct l as [|[] l]; cbn; [| |constructor]; apply step_change_ca, changed_keeps.
Qed.
Lemma delete_ca_step D i d l : step D d (committed (delete_ca i (Session d d l)).2).
Proof.
  unfold delete_ca. rewrite bind_gets. cbn [working]. destruct (find_ssh_ca d i) as [a|]; [|constructor].
  rewrite bind_gets. cbn [working]. destruct (existsb _ _) eqn:E; [constructor|].
  assert (forall c, c ∈ ssh_certs d -> h_ca c <> i) as Hc.
  { intros c Hc <-. apply not_true_iff_false in E. apply E, existsb_exists. exists c. rewrite Z.eqb_refl. by rewrite <- list_elem_of_In. }
  unfold mbind, M_bind, modify, commit. cbn. destruct l as [|[] l]; cbn; [| |constructor]; by apply step_delete_ca.
Qed.
Lemma generate_step D ev i g k d l : step D d (committed (generate_and_sign ev i g k (Session d d l)).2).
Proof.
  unfold generate_and_sign. destruct (negb _); [constructor|]. destruct (fresh_key ev _) as [[public private]|e]; [|constructor].
  match goal with |- context [sign_certificate ev i ?g'] => pose proof (sign_step D ev i g' d l) as H end.
  unfold mbind, M_bind. by destruct (sign_certificate _ _ _ _) as [[c|e] w].
Qed.
Lemma import_cert_step D ev data i d l : step D d (committed (import_certificate ev data i (Session d d l)).2).
Proof.
  unfold import_certificate. destruct (decode_certificate ev data) as [de|e]; [|constructor]. rewrite bind_gets.
  destruct (match i with Some _ => _ | None => _ end) as [a|]; [|constructor]. rewrite bind_gets. destruct (existsb _ _); [constructor|].
  match goal with |- context [store_cert ?mk _] => destruct (store_cert_effect mk d l) as [[H _]|[H _]]; rewrite H end; by constructor.
Qed.
Lemma revoke_step D ev i reason d l : step D d (committed (revoke_certificate ev i reason (Session d d l)).2).
Proof.
  unfold revoke_certificate. rewrite bind_gets. cbn [working]. destruct (find_ssh_cert d i) as [c|] eqn:E; [|constructor].
  destruct (h_revoked c) eqn:Er; [constructor|]. unfold mbind, M_bind, modify, commit. cbn.
  destruct l as [|[] l]; cbn; [| |constructor]; by eapply step_revoked.
Qed.
Lemma delete_step (D : Z -> Prop) ev i d l : D i -> step D d (committed (delete_certificate ev i (Session d d l)).2).
Proof.
  intros Hd. unfold delete_certificate. rewrite bind_gets. cbn [working]. destruct (find_ssh_cert d i) as [c|]; [|constructor].
  destruct (_ && _); [constructor|]. unfold mbind, M_bind, modify, commit. cbn.
  destruct l as [|[] l]; cbn; [| |constructor]; by apply step_deleted.
Qed.

Lemma perform_step o l d : step (deletes o) d (perform o l d).
Proof.
  destruct o; cbn; rewrite run_committed;
    eauto using create_step, import_ca_step, update_step, delete_ca_step, sign_step, generate_step, import_cert_step, revoke_step.
  by apply delete_step.
Qed.

(** ** Serials *)

Definition issued_here (c : SSHCertificate) : Prop := h_source c <> "imported".
Record consistent (d : db) : Prop := {
  co_ca_id : NoDup (s_id <$> ssh_cas d);
  co_cert_id : NoDup (h_id <$> ssh_certs d);
  co_counted : forall c, c ∈ ssh_certs d -> issued_here c ->
    exists a, a ∈ ssh_cas d /\ s_id a = h_ca c /\ 1 <= h_serial c <= s_serial_counter a;
  co_serials : forall c c', c ∈ ssh_certs d -> c' ∈ ssh_certs d -> issued_here c -> issued_here c' ->
    h_ca c = h_ca c' -> h_serial c = h_serial c' -> c = c';
  co_counter : forall a, a ∈ ssh_cas d -> 0 <= s_serial_counter a;
}.

Lemma next_id_new l i : i ∈ l -> i < next_id l.
Proof. intros Hi. unfold next_id. destruct (fold_max_bound l 0) as [_ H]. specialize (H i Hi). lia. Qed.
Lemma NoDup_next {A} (k : A -> Z) l x : NoDup (k <$> l) -> k x = next_id (k <$> l) -> NoDup (k <$> (l ++ [x])%list).
Proof.
  intros H E. rewrite fmap_app. apply NoDup_app. split_and!; [done| |apply NoDup_singleton].
  intros i Hi%next_id_new Hi'%list_elem_of_singleton. lia.
Qed.
Lemma NoDup_filter_fmap {A K} (k : A -> K) p l : NoDup (k <$> l) -> NoDup (k <$> List.filter p l).
Proof.
  induction l as [|x l IH]; cbn; [done|]. intros [Hx Hl]%NoDup_cons. destruct (p x); [|by apply IH].
  rewrite fmap_cons. apply NoDup_cons. split; [|by apply IH]. intros (y & E & Hy)%list_elem_of_fmap. destruct Hx. rewrite E.
  apply list_elem_of_fmap_2. apply list_elem_of_In, List.filter_In in Hy as [Hy _]. by apply list_elem_of_In.
Qed.

Lemma counted_kept i f l c b : (forall a : SSHCertificateAuthority,
    s_id (f a) = s_id a /\ s_public_key (f a) = s_public_key a /\ s_serial_counter a <= s_serial_counter (f a)) ->
  b ∈ l -> s_id b = h_ca c -> 1 <= h_serial c <= s_serial_counter b ->
  exists a, a ∈ update_first (fun a => s_id a =? i) f l /\ s_id a = h_ca c /\ 1 <= h_serial c <= s_serial_counter a.
Proof.
  intros Hf Hb E Hs. induction l as [|x l IH]; [by apply elem_of_nil in Hb|]. cbn. apply elem_of_cons in Hb as [->|Hb].
  - destruct (s_id x =? i); [|exists x; split; [left|done]]. exists (f x). destruct (Hf x) as (E1 & _ & E2).
    split; [left|]. split; [congruence|lia].
  - destruct (s_id x =? i); [exists b; split; [by right|done]|]. destruct (IH Hb) as (a & Ha & ?). exists a. split; [by right|done].
Qed.

(* the new serial is above those that were given *)
Lemma signed_consistent ev a c d : consistent d -> find_ssh_ca d (h_ca c) = Some a -> within_policy ev a c ->
  h_id c = next_cert_id d -> consistent (with_ssh_certs (fun l => l ++ [c])%list (set_ca (h_ca c) counted d)).
Proof.
  intros [H1 H2 H3 H4 H5] Ha Hp Hi. destruct (po_serial _ _ _ Hp) as [Eid Es].
  pose proof Ha as [Hin _]%List.find_some. apply list_elem_of_In in Hin.
  assert (forall x, x ∈ ssh_certs d -> issued_here x -> h_ca x = h_ca c -> h_serial x < h_serial c) as Hlt.
  { intros x Hx Hh E. destruct (H3 x Hx Hh) as (b & Hb & Eb & Hs).
    assert (b = a) as -> by (apply (NoDup_fmap_inj s_id (ssh_cas d)); congruence). lia. }
  split; cbn.
  - by rewrite fmap_update_first.
  - by apply NoDup_next.
  - intros x [Hx| ->%list_elem_of_singleton]%elem_of_app Hh.
    + destruct (H3 x Hx Hh) as (b & Hb & E & Hs). eapply counted_kept; [|done..]. intros y. cbn. split_and!; try done. lia.
    + exists (counted a). split; [by apply update_first_hit|]. cbn. specialize (H5 a Hin). split; [done|lia].
  - intros x y [Hx| ->%list_elem_of_singleton]%elem_of_app [Hy| ->%list_elem_of_singleton]%elem_of_app Hhx Hhy E1 E2; [by apply H4| | |done].
    + specialize (Hlt x Hx Hhx E1). lia.
    + specialize (Hlt y Hy Hhy (eq_sym E1)). lia.
  - intros b [Hb|(y & Hy & ->)]%elem_update_first; [by apply H5|]. apply List.find_some in Hy as [Hy%list_elem_of_In _].
    specialize (H5 y Hy). cbn. lia.
Qed.

Lemma revoked_consistent i t reason d : consistent d ->
  consistent (with_ssh_certs (update_first (fun c => h_id c =? i) (set_revoked t reason)) d).
Proof.
  intros [H1 H2 H3 H4 H5]. assert (forall x, x ∈ update_first (fun c => h_id c =? i) (set_revoked t reason) (ssh_certs d) ->
    exists y, y ∈ ssh_certs d /\ h_id x = h_id y /\ h_ca x = h_ca y /\ h_serial x = h_serial y /\ h_source x = h_source y) as Hold.
  { intros x [Hx|(y & Hy & ->)]%elem_update_first; [by exists x|]. apply List.find_some in Hy as [Hy%list_elem_of_In _]. by exists y. }
  split; cbn; [done|by rewrite fmap_update_first| | |done].
  - intros x Hx Hh. destruct (Hold x Hx) as (y & Hy & E1 & E2 & E3 & E4). rewrite E2, E3. apply H3; [done|]. unfold issued_here. by rewrite <- E4.
  - intros x y Hx Hy Hhx Hhy Ec Es. destruct (Hold x Hx) as (x' & Hx' & E1 & E2 & E3 & E4), (Hold y Hy) as (y' & Hy' & F1 & F2 & F3 & F4).
    assert (x' = y') as <- by (apply H4; unfold issued_here; congruence).
    apply (NoDup_fmap_inj h_id (update_first (fun c => h_id c =? i) (set_revoked t reason) (ssh_certs d)));
      [by rewrite fmap_update_first|done|done|congruence].
Qed.

Lemma step_consistent D d d' : step D d d' -> consistent d -> consistent d'.
Proof.
  intros Hs [H1 H2 H3 H4 H5]. destruct Hs as [|a Hi Hc|i f Hf|i Hn|ev a c Ha Hp Hi|c Hc Hi|i t reason c Hc Hr|i Hd].
  - done.
  - split; cbn; [by apply NoDup_next|done| |done|].
    + intros c Hin Hh. destruct (H3 c Hin Hh) as (b & Hb & ?). exists b. split; [apply elem_of_app; by left|done].
    + intros b [Hb| ->%list_elem_of_singleton]%elem_of_app; [by apply H5|lia].
  - split; cbn; [rewrite fmap_update_first; [done|by intros x; apply Hf]|done| |done|].
    + intros c Hin Hh. destruct (H3 c Hin Hh) as (b & Hb & E & Hs). by eapply counted_kept.
    + intros b [Hb|(y & Hy & ->)]%elem_update_first; [by apply H5|]. apply List.find_some in Hy as [Hy%list_elem_of_In _].
      specialize (H5 y Hy). destruct (Hf y) as (_ & _ & ?). lia.
  - split; cbn; [by apply NoDup_filter_fmap|done| |done|].
    + intros c Hin Hh. destruct (H3 c Hin Hh) as (b & Hb & E & Hs). exists b. split; [|done].
      apply elem_lfilter. split; [done|]. apply negb_true_iff, Z.eqb_neq. rewrite E. by apply Hn.
    + intros b [Hb _]%elem_lfilter. by apply H5.
  - by eapply signed_consistent.
  - split; cbn; [done|by apply NoDup_next| | |done].
    + intros x [Hx| ->%list_elem_of_singleton]%elem_of_app Hh; [by apply H3|done].
    + intros x y [Hx| ->%list_elem_of_singleton]%elem_of_app [Hy| ->%list_elem_of_singleton]%elem_of_app; try done. by apply H4.
  - by eapply revoked_consistent.
  - split; cbn; [done|by apply NoDup_filter_fmap| | |done].
    + intros x [Hx _]%elem_lfilter. by apply H3.
    + intros x y [Hx _]%elem_lfilter [Hy _]%elem_lfilter. by apply H4.
Qed.

Lemma history_consistent ops d : consistent d -> consistent (perform_all ops d).
Proof.
  revert d. induction ops as [|[o l] ops IH]; intros d H; [done|]. cbn. by apply IH, (step_consistent _ _ _ (perform_step o l d)).
Qed.

(** C19. SSH serials: over any creations, imports, changes and deletions of CAs, signings,
    imports, revocations and deletions of certificates, whichever commits fail, two
    certificates a CA signed here never share a serial, and every serial it gave is at most
    its counter; a serial spent on a signing that failed is not given again. *)
Theorem ssh_serials_unique (ops : list (op * list bool)) (d : db) (Hd : consistent d) :
  consistent (perform_all ops d)
  /\ forall ev ca_id g outcomes c, (run (sign_certificate ev ca_id g) outcomes (perform_all ops d)).1 = Ok c ->
       forall c', c' ∈ ssh_certs (perform_all ops d) -> issued_here c' -> h_ca c' = ca_id -> h_serial c' < h_serial c.
Proof.
  pose proof (history_consistent ops d Hd) as H. split; [done|]. intros ev ca_id g outcomes c Hr c' Hc' Hh Hca.
  set (d' := perform_all ops d) in *. pose proof (sign_raises_or_policy ev ca_id g outcomes d' c Hr) as (a & Ha & Hp).
  destruct (co_counted _ H c' Hc' Hh) as (b & Hb & Eb & Hs). destruct (po_serial _ _ _ Hp) as [_ Es].
  apply List.find_some in Ha as [Ha%list_elem_of_In Ea%Z.eqb_eq].
  assert (b = a) as -> by (apply (NoDup_fmap_inj s_id (ssh_cas d')); [apply H|done|done|congruence]). lia.
Qed.

(** ** The revocation list *)

Lemma step_keeps_revoked (D : Z -> Prop) d d' c a : consistent d -> step D d d' -> ~ D (h_id c) ->
  c ∈ ssh_certs d -> h_revoked c = true -> a ∈ ssh_cas d -> s_id a = h_ca c ->
  c ∈ ssh_certs d' /\ exists a', a' ∈ ssh_cas d' /\ s_id a' = h_ca c /\ s_public_key a' = s_public_key a.
Proof.
  intros Hco Hs Hn Hc Hr Ha Ea.
  assert (forall i f, (forall x : SSHCertificateAuthority, s_id (f x) = s_id x /\ s_public_key (f x) = s_public_key x) ->
    exists a', a' ∈ update_first (fun x => s_id x =? i) f (ssh_cas d) /\ s_id a' = h_ca c /\ s_public_key a' = s_public_key a) as Hupd.
  { intros i f Hf. destruct (Z.eq_dec (s_id a) i) as [<-|E].
    - exists (f a). destruct (Hf a). split; [|split; congruence]. apply update_first_hit.
      destruct (find_of_elem (fun x => s_id x =? s_id a) (ssh_cas d) a Ha (Z.eqb_refl _)) as [y Hy]. rewrite Hy. f_equal.
      apply List.find_some in Hy as [Hy%list_elem_of_In Ey%Z.eqb_eq].
      apply (NoDup_fmap_inj s_id (ssh_cas d)); [apply Hco|done..].
    - exists a. split; [|done]. apply update_first_other; [done|by apply Z.eqb_neq]. }
  destruct Hs as [|b Hi Hb|i f Hf|i Hd|ev b x Hb Hp Hi|x Hx Hi|i t reason x Hx Hrx|i Hd]; cbn.
  - eauto.
  - split; [done|]. exists a. split; [apply elem_of_app; by left|done].
  - split; [done|]. apply Hupd. intros y. destruct (Hf y) as (? & ? & _). done.
  - split; [done|]. exists a. split; [|done]. apply elem_lfilter. split; [done|].
    apply negb_true_iff, Z.eqb_neq. rewrite Ea. by apply Hd.
  - split; [apply elem_of_app; by left|]. by apply Hupd.
  - split; [apply elem_of_app; by left|eauto].
  - split; [|eauto]. apply update_first_other; [done|]. apply Z.eqb_neq. intros E.
    apply List.find_some in Hx as [Hx%list_elem_of_In Ex%Z.eqb_eq].
    assert (x = c) as -> by (apply (NoDup_fmap_inj h_id (ssh_certs d)); [apply Hco|done|done|congruence]). congruence.
  - split; [|eauto]. apply elem_lfilter. split; [done|]. apply negb_true_iff, Z.eqb_neq. intros E. apply Hn. by rewrite E.
Qed.

Lemma revoked_row_listed (ops : list (op * list bool)) (d : db) (c : SSHCertificate) (a : SSHCertificateAuthority) :
  consistent d -> c ∈ ssh_certs d -> h_revoked c = true -> a ∈ ssh_cas d -> s_id a = h_ca c ->
  Forall (fun o => ~ deletes o.1 (h_id c)) ops ->
  exists rows, generate_krl (perform_all ops d) (h_ca c) = Ok (s_public_key a, krl_lines rows) /\ c ∈ rows
    /\ forall x, x ∈ rows <-> x ∈ ssh_certs (perform_all ops d) /\ h_ca x = h_ca c /\ h_revoked x = true.
Proof.
  intros Hd Hc Hr Ha Ea Hn. revert d a Hd Hc Ha Ea.
  induction Hn as [|[o l] ops Hn _ IH]; intros d a Hd Hc Ha Ea; cbn.
  - exists (revoked_rows d (h_ca c)). unfold generate_krl.
    destruct (find_of_elem (fun x => s_id x =? h_ca c) (ssh_cas d) a Ha) as [b Hb]; [by apply Z.eqb_eq|].
    unfold find_ssh_ca. rewrite Hb. apply List.find_some in Hb as [Hb%list_elem_of_In Eb%Z.eqb_eq].
    assert (b = a) as -> by (apply (NoDup_fmap_inj s_id (ssh_cas d)); [apply Hd|done|done|congruence]).
    assert (forall x, x ∈ revoked_rows d (h_ca c) <-> x ∈ ssh_certs d /\ h_ca x = h_ca c /\ h_revoked x = true) as Hx.
    { intros x. unfold revoked_rows. rewrite elem_lfilter, andb_true_iff, Z.eqb_eq. tauto. }
    split; [done|]. split; [by apply Hx|done].
  - pose proof (perform_step o l d) as Hs.
    destruct (step_keeps_revoked _ _ _ c a Hd Hs Hn Hc Hr Ha Ea) as (Hc' & a' & Ha' & Ea' & Ep).
    rewrite <- Ep. apply IH; [by eapply step_consistent|done|done|done].
Qed.

Lemma string_append_assoc (a b c : string) : ((a ++ b) ++ c = a ++ b ++ c)%string.
Proof. induction a as [|x a IH]; [done|]. change (String x ((a ++ b) ++ c) = String x (a ++ b ++ c))%string. by f_equal. Qed.
(* a row given to ssh-keygen is a line of the file it reads *)
Lemma krl_line rows c : c ∈ rows ->
  exists before after, krl_lines rows = (before ++ ("serial: " ++ py_str (h_serial c) ++ newline) ++ after)%string.
Proof.
  induction rows as [|x rows IH]; [by intros []%elem_of_nil|]. intros [->|(b & f & E)%IH]%elem_of_cons.
  - exists "", (krl_lines rows). cbn [krl_lines fold_right]. by rewrite !string_append_assoc.
  - exists ("serial: " ++ py_str (h_serial x) ++ newline ++ b)%string, f. cbn [krl_lines fold_right].
    change (fold_right _ "" rows) with (krl_lines rows). rewrite E. by rewrite !string_append_assoc.
Qed.

Lemma revoke_effect ev i reason outcomes d c : find_ssh_cert d i = Some c ->
  (run (revoke_certificate ev i reason) outcomes d).1 = Ok tt ->
  set_revoked (now ev) reason c ∈ ssh_certs (run (revoke_certificate ev i reason) outcomes d).2
  /\ ssh_cas (run (revoke_certificate ev i reason) outcomes d).2 = ssh_cas d.
Proof.
  intros Hc. unfold run, revoke_certificate. rewrite bind_gets. cbn [working]. rewrite Hc.
  destruct (h_revoked c); [done|]. unfold mbind, M_bind, modify, commit. cbn.
  destruct outcomes as [|[] l]; cbn; intros E; try done; (split; [|done]; by apply update_first_hit).
Qed.

(** C20. A revoked SSH certificate is on every later revocation list: once a revocation of
    it has succeeded, and until its row is deleted, whatever is done and whichever commits
    fail, its CA stays with the same key, the list of that CA is made of exactly its revoked
    rows, the row revoked is one of them, and the text given to ssh-keygen has the line of
    its serial. *)
Theorem ssh_revocation_listed (ev : env) (i : Z) (reason : string) (outcomes : list bool) (ops : list (op * list bool))
  (d : db) (c : SSHCertificate) (a : SSHCertificateAuthority)
  (Hd : consistent d) (Hc : find_ssh_cert d i = Some c) (Ha : find_ssh_ca d (h_ca c) = Some a)
  (Hr : (run (revoke_certificate ev i reason) outcomes d).1 = Ok tt) (Hn : Forall (fun o => ~ deletes o.1 i) ops) :
  let d' := perform_all ops (run (revoke_certificate ev i reason) outcomes d).2 in
  exists rows before after,
    generate_krl d' (h_ca c) = Ok (s_public_key a, krl_lines rows)
    /\ krl_lines rows = (before ++ ("serial: " ++ py_str (h_serial c) ++ newline) ++ after)%string
    /\ (exists c', c' ∈ rows /\ h_id c' = i /\ h_serial c' = h_serial c /\ h_certificate c' = h_certificate c)
    /\ forall x, x ∈ rows <-> x ∈ ssh_certs d' /\ h_ca x = h_ca c /\ h_revoked x = true.
Proof.
  destruct (revoke_effect ev i reason outcomes d c Hc Hr) as [Hin Ecas].
  assert (h_id c = i) as <- by (by apply List.find_some in Hc as [_ Ei%Z.eqb_eq]).
  apply List.find_some in Ha as [Ha%list_elem_of_In Ea%Z.eqb_eq].
  destruct (revoked_row_listed ops (run (revoke_certificate ev (h_id c) reason) outcomes d).2 (set_revoked (now ev) reason c) a) as (rows & Hg & Hrow & Hx); try done.
  - by apply (step_consistent _ _ _ (perform_step (Revoke ev (h_id c) reason) outcomes d)).
  - by rewrite Ecas.
  - destruct (krl_line rows _ Hrow) as (b & f & E). exists rows, b, f. split_and!; try done.
    by exists (set_revoked (now ev) reason c).
Qed.
End Safety.
