(* ===== verification/SshExamples.v ===== *)
(** * SshExamples: SSH certificates on concrete tables

    A user CA with one pattern, certificates signed and imported under it, and what the
    revocation list says of them. *)

From Stdlib Require Import Ascii String.
From stdpp Require Import prelude strings.
From S2P Require Import Prelude Json Scalars Session Fnmatch SshCerts SshSafety.

Local Open Scope string_scope.
Local Open Scope Z_scope.

Module Keys.
Definition elsewhere (valid : bool) : decoded :=
  {| de_fields := {| t_public_key := "k9"; t_serial := 1; t_type := "user"; t_key_id := "old"; t_principals := ["web-9"];
                     t_valid_after := 0; t_valid_before := 9000; t_extensions := []; t_critical_options := [] |};
     de_ca_key := "ca-key"; de_signature_valid := valid |}.
#[export] Instance library : SshLibrary := {|
  load_identity := fun s => if (s =? "elsewhere")%string then Some (Certificate (elsewhere true))
                            else if (s =? "forged")%string then Some (Certificate (elsewhere false))
                            else if (s =? "ssh-rsa k1")%string then Some (PublicKey "k1") else None;
  load_private := fun _ => Some "ca-key"; detect_key_type := fun _ => "rsa"; compute_fingerprint := fun k => "SHA256:" ++ k;
  serialize_key := fun k => "ssh-rsa " ++ k; builder_sign := fun k t => Some (k ++ "/" ++ py_str (t_serial t));
  eddsa_key := fun _ => false;
|}.

Definition ev : env := {| now := 100; fips := false; fresh_key := fun _ => Raise Broken |}.
Definition ca : SSHCertificateAuthority :=
  {| s_id := 1; s_descr := "hosts"; s_type := "user"; s_public_key := "ssh-rsa ca-key"; s_private_key := "private";
     s_key_type := "rsa"; s_fingerprint := "SHA256:ca-key"; s_serial_counter := 0; s_default_ttl := Some 86400;
     s_max_ttl := Some 3600; s_default_extensions := Some (strs ["permit-pty"]); s_allowed_principals := ["web-[0-9]"];
     s_allow_any_principal := false; s_allow_custom_key_id := false |}.
Definition d0 : db := {| ssh_cas := [ca]; ssh_certs := [] |}.
Definition ask (principal : string) (extensions : option ext_request) : sign_args :=
  {| i_public_key := "k1"; i_type := "user"; i_principals := [principal; " "]; i_validity := Some 7200; i_key_id := None;
     i_extensions := extensions; i_critical_options := None |}.

Definition signed (serial id : Z) : SSHCertificate :=
  {| h_id := id; h_ca := 1; h_type := "user"; h_key_id := "web-1@hosts"; h_public_key := "ssh-rsa k1";
     h_certificate := "private/" ++ py_str serial; h_principals := ["web-1"]; h_serial := serial; h_valid_from := 100;
     h_valid_to := 3700; h_extensions := [("permit-pty", Some "")]; h_critical_options := []; h_revoked := false;
     h_revoked_at := None; h_revoke_reason := None; h_source := "web" |}.

(* the principal, the extensions and the validity are those of the CA *)
Definition d_signed : db := (run (sign_certificate ev 1 (ask "web-1" None)) [] d0).2.
Example signing :
  (run (sign_certificate ev 1 (ask "web-1" None)) [] d0).1 = Ok (signed 1 1)
  /\ (run (sign_certificate ev 1 (ask "web-10" None)) [] d0) = (Raise Refused, d0)
  /\ (run (sign_certificate ev 1 (ask "web-1" (Some (ExtList ["permit-port-forwarding"])))) [] d0).1 = Raise Refused
  /\ (run (sign_certificate ev 1 (ask "web-1" None)) [true; false] d0).1 = Raise NotPersisted
  /\ (s_serial_counter <$> ssh_cas (run (sign_certificate ev 1 (ask "web-1" None)) [true; false] d0).2) = [1].
Proof. repeat split; by vm_compute. Qed.

Lemma ssh_signed_within_policy_witness :
  exists a, find_ssh_ca d0 1 = Some a /\ within_policy ev a (signed 1 1) /\ Ok (E := exc) (signed 1 1) = Ok (signed 1 1)
    /\ d_signed = with_ssh_certs (fun l => l ++ [signed 1 1])%list (set_ca 1 counted d0).
Proof.
  apply (ssh_signed_within_policy ev 1 (ask "web-1" None) [] d0 d_signed (Ok (signed 1 1)) (signed 1 1)).
  - by vm_compute.
  - apply list_elem_of_In. vm_compute. by left.
  - apply not_elem_of_nil.
Defined.

Lemma d0_consistent : consistent d0.
Proof.
  split.
  - apply NoDup_singleton.
  - apply NoDup_nil_2.
  - intros c []%elem_of_nil.
  - intros c c' []%elem_of_nil.
  - by intros a ->%list_elem_of_singleton.
Qed.

Definition history : list (op * list bool) :=
  [(Sign ev 1 (ask "web-1" None), []); (ImportCert ev "elsewhere" None, []); (Sign ev 1 (ask "web-1" None), [true; false]);
   (Sign ev 1 (ask "web-2" None), []); (DeleteCa 1, [])].
Lemma ssh_serials_unique_witness :
  consistent (perform_all history d0)
  /\ forall ev ca_id g outcomes c, (run (sign_certificate ev ca_id g) outcomes (perform_all history d0)).1 = Ok c ->
       forall c', c' ∈ ssh_certs (perform_all history d0) -> issued_here c' -> h_ca c' = ca_id -> h_serial c' < h_serial c.
Proof. apply (ssh_serials_unique history d0). apply d0_consistent. Defined.

(** ** Revocation *)

Definition d_revoked : db := (run (revoke_certificate ev 1 "keyCompromise") [] d_signed).2.
Definition krl (d : db) : option string := match generate_krl d 1 with Ok p => Some p.2 | Raise _ => None end.
Definition revoked_row : SSHCertificate := set_revoked 100 "keyCompromise" (signed 1 1).

Lemma ssh_revocation_listed_witness :
  let d' := perform_all history d_revoked in
  exists rows before after,
    generate_krl d' 1 = Ok ("ssh-rsa ca-key", krl_lines rows)
    /\ krl_lines rows = (before ++ ("serial: 1" ++ newline) ++ after)%string
    /\ (exists c', c' ∈ rows /\ h_id c' = 1 /\ h_serial c' = 1 /\ h_certificate c' = "private/1")
    /\ forall x, x ∈ rows <-> x ∈ ssh_certs d' /\ h_ca x = 1 /\ h_revoked x = true.
Proof.
  apply (ssh_revocation_listed ev 1 "keyCompromise" [] history d_signed (signed 1 1) (counted ca)).
  - change d_signed with (perform_all [(Sign ev 1 (ask "web-1" None), [])] d0). apply history_consistent, d0_consistent.
  - by vm_compute.
  - by vm_compute.
  - by vm_compute.
  - repeat constructor; by intros [].
Defined.

(* the serial of a certificate signed elsewhere is given again: revoking one lists both *)
Lemma imported_serial_given_again :
  let d1 := (run (import_certificate ev "elsewhere" None) [] d0).2 in
  let d2 := (run (sign_certificate ev 1 (ask "web-1" None)) [] d1).2 in
  let d3 := (run (revoke_certificate ev 1 "superseded") [] d2).2 in
  (fun c => (h_id c, h_serial c, h_revoked c)) <$> ssh_certs d3 = [(1, 1, true); (2, 1, false)]
  /\ krl d3 = Some ("serial: 1" ++ newline).
Proof. by vm_compute. Qed.

(* a certificate that is revoked and not expired may be deleted: the next list forgets it *)
Lemma deleted_revocation_forgotten :
  krl d_revoked = Some ("serial: 1" ++ newline)
  /\ (run (delete_certificate ev 1) [] d_revoked).1 = Ok tt
  /\ krl (run (delete_certificate ev 1) [] d_revoked).2 = Some "" /\ now ev < h_valid_to revoked_row.
Proof. by vm_compute. Qed.

(* a certificate whose signature does not verify is imported as its CA's *)
Lemma forged_certificate_imported :
  decode_certificate ev "forged" = Ok (elsewhere false)
  /\ ((fun c => (h_ca c, h_serial c)) <$> ssh_certs (run (import_certificate ev "forged" None) [] d0).2) = [(1, 1)].
Proof. by vm_compute. Qed.
End Keys.
